(* ===== verification/_CoqProject ===== *)
-Q . S2P
Prelude.v
CInt.v
Mem.v
Vga.v
CString.v
Printk.v
Hw.v
Acpi.v
Gdt.v
Bitmap.v
DList.v
Pmm.v
PmmRuns.v
Mmu.v
MmuInit.v
VmmSlab.v
Vmm.v
VmmMap.v
VmmProps.v
VmmFree.v
VmmBetween.v
VmmInit.v
VmmCopy.v
VmmProcess.v
VmmBlocks.v
Debug.v
Kheap.v
KheapProps.v
KheapRuns.v
Vfs.v
Signal.v
Sched.v
Process.v
Interrupts.v
Kmain.v
