(* ===== verification/Prelude.v ===== *)
(** * b0s: a verification library for the b0s kernel

    b0s is a small x86-64 kernel in C (src/kernel).  This library translates its
    C code into Rocq functions, operation by operation, and proves what the
    operations promise each other and their callers.

    ** The program and its parts

    The boot loader enters [kmain] (kernel/kmain.c) through boot.asm.  [kmain]
    reads the tags of the boot loader, sets up the memory ([pmm_init] for the
    physical pages, [vmm_init] for the kernel's address space, [kheap_init] for
    the heap), the firmware tables, the interrupts, and starts the first process.
    The parts call each other downwards:

    - kmain -> process, sched, signal -> kheap, vmm, list, bitmap, gdt;
    - kheap -> vmm -> the blocks of vmm.c -> mmu -> pmm -> bitmap;
    - interrupts -> apic, pic, hpet -> acpi, and sched on the timer's interrupt;
    - every part -> printk -> vga, and panic.

    They share one byte memory, in which almost all of their data is reached by
    pointers, and the processor.

    ** The files

    Foundations:
    - [Prelude] (this file): outcomes, the state monad with faults, loops with
      fuel, weakest preconditions [wp] with their rules and tactics ([wp_step],
      [wp_steps], [keeps_auto], [zlia], [bool_facts], [case_if]), the hint
      database [b0s], and generic lemmas on lists and integers;
    - [CInt]: types.h, math.h, paging.h, layout.h; [u8] ... [i64] wrap around as
      the C types do; the class [CSem] stands for what C leaves open, oversized
      shifts and indeterminate values, with a strict instance (a fault) and one
      for unoptimised gcc on x86;
    - [Mem]: the byte memory [gmap Z Z], little-endian loads and stores, mapped
      ranges, and the class [MemState] of the states that contain it;
    - [CString]: lib/string ([memset], [memcpy], [memcmp], [strlen], ...);
    - [Bitmap]: lib/bitmap; [DList]: lib/list; [Vga]: drivers/vga;
      [Printk]: lib/printk; [Hw]: arch/x86_64/asm.h and cpu.h;
      [Acpi]: drivers/acpi; [Gdt]: arch/x86_64/mm/gdt.

    Memory:
    - [Pmm], [PmmRuns]: mm/pmm, its operations, and every state they lead to;
    - [Mmu], [MmuInit]: arch/x86_64/mm/mmu and paging.h, the four-level tables;
    - [VmmSlab], [VmmBlocks]: the object allocator in the first part of mm/vmm.c;
    - [Vmm], [VmmMap], [VmmProps], [VmmFree], [VmmBetween], [VmmInit]: the rest of
      mm/vmm.c, its region lists, their interplay with the page tables, and the
      contracts of its operations;
    - [VmmCopy], [VmmProcess]: two spaces at once: the copy of the kernel's regions
      to a new space, what an allocation in one space leaves alone in the other,
      and the space that [process_create] sets up;
    - [Kheap], [KheapProps], [KheapRuns]: mm/kheap.c, its contracts, and every
      run of a client against an abstract allocator;
    - [Vfs]: the list of mounts of fs/vfs.c, on the heap, the strings and the lists.

    Processes and boot:
    - [Signal], [Sched], [Process]: kernel/multitasking and
      arch/x86_64/multitasking;
    - [Interrupts]: arch/x86_64/interrupts, timers/hpet.c, syscall.c;
    - [Debug]: lib/debug/panic.c and the functions that dump the memory map and
      the regions of a space;
    - [Kmain]: kernel/kmain.c.

    ** How the code is modelled

    A C function is a Coq function of the same name in the monad [M S A], that is
    [S -> outcome (A * S)]: it returns with a new state, or faults.  A fault is
    [Panicked], a call of [panic]; [Undefined], undefined behaviour such as an
    access outside the mapped memory; or [OutOfFuel].  Theorems that an operation
    succeeds are of the form [f args s = Done (r, s')], so they exclude all three.

    Structures that the code reaches by pointers stay where they are: a field is
    an offset ([b_next b], [g_va_stop region], [p_kstack proc]), as the System V
    ABI for x86-64 lays the structure out, and is read and written with [rd8] ...
    [rd64] and [wr8] ... [wr64].  So aliasing, overlap and stale pointers are
    those of the program.  Structures that only static variables hold are records
    ([pmm_region], [gdt_entry], [idt_entry], [cursor]), in the state of their part.

    A state is abstract: each part asks for a class that says which state it
    needs, [MemState], [VgaState], [Hardware], [PmmState], [VmmState],
    [HeapState], [AcpiState], [GdtState], [SchedState], [IntState], [BootState],
    with laws that accesses to different components do not disturb each other.
    Two more classes are interfaces with contracts: [ObjectAllocator], what the
    region lists want of the allocator of their structures, which
    [region_allocator] (VmmSlab) provides with the code of vmm.c; and [KernelVmm],
    what the heap wants of the memory manager, of which [bump_vmm] (KheapProps)
    is a small instance.  The clients are proved against the interfaces.  The laws
    of [KernelVmm] are those of a machine with memory left: [vmm_alloc_between] of
    vmm.c panics (in [pmm_xalloc]) when a page table cannot be allocated, and its
    [vmm_free] when a physical page is refused, and then no call of the heap returns;
    so the theorems of the heap are about the calls before that.

    A string literal is a parameter, the address it has ([lit]); so are the labels
    of the assembly files and of kernel.ld, and the instruction [invlpg] of the
    page tables, which leaves the memory alone ([invlpg_spec]).
    The processor and its devices are the class [Hardware]: an instruction
    that only has an effect on them appends an event to a log, one that yields a
    value asks the instance for it.  The change of stack in switch.asm is an event
    too; the code after it is what runs when the process is switched to again.

    The model is of the release build, in which [ASSERT] and [TRACE] expand to
    nothing; code under [#ifdef DEBUG] is there, behind the parameter [debug].

    ** Loops and fuel

    A [for] with a fixed bound is [for_up], [for_acc] or [for_ret], structurally
    recursive on the number of its rounds.  Another loop is [loop fuel body]; its
    fuel is written with it, and the theorems show that it is enough, since
    [OutOfFuel] is not [Done]:
    - walks over linked structures and strings get one round per mapped byte
      ([mem_fuel]); the structures do not overlap, so there are fewer of them;
    - loops over pages get one round per page of the range, and one to leave
      ([for_pages]); [pmm_init] one per page below [pmm_vma_stop];
    - [putnbr] gets 64 rounds, as many as a [u64] has binary digits, [vga_pad]
      one per column, [read_tags] one per byte of the size the boot loader gives;
    - loops that wait for a device ([hpet_sleep]) or never end ([schleeeeep]) take
      their fuel as an argument: [hpet_sleep_waits] gives a bound from the device's
      progress.  The loop of [panic] is run for any number of [rounds], and
      [panic_prints_and_halts] says what state each of them leads to.

    ** What is proved

    - Heap: [kmalloc] and [kfree] from any state of the heap, data in use and
      bytes outside the heap never touched; [heap_run_safe] for every run in which the
      blocks freed have a sound [prev] field, a condition on their headers
      ([prev_sound]).  A free that leaves the field of the next block stale
      ([stale_free], [kfree_prev_fields]) is part of the runs; freeing that next block
      is not: [kfree_stale_prev_corrupts_live_data] shows what it does.
    - Address spaces: [vmm_add_range] and [vmm_remove_range] refine adding and
      removing an interval of a partial map from addresses to flags
      ([range_added], [range_removed] over [covers]), errors included;
      [vmm_alloc_at], [vmm_map] and [vmm_free] change regions, entries and free
      pages together, under the invariant [vspace_ok]; [vmm_alloc_between] does
      too, and is first fit ([search_gap], [gap_at]); both panic where a range is
      merged with a mapped one or the lower bound is inside a region; at boot, the pages of a
      region of the kernel are mapped to consecutive physical pages.
    - Two spaces ([two_spaces]): [vmm_copy_regions] makes every address of the
      kernel's regions translate in the new space as it does in the kernel's;
      allocations in one space change no translation of the other; the space of a
      new process has the kernel and its own stack, on pages that were free.
    - Mounts: [vfs_mnt] and [vfs_umnt] are inverse, with the heap, the clients'
      bytes and the list as before.
    - Page tables: [mmu_map_page], [mmu_unmap_page] and [mmu_translate_4k] against
      the abstract view [leaf], under the invariant [mm_ok], which [mmu_init]
      establishes.
    - Objects of the memory manager: a set of objects that do not overlap, and the
      frees that take more out of it than they should.
    - Physical pages: [pmm_alloc] takes the lowest free page, [pmm_free] gives
      one back, [pmap_sort] sorts, [pmap_insert] rounds and rejects overlaps;
      runs without the frees named below hand out a page to at most one holder.
    - Bitmaps, lists, strings, output: functional contracts, round trips and
      termination; [printk] prints the abstract rendering of its format.
    - Processes: what [sched_switch] switches to, what [signal_deliver] and
      [signal_send] do, the frames a new process starts with.
    - Machine: the descriptors of the segments and of the interrupts decode to
      what they should; the firmware tables are checked before they are used, and their
      scan ends unless it meets an entry of length 0; a timer interrupt switches to
      the next ready process and is then acknowledged; [panic] halts; [kmain] starts only with what it needs.

    Where the code does not do what it means to, a contract has two parts: what
    holds under a stated condition, and what the code does instead without it.  The
    conditions are:
    - a page or object is freed when it is numbered at least 33 modulo 64 in its region
      or block: the mask in [bitmap_unset] is an [int], so number 32 frees the 32 before
      it too ([free_page_32], [slab_free_32]) and the shift of the others is undefined
      ([pmm_free], [mmu_unmap_page], [vmm_free], [block_free]); the first allocatable
      page cannot be freed at all;
    - a bitmap keeps a set bit, one of the spare bits perhaps: otherwise
      [bitmap_find_and_set] reads its uninitialised index, and so does [pmm_alloc];
    - the free of an object does not bring the count of its block to 0: the count is
      never initialised ([block_free], [vmm_free]);
    - a range is not merged with a mapped one behind it ([vmm_alloc_at]), a lower bound
      is not inside a region ([vmm_alloc_between]), an available entry of the memory map
      reaches above the kernel ([pmap_insert]), names of mounts are not empty and fit
      their fields ([vfs_mnt]), signals are below 31 ([signal_send]; [signal_deliver]
      takes those from 31 up together).

    ** Not modelled

    - The assembly files (boot, vectors, gdt and switch): labels and events.
    - fs/vfs.c but for [vfs_mnt] and [vfs_umnt]: the rest of the file is not C (it
      does not parse, adds pointers and uses names that are not declared), and the
      file is not built.
    - [process_create] is a definition, but there is no theorem on all of it: its
      two allocations of the heap and its calls of vmm.c are proved separately, the
      heap against the interface [KernelVmm].  The window that [vmm_init] maps
      directly is not proved either, since its region structures take pages from
      the allocator while the pages are mapped.
    - The parts of multiboot2.h that the kernel does not read; empty files
      (ahci.c, pci.c, darray.h); tests, the linker script and the build.
    - Concurrency: there is one processor and the code takes no locks; an
      operation runs without interruption here, and what other processes do
      between two switches is not modelled. *)
From stdpp Require Export base gmap list numbers strings.
From Stdlib Require Export ZArith Lia.
#[export] Set Default Goal Selector "!".
Open Scope Z_scope.

(** ** Outcomes of C code

    [Panicked] is a call of [panic] (kernel/lib/debug/panic.c), which never
    returns; [Undefined] is C undefined behaviour (an access outside the mapped
    memory, an oversized shift, the read of an indeterminate value);
    [OutOfFuel] is the exhaustion of the fuel given to a loop. *)
Inductive fault : Type :=
  | Panicked (why : string)
  | Undefined (why : string)
  | OutOfFuel.

Inductive outcome (A : Type) : Type :=
  | Done (a : A)
  | Faulted (f : fault).
Arguments Done {A} a.
Arguments Faulted {A} f.

#[export] Instance fault_eq_dec : EqDecision fault.
Proof. solve_decision. Defined.

(** A C computation: explicit state passing with faults. *)
Definition M (S A : Type) : Type := S → outcome (A * S).

#[export] Instance M_ret {S} : MRet (M S) := λ A a s, Done (a, s).

#[export] Instance M_bind {S} : MBind (M S) := λ A B k m s,
  match m s with
  | Done (a, s') => k a s'
  | Faulted f => Faulted f
  end.

Definition faultM {S A} (f : fault) : M S A := λ _, Faulted f.
Definition get_state {S} : M S S := λ s, Done (s, s).
Definition put_state {S} (s : S) : M S unit := λ _, Done (tt, s).
Definition gets {S A} (f : S → A) : M S A := λ s, Done (f s, s).
Definition modify {S} (f : S → S) : M S unit := λ s, Done (tt, f s).
Definition of_option {S A} (why : string) (o : option A) : M S A :=
  match o with
  | Some a => mret a
  | None => faultM (Undefined why)
  end.
Definition of_outcome {S A} (o : outcome A) : M S A :=
  match o with
  | Done a => mret a
  | Faulted f => faultM f
  end.

(** [panic(...)]: the kernel prints the message and halts for ever. *)
Definition panic {S A} (why : string) : M S A := faultM (Panicked why).

(** A [while] loop: [body] returns [inl] to go round again and [inr] to leave
    (the guard failed, or a [break]/[return]). *)
Fixpoint loop {S A B} (fuel : nat) (body : A → M S (A + B)) (a : A) : M S B :=
  match fuel with
  | O => faultM OutOfFuel
  | Datatypes.S fuel' =>
      r ← body a;
      match r with
      | inl a' => loop fuel' body a'
      | inr b => mret b
      end
  end.

(** The first [n] rounds of such a loop: [inl] when it would go on, with the state
    reached by then, and [inr] when it has been left. *)
Fixpoint rounds {S A B} (n : nat) (body : A → M S (A + B)) (a : A) : M S (A + B) :=
  match n with
  | O => mret (inl a)
  | Datatypes.S n' =>
      r ← body a;
      match r with
      | inl a' => rounds n' body a'
      | inr b => mret (inr b)
      end
  end.

Fixpoint for_count {S} (n : nat) (i : Z) (body : Z → M S unit) : M S unit :=
  match n with
  | O => mret tt
  | Datatypes.S n' => body i ;; for_count n' (i + 1) body
  end.

(** [for (i = lo; i < hi; i++) body], for a [body] that neither leaves the
    loop nor changes [hi]. *)
Definition for_up {S} (lo hi : Z) (body : Z → M S unit) : M S unit :=
  for_count (Z.to_nat (hi - lo)) lo body.

Fixpoint for_ret_count {S A} (n : nat) (i : Z) (body : Z → M S (option A))
  : M S (option A) :=
  match n with
  | O => mret None
  | Datatypes.S n' =>
      r ← body i;
      match r with
      | Some a => mret (Some a)
      | None => for_ret_count n' (i + 1) body
      end
  end.

(** The same loop with a [return]/[break] in it: [Some] leaves. *)
Definition for_ret {S A} (lo hi : Z) (body : Z → M S (option A)) : M S (option A) :=
  for_ret_count (Z.to_nat (hi - lo)) lo body.

Fixpoint for_acc_count {S A} (n : nat) (i : Z) (body : Z → A → M S A) (a : A) : M S A :=
  match n with
  | O => mret a
  | Datatypes.S n' => a' ← body i a; for_acc_count n' (i + 1) body a'
  end.

(** The same loop updating a local variable. *)
Definition for_acc {S A} (lo hi : Z) (body : Z → A → M S A) (a : A) : M S A :=
  for_acc_count (Z.to_nat (hi - lo)) lo body a.

(** ** Total correctness

    [wp m s Q]: run from [s], [m] returns normally (no panic, no undefined
    behaviour, no missing fuel) and its result and final state satisfy [Q]. *)
Definition wp {S A} (m : M S A) (s : S) (Q : A → S → Prop) : Prop :=
  match m s with
  | Done (a, s') => Q a s'
  | Faulted _ => False
  end.

Section wp.
Context {S : Type}.
Implicit Types s : S.

Lemma wp_Done {A} (m : M S A) s Q :
  wp m s Q ↔ ∃ a s', m s = Done (a, s') ∧ Q a s'.
Proof.
  unfold wp. destruct (m s) as [[a s']|f]; split.
  - intros HQ. by exists a, s'.
  - by intros (? & ? & [= -> ->] & ?).
  - done.
  - by intros (? & ? & ? & ?).
Qed.

Lemma wp_unit (m : M S unit) s (Q : S → Prop) :
  wp m s (λ _, Q) → ∃ s', m s = Done (tt, s') ∧ Q s'.
Proof. intros ([] & s' & Hrun & HQ)%wp_Done. by exists s'. Qed.

Lemma wp_ret {A} (a : A) s (Q : A → S → Prop) : Q a s → wp (mret a) s Q.
Proof. done. Qed.

Lemma wp_bind {A B} (m : M S A) (k : A → M S B) s Q :
  wp m s (λ a s', wp (k a) s' Q) → wp (m ≫= k) s Q.
Proof. unfold wp, mbind, M_bind. destruct (m s) as [[a s']|f]; done. Qed.

Lemma wp_mono {A} (m : M S A) s (P Q : A → S → Prop) :
  wp m s P → (∀ a s', P a s' → Q a s') → wp m s Q.
Proof. unfold wp. destruct (m s) as [[a s']|f]; auto. Qed.

Lemma wp_gets {A} (f : S → A) s (Q : A → S → Prop) : Q (f s) s → wp (gets f) s Q.
Proof. done. Qed.

Lemma wp_get_state s (Q : S → S → Prop) : Q s s → wp get_state s Q.
Proof. done. Qed.

Lemma wp_modify (f : S → S) s (Q : unit → S → Prop) : Q tt (f s) → wp (modify f) s Q.
Proof. done. Qed.

Lemma wp_of_option {A} why (o : option A) a s (Q : A → S → Prop) :
  o = Some a → Q a s → wp (of_option why o) s Q.
Proof. by intros ->. Qed.

Lemma wp_of_outcome {A} (o : outcome A) a s (Q : A → S → Prop) :
  o = Done a → Q a s → wp (of_outcome o) s Q.
Proof. by intros ->. Qed.

(** A [while] loop with an invariant and a measure that fits in the fuel. *)
Lemma wp_loop {A B} (I : A → S → Prop) (mu : A → S → nat) (Q : B → S → Prop)
    (body : A → M S (A + B)) fuel a s :
  I a s →
  (mu a s < fuel)%nat →
  (∀ a s, I a s →
     wp (body a) s (λ r s', match r with
                            | inl a' => I a' s' ∧ (mu a' s' < mu a s)%nat
                            | inr b => Q b s'
                            end)) →
  wp (loop fuel body a) s Q.
Proof.
  intros HI Hfuel Hbody. revert a s HI Hfuel.
  induction fuel as [|fuel IH]; intros a s HI Hfuel; [lia|]. simpl.
  apply wp_bind. eapply wp_mono; [by apply Hbody|].
  intros [a'|b] s'; simpl; [|done].
  intros [HI' Hlt]. apply IH; [done|lia].
Qed.

(** The same with a bound on the remaining rounds carried by the invariant. *)
Lemma wp_loop_rounds {A B} (I : nat → A → S → Prop) (Q : B → S → Prop)
    (body : A → M S (A + B)) fuel n a s :
  I n a s →
  (n < fuel)%nat →
  (∀ n a s, I n a s →
     wp (body a) s (λ r s', match r with
                            | inl a' => ∃ n', (n' < n)%nat ∧ I n' a' s'
                            | inr b => Q b s'
                            end)) →
  wp (loop fuel body a) s Q.
Proof.
  intros HI Hfuel Hbody. revert n a s HI Hfuel.
  induction fuel as [|fuel IH]; intros n a s HI Hfuel; [lia|]. simpl.
  apply wp_bind. eapply wp_mono; [by apply Hbody|].
  intros [a'|b] s'; simpl; [|done].
  intros (n' & Hlt & HI'). apply (IH n'); [done|lia].
Qed.

Lemma wp_for_up (I : Z → S → Prop) lo hi (body : Z → M S unit) s (Q : unit → S → Prop) :
  lo ≤ hi →
  I lo s →
  (∀ i s, lo ≤ i < hi → I i s → wp (body i) s (λ _ s', I (i + 1) s')) →
  (∀ s, I hi s → Q tt s) →
  wp (for_up lo hi body) s Q.
Proof.
  unfold for_up. intros Hle HI Hbody HQ.
  remember (Z.to_nat (hi - lo)) as n eqn:Hn.
  assert (∀ n i s, lo ≤ i → i + Z.of_nat n = hi → I i s →
            wp (for_count n i body) s Q) as Hgen.
  { clear n Hn HI s. intros n; induction n as [|n IH]; intros i s Hi Hhi HI; simpl.
    { apply wp_ret, HQ. by replace hi with i by lia. }
    apply wp_bind. eapply wp_mono; [apply Hbody; [lia|done]|].
    intros [] s' HI'. apply IH; [lia|lia|done]. }
  apply Hgen; [lia|lia|done].
Qed.

Lemma wp_for_acc {A} (I : Z → A → S → Prop) lo hi (body : Z → A → M S A) a s
    (Q : A → S → Prop) :
  lo ≤ hi →
  I lo a s →
  (∀ i a s, lo ≤ i < hi → I i a s → wp (body i a) s (λ a' s', I (i + 1) a' s')) →
  (∀ a s, I hi a s → Q a s) →
  wp (for_acc lo hi body a) s Q.
Proof.
  unfold for_acc. intros Hle HI Hbody HQ.
  assert (∀ n i a s, lo ≤ i → i + Z.of_nat n = hi → I i a s →
            wp (for_acc_count n i body a) s Q) as Hgen.
  { clear HI a s. intros n; induction n as [|n IH]; intros i a s Hi Hhi HI; simpl.
    { apply wp_ret, HQ. by replace hi with i by lia. }
    apply wp_bind. eapply wp_mono; [apply Hbody; [lia|done]|].
    intros a' s' HI'. apply IH; [lia|lia|done]. }
  apply Hgen; [lia|lia|done].
Qed.

Lemma wp_for_ret {A} (I : Z → S → Prop) lo hi (body : Z → M S (option A)) s
    (Q : option A → S → Prop) :
  lo ≤ hi →
  I lo s →
  (∀ i s, lo ≤ i < hi → I i s →
     wp (body i) s (λ r s', match r with
                            | Some a => Q (Some a) s'
                            | None => I (i + 1) s'
                            end)) →
  (∀ s, I hi s → Q None s) →
  wp (for_ret lo hi body) s Q.
Proof.
  unfold for_ret. intros Hle HI Hbody HQ.
  assert (∀ n i s, lo ≤ i → i + Z.of_nat n = hi → I i s →
            wp (for_ret_count n i body) s Q) as Hgen.
  { clear HI s. intros n; induction n as [|n IH]; intros i s Hi Hhi HI; simpl.
    { apply wp_ret, HQ. by replace hi with i by lia. }
    apply wp_bind. eapply wp_mono; [apply Hbody; [lia|done]|].
    intros [a|] s' HI'; [by apply wp_ret|]. apply IH; [lia|lia|done]. }
  apply Hgen; [lia|lia|done].
Qed.

Lemma for_ret_step {A} lo hi (body : Z → M S (option A)) :
  lo < hi →
  for_ret lo hi body =
    (r ← body lo; match r with
                  | Some a => mret (Some a)
                  | None => for_ret (lo + 1) hi body
                  end).
Proof.
  intros Hlt. unfold for_ret.
  replace (Z.to_nat (hi - lo)) with (Datatypes.S (Z.to_nat (hi - (lo + 1)))) by lia.
  done.
Qed.

Lemma for_ret_done {A} lo hi (body : Z → M S (option A)) :
  hi ≤ lo → for_ret lo hi body = mret None.
Proof. intros Hle. unfold for_ret. by replace (Z.to_nat (hi - lo)) with 0%nat by lia. Qed.

Lemma loop_S {A B} fuel (body : A → M S (A + B)) a :
  loop (Datatypes.S fuel) body a =
    (r ← body a; match r with inl a' => loop fuel body a' | inr b => mret b end).
Proof. done. Qed.

Lemma bind_Done {A B} (m : M S A) (k : A → M S B) s a s' :
  m s = Done (a, s') → (m ≫= k) s = k a s'.
Proof. unfold mbind, M_bind. by intros ->. Qed.

Lemma wp_eq {A} (m : M S A) s a s' (Q : A → S → Prop) :
  m s = Done (a, s') → Q a s' → wp m s Q.
Proof. unfold wp. by intros ->. Qed.

Lemma bind_Faulted {A B} (m : M S A) (k : A → M S B) s f :
  m s = Faulted f → (m ≫= k) s = Faulted f.
Proof. unfold mbind, M_bind. by intros ->. Qed.
End wp.

(** A loop that only checks: [body i] returns or faults by [c i]. *)
Lemma for_up_guard {S} (c : Z → bool) (f : fault) lo hi (body : Z → M S unit) s :
  (∀ i, lo ≤ i < hi → body i s = if c i then Done (tt, s) else Faulted f) →
  for_up lo hi body s = if forallb c (seqZ lo (hi - lo)) then Done (tt, s) else Faulted f.
Proof.
  unfold for_up, seqZ. remember (Z.to_nat (hi - lo)) as n eqn:Hn. intros Hbody.
  assert (∀ i, lo ≤ i < lo + Z.of_nat n → body i s = if c i then Done (tt, s) else Faulted f)
    as Hb by (intros i Hi; apply Hbody; lia). clear Hbody Hn hi. revert lo Hb.
  induction n as [|n IH]; intros lo Hb; [done|].
  simpl. unfold mbind, M_bind. rewrite Hb by lia. change (Z.of_nat 0 + lo) with lo.
  destruct (c lo); [|done]. simpl.
  rewrite IH by (intros i Hi; apply Hb; lia). rewrite <- fmap_S_seq.
  assert (∀ l, (λ i, Z.of_nat i + (lo + 1)) <$> l = list_fmap _ _ (λ i, Z.of_nat i + lo) (Datatypes.S <$> l)) as ->; [|done].
  intros l. induction l as [|x l IHl]; [done|]. simpl. f_equal; [lia|exact IHl].
Qed.

(** ** Frames

    [keeps R m]: whenever [m] returns, its initial and final states are related
    by [R]; for a field no step of [m] writes, [R] is that field's equality. *)
Definition keeps {S A} (R : S → S → Prop) (m : M S A) : Prop :=
  ∀ s a s', m s = Done (a, s') → R s s'.

Section keeps.
Context {S : Type} (R : S → S → Prop) `{!PreOrder R}.

Lemma keeps_ret {A} (a : A) : keeps R (mret a).
Proof. intros s a' s' [= _ <-]. done. Qed.

Lemma keeps_fault {A} (f : fault) : keeps R (A := A) (faultM f).
Proof. by intros s a s'. Qed.

Lemma keeps_gets {A} (f : S → A) : keeps R (gets f).
Proof. intros s a s' [= _ <-]. done. Qed.

Lemma keeps_modify (f : S → S) : (∀ s, R s (f s)) → keeps R (modify f).
Proof. intros Hf s a s'. unfold modify. intros [= _ <-]. apply Hf. Qed.

Lemma keeps_of_option {A} why (o : option A) : keeps R (of_option why o).
Proof. intros s a s'. destruct o; [|done]. intros [= _ <-]. done. Qed.

Lemma keeps_of_outcome {A} (o : outcome A) : keeps R (of_outcome o).
Proof. intros s a s'. destruct o; [|done]. intros [= _ <-]. done. Qed.

Lemma bind_inv {A B} (m : M S A) (k : A → M S B) s b s' :
  (m ≫= k) s = Done (b, s') → ∃ a s1, m s = Done (a, s1) ∧ k a s1 = Done (b, s').
Proof. unfold mbind, M_bind. destruct (m s) as [[a s1]|]; [by eauto|done]. Qed.

Lemma keeps_bind {A B} (m : M S A) (k : A → M S B) :
  keeps R m → (∀ a, keeps R (k a)) → keeps R (m ≫= k).
Proof.
  intros Hm Hk s b s' (a & s1 & H1 & H2)%bind_inv. etrans; [by eapply Hm|by eapply Hk].
Qed.

Lemma for_acc_inv {A} (I : Z → A → S → Prop) lo hi (body : Z → A → M S A) a s a' s' :
  lo ≤ hi → I lo a s →
  (∀ i a s a' s', lo ≤ i < hi → I i a s → body i a s = Done (a', s') → I (i + 1) a' s') →
  for_acc lo hi body a s = Done (a', s') → I hi a' s'.
Proof.
  unfold for_acc. intros Hle HI Hbody Hrun.
  remember (Z.to_nat (hi - lo)) as n eqn:Hn.
  assert (∀ n i a s, lo ≤ i → i + Z.of_nat n = hi → I i a s →
    for_acc_count n i body a s = Done (a', s') → I hi a' s') as Hgen.
  { clear Hn HI Hrun. intros m; induction m as [|m IH]; simpl; intros i b s1 Hi Hhi HI Hrun.
    - injection Hrun as <- <-. by replace hi with i by lia.
    - apply bind_inv in Hrun as (b' & s2 & H1 & H2).
      apply (IH (i + 1) b' s2); [lia|lia| |done]. eapply Hbody; [|done|done]. lia. }
  eapply (Hgen n lo); [lia|lia|done|done].
Qed.

Lemma keeps_loop {A B} fuel (body : A → M S (A + B)) a :
  (∀ a, keeps R (body a)) → keeps R (loop fuel body a).
Proof.
  intros Hb. revert a. induction fuel as [|fuel IH]; intros a; [apply keeps_fault|].
  apply keeps_bind; [done|]. intros [a'|b]; [done|apply keeps_ret].
Qed.

Lemma keeps_for_up lo hi (body : Z → M S unit) :
  (∀ i, keeps R (body i)) → keeps R (for_up lo hi body).
Proof.
  intros Hb. unfold for_up. generalize (Z.to_nat (hi - lo)) as n. intros n. revert lo.
  induction n as [|n IH]; intros lo; [apply keeps_ret|]. by apply keeps_bind.
Qed.

Lemma keeps_for_acc {A} lo hi (body : Z → A → M S A) a :
  (∀ i a, keeps R (body i a)) → keeps R (for_acc lo hi body a).
Proof.
  intros Hb. unfold for_acc. generalize (Z.to_nat (hi - lo)) as n. intros n. revert lo a.
  induction n as [|n IH]; intros lo a; [apply keeps_ret|]. by apply keeps_bind.
Qed.

Lemma keeps_for_ret {A} lo hi (body : Z → M S (option A)) :
  (∀ i, keeps R (body i)) → keeps R (for_ret lo hi body).
Proof.
  intros Hb. unfold for_ret. generalize (Z.to_nat (hi - lo)) as n. intros n. revert lo.
  induction n as [|n IH]; intros lo; [apply keeps_ret|].
  apply keeps_bind; [done|]. intros [a|]; [apply keeps_ret|done].
Qed.
End keeps.

Lemma find_app {A} (p : A → bool) l1 l2 :
  List.find p (l1 ++ l2) =
    match List.find p l1 with Some x => Some x | None => List.find p l2 end.
Proof. induction l1 as [|x l1 IH]; simpl; [done|]. by destruct (p x). Qed.

(** Checking a boolean property on a range of integers by computation. *)
Lemma range_forall (P : Z → bool) lo n :
  forallb P (seqZ lo n) = true → ∀ k, lo ≤ k < lo + n → P k = true.
Proof.
  intros Hall k Hk. rewrite forallb_forall in Hall.
  apply Hall, list_elem_of_In, elem_of_seqZ. lia.
Qed.

(** ** Automation *)

Create HintDb b0s.
#[export] Hint Resolve wp_ret wp_gets wp_modify wp_get_state : b0s.

(** One step of symbolic execution of a [wp] goal. *)
Ltac wp_step :=
  lazymatch goal with
  | |- wp (_ ≫= _) _ _ => apply wp_bind
  | |- wp (mret _) _ _ => apply wp_ret
  | |- wp (gets _) _ _ => apply wp_gets
  | |- wp get_state _ _ => apply wp_get_state
  | |- wp (modify _) _ _ => apply wp_modify
  end.
Ltac wp_steps := repeat (wp_step; cbn beta iota).

(** Frames, by the structure of the program. *)
#[export] Hint Resolve keeps_ret keeps_fault keeps_gets keeps_of_option keeps_of_outcome : b0s.
Ltac keeps_step :=
  lazymatch goal with
  | |- keeps _ (_ ≫= _) => apply keeps_bind; [exact _| |intros]
  | |- keeps _ (loop _ _ _) => apply keeps_loop; [exact _|intros]
  | |- keeps _ (for_up _ _ _) => apply keeps_for_up; [exact _|intros]
  | |- keeps _ (for_acc _ _ _ _) => apply keeps_for_acc; [exact _|intros]
  | |- keeps _ (for_ret _ _ _) => apply keeps_for_ret; [exact _|intros]
  | |- keeps _ (let _ := _ in _) => cbv zeta
  | |- keeps _ (match ?x with _ => _ end) => destruct x
  | |- keeps _ (panic _) => apply keeps_fault
  | |- keeps _ _ => solve [eauto with b0s typeclass_instances]
  end.
Ltac keeps_auto := repeat keeps_step.

(** Case analysis on the [if] that decides the next step. *)
Ltac case_if :=
  match goal with
  | |- context [if ?b then _ else _] =>
      lazymatch type of b with
      | bool => let E := fresh "E" in destruct b eqn:E
      | _ => let E := fresh "E" in destruct b as [E|E]
      end
  end.

(** Turn boolean comparisons into facts for [lia]. *)
Ltac bool_facts :=
  repeat match goal with
    | H : (_ <? _) = true |- _ => apply Z.ltb_lt in H
    | H : (_ <? _) = false |- _ => apply Z.ltb_ge in H
    | H : (_ <=? _) = true |- _ => apply Z.leb_le in H
    | H : (_ <=? _) = false |- _ => apply Z.leb_gt in H
    | H : (_ =? _) = true |- _ => apply Z.eqb_eq in H
    | H : (_ =? _) = false |- _ => apply Z.eqb_neq in H
    | H : _ && _ = true |- _ => apply andb_true_iff in H as [? ?]
    | H : _ || _ = false |- _ => apply orb_false_iff in H as [? ?]
    | H : negb _ = true |- _ => apply negb_true_iff in H
    | H : negb _ = false |- _ => apply negb_false_iff in H
    end.

(** Membership in lists made of [++] and [::], from memberships in the context. *)
Ltac in_list := rewrite ?elem_of_app, ?elem_of_cons in *; tauto.

(** Linear arithmetic with [/] and [mod] by constants. *)
Ltac zlia := Z.div_mod_to_equations; lia.
Ltac znia := Z.div_mod_to_equations; nia.
