(* ===== verification/CInt.v ===== *)
(** * Machine integers and the macros of the headers

    The fixed-width types of kernel/types.h as [Z] with their wrap-around, the
    arithmetic macros of kernel/lib/math/math.h, the paging macros of
    kernel/arch/x86_64/mm/paging.h, the address layout of kernel/mm/layout.h
    and the behaviour of C on oversized shifts and indeterminate values. *)
From S2P Require Import Prelude.

(** ** kernel/types.h *)
Definition u64 (x : Z) : Z := x mod 2 ^ 64.
Definition u32 (x : Z) : Z := x mod 2 ^ 32.
Definition u16 (x : Z) : Z := x mod 2 ^ 16.
Definition u8 (x : Z) : Z := x mod 2 ^ 8.
Definition i32 (x : Z) : Z := (x + 2 ^ 31) mod 2 ^ 32 - 2 ^ 31.
Definition i8 (x : Z) : Z := (x + 2 ^ 7) mod 2 ^ 8 - 2 ^ 7.
Definition U64_MAX : Z := 0xffffffffffffffff.
Definition U32_MAX : Z := 0xffffffff.
Definition U16_MAX : Z := 0xffff.
Definition U8_MAX : Z := 0xff.
Definition NULL : Z := 0.

(** ** kernel/lib/math/math.h *)
Definition MAX (a b : Z) : Z := if u64 b <? u64 a then u64 a else u64 b.
Definition MIN (a b : Z) : Z := if u64 a <? u64 b then u64 a else u64 b.
Definition ROUNDUP (nb sz : Z) : Z :=
  Z.land (u64 (u64 nb + u64 sz)) (u64 (Z.lnot (u64 (u64 sz - 1)))).
Definition IS_ALIGNED (a b : Z) : bool := Z.land (u64 a) (u64 (b - 1)) =? 0.
Definition BYTE2MB (x : Z) : Z := x / (1024 * 1024).
Definition BYTE2KB (x : Z) : Z := x / 1024.

(** ** kernel/arch/x86_64/mm/paging.h *)
Definition BOOT_PAGE_SIZE_IN_BYTES : Z := 0x40000000.
Definition PAGE_PRESENT : Z := 0x1.
Definition PAGE_RO : Z := 0x0.
Definition PAGE_RW : Z := 0x2.
Definition PAGE_KERNEL_RING : Z := 0x0.
Definition PAGE_USER_RING : Z := 0x4.
Definition PAGE_GLOBAL : Z := 0x100.
Definition PAGE_TABLE_SIZE_IN_BYTES : Z := 4096.
Definition PAGE_SIZE_IN_BYTES : Z := 4096.
Definition PAGE_USER_RW : Z := Z.lor (Z.lor PAGE_PRESENT PAGE_RW) PAGE_USER_RING.
Definition PAGE_USER_RO : Z := Z.lor (Z.lor PAGE_PRESENT PAGE_RO) PAGE_USER_RING.
Definition PAGE_KERNEL_RW : Z :=
  Z.lor (Z.lor (Z.lor PAGE_PRESENT PAGE_RW) PAGE_KERNEL_RING) PAGE_GLOBAL.
Definition PAGE_KERNEL_RO : Z :=
  Z.lor (Z.lor (Z.lor PAGE_PRESENT PAGE_RO) PAGE_KERNEL_RING) PAGE_GLOBAL.
Definition PAGE_ADDR (addr page_size : Z) : Z :=
  Z.land (u64 addr) (u64 (Z.lnot (page_size - 1))).
Definition PML4E_INDEX (x : Z) : Z := u16 (Z.land (Z.shiftr (u64 x) 39) 0x1ff).
Definition PDPT_INDEX (x : Z) : Z := u16 (Z.land (Z.shiftr (u64 x) 30) 0x1ff).
Definition PDT_INDEX (x : Z) : Z := u16 (Z.land (Z.shiftr (u64 x) 21) 0x1ff).
Definition PT_INDEX (x : Z) : Z := u16 (Z.land (Z.shiftr (u64 x) 12) 0x1ff).

(** ** kernel/mm/layout.h *)
Definition BIOS_END : Z := 0x100000.
Definition LOWER_HALF_STOP : Z := 0x00007fffffffffff.
Definition HIGHER_HALF_START : Z := 0xffff800000000000.
Definition HIGHER_HALF_STOP : Z := 0xffffffffffffffff.
Definition MAXIMUM_SUPPORTED_MEMORY_IN_BYTES : Z := 0x1000000000.
Definition KERNEL_VMA : Z := 0xffffffff80000000.
Definition V2P (x : Z) : Z := u64 (x - KERNEL_VMA).
Definition P2V (x : Z) : Z := u64 (x + KERNEL_VMA).
Definition DM_V2P (x : Z) : Z := u64 (x - HIGHER_HALF_START).
Definition DM_P2V (x : Z) : Z := u64 (x + HIGHER_HALF_START).
(** [kernel_vma_start] is provided by kernel.ld as [KERNEL_VMA]. *)
Definition KERNEL_HEAP_START : Z := u64 (KERNEL_VMA - MAXIMUM_SUPPORTED_MEMORY_IN_BYTES).
Definition KERNEL_HEAP_STOP : Z := KERNEL_VMA.

(** ** Undefined and indeterminate values

    C leaves [1 << n] undefined for an [int] and [n >= 32], and the value of a
    variable read before its initialisation indeterminate.  An instance of
    [CSem] says what an implementation does: [shl_over n] is the outcome of the
    oversized shift (any [int], or a fault), [uninit_u64] that of reading an
    uninitialised [u64].  Theorems hold for every instance unless they name
    one. *)
Class CSem : Type := {
  shl_over : Z → outcome Z;
  shl_over_int : ∀ n v, shl_over n = Done v → - 2 ^ 31 ≤ v < 2 ^ 31;
  uninit_u64 : outcome Z;
  uninit_u64_range : ∀ v, uninit_u64 = Done v → 0 ≤ v < 2 ^ 64;
}.

(** [1 << n] on [int]: gcc computes in 32-bit two's complement, so a shift by
    31 gives [INT_MIN]. *)
Definition int_shl1 `{CSem} (n : Z) : outcome Z :=
  if n <? 31 then Done (2 ^ n)
  else if n =? 31 then Done (- 2 ^ 31)
  else shl_over n.

(** The strict reading of the standard. *)
Program Definition strict_c : CSem := {|
  shl_over := λ _, Faulted (Undefined "shift count");
  uninit_u64 := Faulted (Undefined "uninitialised value");
|}.
Next Obligation. done. Qed.
Next Obligation. done. Qed.

(** Unoptimised x86-64 code ([sall %cl]): the count is taken modulo 32, and an
    uninitialised local holds whatever the stack held ([garbage]). *)
Definition x86_shl (n : Z) : Z := i32 (2 ^ (n mod 32)).
Program Definition x86_O0 (garbage : Z) : CSem := {|
  shl_over := λ n, Done (x86_shl n);
  uninit_u64 := Done (u64 garbage);
|}.
Next Obligation.
  intros _ n v [= <-]. unfold x86_shl, i32.
  pose proof (Z.mod_pos_bound (2 ^ (n mod 32) + 2 ^ 31) (2 ^ 32)). lia.
Qed.
Next Obligation. intros g v [= <-]. apply Z.mod_pos_bound. lia. Qed.

(** gcc's [__builtin_clzll], undefined at 0. *)
Definition clzll (x : Z) : outcome Z :=
  if x =? 0 then Faulted (Undefined "clz of zero") else Done (63 - Z.log2 x).

(** ** Lemmas *)
Lemma u64_range x : 0 ≤ u64 x < 2 ^ 64.
Proof. apply Z.mod_pos_bound. lia. Qed.

Lemma u64_small x : 0 ≤ x < 2 ^ 64 → u64 x = x.
Proof. apply Z.mod_small. Qed.

Lemma u32_small x : 0 ≤ x < 2 ^ 32 → u32 x = x.
Proof. apply Z.mod_small. Qed.
Lemma u16_small x : 0 ≤ x < 65536 → u16 x = x.
Proof. apply Z.mod_small. Qed.
Lemma u8_small x : 0 ≤ x < 256 → u8 x = x.
Proof. apply Z.mod_small. Qed.

Lemma u64_idemp x : u64 (u64 x) = u64 x.
Proof. apply u64_small, u64_range. Qed.

Lemma u64_add_l x y : u64 (u64 x + y) = u64 (x + y).
Proof. unfold u64. by rewrite Zplus_mod_idemp_l. Qed.

Lemma u64_add_r x y : u64 (x + u64 y) = u64 (x + y).
Proof. unfold u64. by rewrite Zplus_mod_idemp_r. Qed.

Lemma u64_sub_l x y : u64 (u64 x - y) = u64 (x - y).
Proof. unfold u64. by rewrite Zminus_mod_idemp_l. Qed.

Lemma u64_sub_r x y : u64 (x - u64 y) = u64 (x - y).
Proof. unfold u64. by rewrite Zminus_mod_idemp_r. Qed.

Lemma u64_land_ones x : u64 x = Z.land x (Z.ones 64).
Proof. unfold u64. by rewrite Z.land_ones. Qed.

Lemma u64_testbit x i : 0 ≤ i < 64 → Z.testbit (u64 x) i = Z.testbit x i.
Proof. intros Hi. unfold u64. by rewrite Z.mod_pow2_bits_low by lia. Qed.

Lemma u64_testbit_high x i : 64 ≤ i → Z.testbit (u64 x) i = false.
Proof. intros Hi. unfold u64. by rewrite Z.mod_pow2_bits_high by lia. Qed.

(** Masking with [~(2^k - 1)] clears the low [k] bits. *)
Lemma land_lnot_ones a k :
  0 ≤ k ≤ 64 → 0 ≤ a < 2 ^ 64 →
  Z.land a (u64 (Z.lnot (2 ^ k - 1))) = a - a mod 2 ^ k.
Proof.
  intros Hk Ha.
  replace (2 ^ k - 1) with (Z.ones k) by (rewrite Z.ones_equiv; lia).
  rewrite u64_land_ones, (Z.land_comm (Z.lnot _)), Z.land_assoc.
  rewrite (Z.land_ones a 64), (Z.mod_small a) by lia.
  rewrite <- Z.ldiff_land, Z.ldiff_ones_r by lia.
  rewrite Z.shiftl_mul_pow2, Z.shiftr_div_pow2 by lia.
  pose proof (Z.div_mod a (2 ^ k)). lia.
Qed.

Lemma PAGE_ADDR_page a :
  0 ≤ a < 2 ^ 64 → PAGE_ADDR a PAGE_SIZE_IN_BYTES = a - a mod 4096.
Proof.
  intros Ha. unfold PAGE_ADDR, PAGE_SIZE_IN_BYTES. rewrite u64_small by done.
  change (4096 - 1) with (2 ^ 12 - 1). rewrite land_lnot_ones by lia. done.
Qed.

(** [ROUNDUP] moves an aligned number to the next multiple: it is the least
    multiple of [2^k] strictly above [nb]. *)
Lemma ROUNDUP_pow2 nb k :
  0 ≤ k < 64 → 0 ≤ nb → nb + 2 ^ k < 2 ^ 64 →
  ROUNDUP nb (2 ^ k) = nb + 2 ^ k - (nb mod 2 ^ k).
Proof.
  intros Hk Hnb Hlt. unfold ROUNDUP.
  assert (0 < 2 ^ k) by (apply Z.pow_pos_nonneg; lia).
  rewrite !(u64_small (2 ^ k)), (u64_small nb) by lia.
  rewrite (u64_small (2 ^ k - 1)), (u64_small (nb + 2 ^ k)) by lia.
  rewrite land_lnot_ones by lia.
  replace (nb + 2 ^ k) with (nb + 1 * 2 ^ k) at 2 by lia.
  rewrite Z.mod_add by lia. done.
Qed.

Lemma IS_ALIGNED_pow2 a k :
  0 ≤ k < 64 → 0 ≤ a < 2 ^ 64 → IS_ALIGNED a (2 ^ k) = true ↔ a mod 2 ^ k = 0.
Proof.
  intros Hk Ha. unfold IS_ALIGNED.
  assert (0 < 2 ^ k) by (apply Z.pow_pos_nonneg; lia).
  assert (2 ^ k < 2 ^ 64) by (apply Z.pow_lt_mono_r; lia).
  rewrite u64_small, (u64_small (2 ^ k - 1)) by lia.
  replace (2 ^ k - 1) with (Z.ones k) by (rewrite Z.ones_equiv; lia).
  rewrite Z.land_ones by lia. apply Z.eqb_eq.
Qed.

Lemma MIN_u64 a b : 0 ≤ a < 2 ^ 64 → 0 ≤ b < 2 ^ 64 → MIN a b = Z.min a b.
Proof.
  intros Ha Hb. unfold MIN. rewrite !u64_small by done.
  case_if; bool_facts; lia.
Qed.

Lemma MAX_u64 a b : 0 ≤ a < 2 ^ 64 → 0 ≤ b < 2 ^ 64 → MAX a b = Z.max a b.
Proof.
  intros Ha Hb. unfold MAX. rewrite !u64_small by done.
  case_if; bool_facts; lia.
Qed.

Lemma clzll_spec x :
  0 < x < 2 ^ 64 →
  ∃ c, clzll x = Done c ∧ 0 ≤ c < 64 ∧ Z.testbit x (63 - c) = true ∧
       ∀ i, 63 - c < i → Z.testbit x i = false.
Proof.
  intros Hx. exists (63 - Z.log2 x). unfold clzll.
  assert (Z.log2 x < 64) by (apply Z.log2_lt_pow2; lia).
  pose proof (Z.log2_nonneg x).
  split_and!.
  - case_if; bool_facts; [lia|done].
  - lia.
  - lia.
  - replace (63 - (63 - Z.log2 x)) with (Z.log2 x) by lia. apply Z.bit_log2. lia.
  - intros i Hi. apply Z.bits_above_log2; lia.
Qed.

Lemma int_shl1_small `{CSem} n : n < 31 → int_shl1 n = Done (2 ^ n).
Proof. intros Hn. unfold int_shl1. case_if; bool_facts; [done|lia]. Qed.

Lemma int_shl1_31 `{CSem} : int_shl1 31 = Done (- 2 ^ 31).
Proof. done. Qed.

Lemma int_shl1_over `{CSem} n : 32 ≤ n → int_shl1 n = shl_over n.
Proof.
  intros Hn. unfold int_shl1. repeat (case_if; bool_facts; [lia|]). done.
Qed.

(** Whatever the shift does, its value is an [int]. *)
Lemma int_shl1_int `{CSem} n v :
  0 ≤ n → int_shl1 n = Done v → - 2 ^ 31 ≤ v < 2 ^ 31.
Proof.
  intros Hn. unfold int_shl1. repeat case_if; bool_facts.
  - intros [= <-]. pose proof (Z.pow_lt_mono_r 2 n 31).
    pose proof (Z.pow_nonneg 2 n). lia.
  - intros [= <-]. lia.
  - apply shl_over_int.
Qed.

Create Rewrite HintDb u64.
#[export] Hint Rewrite u64_idemp u64_add_l u64_add_r u64_sub_l u64_sub_r : u64.
#[export] Hint Resolve u64_range : b0s.
