(* ===== verification/Mem.v ===== *)
(** * The shared byte memory

    One flat memory, a finite map from addresses to bytes, holds everything the
    kernel reaches through pointers: structures, arrays, strings, page tables.
    An access outside the mapped addresses is undefined behaviour.  The state
    of a component gives access to the memory through [MemState]. *)
From S2P Require Import Prelude CInt.

Abbreviation mem := (gmap Z Z).

(** A state that contains the memory. *)
Class MemState (S : Type) : Type := {
  st_mem : S → mem;
  st_put : mem → S → S;
  st_mem_put : ∀ m s, st_mem (st_put m s) = m;
  st_put_mem : ∀ s, st_put (st_mem s) s = s;
  st_put_put : ∀ m m' s, st_put m (st_put m' s) = st_put m s;
}.

#[export] Program Instance mem_MemState : MemState mem := {|
  st_mem := id; st_put := λ m _, m;
|}.
Solve All Obligations with done.

(** ** Little-endian words of [n] bytes *)
Fixpoint load_le (n : nat) (m : mem) (a : Z) : option Z :=
  match n with
  | O => Some 0
  | Datatypes.S n' =>
      b ← m !! a;
      r ← load_le n' m (a + 1);
      Some (b mod 256 + 256 * r)
  end.

Fixpoint write_le (n : nat) (m : mem) (a v : Z) : mem :=
  match n with
  | O => m
  | Datatypes.S n' => write_le n' (<[a := v mod 256]> m) (a + 1) (v / 256)
  end.

Definition store_le (n : nat) (m : mem) (a v : Z) : option mem :=
  match load_le n m a with
  | Some _ => Some (write_le n m a v)
  | None => None
  end.

(** All of [a, a + n) is mapped. *)
Definition mapped (m : mem) (a n : Z) : Prop := ∀ i, a ≤ i < a + n → is_Some (m !! i).

(** [m'] differs from [m] at most inside [lo, hi), and maps the same addresses. *)
Definition only_in (lo hi : Z) (m m' : mem) : Prop :=
  (∀ i, ¬ lo ≤ i < hi → m' !! i = m !! i) ∧
  (∀ i, is_Some (m' !! i) ↔ is_Some (m !! i)).

(** Executable version of [mapped]. *)
Definition mappedb (m : mem) (a n : Z) : bool :=
  forallb (λ i, bool_decide (is_Some (m !! i))) (seqZ a n).

(** [n] zero bytes from address [a]: a memory to run examples in. *)
Definition zero_mem (a n : Z) : mem := foldr (λ i m, <[i := 0]> m) ∅ (seqZ a n).

Section ops.
Context {S : Type} {MS : MemState S}.

Definition load (n : nat) (a : Z) : M S Z :=
  m ← gets st_mem; of_option "load" (load_le n m a).
Definition store (n : nat) (a v : Z) : M S unit :=
  m ← gets st_mem;
  m' ← of_option "store" (store_le n m a v);
  modify (st_put m').

Definition rd8 : Z → M S Z := load 1.
Definition rd16 : Z → M S Z := load 2.
Definition rd32 : Z → M S Z := load 4.
Definition rd64 : Z → M S Z := load 8.
Definition wr8 : Z → Z → M S unit := store 1.
Definition wr16 : Z → Z → M S unit := store 2.
Definition wr32 : Z → Z → M S unit := store 4.
Definition wr64 : Z → Z → M S unit := store 8.
End ops.

Arguments load_le : simpl never.
Arguments write_le : simpl never.

(** ** Lemmas *)
Lemma load_le_S n m a :
  load_le (Datatypes.S n) m a =
    (b ← m !! a; r ← load_le n m (a + 1); Some (b mod 256 + 256 * r)).
Proof. done. Qed.

Lemma write_le_S n m a v :
  write_le (Datatypes.S n) m a v = write_le n (<[a := v mod 256]> m) (a + 1) (v / 256).
Proof. done. Qed.

Lemma load_le_is_Some n m a : is_Some (load_le n m a) ↔ mapped m a (Z.of_nat n).
Proof.
  unfold mapped. revert a. induction n as [|n IH]; intros a.
  { split; [lia|]. intros _. by exists 0. }
  rewrite load_le_S. split.
  - destruct (m !! a) as [b|] eqn:Ha; simpl; [|by intros [? ?]].
    destruct (load_le n m (a + 1)) as [r|] eqn:Hr; simpl; [|by intros [? ?]].
    intros _ i Hi. destruct (decide (i = a)) as [->|Hne]; [by rewrite Ha|].
    apply (IH (a + 1)); [by rewrite Hr|lia].
  - intros Hm. destruct (Hm a) as [b ->]; [lia|]. simpl.
    destruct (proj2 (IH (a + 1))) as [r ->]; [intros i Hi; apply Hm; lia|]. simpl. by eexists.
Qed.

Lemma load_le_mapped n m a v : load_le n m a = Some v → mapped m a (Z.of_nat n).
Proof. intros Hl. apply load_le_is_Some. by rewrite Hl. Qed.

Lemma load_le_range n m a v : load_le n m a = Some v → 0 ≤ v < 256 ^ Z.of_nat n.
Proof.
  revert a v. induction n as [|n IH]; intros a v.
  { intros [= <-]. simpl. lia. }
  rewrite load_le_S. destruct (m !! a) as [b|]; simpl; [|done].
  destruct (load_le n m (a + 1)) as [r|] eqn:Hr; simpl; [|done]. intros [= <-].
  apply IH in Hr. rewrite Nat2Z.inj_succ, Z.pow_succ_r by lia.
  pose proof (Z.mod_pos_bound b 256). lia.
Qed.

Lemma load_le_ext n m m' a :
  (∀ i, a ≤ i < a + Z.of_nat n → m' !! i = m !! i) → load_le n m' a = load_le n m a.
Proof.
  revert a. induction n as [|n IH]; intros a Hext; [done|].
  rewrite !load_le_S, Hext by lia. rewrite IH; [done|]. intros i Hi. apply Hext. lia.
Qed.

Lemma write_le_lookup_out n m a v i :
  ¬ a ≤ i < a + Z.of_nat n → write_le n m a v !! i = m !! i.
Proof.
  revert m a v. induction n as [|n IH]; intros m a v Hi; [done|].
  rewrite write_le_S, IH by lia. apply lookup_insert_ne. lia.
Qed.

Lemma write_le_is_Some n m a v i :
  is_Some (write_le n m a v !! i) ↔ is_Some (m !! i) ∨ a ≤ i < a + Z.of_nat n.
Proof.
  revert m a v. induction n as [|n IH]; intros m a v.
  { change (write_le 0 m a v) with m. intuition lia. }
  rewrite write_le_S, IH. destruct (decide (i = a)) as [->|Hne].
  - rewrite lookup_insert_eq. split; [|by eauto]. intros _. right. lia.
  - rewrite lookup_insert_ne by done. split; intros [?|?]; auto; right; lia.
Qed.

Lemma load_write_same n m a v :
  load_le n (write_le n m a v) a = Some (v mod 256 ^ Z.of_nat n).
Proof.
  revert m a v. induction n as [|n IH]; intros m a v.
  { change (load_le 0 (write_le 0 m a v) a) with (Some 0).
    rewrite Z.pow_0_r, Z.mod_1_r. done. }
  rewrite write_le_S, load_le_S, write_le_lookup_out, lookup_insert_eq by lia.
  simpl. rewrite IH. simpl. f_equal.
  rewrite Nat2Z.inj_succ, Z.pow_succ_r, Z.rem_mul_r, Z.mod_mod by lia. done.
Qed.

Lemma write_le_dom n m a v i :
  is_Some (load_le n m a) → is_Some (write_le n m a v !! i) ↔ is_Some (m !! i).
Proof.
  intros Hm%load_le_is_Some. rewrite write_le_is_Some. split; [|by left]. intros [?|Hi]; [done|by apply Hm].
Qed.

Lemma load_write_ne k b n m a v :
  b + Z.of_nat k ≤ a ∨ a + Z.of_nat n ≤ b →
  load_le k (write_le n m a v) b = load_le k m b.
Proof. intros Hd. apply load_le_ext. intros i Hi. apply write_le_lookup_out. lia. Qed.

Lemma load_le_mono n m m' a :
  (∀ i, is_Some (m !! i) → is_Some (m' !! i)) →
  is_Some (load_le n m a) → is_Some (load_le n m' a).
Proof. intros Hm. rewrite !load_le_is_Some. intros Ha i Hi. by apply Hm, Ha. Qed.

Lemma load_write_mono n m a k b v :
  is_Some (load_le n m a) → is_Some (load_le n (write_le k m b v) a).
Proof. apply load_le_mono. intros i Hi. apply write_le_is_Some. auto. Qed.

Lemma store_le_Some n m a v :
  is_Some (load_le n m a) → store_le n m a v = Some (write_le n m a v).
Proof. unfold store_le. by intros [? ->]. Qed.

Lemma mapped_write_le n m a v b k : mapped m b k → mapped (write_le n m a v) b k.
Proof. intros Hm i Hi. apply write_le_is_Some. auto. Qed.

Lemma mapped_sub m a n b k : mapped m a n → a ≤ b → b + k ≤ a + n → mapped m b k.
Proof. intros Hm ?? i Hi. apply Hm. lia. Qed.

Lemma mappedb_mapped m a n : mappedb m a n = true → mapped m a n.
Proof.
  intros Hb i Hi. unfold mappedb in Hb. eapply range_forall in Hb; [|done].
  by apply bool_decide_eq_true in Hb.
Qed.

Lemma zero_mem_lookup a n i : a ≤ i < a + n → zero_mem a n !! i = Some 0.
Proof.
  intros Hi. unfold zero_mem. assert (i ∈ seqZ a n) as Hin by (apply elem_of_seqZ; lia).
  induction (seqZ a n) as [|j l IH]; [by apply elem_of_nil in Hin|]. simpl.
  destruct (decide (j = i)) as [->|Hne]; [apply lookup_insert_eq|].
  rewrite lookup_insert_ne by done. apply IH. apply elem_of_cons in Hin as [->|]; done.
Qed.

Lemma zero_mem_lookup_out a n i : ¬ a ≤ i < a + n → zero_mem a n !! i = None.
Proof.
  intros Hi. unfold zero_mem. assert (i ∉ seqZ a n) as Hin by (rewrite elem_of_seqZ; lia).
  induction (seqZ a n) as [|j l IH]; [done|]. simpl. apply not_elem_of_cons in Hin as [Hne Hin].
  rewrite lookup_insert_ne by done. by apply IH.
Qed.

Lemma zero_mem_mapped a n b k : a ≤ b → b + k ≤ a + n → mapped (zero_mem a n) b k.
Proof. intros ?? i Hi. rewrite zero_mem_lookup by lia. by eexists. Qed.

Lemma zero_mem_load a n b k :
  a ≤ b → b + Z.of_nat k ≤ a + n → load_le k (zero_mem a n) b = Some 0.
Proof.
  revert b. induction k as [|k IH]; intros b Hb Hk; [done|].
  rewrite load_le_S, zero_mem_lookup by lia. simpl. by rewrite IH by lia.
Qed.

Lemma only_in_refl lo hi m : only_in lo hi m m.
Proof. by split. Qed.

Lemma only_in_trans lo hi m1 m2 m3 :
  only_in lo hi m1 m2 → only_in lo hi m2 m3 → only_in lo hi m1 m3.
Proof.
  intros [H1 D1] [H2 D2]. split.
  - intros i Hi. by rewrite H2, H1.
  - intros i. by rewrite D2, D1.
Qed.

Lemma only_in_weaken lo hi lo' hi' m m' :
  only_in lo hi m m' → lo' ≤ lo → hi ≤ hi' → only_in lo' hi' m m'.
Proof. intros [Hout Hdom] ??. split; [|done]. intros i Hi. apply Hout. lia. Qed.

Lemma only_in_write_le n m a v :
  mapped m a (Z.of_nat n) → only_in a (a + Z.of_nat n) m (write_le n m a v).
Proof.
  intros Hm. split.
  - intros i Hi. by apply write_le_lookup_out.
  - intros i. rewrite write_le_is_Some. split; [|by auto]. intros [?|Hi]; [done|by apply Hm].
Qed.

Lemma only_in_write lo hi m m' n a v :
  only_in lo hi m m' → lo ≤ a → a + Z.of_nat n ≤ hi → mapped m' a (Z.of_nat n) →
  only_in lo hi m (write_le n m' a v).
Proof.
  intros H Hlo Hhi Hm. eapply only_in_trans; [exact H|].
  eapply only_in_weaken; [by apply only_in_write_le|lia|lia].
Qed.

Lemma only_in_mapped lo hi m m' a n : only_in lo hi m m' → mapped m a n → mapped m' a n.
Proof. intros [_ Hdom] Hm i Hi. apply Hdom, Hm, Hi. Qed.

Lemma only_in_load lo hi m m' n a :
  only_in lo hi m m' → a + Z.of_nat n ≤ lo ∨ hi ≤ a → load_le n m' a = load_le n m a.
Proof. intros [Hout _] Hd. apply load_le_ext. intros i Hi. apply Hout. lia. Qed.

#[export] Instance only_in_preorder lo hi : PreOrder (only_in lo hi).
Proof. split; [exact (only_in_refl lo hi)|exact (only_in_trans lo hi)]. Qed.

Section wp_mem.
Context {S : Type} {MS : MemState S}.

Lemma wp_load n a v (s : S) (Q : Z → S → Prop) :
  load_le n (st_mem s) a = Some v → Q v s → wp (load n a) s Q.
Proof. intros Hl HQ. unfold load. wp_steps. by eapply wp_of_option. Qed.

Lemma wp_store n a v (s : S) (Q : unit → S → Prop) :
  is_Some (load_le n (st_mem s) a) →
  Q tt (st_put (write_le n (st_mem s) a v) s) →
  wp (store n a v) s Q.
Proof.
  intros Hl HQ. unfold store. wp_steps.
  eapply wp_of_option; [by apply store_le_Some|]. by wp_steps.
Qed.

Lemma load_Done n a v (s : S) :
  load_le n (st_mem s) a = Some v → load n a s = Done (v, s).
Proof. intros Hl. unfold load, mbind, M_bind, gets. by rewrite Hl. Qed.

Lemma load_Undefined n a (s : S) :
  load_le n (st_mem s) a = None → load n a s = Faulted (Undefined "load").
Proof. intros Hl. unfold load, mbind, M_bind, gets. by rewrite Hl. Qed.

Lemma store_Done n a v (s : S) :
  is_Some (load_le n (st_mem s) a) →
  store n a v s = Done (tt, st_put (write_le n (st_mem s) a v) s).
Proof.
  intros Hl. unfold store, mbind, M_bind, gets.
  by rewrite store_le_Some.
Qed.
End wp_mem.

(** ** Automation: read a word back through writes elsewhere *)
Ltac mem_simpl :=
  repeat first
    [ rewrite st_mem_put
    | rewrite st_put_put
    | rewrite load_write_same
    | rewrite load_write_ne by lia ].

(** A load from an example memory, made of writes over zeros, by the lemmas. *)
Ltac mem_eval :=
  repeat first [ rewrite load_write_same | rewrite load_write_ne by lia | rewrite zero_mem_load by lia ];
  reflexivity.

(** The word at an address known in the context is read or overwritten. *)
Ltac wp_ld := eapply wp_load; [mem_simpl; eassumption|].
Ltac wp_st := apply wp_store; [mem_simpl; by eauto|].

(** A word is still mapped after writes. *)
Ltac still_mapped :=
  rewrite ?st_mem_put; repeat apply load_write_mono; try done; try by eexists.

(** Store to a word that was mapped to begin with. *)
Ltac wp_st_mapped := repeat wp_step; apply wp_store; [still_mapped|].

#[export] Hint Resolve only_in_refl load_le_mapped : b0s.

(** Programs that change nothing but the memory. *)
Definition mem_only {S} {MS : MemState S} (s s' : S) : Prop := s' = st_put (st_mem s') s.

#[export] Instance mem_only_preorder {S} {MS : MemState S} : PreOrder (mem_only (S := S)).
Proof.
  split.
  - intros s. unfold mem_only. by rewrite st_put_mem.
  - intros s1 s2 s3 H2 H3. unfold mem_only in *. by rewrite H3, H2, st_put_put, st_mem_put.
Qed.

Lemma keeps_mem_load {S} {MS : MemState S} n a : keeps mem_only (load (S := S) n a).
Proof. unfold load. keeps_auto. Qed.

Lemma keeps_mem_store {S} {MS : MemState S} n a v : keeps mem_only (store (S := S) n a v).
Proof.
  unfold store. keeps_auto. apply keeps_modify. intros s. unfold mem_only. by rewrite st_mem_put.
Qed.
#[export] Hint Resolve keeps_mem_load keeps_mem_store : b0s.
