(* ===== verification/Vga.v ===== *)
(** * kernel/drivers/vga: the text screen

    The screen is the array of 80 x 25 words at [VGA_BUFFER_ADDRESS] in the byte
    memory; the position of the cursor is the pair of static bytes [x], [y]. *)
From S2P Require Import Prelude CInt Mem.

Definition VGA_BUFFER_ADDRESS : Z := P2V 0xB8000.
Definition VGA_WIDTH : Z := 80.
Definition VGA_HEIGHT : Z := 25.
Definition VGA_BLACK : Z := 0.
Definition VGA_WHITE : Z := 15.

(** The static variables of vga.c. *)
Record cursor : Type := mk_cursor { cur_x : Z; cur_y : Z }.

Class VgaState (S : Type) {MS : MemState S} : Type := {
  vga_cur : S → cursor;
  vga_put : cursor → S → S;
  vga_cur_put : ∀ c s, vga_cur (vga_put c s) = c;
  vga_cur_mem : ∀ m s, vga_cur (st_put m s) = vga_cur s;
  vga_mem_put : ∀ c s, st_mem (vga_put c s) = st_mem s;
}.

Record vga_state : Type := mk_vga_state { vg_mem : mem; vg_cursor : cursor }.

#[export] Program Instance vga_state_mem : MemState vga_state := {|
  st_mem := vg_mem; st_put := λ m s, mk_vga_state m (vg_cursor s);
|}.
Solve All Obligations with by intros; try match goal with s : vga_state |- _ => destruct s end.

#[export] Program Instance vga_state_vga : VgaState vga_state := {|
  vga_cur := vg_cursor; vga_put := λ c s, mk_vga_state (vg_mem s) c;
|}.
Solve All Obligations with by intros; try match goal with s : vga_state |- _ => destruct s end.

(** ** The operations *)
Definition vga_color_entry (fg bg : Z) : Z := u8 (Z.lor fg (Z.shiftl bg 4)).

(** [ch] is a [char], which is signed: its conversion to [u16] extends the sign. *)
Definition vga_entry (ch color : Z) : Z := u16 (Z.lor (u16 ch) (Z.shiftl (u16 color) 8)).

Section defs.
Context {S : Type} {MS : MemState S} {VG : VgaState S}.

Definition vga_putchar (ch color : Z) : M S unit :=
  '(mk_cursor x y) ← gets vga_cur;
  let index := u32 (y * VGA_WIDTH + x) in
  wr16 (VGA_BUFFER_ADDRESS + 2 * index) (vga_entry ch color) ;;
  let y := u8 ((y + (x + 1) / VGA_WIDTH) mod VGA_HEIGHT) in
  let x := u8 ((x + 1) mod VGA_WIDTH) in
  modify (vga_put (mk_cursor x y)).

Definition vga_newline : M S unit :=
  '(mk_cursor x y) ← gets vga_cur;
  modify (vga_put (mk_cursor 0 (u8 ((y + 1) mod VGA_HEIGHT)))).

Definition vga_reset : M S unit :=
  for_up 0 (VGA_WIDTH * VGA_HEIGHT) (λ _, vga_putchar 32 (vga_color_entry VGA_BLACK VGA_BLACK)) ;;
  modify (vga_put (mk_cursor 0 0)).

(** A line has [VGA_WIDTH] columns, so the row changes within as many rounds. *)
Definition vga_pad : M S unit :=
  c ← gets vga_cur;
  let _y := cur_y c in
  loop (Datatypes.S (Z.to_nat VGA_WIDTH)) (λ _,
    c ← gets vga_cur;
    if cur_y c =? _y then
      vga_putchar 32 (vga_color_entry VGA_BLACK VGA_BLACK) ;; mret (inl tt)
    else mret (inr tt)) tt.
End defs.

(** ** The screen *)
Definition cell (m : mem) (i : Z) : option Z := load_le 2 m (VGA_BUFFER_ADDRESS + 2 * i).
Definition on_screen (a : Z) : Prop := VGA_BUFFER_ADDRESS ≤ a < VGA_BUFFER_ADDRESS + 4000.
Definition cursor_index (c : cursor) : Z := cur_y c * VGA_WIDTH + cur_x c.

Record screen_ok {S} {MS : MemState S} {VG : VgaState S} (s : S) : Prop := {
  screen_x : 0 ≤ cur_x (vga_cur s) < VGA_WIDTH;
  screen_y : 0 ≤ cur_y (vga_cur s) < VGA_HEIGHT;
  screen_mapped : mapped (st_mem s) VGA_BUFFER_ADDRESS 4000;
}.

(** What [n] characters do, from cell [p] on: the cells they pass hold the
    entries [e], the cursor is behind the last one, nothing else changes. *)
Record printed {S} {MS : MemState S} {VG : VgaState S} (s s' : S) (n : Z) (e : Z → Z) : Prop := {
  pr_ok : screen_ok s';
  pr_index : cursor_index (vga_cur s') = (cursor_index (vga_cur s) + n) mod 2000;
  pr_cells : ∀ k, 0 ≤ k < n → n ≤ 2000 →
    cell (st_mem s') ((cursor_index (vga_cur s) + k) mod 2000) = Some (e k);
  pr_others : ∀ i, 0 ≤ i < 2000 → (∀ k, 0 ≤ k < n → i ≠ (cursor_index (vga_cur s) + k) mod 2000) →
    cell (st_mem s') i = cell (st_mem s) i;
  pr_outside : ∀ a, ¬ on_screen a → st_mem s' !! a = st_mem s !! a;
}.

Section lemmas.
Context {S : Type} {MS : MemState S} {VG : VgaState S}.
Implicit Types s : S.

Lemma vga_buffer_eq : VGA_BUFFER_ADDRESS = 0xffffffff800b8000.
Proof. reflexivity. Qed.

Lemma cursor_index_range s : screen_ok s → 0 ≤ cursor_index (vga_cur s) < 2000.
Proof. intros [Hx Hy _]. unfold cursor_index, VGA_WIDTH, VGA_HEIGHT in *. lia. Qed.

Lemma cursor_next x y :
  0 ≤ x < VGA_WIDTH → 0 ≤ y < VGA_HEIGHT →
  let c := mk_cursor (u8 ((x + 1) mod VGA_WIDTH)) (u8 ((y + (x + 1) / VGA_WIDTH) mod VGA_HEIGHT)) in
  0 ≤ cur_x c < VGA_WIDTH ∧ 0 ≤ cur_y c < VGA_HEIGHT ∧
  cursor_index c = (cursor_index (mk_cursor x y) + 1) mod 2000.
Proof.
  unfold cursor_index, VGA_WIDTH, VGA_HEIGHT, u8. simpl cur_x. simpl cur_y. intros Hx Hy.
  change (2 ^ 8) with 256. zlia.
Qed.

Lemma cell_write m i j v : 0 ≤ v < 65536 → mapped m VGA_BUFFER_ADDRESS 4000 → 0 ≤ i < 2000 →
  cell (write_le 2 m (VGA_BUFFER_ADDRESS + 2 * i) v) j = if j =? i then Some v else cell m j.
Proof.
  intros Hv Hm Hi. unfold cell. case_if.
  - apply Z.eqb_eq in E as ->. rewrite load_write_same, Z.mod_small; [done|exact Hv].
  - bool_facts. rewrite load_write_ne; [done|change (Z.of_nat 2) with 2; lia].
Qed.

Lemma vga_entry_range ch color : 0 ≤ vga_entry ch color < 65536.
Proof. apply Z.mod_pos_bound. lia. Qed.

Lemma mapped_cell s i : screen_ok s → 0 ≤ i < 2000 → is_Some (cell (st_mem s) i).
Proof.
  intros Hok Hi. apply load_le_is_Some. eapply mapped_sub; [apply Hok|lia|change (Z.of_nat 2) with 2; lia].
Qed.

Lemma wp_vga_putchar ch color s (Q : unit → S → Prop) :
  screen_ok s → (∀ s', printed s s' 1 (λ _, vga_entry ch color) → Q tt s') → wp (vga_putchar ch color) s Q.
Proof.
  intros Hok HQ. pose proof (cursor_index_range s Hok) as Hi. unfold vga_putchar. wp_steps.
  destruct (vga_cur s) as [x y] eqn:Hc. rewrite u32_small by (unfold cursor_index in Hi; simpl in *; lia).
  change (y * VGA_WIDTH + x) with (cursor_index (mk_cursor x y)). wp_steps.
  apply wp_store; [by apply mapped_cell|]. wp_steps. apply HQ.
  destruct (cursor_next x y) as (Hx & Hy & Hn).
  { pose proof (screen_x s Hok) as H. by rewrite Hc in H. }
  { pose proof (screen_y s Hok) as H. by rewrite Hc in H. }
  pose proof (vga_entry_range ch color) as Hr. pose proof (screen_mapped s Hok) as Hm.
  split; rewrite ?vga_cur_put, ?vga_mem_put, ?st_mem_put, ?Hc.
  - split; rewrite ?vga_cur_put, ?vga_mem_put, ?st_mem_put; [exact Hx|exact Hy|by apply mapped_write_le].
  - exact Hn.
  - intros k Hk _. assert (k = 0) as -> by lia. rewrite Z.add_0_r, Z.mod_small by done.
    rewrite cell_write by done. by rewrite Z.eqb_refl.
  - intros i Hi' Hne. rewrite cell_write by done. case_if; [|done]. bool_facts.
    destruct (Hne 0); [lia|]. by rewrite Z.add_0_r, Z.mod_small.
  - intros a Ha. apply write_le_lookup_out. unfold on_screen in Ha. change (Z.of_nat 2) with 2. lia.
Qed.

Lemma printed_0 s e : screen_ok s → printed s s 0 e.
Proof.
  intros Hok. split; [done|rewrite Z.add_0_r, Z.mod_small; [done|by apply cursor_index_range]|lia|done|done].
Qed.

Lemma printed_S s s1 s2 n e v : 0 ≤ n < 2000 →
  printed s s1 n e → printed s1 s2 1 (λ _, v) → printed s s2 (n + 1) (λ k, if k =? n then v else e k).
Proof.
  intros Hn H1 H2.
  assert (∀ k, (cursor_index (vga_cur s1) + k) mod 2000 = (cursor_index (vga_cur s) + n + k) mod 2000) as Hmod.
  { intros k. rewrite (pr_index _ _ _ _ H1). apply Z.add_mod_idemp_l. lia. }
  split.
  - apply H2.
  - rewrite (pr_index _ _ _ _ H2), Hmod. f_equal. lia.
  - intros k Hk _. case_if; bool_facts.
    + subst k. rewrite <- (Z.add_0_r (_ + n)), <- Hmod. apply H2; lia.
    + rewrite (pr_others _ _ _ _ H2); [apply H1; lia|apply Z.mod_pos_bound; lia|].
      intros j Hj. rewrite Hmod. zlia.
  - intros i Hi Hne. rewrite (pr_others _ _ _ _ H2 i Hi).
    + apply H1; [done|]. intros k Hk. apply Hne. lia.
    + intros j Hj. assert (j = 0) as -> by lia. rewrite Hmod, Z.add_0_r. apply Hne. lia.
  - intros a Ha. rewrite (pr_outside _ _ _ _ H2 a Ha). by apply H1.
Qed.

Lemma printed_ext s s' n e e' : (∀ k, 0 ≤ k < n → e k = e' k) → printed s s' n e → printed s s' n e'.
Proof.
  intros He H. split; try apply H. intros k Hk Hn. rewrite <- He by done. by apply H.
Qed.

Lemma printed_const s s1 s2 n v : 0 ≤ n < 2000 →
  printed s s1 n (λ _, v) → printed s1 s2 1 (λ _, v) → printed s s2 (n + 1) (λ _, v).
Proof.
  intros Hn H1 H2. eapply printed_ext; [|by eapply printed_S]. intros k _. simpl. by case_if.
Qed.

(** ** The theorems *)

(** C31: from a position on the screen [vga_putchar] writes exactly the cell
    under the cursor, whatever the character, and moves the cursor to the next
    cell, around from the last one to the first; the cursor stays on the
    screen and nothing outside the screen is written. *)
Theorem vga_putchar_on_screen ch color s (i := cursor_index (vga_cur s)) :
  screen_ok s →
  ∃ s', vga_putchar ch color s = Done (tt, s') ∧ screen_ok s' ∧
    cursor_index (vga_cur s') = (i + 1) mod 2000 ∧
    cell (st_mem s') i = Some (vga_entry ch color) ∧
    (∀ j, 0 ≤ j < 2000 → j ≠ i → cell (st_mem s') j = cell (st_mem s) j) ∧
    ∀ a, ¬ on_screen a → st_mem s' !! a = st_mem s !! a.
Proof.
  intros Hok. pose proof (cursor_index_range s Hok) as Hi.
  apply wp_unit, wp_vga_putchar; [done|]. intros s' H.
  split; [apply H|]. split; [apply H|]. split.
  - pose proof (pr_cells _ _ _ _ H 0) as Hc. rewrite Z.add_0_r, Z.mod_small in Hc by done. apply Hc; lia.
  - split; [|apply H]. intros j Hj Hne. apply H; [done|]. intros k Hk. assert (k = 0) as -> by lia.
    by rewrite Z.add_0_r, Z.mod_small.
Qed.

Lemma wp_vga_pad s (Q : unit → S → Prop) :
  screen_ok s → (∀ s', printed s s' (VGA_WIDTH - cur_x (vga_cur s)) (λ _, vga_entry 32 0) → Q tt s') →
  wp vga_pad s Q.
Proof.
  intros Hok HQ. unfold vga_pad. wp_steps. set (x := cur_x (vga_cur s)) in *.
  pose proof (screen_x s Hok) as Hx. pose proof (screen_y s Hok) as Hy. fold x in Hx.
  eapply (wp_loop (λ _ s1, ∃ n, 0 ≤ n ≤ VGA_WIDTH - x ∧ printed s s1 n (λ _, vga_entry 32 0))
    (λ _ s1, Z.to_nat (if cur_y (vga_cur s1) =? cur_y (vga_cur s)
                       then VGA_WIDTH - cur_x (vga_cur s1) else 0))).
  - exists 0. split; [unfold VGA_WIDTH in *; lia|by apply printed_0].
  - rewrite Z.eqb_refl. fold x. unfold VGA_WIDTH in *. lia.
  - intros [] s1 (n & Hn & Hp). wp_steps.
    pose proof (pr_ok _ _ _ _ Hp) as Hok1. pose proof (pr_index _ _ _ _ Hp) as Hi.
    pose proof (screen_x s1 Hok1) as Hx1. pose proof (screen_y s1 Hok1) as Hy1.
    unfold cursor_index, VGA_WIDTH, VGA_HEIGHT in *. fold x in Hi.
    case_if; bool_facts.
    + wp_steps. apply wp_vga_putchar; [done|]. intros s2 Hp2.
      pose proof (pr_ok _ _ _ _ Hp2) as Hok2. pose proof (pr_index _ _ _ _ Hp2) as Hi2.
      pose proof (screen_x s2 Hok2) as Hx2. pose proof (screen_y s2 Hok2) as Hy2.
      unfold cursor_index, VGA_WIDTH, VGA_HEIGHT in *. wp_steps.
      assert (n < 80 - x) by zlia.
      split; [|case_if; bool_facts; zlia].
      exists (n + 1). split; [lia|]. eapply printed_const; [lia|exact Hp|exact Hp2].
    + wp_steps. apply HQ. assert (n = 80 - x) as <- by zlia. exact Hp.
Qed.

(** [vga_pad] stops: it blanks the rest of the line and leaves the cursor
    at the start of the next one; at the start of a line, it blanks it all. *)
Theorem vga_pad_next_line s (x := cur_x (vga_cur s)) (y := cur_y (vga_cur s)) :
  screen_ok s →
  ∃ s', vga_pad s = Done (tt, s') ∧ vga_cur s' = mk_cursor 0 ((y + 1) mod VGA_HEIGHT) ∧
    (∀ i, 0 ≤ i < 2000 → cell (st_mem s') i =
       if decide (80 * y + x ≤ i < 80 * (y + 1)) then Some 32 else cell (st_mem s) i) ∧
    ∀ a, ¬ on_screen a → st_mem s' !! a = st_mem s !! a.
Proof.
  intros Hok. apply wp_unit, wp_vga_pad; [done|]. intros s' H. fold x in H.
  pose proof (screen_x s Hok) as Hx. pose proof (screen_y s Hok) as Hy. fold x in Hx. fold y in Hy.
  pose proof (pr_ok _ _ _ _ H) as Hok'. pose proof (pr_index _ _ _ _ H) as Hi.
  pose proof (screen_x s' Hok') as Hx'. pose proof (screen_y s' Hok') as Hy'.
  assert (cursor_index (vga_cur s) = 80 * y + x) as Hcur by (unfold cursor_index, VGA_WIDTH; fold x y; lia).
  rewrite Hcur in Hi. unfold VGA_WIDTH, VGA_HEIGHT in *.
  split; [|split; [|apply H]].
  - unfold cursor_index, VGA_WIDTH in Hi. destruct (vga_cur s') as [x' y']. simpl in *. f_equal; zlia.
  - intros i Hi'. case_decide as Hd.
    + pose proof (pr_cells _ _ _ _ H (i - (80 * y + x))) as Hc. rewrite Hcur in Hc.
      rewrite Zplus_minus in Hc. rewrite Z.mod_small in Hc by done.
      apply Hc; lia.
    + apply H; [done|]. intros k Hk. rewrite Hcur, Z.mod_small by lia. lia.
Qed.

Lemma wp_vga_reset s (Q : unit → S → Prop) :
  screen_ok s →
  (∀ s', vga_cur s' = mk_cursor 0 0 → (∀ i, 0 ≤ i < 2000 → cell (st_mem s') i = Some 32) →
     (∀ a, ¬ on_screen a → st_mem s' !! a = st_mem s !! a) → Q tt s') →
  wp vga_reset s Q.
Proof.
  intros Hok HQ. unfold vga_reset. apply wp_bind.
  apply (wp_for_up (λ n s1, printed s s1 n (λ _, vga_entry 32 0))).
  - done.
  - by apply printed_0.
  - intros n s1 Hn Hp. apply wp_vga_putchar; [apply Hp|]. intros s2 Hp2.
    eapply printed_const; [exact Hn|exact Hp|exact Hp2].
  - intros s1 Hp. wp_steps. apply HQ; rewrite ?vga_cur_put, ?vga_mem_put; [done| |apply Hp].
    intros i Hi. pose proof (cursor_index_range s Hok) as Hc. change (VGA_WIDTH * VGA_HEIGHT) with 2000 in Hp.
    set (k := (i - cursor_index (vga_cur s)) mod 2000).
    assert (i = (cursor_index (vga_cur s) + k) mod 2000) as Hik by (unfold k; zlia).
    assert (0 ≤ k < 2000) as Hk by (apply Z.mod_pos_bound; lia).
    rewrite Hik. rewrite (pr_cells _ _ _ _ Hp k Hk); [done|lia].
Qed.

(** [vga_reset] blanks every cell of the screen and puts the cursor at the
    top left, wherever it was. *)
Theorem vga_reset_clears s :
  screen_ok s →
  ∃ s', vga_reset s = Done (tt, s') ∧ vga_cur s' = mk_cursor 0 0 ∧
    (∀ i, 0 ≤ i < 2000 → cell (st_mem s') i = Some 32) ∧
    ∀ a, ¬ on_screen a → st_mem s' !! a = st_mem s !! a.
Proof.
  intros Hok. apply wp_unit, wp_vga_reset; [done|]. intros s' Hc Hcells Hout. by split_and!.
Qed.
End lemmas.

(** ** Examples *)
Definition ex_screen : vga_state := mk_vga_state (zero_mem VGA_BUFFER_ADDRESS 4000) (mk_cursor 79 24).

Lemma ex_screen_ok : screen_ok ex_screen.
Proof. split; [by split|by split|]. apply zero_mem_mapped; lia. Qed.

Lemma vga_putchar_on_screen_witness :
  ∃ s', vga_putchar 65 VGA_WHITE ex_screen = Done (tt, s') ∧ cursor_index (vga_cur s') = 0 ∧
    cell (st_mem s') 1999 = Some 0xf41.
Proof.
  destruct (vga_putchar_on_screen 65 VGA_WHITE ex_screen ex_screen_ok) as (s' & Hrun & _ & Hc & Hi & _).
  exists s'. split; [exact Hrun|]. split; [exact Hc|exact Hi].
Defined.

Lemma vga_pad_next_line_witness :
  ∃ s', vga_pad ex_screen = Done (tt, s') ∧ vga_cur s' = mk_cursor 0 0.
Proof.
  destruct (vga_pad_next_line ex_screen ex_screen_ok) as (s' & Hrun & Hc & _).
  exists s'. split; [exact Hrun|exact Hc].
Defined.

Lemma vga_reset_clears_witness :
  ∃ s', vga_reset ex_screen = Done (tt, s') ∧ cell (st_mem s') 1234 = Some 32.
Proof.
  destruct (vga_reset_clears ex_screen ex_screen_ok) as (s' & Hrun & _ & Hc & _).
  exists s'. split; [exact Hrun|apply Hc; lia].
Defined.
