(* ===== verification/CString.v ===== *)
(** * kernel/lib/string: memory blocks and C strings

    [memset], [memcpy], [memcmp], [strlen], [strmatch] and [strcpy] on the byte
    memory, with their specifications. *)
From S2P Require Import Prelude CInt Mem.

(** ** The functions *)
Section defs.
Context {S : Type} {MS : MemState S}.

(** A loop over a string visits a fresh mapped byte each time round, so the
    number of mapped bytes bounds it. *)
Definition mem_fuel : M S nat := gets (λ s, Datatypes.S (size (st_mem s))).

Definition memset (ptr val size : Z) : M S Z :=
  for_up 0 size (λ i, wr8 (ptr + i) val) ;;
  mret ptr.

Definition memcpy (dst src n : Z) : M S Z :=
  if (dst =? NULL) && (src =? NULL) then mret NULL
  else
    for_up 0 n (λ i, c ← rd8 (src + i); wr8 (dst + i) c) ;;
    mret dst.

Definition memcmp (a b size : Z) : M S Z :=
  loop (Datatypes.S (Z.to_nat size)) (λ size,
    if size =? 0 then mret (inr 0)
    else
      x ← rd8 (a + (size - 1));
      y ← rd8 (b + (size - 1));
      if negb (x =? y) then mret (inr 1) else mret (inl (size - 1))) size.

Definition strlen (str max : Z) : M S Z :=
  loop (Datatypes.S (Z.to_nat max)) (λ '(i, max),
    c ← rd8 (str + i);
    if c =? 0 then mret (inr i)
    else if max =? 0 then mret (inr i)
    else mret (inl (i + 1, max - 1))) (0, max).

Definition strmatch (a b : Z) : M S Z :=
  fuel ← mem_fuel;
  loop fuel (λ i,
    x ← rd8 (a + i);
    if x =? 0 then mret (inr i)
    else
      y ← rd8 (b + i);
      if x =? y then mret (inl (i + 1)) else mret (inr i)) 0.

Definition strcpy (dst src : Z) : M S Z :=
  fuel ← mem_fuel;
  loop fuel (λ i,
    c ← rd8 (src + i);
    wr8 (dst + i) c ;;
    c' ← rd8 (src + (i + 1));
    if negb (c' =? 0) then mret (inl (i + 1)) else mret (inr dst)) 0.
End defs.

(** ** Bytes and strings in memory *)
Definition bytes_at (m : mem) (a : Z) (bs : list Z) : Prop :=
  ∀ i b, bs !! i = Some b → load_le 1 m (a + Z.of_nat i) = Some b.

(** The NUL-terminated string [bs] at [a]. *)
Definition cstr (m : mem) (a : Z) (bs : list Z) : Prop :=
  bytes_at m a (bs ++ [0]) ∧ Forall (λ b, b ≠ 0) bs.

(** Longest common prefix. *)
Fixpoint common_prefix (xs ys : list Z) : nat :=
  match xs, ys with
  | x :: xs', y :: ys' => if x =? y then Datatypes.S (common_prefix xs' ys') else O
  | _, _ => O
  end.

(** ** Lemmas *)
Lemma nodup_mapped_size (m : mem) (l : list Z) :
  NoDup l → (∀ x, x ∈ l → is_Some (m !! x)) → (length l ≤ size m)%nat.
Proof.
  intros Hnd Hm. rewrite <- (size_list_to_set (C := gset Z)) by done.
  rewrite <- size_dom. apply subseteq_size. intros x Hx%elem_of_list_to_set.
  by apply elem_of_dom, Hm.
Qed.

Lemma mapped_size m a n : mapped m a n → n ≤ Z.of_nat (size m).
Proof.
  intros Hm. destruct (decide (n ≤ 0)); [lia|].
  pose proof (nodup_mapped_size m (seqZ a n) (NoDup_seqZ a n)) as Hle.
  rewrite length_seqZ in Hle. cut (Z.to_nat n ≤ size m)%nat; [lia|].
  apply Hle. intros x Hx%elem_of_seqZ. apply Hm. lia.
Qed.

Lemma bytes_at_mapped m a bs : bytes_at m a bs → mapped m a (Z.of_nat (length bs)).
Proof.
  intros Hb i Hi. destruct (lookup_lt_is_Some_2 bs (Z.to_nat (i - a))) as [b Hb']; [lia|].
  apply Hb, load_le_mapped in Hb'. apply Hb'. lia.
Qed.

Lemma cstr_nz m a bs i b : cstr m a bs → bs !! i = Some b → b ≠ 0.
Proof. intros [_ Hnz] Hi. rewrite Forall_lookup in Hnz. eauto. Qed.

Lemma cstr_char m a bs i b :
  cstr m a bs → bs !! i = Some b → load_le 1 m (a + Z.of_nat i) = Some b.
Proof. intros [Hb _] Hi. apply Hb. by apply lookup_app_l_Some. Qed.

Lemma cstr_end m a bs : cstr m a bs → load_le 1 m (a + Z.of_nat (length bs)) = Some 0.
Proof. intros [Hb _]. apply Hb. by rewrite lookup_app_r, Nat.sub_diag by lia. Qed.

Section specs.
Context {S : Type} {MS : MemState S}.
Implicit Types s : S.

(** [memset] fills exactly the block. *)
Lemma wp_memset ptr val size s (Q : Z → S → Prop) :
  0 ≤ size →
  mapped (st_mem s) ptr size →
  (∀ m', only_in ptr (ptr + size) (st_mem s) m' →
     (∀ i, ptr ≤ i < ptr + size → m' !! i = Some (val mod 256)) →
     Q ptr (st_put m' s)) →
  wp (memset ptr val size) s Q.
Proof.
  intros Hsz Hm HQ. unfold memset. wp_steps.
  eapply (wp_for_up (λ i s', ∃ m', s' = st_put m' s ∧ only_in ptr (ptr + size) (st_mem s) m'
            ∧ ∀ j, ptr ≤ j < ptr + i → m' !! j = Some (val mod 256))).
  - lia.
  - exists (st_mem s). rewrite st_put_mem. split_and!; [done|apply only_in_refl|lia].
  - intros i _ Hi (m' & -> & Hout & Hset).
    assert (mapped m' (ptr + i) 1) as Hm'.
    { eapply only_in_mapped; [done|]. eapply mapped_sub; [done|lia|lia]. }
    apply wp_store; rewrite st_mem_put; [by apply load_le_is_Some|].
    rewrite st_put_put. eexists. split_and!; [done|..].
    + etrans; [done|]. eapply only_in_weaken; [apply only_in_write_le|lia|lia]. done.
    + intros j Hj. destruct (decide (j = ptr + i)) as [->|Hne].
      * change (write_le 1 m' (ptr + i) val) with (<[ptr + i := val mod 256]> m').
        apply lookup_insert_eq.
      * rewrite write_le_lookup_out by lia. apply Hset. lia.
  - intros _ (m' & -> & Hout & Hset). apply wp_ret, HQ; auto.
Qed.

(** [memcpy] of a block that does not overlap its destination. *)
Lemma wp_memcpy dst src n s (Q : Z → S → Prop) :
  0 ≤ n → mapped (st_mem s) dst n → mapped (st_mem s) src n → dst + n ≤ src ∨ src + n ≤ dst → dst ≠ NULL →
  (∀ m', only_in dst (dst + n) (st_mem s) m' →
     (∀ i, 0 ≤ i < n → load_le 1 m' (dst + i) = load_le 1 (st_mem s) (src + i)) →
     Q dst (st_put m' s)) →
  wp (memcpy dst src n) s Q.
Proof.
  intros Hn Hd Hs Hdis Hnz HQ. unfold memcpy. rewrite (proj2 (Z.eqb_neq _ _) Hnz). cbn [andb]. wp_steps.
  eapply (wp_for_up (λ i s', ∃ m', s' = st_put m' s ∧ only_in dst (dst + n) (st_mem s) m'
            ∧ ∀ j, 0 ≤ j < i → load_le 1 m' (dst + j) = load_le 1 (st_mem s) (src + j))).
  - lia.
  - exists (st_mem s). rewrite st_put_mem. split_and!; [done|apply only_in_refl|lia].
  - intros i _ Hi (m' & -> & Hout & Hset).
    assert (is_Some (load_le 1 (st_mem s) (src + i))) as [c Hc].
    { apply load_le_is_Some. eapply mapped_sub; [exact Hs|lia|lia]. }
    assert (mapped m' (dst + i) 1) as Hm'.
    { eapply only_in_mapped; [done|]. eapply mapped_sub; [exact Hd|lia|lia]. }
    wp_step. apply (wp_load _ _ c).
    { rewrite st_mem_put, <- Hc. eapply only_in_load; [exact Hout|change (Z.of_nat 1) with 1; lia]. }
    apply wp_store; rewrite st_mem_put; [by apply load_le_is_Some|].
    rewrite st_put_put. eexists. split_and!; [done|..].
    + etrans; [done|]. eapply only_in_weaken; [apply only_in_write_le|lia|lia]. done.
    + intros j Hj. destruct (decide (j = i)) as [->|Hne].
      * rewrite load_write_same, Z.mod_small; [done|]. by eapply load_le_range.
      * rewrite load_write_ne by (change (Z.of_nat 1) with 1; lia). apply Hset. lia.
  - intros _ (m' & -> & Hout & Hset). apply wp_ret, HQ; auto.
Qed.

(** [memcmp] decides equality of two blocks. *)
Lemma wp_memcmp a b xs ys s (Q : Z → S → Prop) :
  length xs = length ys →
  bytes_at (st_mem s) a xs → bytes_at (st_mem s) b ys →
  Q (if decide (xs = ys) then 0 else 1) s →
  wp (memcmp a b (Z.of_nat (length xs))) s Q.
Proof.
  intros Hlen Hxs Hys HQ. unfold memcmp.
  eapply (wp_loop (λ n s', s' = s ∧ 0 ≤ n ≤ Z.of_nat (length xs)
            ∧ drop (Z.to_nat n) xs = drop (Z.to_nat n) ys) (λ n _, Z.to_nat n)).
  - split_and!; [done|lia|lia|]. rewrite !drop_ge by lia. done.
  - lia.
  - intros n ? (-> & Hn & Heq). case_if; bool_facts.
    { apply wp_ret. subst n. by rewrite decide_True in HQ by exact Heq. }
    destruct (lookup_lt_is_Some_2 xs (Z.to_nat (n - 1))) as [x Hx]; [lia|].
    destruct (lookup_lt_is_Some_2 ys (Z.to_nat (n - 1))) as [y Hy]; [lia|].
    wp_step. eapply wp_load.
    { rewrite <- (Hxs _ _ Hx). f_equal. lia. }
    wp_step. eapply wp_load.
    { rewrite <- (Hys _ _ Hy). f_equal. lia. }
    case_if; bool_facts; apply wp_ret.
    + rewrite decide_False in HQ; [done|]. naive_solver.
    + split; [|lia]. split_and!; [done|lia|lia|].
      replace (Z.to_nat n) with (Datatypes.S (Z.to_nat (n - 1))) in Heq by lia.
      rewrite (drop_S _ _ _ Hx), (drop_S _ _ _ Hy). congruence.
Qed.

(** [strlen] counts the characters, at most [max]. *)
Lemma wp_strlen a bs max s (Q : Z → S → Prop) :
  0 ≤ max → cstr (st_mem s) a bs →
  Q (Z.min (Z.of_nat (length bs)) max) s →
  wp (strlen a max) s Q.
Proof.
  intros Hmax Hs HQ. unfold strlen.
  eapply (wp_loop (λ '(i, k) s', s' = s ∧ 0 ≤ i ≤ Z.of_nat (length bs) ∧ 0 ≤ k ∧ i + k = max)
            (λ '(i, k) _, Z.to_nat k)).
  - split_and!; [done|lia..].
  - simpl. lia.
  - intros [i k] ? (-> & Hi & Hk & Hik).
    destruct (decide (i = Z.of_nat (length bs))) as [->|Hne].
    { wp_step. eapply wp_load; [by apply cstr_end|]. simpl. apply wp_ret.
      by replace (Z.min _ _) with (Z.of_nat (length bs)) in HQ by lia. }
    destruct (lookup_lt_is_Some_2 bs (Z.to_nat i)) as [c Hc]; [lia|].
    wp_step. eapply wp_load.
    { rewrite <- (cstr_char _ _ _ _ _ Hs Hc). f_equal. lia. }
    pose proof (cstr_nz _ _ _ _ _ Hs Hc).
    case_if; bool_facts; [lia|]. case_if; bool_facts; apply wp_ret.
    + by replace (Z.min _ _) with i in HQ by lia.
    + split_and!; [done|lia..].
Qed.

Lemma common_prefix_spec xs ys (n := common_prefix xs ys) :
  (n ≤ length xs)%nat ∧ (n ≤ length ys)%nat ∧ take n xs = take n ys ∧
  ∀ x, xs !! n = Some x → ys !! n ≠ Some x.
Proof.
  subst n. revert ys. induction xs as [|x xs IH]; intros [|y ys]; simpl; try naive_solver lia.
  case_if; bool_facts; [|simpl; split_and!; [lia|lia|done|naive_solver]].
  destruct (IH ys) as (? & ? & Heq & ?). simpl. subst. rewrite Heq. split_and!; [lia|lia|done|done].
Qed.

(** [strmatch] returns the length of the longest common prefix. *)
Lemma wp_strmatch a b xs ys s (Q : Z → S → Prop) :
  cstr (st_mem s) a xs → cstr (st_mem s) b ys →
  Q (Z.of_nat (common_prefix xs ys)) s →
  wp (strmatch a b) s Q.
Proof.
  intros Ha Hb HQ. unfold strmatch. wp_step. apply wp_gets.
  pose proof (mapped_size _ _ _ (bytes_at_mapped _ _ _ (proj1 Ha))) as Hsz.
  rewrite length_app in Hsz. simpl in Hsz.
  destruct (common_prefix_spec xs ys) as (Hlx & Hly & Htake & Hdiff).
  set (n := common_prefix xs ys) in *.
  eapply (wp_loop (λ i s', s' = s ∧ 0 ≤ i ≤ Z.of_nat n) (λ i _, Z.to_nat (Z.of_nat n - i))).
  - split_and!; [done|lia..].
  - lia.
  - intros i ? (-> & Hi).
    destruct (decide (i = Z.of_nat (length xs))) as [->|Hne].
    { wp_step. eapply wp_load; [by apply cstr_end|]. simpl. apply wp_ret.
      by replace (length xs) with n by lia. }
    destruct (lookup_lt_is_Some_2 xs (Z.to_nat i)) as [x Hx]; [lia|].
    wp_step. eapply wp_load.
    { rewrite <- (cstr_char _ _ _ _ _ Ha Hx). f_equal. lia. }
    pose proof (cstr_nz _ _ _ _ _ Ha Hx).
    case_if; bool_facts; [lia|].
    assert (∃ y, load_le 1 (st_mem s) (b + i) = Some y ∧
              (if decide (i < Z.of_nat n) then x = y else x ≠ y)) as (y & Hy & Hxy).
    { destruct (decide (i = Z.of_nat (length ys))) as [->|Hney].
      { exists 0. split; [by apply cstr_end|]. rewrite decide_False by lia. done. }
      destruct (lookup_lt_is_Some_2 ys (Z.to_nat i)) as [y Hy]; [lia|]. exists y. split.
      { rewrite <- (cstr_char _ _ _ _ _ Hb Hy). f_equal. lia. }
      case_decide as Hlt.
      - assert (take n xs !! Z.to_nat i = Some x) as Hx' by (by rewrite lookup_take_lt by lia).
        rewrite Htake, lookup_take_lt in Hx' by lia. congruence.
      - replace (Z.to_nat i) with n in Hx, Hy by lia. intros ->. by apply (Hdiff y). }
    wp_step. eapply wp_load; [done|].
    case_decide; case_if; bool_facts; apply wp_ret; try lia.
    + split_and!; [done|lia..].
    + by replace i with (Z.of_nat n) by lia.
Qed.

(** [strcpy] copies the bytes before the first NUL, looking for it from the second
    byte on: the NUL itself is not copied, and a first byte that is 0 is. *)
Lemma wp_strcpy dst src b bs s (Q : Z → S → Prop) (n := Z.of_nat (length (b :: bs))) :
  bytes_at (st_mem s) src (b :: bs ++ [0]) → Forall (λ c, c ≠ 0) bs →
  mapped (st_mem s) dst n → dst + n ≤ src ∨ src + n + 1 ≤ dst →
  (∀ m', only_in dst (dst + n) (st_mem s) m' → bytes_at m' dst (b :: bs) → Q dst (st_put m' s)) →
  wp (strcpy dst src) s Q.
Proof.
  intros Hsrc Hnz Hdst Hdis HQ. unfold strcpy. wp_step. apply wp_gets.
  pose proof (mapped_size _ _ _ (bytes_at_mapped _ _ _ Hsrc)) as Hsz.
  simpl in Hsz. rewrite length_app in Hsz. simpl in Hsz.
  assert (n = 1 + Z.of_nat (length bs)) as Hn by (unfold n; simpl; lia). clearbody n.
  set (done_to i m' := ∀ j c, (b :: bs) !! j = Some c → Z.of_nat j < i → load_le 1 m' (dst + Z.of_nat j) = Some c).
  eapply (wp_loop (λ i s', 0 ≤ i < n ∧ ∃ m', s' = st_put m' s ∧ only_in dst (dst + n) (st_mem s) m' ∧ done_to i m')
            (λ i _, Z.to_nat (n - i))).
  - split; [lia|]. exists (st_mem s). rewrite st_put_mem. split_and!; [done|apply only_in_refl|]. intros j c _ ?. lia.
  - lia.
  - intros i _ (Hi & m' & -> & Hout & Hdone).
    assert (∀ k c, (b :: bs ++ [0]) !! Z.to_nat k = Some c → 0 ≤ k ≤ n →
      ∀ m1, only_in dst (dst + n) (st_mem s) m1 → load_le 1 m1 (src + k) = Some c) as Hld.
    { intros k c Hk Hkn m1 Hm1. rewrite <- (Hsrc _ _ Hk), Z2Nat.id by lia.
      eapply only_in_load; [exact Hm1|change (Z.of_nat 1) with 1; lia]. }
    destruct (lookup_lt_is_Some_2 (b :: bs) (Z.to_nat i)) as [c Hc]; [simpl; lia|].
    wp_step. eapply wp_load.
    { rewrite st_mem_put. apply (Hld i c); [|lia|done]. rewrite app_comm_cons. by apply lookup_app_l_Some. }
    assert (mapped m' (dst + i) 1) as Hm'.
    { eapply only_in_mapped; [done|]. eapply mapped_sub; [exact Hdst|lia|lia]. }
    wp_step. apply wp_store; rewrite st_mem_put; [by apply load_le_is_Some|]. rewrite st_put_put.
    set (m1 := write_le 1 m' (dst + i) c).
    assert (only_in dst (dst + n) (st_mem s) m1) as Hout1.
    { etrans; [exact Hout|]. eapply only_in_weaken; [by apply only_in_write_le|lia|lia]. }
    assert (done_to (i + 1) m1) as Hdone1.
    { intros j c' Hj Hlt. destruct (decide (Z.of_nat j = i)) as [<-|Hne].
      - rewrite Nat2Z.id in Hc. rewrite Hc in Hj. injection Hj as <-. unfold m1. rewrite load_write_same, Z.mod_small; [done|].
        eapply load_le_range, (Hsrc j). rewrite app_comm_cons. by apply lookup_app_l_Some.
      - unfold m1. rewrite load_write_ne by (change (Z.of_nat 1) with 1; lia). apply Hdone; [done|lia]. }
    destruct (lookup_lt_is_Some_2 (b :: bs ++ [0]) (Z.to_nat (i + 1))) as [d Hd]; [simpl; rewrite length_app; simpl; lia|].
    wp_step. eapply wp_load; [rewrite st_mem_put; apply (Hld (i + 1) d); [done|lia|done]|].
    replace (Z.to_nat (i + 1)) with (Datatypes.S (Z.to_nat i)) in Hd by lia. simpl in Hd.
    case_if; bool_facts; apply wp_ret.
    + assert (i + 1 < n).
      { destruct (decide (i + 1 < n)) as [|Hge]; [done|]. rewrite list_lookup_middle in Hd by lia. congruence. }
      split; [|lia]. split; [lia|]. by exists m1.
    + apply HQ; [done|]. intros j c' Hj. apply Hdone1; [done|]. pose proof (lookup_lt_Some _ _ _ Hj) as Hjl. simpl in Hjl.
      assert (Z.of_nat (length bs) ≤ i) as Hle; [|lia].
      destruct (decide (Z.of_nat (length bs) ≤ i)) as [|Hlt]; [done|]. exfalso.
      rewrite lookup_app_l in Hd by lia. rewrite Forall_lookup in Hnz. by apply (Hnz _ _ Hd).
Qed.
End specs.
