(* ===== verification/Printk.v ===== *)
(** * kernel/lib/printk: formatted output

    The functions of printk.c over the screen of Vga.v, an abstract rendering of
    format strings as a list of outputs, and the proof that printk implements
    it.  A [va_list] is the list of the arguments not yet read. *)
From S2P Require Import Prelude CInt Mem CString Vga.

(** The character codes of a literal. *)
Definition codes (str : string) : list Z :=
  (λ a, Z.of_nat (Ascii.nat_of_ascii a)) <$> String.list_ascii_of_string str.

Definition HEX_ALPHA : list Z := codes "0123456789abcdef" ++ [0].
Definition LOG_LOOKUP : list Z := [64; 41; 32; 28; 25; 23; 22; 21; 20; 19; 18; 18; 17; 17; 16].

(** A read of an array outside its bounds is undefined. *)
Definition nth_Z (l : list Z) (i : Z) : option Z := if i <? 0 then None else l !! Z.to_nat i.

(** ** The functions *)
Section defs.
Context {S : Type} {MS : MemState S} {VG : VgaState S}.

Definition U64_MAX_LOG_BASE (base : Z) : M S Z := of_option "LOG_LOOKUP" (nth_Z LOG_LOOKUP (base - 2)).
Definition hex_digit (d : Z) : M S Z := of_option "HEX_ALPHA" (nth_Z HEX_ALPHA d).

(** [array[i] = c] and [array[i]] of the local [char array[log]]. *)
Definition array_set (log : Z) (array : gmap Z Z) (i c : Z) : M S (gmap Z Z) :=
  if i <? log then mret (<[i := c]> array) else faultM (Undefined "array").
Definition array_get (log : Z) (array : gmap Z Z) (i : Z) : M S Z :=
  if i <? log then of_option "array" (array !! i) else faultM (Undefined "array").

(** The loop that prints [array] from [i] on. *)
Definition put_array (log i : Z) (array : gmap Z Z) : M S unit :=
  loop 257 (λ i,
    if i <=? log - 1 then
      c ← array_get log array i;
      vga_putchar c VGA_WHITE ;;
      mret (inl (u8 (i + 1)))
    else mret (inr tt)) i.

(** A [u64] has at most 64 digits. *)
Definition putnbr (nbr base : Z) : M S unit :=
  log ← U64_MAX_LOG_BASE base;
  '(i, array) ← loop 64 (λ '(nbr, i, array),
    c ← hex_digit (nbr mod base);
    array ← array_set log array i c;
    let i := u8 (i - 1) in
    let nbr := nbr / base in
    if negb (nbr =? 0) then mret (inl (nbr, i, array)) else mret (inr (i, array)))
    (nbr, u8 (log - 1), ∅);
  put_array log (u8 (i + 1)) array.

Definition putptr (ptr : Z) : M S unit :=
  vga_putchar 48 VGA_WHITE ;;
  vga_putchar 120 VGA_WHITE ;;
  log ← U64_MAX_LOG_BASE 16;
  '(i, array) ← loop 256 (λ '(ptr, i, array),
    c ← hex_digit (ptr mod 16);
    array ← array_set log array i c;
    let i := u8 (i - 1) in
    let ptr := ptr / 16 in
    if negb (i =? U8_MAX) then mret (inl (ptr, i, array)) else mret (inr (i, array)))
    (ptr, u8 (log - 1), ∅);
  put_array log (u8 (i + 1)) array.

Definition putstr (str : Z) : M S unit :=
  fuel ← mem_fuel;
  loop fuel (λ str,
    c ← rd8 str;
    if negb (c =? 0) then vga_putchar (i8 c) VGA_WHITE ;; mret (inl (str + 1)) else mret (inr tt)) str.

Definition va_arg (ap : list Z) : M S (Z * list Z) :=
  match ap with
  | [] => faultM (Undefined "va_arg")
  | a :: ap' => mret (a, ap')
  end.

Definition print_arg (specifier : Z) (ap : list Z) : M S (Z * list Z) :=
  if specifier =? 98 then '(a, ap) ← va_arg ap; putnbr (u64 a) 2 ;; mret (2, ap)
  else if specifier =? 120 then '(a, ap) ← va_arg ap; putnbr (u64 a) 16 ;; mret (2, ap)
  else if specifier =? 117 then '(a, ap) ← va_arg ap; putnbr (u64 a) 10 ;; mret (2, ap)
  else if specifier =? 99 then '(a, ap) ← va_arg ap; vga_putchar (i8 (i32 a)) VGA_WHITE ;; mret (2, ap)
  else if specifier =? 115 then '(a, ap) ← va_arg ap; putstr (u64 a) ;; mret (2, ap)
  else if specifier =? 112 then '(a, ap) ← va_arg ap; putptr (u64 a) ;; mret (2, ap)
  else if specifier =? 37 then vga_putchar 37 VGA_WHITE ;; mret (2, ap)
  else mret (1, ap).

(** The inner loop of [interpret]: up to the next [%], or [None] at the end. *)
Definition print_plain (format : Z) : M S (option Z) :=
  fuel ← mem_fuel;
  loop fuel (λ format,
    c ← rd8 format;
    if c =? 37 then mret (inr (Some format))
    else if c =? 0 then mret (inr None)
    else if c =? 10 then vga_pad ;; mret (inl (format + 1))
    else vga_putchar (i8 c) VGA_WHITE ;; mret (inl (format + 1))) format.

Definition interpret (format : Z) (args : list Z) : M S (list Z) :=
  fuel ← mem_fuel;
  loop fuel (λ '(format, args),
    r ← print_plain format;
    match r with
    | None => mret (inr args)
    | Some format =>
        c ← rd8 (format + 1);
        '(n, args) ← print_arg c args;
        mret (inl (format + n, args))
    end) (format, args).

Definition _printk (format : Z) (args : list Z) : M S (list Z) :=
  if format =? NULL then mret args else interpret format args.

Definition printk (format : Z) (args : list Z) : M S unit := _printk format args ;; mret tt.
End defs.

(** ** What is printed *)
Inductive output : Type := Ch (c : Z) | Newline.

Section emit.
Context {S : Type} {MS : MemState S} {VG : VgaState S}.
Definition emit1 (o : output) : M S unit :=
  match o with Ch c => vga_putchar c VGA_WHITE | Newline => vga_pad end.
Fixpoint emit (l : list output) : M S unit :=
  match l with
  | [] => mret tt
  | o :: l' => emit1 o ;; emit l'
  end.
End emit.

(** The [k] last digits of [n], the most significant one first. *)
Fixpoint digits (k : nat) (base n : Z) : list Z :=
  match k with
  | O => []
  | Datatypes.S k' => digits k' base (n / base) ++ [n mod base]
  end.

(** The number of digits of [n]: as many as needed, but at least one. *)
Fixpoint ndigits (fuel : nat) (base n : Z) : nat :=
  match fuel with
  | O => O
  | Datatypes.S fuel' => Datatypes.S (if n / base =? 0 then O else ndigits fuel' base (n / base))
  end.

Definition numeral (base n : Z) : list Z := digits (ndigits 64 base n) base n.
Definition digit_char (d : Z) : Z := default 0 (nth_Z HEX_ALPHA d).

(** Reading a numeral back. *)
Definition value (base : Z) (ds : list Z) : Z := foldl (λ n d, n * base + d) 0 ds.
Definition char_digit (c : Z) : option Z :=
  (λ p, Z.of_nat p.1) <$> list_find (λ x, x = c) (take 16 HEX_ALPHA).
Definition read_number (base : Z) (cs : list Z) : option Z := value base <$> mapM char_digit cs.

(** The rendering of a format; [str a] is the string at [a], if it is one.
    [None] when an argument is missing or not the string it should be. *)
Definition render_arg (str : Z → option (list Z)) (c : Z) (args : list Z) : option (list output * list Z) :=
  if c =? 37 then Some ([Ch 37], args)
  else
    match args with
    | [] => None
    | a :: args' =>
        o ← (if c =? 98 then Some ((Ch ∘ digit_char) <$> numeral 2 (u64 a))
             else if c =? 120 then Some ((Ch ∘ digit_char) <$> numeral 16 (u64 a))
             else if c =? 117 then Some ((Ch ∘ digit_char) <$> numeral 10 (u64 a))
             else if c =? 99 then Some [Ch (i8 (i32 a))]
             else if c =? 115 then fmap (Ch ∘ i8) <$> str (u64 a)
             else Some (Ch 48 :: Ch 120 :: ((Ch ∘ digit_char) <$> digits 16 16 (u64 a))));
        Some (o, args')
    end.

Definition is_specifier (c : Z) : bool := bool_decide (c ∈ codes "bxucsp%").

Definition plain_output (c : Z) : output := if c =? 10 then Newline else Ch (i8 c).

Fixpoint render (str : Z → option (list Z)) (format args : list Z) : option (list output * list Z) :=
  match format with
  | [] => Some ([], args)
  | c :: rest =>
      if c =? 37 then
        match rest with
        | [] => Some ([], args)
        | c :: rest' =>
            if is_specifier c then
              '(o, args) ← render_arg str c args;
              '(o', args) ← render str rest' args;
              Some (o ++ o', args)
            else render str rest args
        end
      else
        '(o, args) ← render str rest args;
        Some (plain_output c :: o, args)
  end.

Example render_ex : render (λ _, Some (codes "abc")) (codes "n=%u %s%p") [42; 0; 255] =
  Some (Ch <$> codes "n=42 abc0x00000000000000ff", []).
Proof. reflexivity. Qed.

Lemma is_specifier_true c :
  is_specifier c = true ↔ c = 98 ∨ c = 120 ∨ c = 117 ∨ c = 99 ∨ c = 115 ∨ c = 112 ∨ c = 37.
Proof.
  unfold is_specifier. rewrite bool_decide_eq_true. change (codes "bxucsp%") with [98; 120; 117; 99; 115; 112; 37].
  rewrite !elem_of_cons, elem_of_nil. tauto.
Qed.

(** ** Numerals *)
Lemma digits_length k base n : length (digits k base n) = k.
Proof. revert n. induction k as [|k IH]; intros n; [done|]. simpl. rewrite length_app, IH. simpl. lia. Qed.

Lemma digits_range k base n : 0 < base → Forall (λ d, 0 ≤ d < base) (digits k base n).
Proof.
  intros Hb. revert n. induction k as [|k IH]; intros n; simpl; [constructor|].
  apply Forall_app. split; [apply IH|]. constructor; [by apply Z.mod_pos_bound|constructor].
Qed.

Lemma value_snoc base ds d : value base (ds ++ [d]) = value base ds * base + d.
Proof. unfold value. by rewrite foldl_app. Qed.

Lemma value_digits k base n : 0 < base → 0 ≤ n → value base (digits k base n) = n mod base ^ Z.of_nat k.
Proof.
  intros Hb. revert n. induction k as [|k IH]; intros n Hn; [by rewrite Z.mod_1_r|].
  cbn [digits]. rewrite value_snoc, IH by (apply Z.div_pos; lia).
  rewrite Nat2Z.inj_succ, Z.pow_succ_r, Z.rem_mul_r by lia. lia.
Qed.

Lemma div_half base n f : 2 ≤ base → 0 ≤ n < 2 ^ Z.of_nat (Datatypes.S f) → 0 ≤ n / base < 2 ^ Z.of_nat f.
Proof.
  rewrite Nat2Z.inj_succ, Z.pow_succ_r by lia. intros Hb Hn. split; [apply Z.div_pos; lia|].
  apply Z.div_lt_upper_bound; nia.
Qed.

Lemma ndigits_bound fuel base n : 2 ≤ base → 0 ≤ n < 2 ^ Z.of_nat fuel →
  n < base ^ Z.of_nat (ndigits fuel base n) ∨ (fuel = O ∧ n = 0).
Proof.
  intros Hb. revert n. induction fuel as [|f IH]; intros n Hn; [right; simpl in Hn; lia|left].
  cbn [ndigits]. pose proof (div_half _ _ _ Hb Hn) as Hd.
  rewrite Nat2Z.inj_succ, Z.pow_succ_r by lia. pose proof (Z.mod_pos_bound n base ltac:(lia)).
  pose proof (Z.div_mod n base ltac:(lia)). case_if; bool_facts.
  - change (base ^ Z.of_nat 0) with 1. nia.
  - destruct (IH _ Hd) as [Hlt|[-> Hz]]; [nia|lia].
Qed.

Lemma ndigits_le fuel base n m : 2 ≤ base → 0 ≤ n < base ^ Z.of_nat m → (0 < m)%nat →
  (ndigits fuel base n ≤ m)%nat.
Proof.
  intros Hb. revert n m. induction fuel as [|f IH]; intros n m Hn Hm; [simpl; lia|].
  cbn [ndigits]. destruct m as [|m]; [lia|]. apply le_n_S. case_if; [lia|]. bool_facts.
  rewrite Nat2Z.inj_succ, Z.pow_succ_r in Hn by lia.
  assert (0 ≤ n / base < base ^ Z.of_nat m) as Hd.
  { split; [apply Z.div_pos; lia|]. apply Z.div_lt_upper_bound; lia. }
  apply IH; [done|]. destruct m; [simpl in Hd; lia|lia].
Qed.

Lemma numeral_value base n : 2 ≤ base → 0 ≤ n < 2 ^ 64 → value base (numeral base n) = n.
Proof.
  intros Hb Hn. unfold numeral. rewrite value_digits by lia. apply Z.mod_small.
  destruct (ndigits_bound 64 base n Hb Hn) as [?|[? _]]; [lia|done].
Qed.

Lemma numeral_head fuel base n : 2 ≤ base → 0 ≤ n < 2 ^ Z.of_nat fuel →
  head (digits (ndigits fuel base n) base n) = Some 0 → n = 0.
Proof.
  intros Hb. revert n. induction fuel as [|f IH]; intros n Hn Hd; [simpl in Hn; lia|].
  cbn [ndigits] in Hd. pose proof (div_half _ _ _ Hb Hn) as Hh. destruct (n / base =? 0) eqn:E; bool_facts.
  - cbn in Hd. injection Hd as Hd. pose proof (Z.div_mod n base). lia.
  - cbn [digits] in Hd. exfalso. apply E. apply IH; [exact Hh|].
    destruct (digits _ base (n / base)) as [|d ds] eqn:Hds; [|by rewrite <- app_comm_cons in Hd].
    apply (f_equal length) in Hds. rewrite digits_length in Hds.
    destruct f; [simpl in Hh; lia|discriminate Hds].
Qed.

Lemma hex_digit_char d : 0 ≤ d < 16 → nth_Z HEX_ALPHA d = Some (digit_char d) ∧ char_digit (digit_char d) = Some d.
Proof.
  intros Hd.
  pose proof (range_forall (λ d, bool_decide (nth_Z HEX_ALPHA d = Some (digit_char d) ∧
    char_digit (digit_char d) = Some d)) 0 16 ltac:(by vm_compute) d ltac:(lia)) as H.
  by apply bool_decide_eq_true in H.
Qed.

Lemma read_digits base ds : base ≤ 16 → Forall (λ d, 0 ≤ d < base) ds →
  read_number base (digit_char <$> ds) = Some (value base ds).
Proof.
  intros Hb Hds. unfold read_number. enough (mapM char_digit (digit_char <$> ds) = Some ds) as -> by done.
  induction Hds as [|d ds Hd _ IH]; [done|]. rewrite fmap_cons. cbn [mapM].
  destruct (hex_digit_char d) as [_ ->]; [lia|]. simpl. by rewrite IH.
Qed.

(** Every base of the table leaves room for the digits of any [u64]. *)
Lemma log_lookup base : 2 ≤ base ≤ 16 →
  ∃ log, nth_Z LOG_LOOKUP (base - 2) = Some log ∧ 0 < log ≤ 64 ∧ 2 ^ 64 ≤ base ^ log.
Proof.
  intros Hb.
  pose proof (range_forall (λ base, match nth_Z LOG_LOOKUP (base - 2) with
    | Some log => (0 <? log) && (log <=? 64) && (2 ^ 64 <=? base ^ log) | None => false end) 2 15
    ltac:(by vm_compute) base ltac:(lia)) as H. cbv beta in H.
  destruct (nth_Z LOG_LOOKUP (base - 2)) as [log|]; [|done]. exists log. split; [done|]. bool_facts. lia.
Qed.

(** ** The loops of putnbr *)
Section loops.
Context {S : Type} {MS : MemState S} {VG : VgaState S}.
Implicit Types s : S.

Lemma array_set_Done log (array : gmap Z Z) i c s : i < log → array_set log array i c s = Done (<[i := c]> array, s).
Proof. intros Hi. unfold array_set. by rewrite (proj2 (Z.ltb_lt _ _) Hi). Qed.

Lemma array_get_Done log (array : gmap Z Z) i c s : i < log → array !! i = Some c → array_get log array i s = Done (c, s).
Proof. intros Hi Hc. unfold array_get. by rewrite (proj2 (Z.ltb_lt _ _) Hi), Hc. Qed.

Lemma hex_digit_Done d s : 0 ≤ d < 16 → hex_digit d s = Done (digit_char d, s).
Proof. intros Hd. unfold hex_digit. by rewrite (proj1 (hex_digit_char d Hd)). Qed.

Lemma put_array_emit log array cs s : log ≤ 64 →
  ∀ i fuel, 0 ≤ i → i + Z.of_nat (length cs) = log → (length cs < fuel)%nat →
  (∀ j c, cs !! j = Some c → array !! (i + Z.of_nat j) = Some c) →
  loop fuel (λ i,
    if i <=? log - 1 then
      c ← array_get log array i;
      vga_putchar c VGA_WHITE ;;
      mret (inl (u8 (i + 1)))
    else mret (inr tt)) i s = emit (Ch <$> cs) s.
Proof.
  intros Hlog. revert s. induction cs as [|c cs IH]; intros s i fuel Hi Hlen Hf Harr;
    (destruct fuel as [|fuel]; [simpl in Hf; lia|]); cbn [loop]; unfold mbind at 1, M_bind at 1.
  - rewrite (proj2 (Z.leb_gt i (log - 1))) by (simpl in Hlen; lia). done.
  - simpl in Hlen. rewrite (proj2 (Z.leb_le i (log - 1))) by lia.
    rewrite (bind_Done _ _ _ c s).
    2: { apply array_get_Done; [lia|]. rewrite <- (Z.add_0_r i). by apply (Harr O). }
    rewrite fmap_cons. cbn [emit emit1]. unfold mbind, M_bind.
    destruct (vga_putchar c VGA_WHITE s) as [[[] s1]|f]; [|done]. unfold mret, M_ret.
    rewrite u8_small by lia. apply IH; [lia|lia|simpl in Hf; lia|].
    intros j c' Hj. specialize (Harr (Datatypes.S j) c' Hj). rewrite Nat2Z.inj_succ in Harr.
    by replace (i + 1 + Z.of_nat j) with (i + Z.succ (Z.of_nat j)) by lia.
Qed.

(** What the array holds after the digits [ds] have been written up to [p]. *)
Definition array_holds (array : gmap Z Z) (p : Z) (ds : list Z) : Prop :=
  ∀ j d, ds !! j = Some d → array !! (p - Z.of_nat (length ds) + 1 + Z.of_nat j) = Some (digit_char d).

Lemma array_holds_snoc array p ds d :
  array_holds array (p - 1) ds → array !! p = Some (digit_char d) → array_holds array p (ds ++ [d]).
Proof.
  intros Hds Hd j d' Hj. rewrite length_app, Nat2Z.inj_add. change (Z.of_nat (length [d])) with 1.
  apply lookup_app_Some in Hj as [Hj|[Hlen Hj]].
  - rewrite <- (Hds _ _ Hj). f_equal. lia.
  - apply list_lookup_singleton_Some in Hj as [Hj <-]. rewrite <- Hd. f_equal. lia.
Qed.

Lemma putnbr_loop log base s : 2 ≤ base ≤ 16 → log ≤ 64 →
  ∀ fuel n p array, 0 ≤ n < 2 ^ Z.of_nat fuel → 0 < Z.of_nat fuel → Z.of_nat (ndigits fuel base n) ≤ p + 1 → p < log →
  ∃ array', loop fuel (λ '(nbr, i, array),
      c ← hex_digit (nbr mod base);
      array ← array_set log array i c;
      let i := u8 (i - 1) in
      let nbr := nbr / base in
      if negb (nbr =? 0) then mret (inl (nbr, i, array)) else mret (inr (i, array))) (n, p, array) s
    = Done ((u8 (p - Z.of_nat (ndigits fuel base n)), array'), s) ∧
    array_holds array' p (digits (ndigits fuel base n) base n) ∧
    ∀ q, p < q → array' !! q = array !! q.
Proof.
  intros Hb Hlog. induction fuel as [|f IH]; intros n p array Hn Hf Hp Hplog; [simpl in Hf; lia|].
  pose proof (Z.mod_pos_bound n base ltac:(lia)) as Hd.
  pose proof (div_half _ _ _ (proj1 Hb) Hn) as Hh.
  assert (0 ≤ p) as Hp0 by (cbn [ndigits] in Hp; lia).
  cbn [loop]. rewrite (bind_Done _ _ s (if negb (n / base =? 0)
      then inl (n / base, u8 (p - 1), <[p:=digit_char (n mod base)]> array)
      else inr (u8 (p - 1), <[p:=digit_char (n mod base)]> array)) s).
  2: { rewrite (bind_Done _ _ s (digit_char (n mod base)) s) by (apply hex_digit_Done; lia).
       rewrite (bind_Done _ _ s _ s) by (by apply array_set_Done). cbv zeta. by case_if. }
  cbn [ndigits] in *. destruct (n / base =? 0) eqn:E; bool_facts; cbn [negb].
  - exists (<[p:=digit_char (n mod base)]> array). split; [done|]. split.
    + cbn [digits app]. apply (array_holds_snoc _ _ []); [done|]. by rewrite lookup_insert_eq.
    + intros q Hq. apply lookup_insert_ne. lia.
  - destruct f as [|f]; [simpl in Hh; lia|].
    rewrite (u8_small (p - 1)) by (cbn [ndigits] in Hp; lia).
    destruct (IH (n / base) (p - 1) (<[p:=digit_char (n mod base)]> array)) as (array' & Hrun & Harr & Hout);
      [done|lia|lia|lia|].
    exists array'. split; [rewrite Hrun; do 4 f_equal; lia|]. split.
    + cbn [digits]. apply array_holds_snoc; [exact Harr|]. rewrite Hout by lia. apply lookup_insert_eq.
    + intros q Hq. rewrite Hout by lia. apply lookup_insert_ne. lia.
Qed.

Lemma putptr_loop log s : log ≤ 64 →
  ∀ k p n array fuel, p = Z.of_nat k → 0 ≤ n → p < log → (k < fuel)%nat →
  ∃ array', loop fuel (λ '(ptr, i, array),
      c ← hex_digit (ptr mod 16);
      array ← array_set log array i c;
      let i := u8 (i - 1) in
      let ptr := ptr / 16 in
      if negb (i =? U8_MAX) then mret (inl (ptr, i, array)) else mret (inr (i, array))) (n, p, array) s
    = Done ((U8_MAX, array'), s) ∧
    array_holds array' p (digits (Datatypes.S k) 16 n) ∧
    ∀ q, p < q → array' !! q = array !! q.
Proof.
  intros Hlog. induction k as [|k IH]; intros p n array fuel Hpk Hn Hk Hf;
    (destruct fuel as [|fuel]; [lia|]); pose proof (Z.mod_pos_bound n 16 ltac:(lia)) as Hd;
    set (array1 := <[p:=digit_char (n mod 16)]> array);
    cbn [loop]; rewrite (bind_Done _ _ s (if negb (u8 (p - 1) =? U8_MAX)
      then inl (n / 16, u8 (p - 1), array1) else inr (u8 (p - 1), array1)) s);
    try (rewrite (bind_Done _ _ s (digit_char (n mod 16)) s) by (apply hex_digit_Done; lia);
         rewrite (bind_Done _ _ s _ s) by (by apply array_set_Done); cbv zeta; by case_if).
  - exists array1. split; [by rewrite Hpk|]. split; [|intros q Hq; apply lookup_insert_ne; lia].
    apply (array_holds_snoc _ _ []); [done|]. by apply lookup_insert_eq.
  - assert (u8 (p - 1) = p - 1) as Hp by (rewrite u8_small; lia).
    destruct (IH (p - 1) (n / 16) array1 fuel) as (array' & Hrun & Harr & Hout); [lia|apply Z.div_pos; lia|lia|lia|].
    exists array'. split; [|split].
    + rewrite Hp, (proj2 (Z.eqb_neq _ _)) by (unfold U8_MAX; lia). exact Hrun.
    + change (digits (Datatypes.S (Datatypes.S k)) 16 n) with (digits (Datatypes.S k) 16 (n / 16) ++ [n mod 16]).
      apply array_holds_snoc; [exact Harr|].
      rewrite Hout by lia. apply lookup_insert_eq.
    + intros q Hq. rewrite Hout by lia. apply lookup_insert_ne. lia.
Qed.

Lemma put_array_digits log array ds s : log ≤ 64 → array_holds array (log - 1) ds → Z.of_nat (length ds) ≤ log →
  put_array log (log - Z.of_nat (length ds)) array s = emit (Ch ∘ digit_char <$> ds) s.
Proof.
  intros Hlog Harr Hlen. rewrite list_fmap_compose. apply put_array_emit; rewrite ?length_fmap; [done|lia|lia|lia|].
  intros j c (d & -> & Hd)%list_lookup_fmap_Some. rewrite <- (Harr _ _ Hd). f_equal. lia.
Qed.

Lemma putnbr_emit nbr base s : 2 ≤ base ≤ 16 → 0 ≤ nbr < 2 ^ 64 →
  putnbr nbr base s = emit (Ch ∘ digit_char <$> numeral base nbr) s.
Proof.
  intros Hb Hn. destruct (log_lookup base Hb) as (log & Hlog & Hrange & Hpow).
  unfold putnbr. rewrite (bind_Done _ _ s log s) by (unfold U64_MAX_LOG_BASE; by rewrite Hlog).
  assert (Z.of_nat (ndigits 64 base nbr) ≤ log) as Hnd.
  { enough (ndigits 64 base nbr ≤ Z.to_nat log)%nat by lia. apply ndigits_le; [lia| |lia].
    rewrite Z2Nat.id; lia. }
  rewrite u8_small by lia.
  destruct (putnbr_loop log base s Hb ltac:(lia) 64%nat nbr (log - 1) ∅) as (array & Hrun & Harr & _);
    [done|lia|lia|lia|].
  rewrite (bind_Done _ _ s _ s Hrun). cbv beta iota.
  unfold numeral. rewrite <- (put_array_digits log array _ s); [|lia|exact Harr|rewrite digits_length; lia].
  rewrite digits_length. f_equal. unfold u8. rewrite Zplus_mod_idemp_l, Z.mod_small; lia.
Qed.

Lemma putptr_emit ptr s : 0 ≤ ptr < 2 ^ 64 →
  putptr ptr s = emit (Ch 48 :: Ch 120 :: (Ch ∘ digit_char <$> digits 16 16 ptr)) s.
Proof.
  intros Hp. unfold putptr. cbn [emit emit1]. unfold mbind at 1 2, M_bind at 1 2. unfold mbind at 5 6, M_bind at 5 6.
  destruct (vga_putchar 48 VGA_WHITE s) as [[[] s1]|f]; [|done].
  destruct (vga_putchar 120 VGA_WHITE s1) as [[[] s2]|f]; [|done].
  rewrite (bind_Done _ _ s2 16 s2) by done.
  destruct (putptr_loop 16 s2 ltac:(lia) 15%nat 15 ptr ∅ 256%nat) as (array & Hrun & Harr & _); [done|lia|lia|lia|].
  change (u8 (16 - 1)) with 15. rewrite (bind_Done _ _ s2 _ s2 Hrun). cbv beta iota.
  by apply (put_array_digits 16 array (digits 16 16 ptr)).
Qed.

(** ** Printing *)
Definition off_screen_same s s' : Prop := ∀ a, ¬ on_screen a → st_mem s' !! a = st_mem s !! a.

(** [outs] have been printed from [s], which led to [s']. *)
Record shown s (outs : list output) s' : Prop := {
  sh_emit : emit outs s = Done (tt, s');
  sh_ok : screen_ok s';
  sh_same : off_screen_same s s';
}.

Lemma emit_app l1 l2 s : emit (l1 ++ l2) s = (emit l1 ;; emit l2) s.
Proof.
  revert s. induction l1 as [|o l1 IH]; intros s; [done|]. cbn [emit app]. unfold mbind, M_bind in *.
  destruct (emit1 o s) as [[[] s1]|f]; [apply IH|done].
Qed.

Lemma shown_nil s : screen_ok s → shown s [] s.
Proof. by split. Qed.

Lemma shown_app s s1 s2 l1 l2 : shown s l1 s1 → shown s1 l2 s2 → shown s (l1 ++ l2) s2.
Proof.
  intros [H1 _ Hs1] [H2 Hok Hs2]. split; [|done|].
  - by rewrite emit_app, (bind_Done _ _ _ _ _ H1).
  - intros a Ha. by rewrite Hs2, Hs1.
Qed.

Lemma wp_emit1 o s (Q : unit → S → Prop) : screen_ok s → (∀ s', shown s [o] s' → Q tt s') → wp (emit1 o) s Q.
Proof.
  intros Hok HQ.
  enough (wp (emit1 o) s (λ _ s', screen_ok s' ∧ off_screen_same s s')) as H.
  { apply wp_unit in H as (s' & Hrun & Hok' & Hs). eapply wp_eq; [exact Hrun|]. apply HQ.
    split; [|done|done]. cbn [emit]. by rewrite (bind_Done _ _ _ _ _ Hrun). }
  destruct o as [c|]; [apply wp_vga_putchar|apply wp_vga_pad]; try done; intros s' Hp;
    (split; [apply Hp|exact (pr_outside _ _ _ _ Hp)]).
Qed.

Lemma shown_emit l s : screen_ok s → ∃ s', shown s l s'.
Proof.
  revert s. induction l as [|o l IH]; intros s Hok; [exists s; by apply shown_nil|].
  assert (wp (emit1 o) s (λ _ s1, shown s [o] s1)) as (s1 & _ & H1)%wp_unit by (by apply wp_emit1).
  destruct (IH s1 (sh_ok _ _ _ H1)) as [s2 H2]. exists s2. by apply (shown_app s s1 s2 [o] l).
Qed.

Lemma wp_shown (m : M S unit) l s (Q : unit → S → Prop) :
  m s = emit l s → screen_ok s → (∀ s', shown s l s' → Q tt s') → wp m s Q.
Proof.
  intros Hm Hok HQ. destruct (shown_emit l s Hok) as [s' Hs]. eapply wp_eq; [|by apply HQ].
  rewrite Hm. apply Hs.
Qed.

(** A string outside the screen. *)
Record text_at (m : mem) (a : Z) (bs : list Z) : Prop := {
  text_cstr : cstr m a bs;
  text_off : ∀ i, a ≤ i ≤ a + Z.of_nat (length bs) → ¬ on_screen i;
}.

Lemma load1_lookup m m' a : m' !! a = m !! a → load_le 1 m' a = load_le 1 m a.
Proof. intros H. apply load_le_ext. intros i Hi. change (Z.of_nat 1) with 1 in Hi. by replace i with a by lia. Qed.

Lemma text_same s s' a bs : off_screen_same s s' → text_at (st_mem s) a bs → text_at (st_mem s') a bs.
Proof.
  intros Hs [[Hb Hnz] Hoff]. split; [split; [|done]|done]. intros i b Hi. rewrite <- (Hb i b Hi).
  apply load1_lookup, Hs, Hoff. apply lookup_lt_Some in Hi. rewrite length_app in Hi. simpl in Hi. lia.
Qed.

Lemma text_drop m a l1 l2 : text_at m a (l1 ++ l2) → text_at m (a + Z.of_nat (length l1)) l2.
Proof.
  intros [[Hb Hnz] Hoff]. rewrite Forall_app in Hnz. split; [split; [|apply Hnz]|].
  - intros i b Hi. rewrite <- (Hb (length l1 + i)%nat b).
    + f_equal. lia.
    + rewrite <- app_assoc, lookup_app_r by lia. rewrite <- Hi. f_equal. lia.
  - intros i Hi. apply Hoff. rewrite length_app. lia.
Qed.

Lemma text_fuel m a bs : text_at m a bs → (length bs < Datatypes.S (size m))%nat.
Proof.
  intros [[Hb _] _]. apply bytes_at_mapped, mapped_size in Hb. rewrite length_app in Hb. simpl in Hb. lia.
Qed.

Lemma text_nil m a : text_at m a [] → load_le 1 m a = Some 0.
Proof. intros [[Hb _] _]. rewrite <- (Z.add_0_r a). by apply (Hb O). Qed.

Lemma text_cons m a c bs : text_at m a (c :: bs) → load_le 1 m a = Some c ∧ c ≠ 0 ∧ text_at m (a + 1) bs.
Proof.
  intros Ht. split; [|split; [|by apply (text_drop m a [c] bs)]].
  - rewrite <- (Z.add_0_r a). by apply (proj1 (text_cstr _ _ _ Ht) O).
  - destruct (text_cstr _ _ _ Ht) as [_ Hnz]. by apply Forall_cons in Hnz as [? _].
Qed.

Lemma wp_putstr a bs s (Q : unit → S → Prop) :
  screen_ok s → text_at (st_mem s) a bs → (∀ s', shown s (Ch ∘ i8 <$> bs) s' → Q tt s') → wp (putstr a) s Q.
Proof.
  intros Hok Ht HQ. unfold putstr. wp_steps.
  apply (wp_loop_rounds (λ n a s1, ∃ l1 l2, bs = l1 ++ l2 ∧ n = length l2 ∧
    text_at (st_mem s1) a l2 ∧ shown s (Ch ∘ i8 <$> l1) s1)) with (n := length bs).
  - exists [], bs. by split_and!; [..|apply shown_nil].
  - by eapply text_fuel.
  - intros n p s1 (l1 & l2 & Hbs & -> & Ht1 & Hs). wp_steps. destruct l2 as [|c l2].
    + eapply wp_load; [by apply text_nil|]. wp_steps. apply HQ. by rewrite Hbs, app_nil_r.
    + apply text_cons in Ht1 as (Hc & Hnz & Ht2). eapply wp_load; [exact Hc|].
      rewrite (proj2 (Z.eqb_neq _ _) Hnz). cbn [negb]. wp_steps.
      apply (wp_emit1 (Ch (i8 c))); [apply Hs|]. intros s2 H2. wp_steps.
      exists (length l2). split; [simpl; lia|]. exists (l1 ++ [c]), l2.
      split; [by rewrite <- app_assoc|]. split; [done|].
      split; [eapply text_same; [apply H2|exact Ht2]|]. rewrite fmap_app. by eapply shown_app.
Qed.

Lemma wp_print_plain f bs s (Q : option Z → S → Prop) :
  screen_ok s → text_at (st_mem s) f bs →
  (∀ r l1 l2 s', bs = l1 ++ l2 → Forall (λ c, c ≠ 37) l1 → shown s (plain_output <$> l1) s' →
     match r with None => l2 = [] | Some f' => f' = f + Z.of_nat (length l1) ∧ head l2 = Some 37 end → Q r s') →
  wp (print_plain f) s Q.
Proof.
  intros Hok Ht HQ. unfold print_plain. wp_steps.
  apply (wp_loop_rounds (λ n p s1, ∃ l1 l2, bs = l1 ++ l2 ∧ n = length l2 ∧ p = f + Z.of_nat (length l1) ∧
    Forall (λ c, c ≠ 37) l1 ∧ text_at (st_mem s1) p l2 ∧ shown s (plain_output <$> l1) s1)) with (n := length bs).
  - exists [], bs. split_and!; [done|done|simpl; lia|constructor|done|by apply shown_nil].
  - by eapply text_fuel.
  - intros n p s1 (l1 & l2 & Hbs & -> & Hp & Hl1 & Ht1 & Hs). wp_steps. destruct l2 as [|c l2].
    + eapply wp_load; [by apply text_nil|]. cbn [Z.eqb]. wp_steps. by eapply HQ.
    + apply text_cons in Ht1 as (Hc & Hnz & Ht2). eapply wp_load; [exact Hc|].
      destruct (c =? 37) eqn:E37; bool_facts.
      { wp_steps. eapply HQ; [done|done|done|]. by subst c. }
      rewrite (proj2 (Z.eqb_neq _ _) Hnz).
      assert (∀ s2, shown s1 [plain_output c] s2 → ∃ n', (n' < length (c :: l2))%nat ∧ ∃ k1 k2,
        bs = k1 ++ k2 ∧ n' = length k2 ∧ p + 1 = f + Z.of_nat (length k1) ∧ Forall (λ c, c ≠ 37) k1 ∧
        text_at (st_mem s2) (p + 1) k2 ∧ shown s (plain_output <$> k1) s2) as Hnext.
      { intros s2 H2. exists (length l2). split; [simpl; lia|]. exists (l1 ++ [c]), l2.
        split; [by rewrite <- app_assoc|]. split; [done|]. split; [rewrite length_app; simpl; lia|].
        split; [apply Forall_app; by repeat constructor|].
        split; [eapply text_same; [apply H2|exact Ht2]|]. rewrite fmap_app. by eapply shown_app. }
      unfold plain_output in Hnext. destruct (c =? 10); wp_steps;
        [apply (wp_emit1 Newline)|apply (wp_emit1 (Ch (i8 c)))]; [apply Hs| |apply Hs|];
        intros s2 H2; wp_steps; by apply Hnext.
Qed.

Lemma render_plain str l1 l2 args : Forall (λ c, c ≠ 37) l1 →
  render str (l1 ++ l2) args = ('(o, args) ← render str l2 args; Some ((plain_output <$> l1) ++ o, args)).
Proof.
  intros Hl1. induction Hl1 as [|c l1 Hc _ IH].
  { change ([] ++ l2) with l2. by destruct (render str l2 args) as [[o rest]|]. }
  cbn [app render]. rewrite (proj2 (Z.eqb_neq _ _) Hc), IH. by destruct (render str l2 args) as [[o rest]|].
Qed.

Lemma putnbr_arg a base s : 2 ≤ base ≤ 16 → putnbr (u64 a) base s = emit (Ch ∘ digit_char <$> numeral base (u64 a)) s.
Proof. intros Hb. apply putnbr_emit; [done|apply u64_range]. Qed.

Lemma wp_print_arg str c args o rest s (Q : Z * list Z → S → Prop) :
  screen_ok s → is_specifier c = true → render_arg str c args = Some (o, rest) →
  (∀ a bs, str a = Some bs → text_at (st_mem s) a bs) →
  (∀ s', shown s o s' → Q (2, rest) s') → wp (print_arg c args) s Q.
Proof.
  intros Hok Hc Hr Hstr HQ. unfold print_arg, render_arg in *.
  apply is_specifier_true in Hc.
  destruct (c =? 37) eqn:E; bool_facts.
  { subst c. injection Hr as <- <-. change (wp (vga_putchar 37 VGA_WHITE ;; mret (2, args)) s Q). wp_steps. apply (wp_emit1 (Ch 37)); [done|].
    intros s' Hs. wp_steps. by apply HQ. }
  destruct args as [|a args]; [done|]. cbn [va_arg].
  assert (∀ base, 2 ≤ base ≤ 16 → Some (Ch ∘ digit_char <$> numeral base (u64 a), args) = Some (o, rest) →
    wp (putnbr (u64 a) base ;; mret (2, args)) s Q) as Hnbr.
  { intros base Hb [= <- <-]. wp_steps. eapply wp_shown; [by apply putnbr_arg|done|].
    intros s' Hs. wp_steps. by apply HQ. }
  case_if; [do 2 wp_step; cbn beta iota; by apply Hnbr; [lia|]|].
  case_if; [do 2 wp_step; cbn beta iota; by apply Hnbr; [lia|]|].
  case_if; [do 2 wp_step; cbn beta iota; by apply Hnbr; [lia|]|].
  case_if.
  { injection Hr as <- <-. wp_steps. apply (wp_emit1 (Ch (i8 (i32 a)))); [done|].
    intros s' Hs. wp_steps. by apply HQ. }
  case_if.
  { destruct (str (u64 a)) as [bs|] eqn:Hs; [|done]. injection Hr as <- <-. wp_steps.
    eapply wp_putstr; [done|by apply Hstr|]. intros s' Hs'. wp_steps. by apply HQ. }
  case_if.
  { injection Hr as <- <-. wp_steps. eapply wp_shown; [apply putptr_emit, u64_range|done|].
    intros s' Hs. wp_steps. by apply HQ. }
  exfalso. bool_facts. lia.
Qed.

Lemma wp_interpret str fmt bs args outs rest s (Q : list Z → S → Prop) :
  screen_ok s → text_at (st_mem s) fmt bs → (∀ a l, str a = Some l → text_at (st_mem s) a l) →
  render str bs args = Some (outs, rest) →
  (∀ s', shown s outs s' → Q rest s') → wp (interpret fmt args) s Q.
Proof.
  intros Hok Ht Hstr Hr HQ. unfold interpret. wp_steps.
  apply (wp_loop_rounds (λ n '(p, args1) s1, ∃ l o1 o2, n = length l ∧ text_at (st_mem s1) p l ∧
    outs = o1 ++ o2 ∧ shown s o1 s1 ∧ render str l args1 = Some (o2, rest))) with (n := length bs).
  - exists bs, [], outs. split_and!; [done|done|done|by apply shown_nil|done].
  - by eapply text_fuel.
  - intros n [p args1] s1 (l & o1 & o2 & -> & Htp & Hout & Hs & Hr1). wp_steps.
    apply (wp_print_plain p l); [apply Hs|exact Htp|].
    intros r l1 l2 s2 -> Hl1 Hs2 Hres. rewrite render_plain in Hr1 by done.
    destruct (render str l2 args1) as [[o3 rest3]|] eqn:Hr2; [|done]. injection Hr1 as <- <-.
    assert (shown s (o1 ++ (plain_output <$> l1)) s2) as Hs' by by eapply shown_app.
    destruct r as [f|]; cbn beta iota.
    2: { subst l2. wp_steps. injection Hr2 as <- <-. apply HQ. rewrite app_nil_r in Hout. by subst outs. }
    destruct Hres as [-> Hhead]. destruct l2 as [|c37 l2]; [done|]. injection Hhead as ->.
    apply text_drop, (text_same _ _ _ _ (sh_same _ _ _ Hs2)), text_cons in Htp as (_ & _ & Ht2).
    set (f := p + Z.of_nat (length l1)) in *. cbn [render Z.eqb Pos.eqb] in Hr2.
    destruct l2 as [|c l2].
    { wp_steps. eapply wp_load; [by apply text_nil|]. wp_steps. injection Hr2 as <- <-.
      exists O. split; [rewrite length_app; simpl; lia|]. exists [], (o1 ++ (plain_output <$> l1)), [].
      split_and!; [done|done|by rewrite Hout, <- app_assoc|done|done]. }
    destruct (text_cons _ _ _ _ Ht2) as (Hc & _ & Ht3). wp_steps. eapply wp_load; [exact Hc|].
    destruct (is_specifier c) eqn:Espec.
    + destruct (render_arg str c args1) as [[oa args2]|] eqn:Hra; [|done]. cbn [mbind option_bind] in Hr2.
      destruct (render str l2 args2) as [[o4 rest4]|] eqn:Hr4; [|done]. injection Hr2 as <- <-.
      wp_steps. eapply wp_print_arg; [apply Hs2|done|exact Hra| |].
      { intros a l Ha. eapply text_same; [exact (sh_same _ _ _ Hs')|by apply Hstr]. }
      intros s3 Hs3. wp_steps. exists (length l2). split; [rewrite length_app; simpl; lia|].
      exists l2, ((o1 ++ (plain_output <$> l1)) ++ oa), o4. split; [done|].
      split; [eapply text_same; [apply Hs3|]; by replace (f + 2) with (f + 1 + 1) by lia|].
      split; [by rewrite Hout, <- !app_assoc|]. split; [by eapply shown_app|done].
    + wp_steps. apply (wp_eq _ _ (1, args1) s2).
      { unfold print_arg. rewrite <- not_true_iff_false, is_specifier_true in Espec.
        repeat (rewrite (proj2 (Z.eqb_neq _ _)) by lia). done. }
      wp_steps. exists (length (c :: l2)). split; [rewrite length_app; simpl; lia|].
      exists (c :: l2), (o1 ++ (plain_output <$> l1)), o3. split; [done|]. split; [exact Ht2|].
      split; [by rewrite Hout, <- app_assoc|]. split; [done|exact Hr2].
Qed.

(** ** The theorems *)

(** C32: for every base from 2 to 16, [putnbr] returns without leaving its array
    and prints the numeral of the number: reading it back gives the number, and
    it has no leading zero. *)
Theorem putnbr_roundtrip nbr base :
  2 ≤ base ≤ 16 → 0 ≤ nbr < 2 ^ 64 →
  ∃ cs, (∀ s, putnbr nbr base s = emit (Ch <$> cs) s) ∧ read_number base cs = Some nbr ∧
    (head cs = Some 48 → cs = [48]).
Proof.
  intros Hb Hn. exists (digit_char <$> numeral base nbr). split; [|split].
  - intros s. rewrite <- list_fmap_compose. by apply putnbr_emit.
  - rewrite read_digits by (lia || apply digits_range; lia). f_equal. apply numeral_value; lia.
  - intros Hh. destruct (numeral base nbr) as [|d ds] eqn:Hd; [done|]. injection Hh as Hh.
    assert (0 ≤ d < base) as Hdr.
    { pose proof (digits_range (ndigits 64 base nbr) base nbr ltac:(lia)) as Hr. unfold numeral in Hd.
      rewrite Hd in Hr. by apply Forall_cons in Hr as [? _]. }
    assert (d = 0) as ->.
    { pose proof (proj2 (hex_digit_char d ltac:(lia))) as Hc. rewrite Hh in Hc. by injection Hc as <-. }
    pose proof (numeral_head 64 base nbr (proj1 Hb) Hn) as Hz. fold (numeral base nbr) in Hz.
    rewrite Hd in Hz. specialize (Hz eq_refl) as ->. unfold numeral in Hd.
    change (ndigits 64 base 0) with (Datatypes.S (if 0 / base =? 0 then O else ndigits 63 base (0 / base))) in Hd.
    rewrite Z.div_0_l in Hd by lia. cbn in Hd. rewrite Z.mod_0_l in Hd by lia. by injection Hd as <-.
Qed.

(** C16: [printk] of a format string with the arguments it needs returns, and
    leaves the screen exactly as printing the outputs of its rendering one by
    one does; nothing outside the screen is written. *)
Theorem printk_renders str fmt bs args outs rest s :
  screen_ok s → fmt ≠ NULL → text_at (st_mem s) fmt bs →
  (∀ a l, str a = Some l → text_at (st_mem s) a l) →
  render str bs args = Some (outs, rest) →
  ∃ s', _printk fmt args s = Done (rest, s') ∧ emit outs s = Done (tt, s') ∧ screen_ok s' ∧
    ∀ a, ¬ on_screen a → st_mem s' !! a = st_mem s !! a.
Proof.
  intros Hok Hf Ht Hstr Hr. unfold _printk. rewrite (proj2 (Z.eqb_neq _ _) Hf).
  assert (wp (interpret fmt args) s (λ r s', r = rest ∧ shown s outs s')) as Hwp by by eapply wp_interpret.
  apply wp_Done in Hwp as (r & s' & Hrun & -> & [He Hok' Hs]). by exists s'.
Qed.
End loops.

(** ** Examples *)
Fixpoint put_codes (m : mem) (a : Z) (bs : list Z) : mem :=
  match bs with
  | [] => <[a := 0]> m
  | b :: bs' => <[a := b]> (put_codes m (a + 1) bs')
  end.

Lemma put_codes_out m a bs i : ¬ a ≤ i ≤ a + Z.of_nat (length bs) → put_codes m a bs !! i = m !! i.
Proof.
  revert a. induction bs as [|b bs IH]; intros a Hi; simpl in *; rewrite lookup_insert_ne by lia; [done|].
  apply IH. lia.
Qed.

Lemma load1_eq m a v : 0 ≤ v < 256 → m !! a = Some v → load_le 1 m a = Some v.
Proof. intros Hv H. rewrite load_le_S, H. simpl. f_equal. rewrite Z.mod_small; lia. Qed.

Lemma put_codes_cstr m a bs : Forall (λ b, 0 < b < 256) bs → cstr (put_codes m a bs) a bs.
Proof.
  intros Hbs. split; [|eapply Forall_impl; [exact Hbs|simpl; lia]].
  revert a. induction Hbs as [|b bs Hb _ IH]; intros a i c Hi.
  - destruct i; [|done]. injection Hi as <-. rewrite Z.add_0_r. apply load1_eq; [lia|apply lookup_insert_eq].
  - destruct i as [|i].
    + injection Hi as <-. rewrite Z.add_0_r. apply load1_eq; [lia|apply lookup_insert_eq].
    + rewrite <- (IH (a + 1) i c Hi). replace (a + Z.of_nat (Datatypes.S i)) with (a + 1 + Z.of_nat i) by lia.
      apply load1_lookup. cbn [put_codes]. apply lookup_insert_ne. lia.
Qed.

Definition ex_format : list Z := codes "n=%u, 100%%" ++ [10].
Definition ex_print : vga_state :=
  mk_vga_state (put_codes (zero_mem VGA_BUFFER_ADDRESS 4000) 4096 ex_format) (mk_cursor 0 3).

Lemma ex_print_ok : screen_ok ex_print.
Proof.
  split; [by split|by split|]. intros i Hi. cbn [st_mem vga_state_mem vg_mem ex_print].
  rewrite put_codes_out; [by apply (zero_mem_mapped VGA_BUFFER_ADDRESS 4000 VGA_BUFFER_ADDRESS 4000); lia|].
  rewrite vga_buffer_eq in Hi. change (Z.of_nat (length ex_format)) with 12. lia.
Qed.

Lemma ex_print_text : text_at (st_mem ex_print) 4096 ex_format.
Proof.
  split; [apply put_codes_cstr; by repeat constructor|].
  change (Z.of_nat (length ex_format)) with 12. unfold on_screen. rewrite vga_buffer_eq. lia.
Qed.

Lemma putnbr_roundtrip_witness :
  ∃ cs, (∀ s : vga_state, putnbr (2 ^ 64 - 1) 2 s = emit (Ch <$> cs) s) ∧ read_number 2 cs = Some (2 ^ 64 - 1).
Proof.
  destruct (putnbr_roundtrip (S := vga_state) (2 ^ 64 - 1) 2) as (cs & Hrun & Hread & _); [lia|lia|].
  by exists cs.
Defined.

Lemma printk_renders_witness :
  ∃ s', _printk 4096 [1234] ex_print = Done ([], s') ∧
    emit ((Ch <$> codes "n=1234, 100%") ++ [Newline]) ex_print = Done (tt, s').
Proof.
  destruct (printk_renders (λ _, None) 4096 ex_format [1234]
    ((Ch <$> codes "n=1234, 100%") ++ [Newline]) [] ex_print) as (s' & Hrun & He & _);
    [exact ex_print_ok|done|exact ex_print_text|done|reflexivity|].
  exists s'. split; [exact Hrun|exact He].
Defined.
