(* ===== verification/Hw.v ===== *)
(** * kernel/arch/x86_64/asm.h: the processor and its devices

    The inline assembly of asm.h.  What the processor does with an instruction
    is not C code: an instruction that only has an effect on it appends an event
    to a log, and one that yields a value asks the class [Hardware] for it. *)
From S2P Require Import Prelude CInt Mem.

Inductive hw_event : Type :=
  | Ltr (selector : Z)
  | Lgdt (size offset : Z)
  | Lidt (limit base : Z)
  | Cli
  | Sti
  | Outb (port val : Z)
  | LoadCr3 (v : Z)
  | Wrmsr (msr low high : Z)
  | Invlpg (addr : Z)
  | Hlt
  | SwitchStack (save_at rsp : Z)
  | MmioWrite (width addr v : Z).

#[export] Instance hw_event_eq_dec : EqDecision hw_event.
Proof. solve_decision. Defined.

(** The log of the events, latest first, and the values the devices give:
    [hw_msr msr] the registers [edx:eax] of [rdmsr], [hw_cpuid leaf subleaf]
    the registers [eax], [ebx], [ecx], [edx], [hw_mmio addr] the 64 bits at
    [addr] of a device, [hw_in port] a byte of a port.  Reading may change the
    devices. *)
Class Hardware (S : Type) {MS : MemState S} : Type := {
  hw_log : S → list hw_event;
  hw_put : list hw_event → S → S;
  hw_log_put : ∀ l s, hw_log (hw_put l s) = l;
  hw_mem_put : ∀ l s, st_mem (hw_put l s) = st_mem s;
  hw_log_mem : ∀ m s, hw_log (st_put m s) = hw_log s;
  hw_put_put : ∀ l l' s, hw_put l (hw_put l' s) = hw_put l s;
  hw_msr : Z → M S (Z * Z);
  hw_cpuid : Z → Z → M S (Z * Z * Z * Z);
  hw_mmio : Z → M S Z;
  hw_in : Z → M S Z;
}.

Section defs.
Context {S : Type} {MS : MemState S} {HW : Hardware S}.

Definition event (e : hw_event) : M S unit := modify (λ s, hw_put (e :: hw_log s) s).

Definition load_tr (selector : Z) : M S unit := event (Ltr selector).
(** [limit] and [base] are the fields of the [struct idtr]. *)
Definition lidt (limit base : Z) : M S unit := event (Lidt limit base).
Definition cli : M S unit := event Cli.
Definition sti : M S unit := event Sti.
Definition cpuid (leaf subleaf : Z) : M S (Z * Z * Z * Z) :=
  '(eax, ebx, ecx, edx) ← hw_cpuid leaf subleaf;
  mret (u32 eax, u32 ebx, u32 ecx, u32 edx).
Definition inb (port : Z) : M S Z := v ← hw_in port; mret (u8 v).
Definition outb (port val : Z) : M S unit := event (Outb port val).
Definition paging_load (new_cr3 : Z) : M S unit := event (LoadCr3 new_cr3).
Definition rdmsr (msr : Z) : M S Z :=
  '(low, high) ← hw_msr msr;
  mret (Z.lor (u64 (Z.shiftl (u64 (u32 high)) 32)) (u32 low)).
Definition wrmsr (msr value : Z) : M S unit :=
  let low := u32 (Z.land value U32_MAX) in
  let high := u32 (Z.shiftr value 32) in
  event (Wrmsr msr low high).
Definition invlpg (addr : Z) : M S unit := event (Invlpg addr).
Definition volatile_read64 (addr : Z) : M S Z := v ← hw_mmio addr; mret (u64 v).
Definition volatile_write64 (addr value : Z) : M S unit := event (MmioWrite 8 addr value).
(** The pointer is read as a pointer to [u64], and the value truncated. *)
Definition volatile_read32 (addr : Z) : M S Z := v ← hw_mmio addr; mret (u32 (u64 v)).
Definition volatile_write32 (addr value : Z) : M S unit := event (MmioWrite 4 addr value).

(** kernel/arch/x86_64/cpu.h *)
Definition cpu_halt : M S unit := event Hlt.
Definition cpu_int_off : M S unit := cli.
Definition cpu_int_on : M S unit := sti.

Lemma wp_event e s (Q : unit → S → Prop) : Q tt (hw_put (e :: hw_log s) s) → wp (event e) s Q.
Proof. intros HQ. by apply wp_modify. Qed.
End defs.

(** A machine with a log, whose devices give zeros. *)
Record machine : Type := mk_machine { mc_mem : mem; mc_log : list hw_event }.

#[export] Program Instance machine_mem : MemState machine := {|
  st_mem := mc_mem; st_put := λ m s, mk_machine m (mc_log s);
|}.
Solve All Obligations with by intros; try match goal with s : machine |- _ => destruct s end.

#[export] Program Instance machine_hw : Hardware machine := {|
  hw_log := mc_log; hw_put := λ l s, mk_machine (mc_mem s) l;
  hw_msr := λ _, mret (0, 0); hw_cpuid := λ _ _, mret (0, 0, 0, 0); hw_mmio := λ _, mret 0; hw_in := λ _, mret 0;
|}.
Solve All Obligations with by intros; try match goal with s : machine |- _ => destruct s end.
