(* ===== verification/Acpi.v ===== *)
(** * kernel/drivers/acpi: the tables of the firmware

    The tables are read in the byte memory, where the direct mapping shows the
    physical memory; the static pointers [rsdt] and [madt] are the state.
    String literals are in memory too, at the addresses [lit] gives. *)
From S2P Require Import Prelude CInt Mem CString Vga Printk.

(** [struct acpi_rsdp] *)
Definition rsdp_signature (p : Z) : Z := p.
Definition rsdp_rsdt_address (p : Z) : Z := p + 16.
Definition RSDP_SIZE : Z := 20.

(** [struct acpi_header], [struct acpi_rsdt] *)
Definition h_signature (h : Z) : Z := h.
Definition h_length (h : Z) : Z := h + 4.
Definition HEADER_SIZE : Z := 36.
Definition rsdt_sdt (rsdt i : Z) : Z := rsdt + HEADER_SIZE + 4 * i.

(** [struct acpi_madt], [struct acpi_madt_entry], [struct acpi_madt_io_apic] *)
Definition madt_entries (madt : Z) : Z := madt + 44.
Definition me_type (e : Z) : Z := e.
Definition me_length (e : Z) : Z := e + 1.
Definition mi_address (e : Z) : Z := e + 4.
Definition ACPI_MADT_IO_APIC : Z := 1.
Definition ACPI_MADT_SIGNATURE : string := "APIC".
Definition ACPI_HPET_SIGNATURE : string := "HPET".

(** [struct acpi_hpet] *)
Definition hpet_address (h : Z) : Z := h + 44.

Record acpi_globals : Type := mk_acpi { g_rsdt : Z; g_madt : Z }.

Class AcpiState (S : Type) {MS : MemState S} : Type := {
  acpi_g : S → acpi_globals;
  acpi_put : acpi_globals → S → S;
  acpi_g_put : ∀ g s, acpi_g (acpi_put g s) = g;
  acpi_g_mem : ∀ m s, acpi_g (st_put m s) = acpi_g s;
  acpi_mem_put : ∀ g s, st_mem (acpi_put g s) = st_mem s;
}.

Record acpi_state : Type := mk_acpi_state { as_mem : mem; as_acpi : acpi_globals }.

#[export] Program Instance acpi_state_mem : MemState acpi_state := {|
  st_mem := as_mem; st_put := λ m s, mk_acpi_state m (as_acpi s);
|}.
Solve All Obligations with by intros; try match goal with s : acpi_state |- _ => destruct s end.

#[export] Program Instance acpi_state_acpi : AcpiState acpi_state := {|
  acpi_g := as_acpi; acpi_put := λ g s, mk_acpi_state (as_mem s) g;
|}.
Solve All Obligations with by intros; try match goal with s : acpi_state |- _ => destruct s end.

(** ** The operations *)
Section defs.
Context {S : Type} {MS : MemState S} {AS : AcpiState S}.
Context (lit : string → Z).

Definition checksum (ptr size : Z) : M S Z :=
  loop (Datatypes.S (Z.to_nat size)) (λ '(size, sum),
    if size =? 0 then mret (inr sum)
    else
      let size := size - 1 in
      b ← rd8 (ptr + size);
      mret (inl (size, u8 (sum + b)))) (size, 0).

Definition acpi_find_table (signature : Z) : M S Z :=
  rsdt ← gets (λ s, g_rsdt (acpi_g s));
  length ← rd32 (h_length rsdt);
  let entries := u32 (u64 (length - HEADER_SIZE) / 4) in
  found ← for_ret 0 entries (λ i,
    sdt ← rd32 (rsdt_sdt rsdt i);
    let h := DM_P2V sdt in
    c ← memcmp (h_signature h) signature 4;
    mret (if c =? 0 then Some h else None));
  mret (default NULL found).

Definition acpi_copy_table (signature dst : Z) : M S Z :=
  ptr ← acpi_find_table signature;
  if ptr =? NULL then mret 1
  else
    length ← rd32 (h_length ptr);
    memcpy dst ptr length ;;
    mret 0.

(** The checks of [acpi_init] on the root pointer; [||] does not evaluate the
    checksum when the signatures differ. *)
Definition rsdp_invalid (rsdp : Z) : M S bool :=
  c ← memcmp (rsdp_signature rsdp) (lit "RSD PTR ") 8;
  if negb (c =? 0) then mret true
  else sum ← checksum rsdp RSDP_SIZE; mret (negb (sum =? 0)).

Definition set_rsdt (p : Z) : M S unit := g ← gets acpi_g; modify (acpi_put (mk_acpi p (g_madt g))).
Definition set_madt (p : Z) : M S unit := g ← gets acpi_g; modify (acpi_put (mk_acpi (g_rsdt g) p)).

Definition acpi_init (rsdp : Z) : M S unit :=
  invalid ← rsdp_invalid rsdp;
  (if invalid : bool then panic "acpi_init: invalid rsdp" else mret tt) ;;
  address ← rd32 (rsdp_rsdt_address rsdp);
  set_rsdt (DM_P2V address) ;;
  rsdt ← gets (λ s, g_rsdt (acpi_g s));
  length ← rd32 (h_length rsdt);
  sum ← checksum rsdt length;
  if negb (sum =? 0) then panic "acpi_init: invalid rsdt" else mret tt.

(** The loop of [acpi_madt_find]. *)
Definition madt_scan (fuel : nat) (type entry stop : Z) : M S Z :=
  loop fuel (λ entry,
    if entry <? stop then
      t ← rd8 (me_type entry);
      if t =? type then mret (inr entry)
      else
        length ← rd8 (me_length entry);
        mret (inl (u64 (entry + length)))
    else mret (inr NULL)) entry.

(** An entry takes at least a byte of the table, unless its length is 0, in
    which case the loop does not end. *)
Definition acpi_madt_find (type : Z) : M S Z :=
  madt ← gets (λ s, g_madt (acpi_g s));
  (if madt =? NULL then
     madt ← acpi_find_table (lit ACPI_MADT_SIGNATURE);
     set_madt madt ;;
     madt ← gets (λ s, g_madt (acpi_g s));
     length ← rd32 (h_length madt);
     sum ← checksum madt length;
     if negb (sum =? 0) then panic "acpi_madt_find: invalid madt" else mret tt
   else mret tt) ;;
  madt ← gets (λ s, g_madt (acpi_g s));
  length ← rd32 (h_length madt);
  madt_scan (Datatypes.S (Z.to_nat length)) type (madt_entries madt) (u64 (madt + length)).
End defs.

(** ** Specifications *)
Definition byte_sum (bs : list Z) : Z := foldr Z.add 0 bs mod 256.

Section lemmas.
Context {S : Type} {MS : MemState S} {AS : AcpiState S}.
Implicit Types s : S.

Lemma bytes_at_snoc m a bs b : bytes_at m a (bs ++ [b]) →
  bytes_at m a bs ∧ load_le 1 m (a + Z.of_nat (length bs)) = Some b.
Proof.
  intros H. split; [intros i c Hi; apply H; by apply lookup_app_l_Some|].
  apply H. by rewrite lookup_app_r, Nat.sub_diag by lia.
Qed.

Lemma foldr_add_snoc bs b x : foldr Z.add x (bs ++ [b]) = foldr Z.add (b + x) bs.
Proof. by rewrite foldr_app. Qed.

Lemma foldr_add_init bs x : foldr Z.add x bs = foldr Z.add 0 bs + x.
Proof. induction bs as [|b bs IH]; simpl; lia. Qed.

Lemma checksum_run ptr bs s : bytes_at (st_mem s) ptr bs →
  checksum ptr (Z.of_nat (length bs)) s = Done (byte_sum bs, s).
Proof.
  intros Hbs. unfold checksum. rewrite Nat2Z.id.
  enough (∀ sum, 0 ≤ sum < 256 → loop (Datatypes.S (length bs)) (λ '(size, sum),
    if size =? 0 then mret (inr sum)
    else
      let size := size - 1 in
      b ← rd8 (ptr + size);
      mret (inl (size, u8 (sum + b)))) (Z.of_nat (length bs), sum) s
    = Done ((foldr Z.add 0 bs + sum) mod 256, s)) as H.
  { etrans; [apply H; lia|]. unfold byte_sum. by rewrite Z.add_0_r. }
  induction bs as [|b bs IH] using rev_ind; intros sum Hsum.
  - cbn. by rewrite Z.mod_small.
  - apply bytes_at_snoc in Hbs as [Hbs Hb]. rewrite length_app. change (length [b]) with 1%nat.
    rewrite Nat.add_1_r, loop_S. erewrite bind_Done.
    2: { rewrite (proj2 (Z.eqb_neq _ _)) by lia. cbv zeta.
         replace (Z.of_nat (Datatypes.S (length bs)) - 1) with (Z.of_nat (length bs)) by lia.
         by rewrite (bind_Done _ _ s b s) by by apply load_Done. }
    cbv beta iota. rewrite IH; [|done|apply Z.mod_pos_bound; lia].
    rewrite foldr_add_snoc, (foldr_add_init bs (b + 0)). unfold u8. change (2 ^ 8) with 256.
    rewrite Z.add_mod_idemp_r by lia. do 3 f_equal. lia.
Qed.

Lemma memcmp_run a b xs ys s : length xs = length ys → bytes_at (st_mem s) a xs → bytes_at (st_mem s) b ys →
  memcmp a b (Z.of_nat (length xs)) s = Done (if decide (xs = ys) then 0 else 1, s).
Proof.
  intros Hlen Ha Hb.
  assert (wp (memcmp a b (Z.of_nat (length xs))) s (λ r s', r = (if decide (xs = ys) then 0 else 1) ∧ s' = s)) as Hwp
    by by eapply wp_memcmp.
  by apply wp_Done in Hwp as (r & s' & -> & -> & ->).
Qed.

Lemma bytes_at_take m a bs n : bytes_at m a bs → bytes_at m a (take n bs).
Proof. intros H i b Hi. apply H. by apply lookup_take_Some in Hi as [? _]. Qed.

(** The root table and the list of the tables it points to, each with its
    signature. *)
Record rsdt_holds (m : mem) (rsdt : Z) (tables : list (Z * list Z)) : Prop := {
  rh_length : ∃ len, load_le 4 m (h_length rsdt) = Some len ∧
    HEADER_SIZE + 4 * Z.of_nat (length tables) ≤ len < HEADER_SIZE + 4 * Z.of_nat (length tables) + 4;
  rh_sdt : ∀ i d sg, tables !! i = Some (d, sg) → load_le 4 m (rsdt_sdt rsdt (Z.of_nat i)) = Some d;
  rh_signature : ∀ d sg, (d, sg) ∈ tables → length sg = 4%nat ∧ bytes_at m (DM_P2V d) sg;
}.

Definition table_of (tables : list (Z * list Z)) (sg : list Z) : Z :=
  match list_find (λ t, t.2 = sg) tables with Some (_, (d, _)) => DM_P2V d | None => NULL end.

Lemma find_table_loop rsdt signature sg tables s (f : Z → M S (option Z)) :
  (∀ i, f i = (sdt ← rd32 (rsdt_sdt rsdt i);
               c ← memcmp (h_signature (DM_P2V sdt)) signature 4;
               mret (if c =? 0 then Some (DM_P2V sdt) else None))) →
  length sg = 4%nat → bytes_at (st_mem s) signature sg →
  ∀ k, (∀ i d sg', tables !! i = Some (d, sg') → load_le 4 (st_mem s) (rsdt_sdt rsdt (Z.of_nat (k + i))) = Some d) →
  (∀ d sg', (d, sg') ∈ tables → length sg' = 4%nat ∧ bytes_at (st_mem s) (DM_P2V d) sg') →
  for_ret (Z.of_nat k) (Z.of_nat (k + length tables)) f s =
    Done (match list_find (λ t, t.2 = sg) tables with Some (_, (d, _)) => Some (DM_P2V d) | None => None end, s).
Proof.
  intros Hf Hsg Hb. induction tables as [|[d sg'] tables IH]; intros k Hsdt Hsign.
  - rewrite for_ret_done by (simpl; lia). done.
  - rewrite for_ret_step by (simpl; lia). destruct (Hsign d sg') as [Hlen Hbd]; [set_solver|].
    specialize (Hsdt O d sg' eq_refl) as Hd. rewrite Nat.add_0_r in Hd.
    assert (f (Z.of_nat k) s = Done (if decide (sg' = sg) then Some (DM_P2V d) else None, s)) as Hfk.
    { rewrite Hf, (bind_Done _ _ s d s) by by apply load_Done.
      rewrite (bind_Done _ _ s (if decide (sg' = sg) then 0 else 1) s); [by destruct (decide (sg' = sg))|].
      unfold h_signature. rewrite <- Hlen in Hsg. rewrite <- (memcmp_run _ _ _ _ s (eq_sym Hsg) Hbd Hb). by rewrite Hlen. }
    rewrite (bind_Done _ _ _ _ _ Hfk). cbn [list_find]. change ((d, sg').2 = sg) with (sg' = sg).
    destruct (decide (sg' = sg)) as [->|Hne]; [done|].
    replace (Z.of_nat k + 1) with (Z.of_nat (Datatypes.S k)) by lia.
    replace (k + length ((d, sg') :: tables))%nat with (Datatypes.S k + length tables)%nat by (simpl; lia).
    rewrite IH.
    + cbn [fmap option_fmap option_map]. by destruct (list_find _ tables) as [[? []]|].
    + intros i d' sg'' Hi. rewrite <- (Hsdt (Datatypes.S i) d' sg'' Hi). do 3 f_equal. lia.
    + intros d' sg'' Hi. apply Hsign. set_solver.
Qed.

Lemma acpi_find_table_run signature sg tables s :
  rsdt_holds (st_mem s) (g_rsdt (acpi_g s)) tables → length sg = 4%nat → bytes_at (st_mem s) signature sg →
  acpi_find_table signature s = Done (table_of tables sg, s).
Proof.
  intros [(len & Hlen & Hr) Hsdt Hsign] Hsg Hb. unfold acpi_find_table.
  rewrite (bind_Done _ _ s (g_rsdt (acpi_g s)) s) by done.
  rewrite (bind_Done _ _ s len s) by by apply load_Done.
  pose proof (load_le_range _ _ _ _ Hlen) as Hlr. change (256 ^ Z.of_nat 4) with (2 ^ 32) in Hlr.
  assert (u32 (u64 (len - HEADER_SIZE) / 4) = Z.of_nat (0 + length tables)) as ->.
  { unfold HEADER_SIZE in *. rewrite u64_small by lia. rewrite u32_small by zlia. zlia. }
  rewrite (bind_Done _ _ s _ s (find_table_loop (g_rsdt (acpi_g s)) signature sg tables s _ (λ i, eq_refl) Hsg Hb O Hsdt Hsign)).
  unfold table_of. by destruct (list_find _ tables) as [[? []]|].
Qed.

(** The entries of the MADT from address [a] on, as types and lengths. *)
Fixpoint madt_layout (m : mem) (a stop : Z) (es : list (Z * Z)) : Prop :=
  match es with
  | [] => stop ≤ a
  | (t, l) :: es' => a < stop ∧ load_le 1 m (me_type a) = Some t ∧ load_le 1 m (me_length a) = Some l ∧
                     madt_layout m (a + l) stop es'
  end.

Fixpoint find_entry (a type : Z) (es : list (Z * Z)) : Z :=
  match es with
  | [] => NULL
  | (t, l) :: es' => if t =? type then a else find_entry (a + l) type es'
  end.

Lemma madt_scan_run type stop es s :
  ∀ a fuel, madt_layout (st_mem s) a stop es → Forall (λ e, 1 ≤ e.2) es → 0 ≤ a → stop + 256 ≤ 2 ^ 64 →
  stop - a < Z.of_nat fuel → 0 < Z.of_nat fuel → madt_scan fuel type a stop s = Done (find_entry a type es, s).
Proof.
  induction es as [|[t l] es IH]; intros a fuel Hl Hes Ha Hstop Hf Hf0; (destruct fuel as [|fuel]; [lia|]);
    unfold madt_scan; rewrite loop_S.
  - cbn [madt_layout] in Hl. erewrite bind_Done; [|rewrite (proj2 (Z.ltb_ge _ _) Hl); done]. done.
  - destruct Hl as (Hlt & Ht & Hll & Hl). apply Forall_cons in Hes as [Hl1 Hes]. simpl in Hl1.
    pose proof (load_le_range _ _ _ _ Hll) as Hlr. change (256 ^ Z.of_nat 1) with 256 in Hlr.
    rewrite (proj2 (Z.ltb_lt _ _) Hlt). cbn [find_entry]. destruct (t =? type) eqn:E.
    + erewrite bind_Done; [|rewrite (bind_Done _ _ s t s) by (by apply load_Done); by rewrite E]. done.
    + erewrite bind_Done.
      2: { rewrite (bind_Done _ _ s t s) by (by apply load_Done). rewrite E.
           by rewrite (bind_Done _ _ s l s) by (by apply load_Done). }
      rewrite u64_small by lia. destruct fuel as [|fuel]; [lia|].
      apply (IH (a + l) (Datatypes.S fuel)); [done|done|lia|lia|lia|lia].
Qed.

(** A zero length holds the scan in place. *)
Lemma madt_scan_stuck type stop t s : ∀ fuel a,
  a < stop → 0 ≤ a < 2 ^ 64 → load_le 1 (st_mem s) (me_type a) = Some t → t ≠ type →
  load_le 1 (st_mem s) (me_length a) = Some 0 → madt_scan fuel type a stop s = Faulted OutOfFuel.
Proof.
  induction fuel as [|fuel IH]; intros a Hlt Ha Ht Hne Hl; [done|]. unfold madt_scan. rewrite loop_S.
  rewrite (bind_Done _ _ s (inl a) s); [by apply (IH a)|]. rewrite (proj2 (Z.ltb_lt _ _) Hlt).
  rewrite (bind_Done _ _ s t s) by (by apply load_Done). rewrite (proj2 (Z.eqb_neq _ _) Hne).
  rewrite (bind_Done _ _ s 0 s) by (by apply load_Done). by rewrite Z.add_0_r, u64_small.
Qed.

(** The entries [es] from [a] on lead to [a']. *)
Fixpoint madt_reaches (m : mem) (a stop : Z) (es : list (Z * Z)) (a' : Z) : Prop :=
  match es with
  | [] => a' = a
  | (t, l) :: es' => a < stop ∧ load_le 1 m (me_type a) = Some t ∧ load_le 1 m (me_length a) = Some l ∧
                     madt_reaches m (a + l) stop es' a'
  end.

(** The scan comes to such an entry past any others, and stays there. *)
Lemma madt_scan_stuck_at type stop t a' s es : ∀ fuel a,
  madt_reaches (st_mem s) a stop es a' → Forall (λ e, 1 ≤ e.2 ∧ e.1 ≠ type) es → 0 ≤ a → stop + 256 ≤ 2 ^ 64 →
  a' < stop → load_le 1 (st_mem s) (me_type a') = Some t → t ≠ type → load_le 1 (st_mem s) (me_length a') = Some 0 →
  madt_scan fuel type a stop s = Faulted OutOfFuel.
Proof.
  induction es as [|[t0 l] es IH]; intros fuel a Hr Hes Ha Hstop Hlt Ht Hne Hl.
  { cbn [madt_reaches] in Hr. subst a'. apply (madt_scan_stuck type stop t); (done || lia). }
  destruct Hr as (Hlt0 & Ht0 & Hl0 & Hr). apply Forall_cons in Hes as [[Hl1 Hne0] Hes]. simpl in Hl1, Hne0.
  pose proof (load_le_range _ _ _ _ Hl0) as Hlr. change (256 ^ Z.of_nat 1) with 256 in Hlr.
  destruct fuel as [|fuel]; [done|]. unfold madt_scan. rewrite loop_S. rewrite (bind_Done _ _ s (inl (a + l)) s).
  { apply (IH fuel (a + l)); (done || lia). }
  rewrite (proj2 (Z.ltb_lt _ _) Hlt0), (bind_Done _ _ s t0 s) by (by apply load_Done).
  rewrite (proj2 (Z.eqb_neq _ _) Hne0), (bind_Done _ _ s l s) by (by apply load_Done). by rewrite u64_small by lia.
Qed.

(** The MADT is looked up in the root table, its bytes are [bs]. *)
Record madt_listed (lit : string → Z) s (madt : Z) (bs : list Z) : Prop := {
  ml_tables : ∃ tables, rsdt_holds (st_mem s) (g_rsdt (acpi_g s)) tables ∧ table_of tables (codes "APIC") = madt;
  ml_literal : bytes_at (st_mem s) (lit ACPI_MADT_SIGNATURE) (codes "APIC");
  ml_bytes : bytes_at (st_mem s) madt bs;
}.

(** [madt] is known from an earlier call, or it is listed with a right checksum and
    the call remembers it. *)
Definition madt_found (lit : string → Z) s (madt : Z) (bs : list Z) s' : Prop :=
  (g_madt (acpi_g s) = madt ∧ s' = s) ∨
  (g_madt (acpi_g s) = NULL ∧ madt_listed lit s madt bs ∧ byte_sum bs = 0 ∧
   s' = acpi_put (mk_acpi (g_rsdt (acpi_g s)) madt) s).

Lemma madt_lookup_run lit s madt bs : madt_listed lit s madt bs →
  acpi_find_table (lit ACPI_MADT_SIGNATURE) s = Done (madt, s).
Proof. intros [(tables & Hr & <-) Hlit _]. by apply acpi_find_table_run. Qed.

(** The first call of [acpi_madt_find]. *)
Lemma madt_load_run lit s madt bs (s1 := acpi_put (mk_acpi (g_rsdt (acpi_g s)) madt) s) :
  madt_listed lit s madt bs → load_le 4 (st_mem s) (h_length madt) = Some (Z.of_nat (length bs)) →
  (madt ← acpi_find_table (lit ACPI_MADT_SIGNATURE);
   set_madt madt ;;
   madt ← gets (λ s, g_madt (acpi_g s));
   length ← rd32 (h_length madt);
   sum ← checksum madt length;
   if negb (sum =? 0) then panic "acpi_madt_find: invalid madt" else mret tt) s =
  if byte_sum bs =? 0 then Done (tt, s1) else Faulted (Panicked "acpi_madt_find: invalid madt").
Proof.
  intros Hl Hlen. assert (st_mem s1 = st_mem s) as Hm1 by apply acpi_mem_put.
  rewrite (bind_Done _ _ _ _ _ (madt_lookup_run lit s madt bs Hl)).
  rewrite (bind_Done _ _ s tt s1) by done. rewrite (bind_Done _ _ s1 madt s1) by (unfold gets, s1; by rewrite acpi_g_put).
  rewrite (bind_Done _ _ s1 (Z.of_nat (length bs)) s1) by (apply load_Done; by rewrite Hm1).
  rewrite (bind_Done _ _ s1 (byte_sum bs) s1) by (apply checksum_run; rewrite Hm1; apply Hl). by destruct (byte_sum bs =? 0).
Qed.

(** ** The theorems *)

(** C33: [acpi_init] accepts exactly the root pointers with the right signature
    whose bytes, and those of the root table, sum up to 0 modulo 256, and then
    remembers the table; otherwise the kernel panics. *)
Theorem acpi_init_validates (lit : string → Z) rsdp bs address ts s (m := st_mem s) :
  length bs = 20%nat → bytes_at m rsdp bs → bytes_at m (lit "RSD PTR ") (codes "RSD PTR ") →
  load_le 4 m (rsdp_rsdt_address rsdp) = Some address →
  load_le 4 m (h_length (DM_P2V address)) = Some (Z.of_nat (length ts)) → bytes_at m (DM_P2V address) ts →
  let valid := take 8 bs = codes "RSD PTR " ∧ byte_sum bs = 0 ∧ byte_sum ts = 0 in
  (valid → ∃ s', acpi_init lit rsdp s = Done (tt, s') ∧
     acpi_g s' = mk_acpi (DM_P2V address) (g_madt (acpi_g s)) ∧ st_mem s' = m) ∧
  (¬ valid → ∃ msg, acpi_init lit rsdp s = Faulted (Panicked msg)).
Proof.
  intros Hlen Hbs Hlit Haddr Htl Hts. unfold acpi_init.
  assert (rsdp_invalid lit rsdp s = Done (negb (bool_decide (take 8 bs = codes "RSD PTR " ∧ byte_sum bs = 0)), s)) as Hinv.
  { unfold rsdp_invalid. rewrite (bind_Done _ _ s (if decide (take 8 bs = codes "RSD PTR ") then 0 else 1) s).
    2: { rewrite <- (memcmp_run rsdp (lit "RSD PTR ") (take 8 bs) (codes "RSD PTR ") s);
           [by rewrite length_take, Hlen|by rewrite length_take, Hlen|by apply bytes_at_take|exact Hlit]. }
    destruct (decide (take 8 bs = codes "RSD PTR ")) as [E|E]; cbn [Z.eqb negb].
    - rewrite (bind_Done _ _ s (byte_sum bs) s).
      + unfold mret, M_ret. do 3 f_equal. destruct (byte_sum bs =? 0) eqn:Es; bool_facts; symmetry;
          [apply bool_decide_eq_true; by split|apply bool_decide_eq_false; by intros [_ ?]].
      + change RSDP_SIZE with (Z.of_nat 20). rewrite <- Hlen. by apply checksum_run.
    - rewrite bool_decide_eq_false_2 by (by intros [? _]). done. }
  rewrite (bind_Done _ _ _ _ _ Hinv).
  destruct (bool_decide (take 8 bs = codes "RSD PTR " ∧ byte_sum bs = 0)) eqn:Eb; cbn [negb].
  2: { apply bool_decide_eq_false in Eb. split; [intros (? & ? & _); tauto|]. intros _. by eexists. }
  apply bool_decide_eq_true in Eb as [Esig Esum].
  rewrite (bind_Done _ _ s tt s) by done. rewrite (bind_Done _ _ s address s) by by apply load_Done.
  set (s1 := acpi_put (mk_acpi (DM_P2V address) (g_madt (acpi_g s))) s).
  rewrite (bind_Done _ _ s tt s1) by done. assert (st_mem s1 = m) as Hm1 by apply acpi_mem_put.
  assert (acpi_g s1 = mk_acpi (DM_P2V address) (g_madt (acpi_g s))) as Hg1 by apply acpi_g_put.
  rewrite (bind_Done _ _ s1 (DM_P2V address) s1) by (unfold gets; by rewrite Hg1).
  rewrite (bind_Done _ _ s1 (Z.of_nat (length ts)) s1) by (apply load_Done; by rewrite Hm1).
  rewrite (bind_Done _ _ s1 (byte_sum ts) s1) by (apply checksum_run; by rewrite Hm1).
  destruct (byte_sum ts =? 0) eqn:Et; bool_facts; cbn [negb].
  - split; [|intros Hn; exfalso; by apply Hn]. intros _. by exists s1.
  - split; [by intros (_ & _ & ?)|]. intros _. by eexists.
Qed.

(** [acpi_find_table] returns the first table of the root table with the
    signature, [NULL] when there is none, and changes nothing. *)
Theorem acpi_find_table_first signature sg tables s :
  rsdt_holds (st_mem s) (g_rsdt (acpi_g s)) tables → length sg = 4%nat → bytes_at (st_mem s) signature sg →
  acpi_find_table signature s = Done (table_of tables sg, s).
Proof. apply acpi_find_table_run. Qed.

(** C34: [acpi_madt_find] uses the MADT it remembers, or looks it up in the root
    table, remembers it and panics when its bytes do not sum up to 0.  It then
    returns the first entry of the type, [NULL] when there is none, as long as no
    entry has length 0.  When the entries [es], none of which is of the type, lead to
    an entry of another type with length 0, the scan never ends, whatever the number
    of rounds. *)
Theorem acpi_madt_find_entry (lit : string → Z) type es s s' madt bs (len := Z.of_nat (length bs)) :
  0 < madt → load_le 4 (st_mem s) (h_length madt) = Some len → madt + len + 256 ≤ 2 ^ 64 → 44 ≤ len →
  (g_madt (acpi_g s) = NULL → madt_listed lit s madt bs → byte_sum bs ≠ 0 →
     ∃ msg, acpi_madt_find lit type s = Faulted (Panicked msg)) ∧
  (madt_found lit s madt bs s' →
   (madt_layout (st_mem s) (madt_entries madt) (madt + len) es → Forall (λ e, 1 ≤ e.2) es →
      acpi_madt_find lit type s = Done (find_entry (madt_entries madt) type es, s')) ∧
   (∀ a t, madt_reaches (st_mem s) (madt_entries madt) (madt + len) es a → Forall (λ e, 1 ≤ e.2 ∧ e.1 ≠ type) es →
      a < madt + len → load_le 1 (st_mem s) (me_type a) = Some t → t ≠ type → load_le 1 (st_mem s) (me_length a) = Some 0 →
      acpi_madt_find lit type s = Faulted OutOfFuel ∧
      ∀ fuel, madt_scan fuel type (madt_entries madt) (madt + len) s' = Faulted OutOfFuel)).
Proof.
  intros Hm Hlen Hmax Hmin. split.
  { intros H0 Hl Hsum. eexists. unfold acpi_madt_find. rewrite (bind_Done _ _ s NULL s) by (unfold gets; by rewrite H0).
    rewrite Z.eqb_refl. apply bind_Faulted. rewrite (madt_load_run lit s madt bs Hl Hlen), (proj2 (Z.eqb_neq _ _) Hsum). done. }
  intros Hf. assert (st_mem s' = st_mem s) as Hm' by (destruct Hf as [[_ ->]|(_ & _ & _ & ->)]; [done|apply acpi_mem_put]).
  assert (acpi_madt_find lit type s =
    madt_scan (Datatypes.S (Z.to_nat len)) type (madt_entries madt) (madt + len) s') as ->.
  { unfold acpi_madt_find. rewrite (bind_Done _ _ s (g_madt (acpi_g s)) s) by done.
    assert (g_madt (acpi_g s') = madt) as Hg.
    { destruct Hf as [[Hg ->]|(_ & _ & _ & ->)]; [exact Hg|]. by rewrite acpi_g_put. }
    erewrite (bind_Done _ _ s tt s').
    2: { destruct Hf as [[-> ->]|(H0 & Hl & Hsum & ->)]; [by rewrite (proj2 (Z.eqb_neq _ _)) by (unfold NULL; lia)|].
         rewrite H0, Z.eqb_refl, (madt_load_run lit s madt bs Hl Hlen), Hsum. done. }
    rewrite (bind_Done _ _ s' madt s') by (unfold gets; by rewrite Hg).
    rewrite (bind_Done _ _ s' len s') by (apply load_Done; by rewrite Hm'). by rewrite u64_small by lia. }
  unfold madt_entries in *. rewrite <- Hm'. split.
  - intros Hl Hes. apply madt_scan_run; [done|done|lia|done|lia|lia].
  - intros a t Hr Hes Hlt Ht Hne Hl0. split; [|intros fuel]; eapply madt_scan_stuck_at; (done || lia).
Qed.
End lemmas.

(** ** Examples *)
Definition ex_lit (str : string) : Z := if String.eqb str "RSD PTR " then 512 else if String.eqb str "APIC" then 528 else 544.

(** A root pointer at 256, the root table at 4096 with one table, the MADT at
    4352, with a local APIC entry of length 8 and an I/O APIC entry of length
    12. *)
Definition ex_acpi_tables : mem :=
  let m := zero_mem 256 320 ∪ zero_mem (DM_P2V 4096) 512 in
  let m := put_codes (put_codes (put_codes m 256 (codes "RSD PTR ")) 512 (codes "RSD PTR ")) 528 (codes "APIC") in
  let m := write_le 1 (write_le 4 m 272 4096) 264 209 in
  let m := put_codes (put_codes m (DM_P2V 4096) (codes "RSDT")) (DM_P2V 4352) (codes "APIC") in
  let m := write_le 4 (write_le 4 m (DM_P2V 4096 + 4) 40) (DM_P2V 4096 + 36) 4352 in
  let m := write_le 4 (write_le 1 m (DM_P2V 4096 + 9) 138) (DM_P2V 4352 + 4) 64 in
  write_le 2 (write_le 2 m (DM_P2V 4352 + 44) 0x800) (DM_P2V 4352 + 52) 0xc01.
Definition ex_acpi : acpi_state := mk_acpi_state ex_acpi_tables (mk_acpi (DM_P2V 4096) (DM_P2V 4352)).

Definition ex_bytes (a n : Z) : list Z := (λ i, default 0 (load_le 1 ex_acpi_tables i)) <$> seqZ a n.

Lemma bytes_at_check (m : mem) a bs :
  bool_decide ((λ i, load_le 1 m (a + Z.of_nat i)) <$> seq 0 (length bs) = Some <$> bs) = true → bytes_at m a bs.
Proof.
  intros H%bool_decide_eq_true i b Hi. apply (f_equal (lookup i)) in H. rewrite !list_lookup_fmap, Hi in H.
  rewrite lookup_seq_lt in H by by eapply lookup_lt_Some. by injection H.
Qed.

Lemma acpi_init_validates_witness :
  ∃ s', acpi_init ex_lit 256 ex_acpi = Done (tt, s') ∧ g_rsdt (acpi_g s') = DM_P2V 4096.
Proof.
  destruct (acpi_init_validates ex_lit 256 (ex_bytes 256 20) 4096 (ex_bytes (DM_P2V 4096) 40) ex_acpi)
    as [(s' & Hrun & Hg & _) _]; [by vm_compute|by apply bytes_at_check; vm_compute|by apply bytes_at_check; vm_compute
    |by vm_compute|by vm_compute|by apply bytes_at_check; vm_compute|by vm_compute|].
  exists s'. split; [exact Hrun|]. by rewrite Hg.
Defined.

Lemma acpi_find_table_first_witness :
  acpi_find_table (ex_lit "APIC") ex_acpi = Done (DM_P2V 4352, ex_acpi).
Proof.
  apply (acpi_find_table_first (ex_lit "APIC") (codes "APIC") [(4352, codes "APIC")] ex_acpi).
  - split.
    + exists 40. split; [by vm_compute|done].
    + intros [|i] d sg Hi; [|done]. injection Hi as <- <-. by vm_compute.
    + intros d sg Hi. apply list_elem_of_singleton in Hi. injection Hi as -> ->. split; [done|].
      by apply bytes_at_check; vm_compute.
  - done.
  - by apply bytes_at_check; vm_compute.
Defined.

Lemma acpi_madt_find_entry_witness :
  acpi_madt_find ex_lit ACPI_MADT_IO_APIC ex_acpi = Done (DM_P2V 4352 + 52, ex_acpi).
Proof.
  destruct (acpi_madt_find_entry ex_lit ACPI_MADT_IO_APIC [(0, 8); (1, 12)] ex_acpi ex_acpi (DM_P2V 4352) (ex_bytes (DM_P2V 4352) 64))
    as [_ H]; [done|by vm_compute|by vm_compute|by vm_compute|]. destruct H as [H _]; [left; split; reflexivity|]. apply H.
  - vm_compute. repeat split. discriminate.
  - by repeat constructor.
Defined.
