(* ===== verification/Gdt.v ===== *)
(** * kernel/arch/x86_64/mm/gdt: segment descriptors and the task state segment

    The table of descriptors is a list of eight-byte entries, the task state
    segment a record of its fields. *)
From S2P Require Import Prelude CInt Mem Hw.

Definition GDT_ACCESS_RW : Z := 0x2.
Definition GDT_ACCESS_CODE_DATA_SEG : Z := 0x10.
Definition GDT_ACCESS_SYSTEM_SEG : Z := 0x0.
Definition GDT_ACCESS_CODE : Z := 0x8.
Definition GDT_ACCESS_DATA : Z := 0x0.
Definition GDT_ACCESS_KERNEL : Z := 0x0.
Definition GDT_ACCESS_USER : Z := 0x60.
Definition GDT_ACCESS_PRESENT : Z := 0x80.
Definition GDT_ACCESS_TSS : Z := 0x9.
Definition GDT_FLAGS_LONG_MODE : Z := 0x2.
Definition GDT_NULL_INDEX : Z := 0.
Definition GDT_KERNEL_CODE_INDEX : Z := 1.
Definition GDT_KERNEL_DATA_INDEX : Z := 2.
Definition GDT_USER_CODE_INDEX : Z := 3.
Definition GDT_USER_DATA_INDEX : Z := 4.
Definition GDT_TSS_INDEX : Z := 5.
Definition GDT_SIZE : Z := 7.

(** [struct gdt_entry]: the bit fields [limit16_19] and [flags] share a byte. *)
Record gdt_entry : Type := mk_gdt_entry {
  ge_limit0_15 : Z; ge_base0_15 : Z; ge_base16_23 : Z; ge_access : Z;
  ge_limit16_19 : Z; ge_flags : Z; ge_base24_31 : Z }.

(** [struct tss_entry]: a system descriptor, twice as long. *)
Record tss_entry : Type := mk_tss_entry {
  te_limit : Z; te_base0_15 : Z; te_base16_23 : Z; te_access : Z;
  te_flags2 : Z; te_base24_31 : Z; te_base32_63 : Z; te_reserved : Z }.

Record tss : Type := mk_tss {
  t_reserved0 : Z; t_rsp0 : Z; t_rsp1 : Z; t_rsp2 : Z; t_reserved1 : Z; t_reserved2 : Z;
  t_ist1 : Z; t_ist2 : Z; t_ist3 : Z; t_ist4 : Z; t_ist5 : Z; t_ist6 : Z; t_ist7 : Z;
  t_reserved3 : Z; t_reserved4 : Z; t_io_bitmap_offset : Z }.

(** [sizeof(struct tss)], packed. *)
Definition TSS_SIZE : Z := 4 + 3 * 8 + 2 * 8 + 7 * 8 + 8 + 2 + 2.

(** The fields as the bytes of memory, the first one lowest. *)
Fixpoint pack (fields : list (Z * Z)) : Z :=
  match fields with
  | [] => 0
  | (bits, v) :: rest => v mod 2 ^ bits + 2 ^ bits * pack rest
  end.

Definition encode_gdt_entry (e : gdt_entry) : Z :=
  pack [(16, ge_limit0_15 e); (16, ge_base0_15 e); (8, ge_base16_23 e); (8, ge_access e);
        (4, ge_limit16_19 e); (4, ge_flags e); (8, ge_base24_31 e)].
Definition encode_tss_entry (e : tss_entry) : Z :=
  pack [(16, te_limit e); (16, te_base0_15 e); (8, te_base16_23 e); (8, te_access e);
        (8, te_flags2 e); (8, te_base24_31 e); (32, te_base32_63 e); (32, te_reserved e)].

Definition GDT_ENTRY (a b : Z) : gdt_entry := mk_gdt_entry 0 0 0 (Z.lor GDT_ACCESS_PRESENT b) 0 a 0.
Definition gdt_null : gdt_entry := mk_gdt_entry 0 0 0 0 0 0 0.

Definition lor4 (a b c d : Z) : Z := Z.lor (Z.lor (Z.lor a b) c) d.

(** The initial value of the table; the entries without initialiser are zero. *)
Definition gdt_initial : list gdt_entry :=
  [ gdt_null;
    GDT_ENTRY GDT_FLAGS_LONG_MODE (lor4 GDT_ACCESS_KERNEL GDT_ACCESS_CODE_DATA_SEG GDT_ACCESS_CODE GDT_ACCESS_RW);
    GDT_ENTRY 0 (lor4 GDT_ACCESS_KERNEL GDT_ACCESS_CODE_DATA_SEG GDT_ACCESS_DATA GDT_ACCESS_RW);
    GDT_ENTRY GDT_FLAGS_LONG_MODE (lor4 GDT_ACCESS_USER GDT_ACCESS_CODE_DATA_SEG GDT_ACCESS_CODE GDT_ACCESS_RW);
    GDT_ENTRY 0 (lor4 GDT_ACCESS_USER GDT_ACCESS_CODE_DATA_SEG GDT_ACCESS_DATA GDT_ACCESS_RW);
    gdt_null; gdt_null ].

(** The globals of gdt.c: the encoded table and the segment. *)
Record gdt_globals : Type := mk_gdt { g_gdt : list Z; g_tss : tss }.
Definition gdt_globals_initial : gdt_globals :=
  mk_gdt (encode_gdt_entry <$> gdt_initial) (mk_tss 0 0 0 0 0 0 0 0 0 0 0 0 0 0 0 0).

Class GdtState (S : Type) {MS : MemState S} {HW : Hardware S} : Type := {
  gdt_g : S → gdt_globals;
  gdt_put : gdt_globals → S → S;
  gdt_g_put : ∀ g s, gdt_g (gdt_put g s) = g;
  gdt_g_mem : ∀ m s, gdt_g (st_put m s) = gdt_g s;
  gdt_g_hw : ∀ l s, gdt_g (hw_put l s) = gdt_g s;
  gdt_mem_put : ∀ g s, st_mem (gdt_put g s) = st_mem s;
  gdt_hw_put : ∀ g s, hw_log (gdt_put g s) = hw_log s;
}.

Record gdt_state : Type := mk_gdt_state { gs_machine : machine; gs_gdt : gdt_globals }.

#[export] Program Instance gdt_state_mem : MemState gdt_state := {|
  st_mem := mc_mem ∘ gs_machine; st_put := λ m s, mk_gdt_state (st_put m (gs_machine s)) (gs_gdt s);
|}.
Solve All Obligations with by intros; try match goal with s : gdt_state |- _ => destruct s as [[] ?] end.

#[export] Program Instance gdt_state_hw : Hardware gdt_state := {|
  hw_log := mc_log ∘ gs_machine; hw_put := λ l s, mk_gdt_state (hw_put l (gs_machine s)) (gs_gdt s);
  hw_msr := λ _, mret (0, 0); hw_cpuid := λ _ _, mret (0, 0, 0, 0); hw_mmio := λ _, mret 0; hw_in := λ _, mret 0;
|}.
Solve All Obligations with by intros; try match goal with s : gdt_state |- _ => destruct s as [[] ?] end.

#[export] Program Instance gdt_state_gdt : GdtState gdt_state := {|
  gdt_g := gs_gdt; gdt_put := λ g s, mk_gdt_state (gs_machine s) g;
|}.
Solve All Obligations with by intros; try match goal with s : gdt_state |- _ => destruct s as [[] ?] end.

Section defs.
Context {S : Type} {MS : MemState S} {HW : Hardware S} {GS : GdtState S}.
(** The addresses of [tss] and [gdt], and the word at the label [stack_top_64]. *)
Context (tss_addr gdt_addr stack_top_64 : Z).

Definition set_rsp0 (t : tss) (v : Z) : tss :=
  match t with mk_tss r0 _ rsp1 rsp2 r1 r2 i1 i2 i3 i4 i5 i6 i7 r3 r4 io =>
    mk_tss r0 v rsp1 rsp2 r1 r2 i1 i2 i3 i4 i5 i6 i7 r3 r4 io end.

Definition gdt_set_tss_rsp (rsp0 : Z) : M S unit :=
  '(mk_gdt gdt tss) ← gets gdt_g;
  modify (gdt_put (mk_gdt gdt (set_rsp0 tss rsp0))).

(** The descriptor that [gdt_init_tss] stores. *)
Definition tss_descriptor : tss_entry :=
  mk_tss_entry (u16 (TSS_SIZE - 1))
    (u16 (Z.land tss_addr U16_MAX))
    (u8 (Z.land (Z.shiftr tss_addr 16) 0xff))
    (u8 (lor4 GDT_ACCESS_KERNEL GDT_ACCESS_PRESENT GDT_ACCESS_SYSTEM_SEG GDT_ACCESS_TSS))
    0
    (u8 (Z.land (Z.shiftr tss_addr 24) 0xff))
    (u32 (Z.shiftr tss_addr 32))
    0.

(** Every field of the segment is set; the descriptor overlays the entries
    [GDT_TSS_INDEX] and the next one. *)
Definition gdt_init_tss : M S unit :=
  '(mk_gdt gdt _) ← gets gdt_g;
  let d := encode_tss_entry tss_descriptor in
  let i := Z.to_nat GDT_TSS_INDEX in
  modify (gdt_put (mk_gdt (<[Datatypes.S i := d / 2 ^ 64]> (<[i := d mod 2 ^ 64]> gdt))
                     (mk_tss 0 stack_top_64 0 0 0 0 0 0 0 0 0 0 0 0 0 0))) ;;
  load_tr (u16 (u16 GDT_TSS_INDEX * 8)).

(** [gdt_reload_asm] loads the descriptor and the segment registers. *)
Definition gdt_reload : M S unit :=
  event (Lgdt (u16 (GDT_SIZE * 8)) gdt_addr) ;;
  gdt_init_tss.
End defs.

(** ** How the processor reads a descriptor (AMD64 volume 2, 4.8) *)
Definition bits_of (d lo n : Z) : Z := (d / 2 ^ lo) mod 2 ^ n.
Definition descriptor_base (low high : Z) : Z :=
  bits_of low 16 24 + 2 ^ 24 * bits_of low 56 8 + 2 ^ 32 * bits_of high 0 32.
Definition descriptor_limit (low : Z) : Z := bits_of low 0 16 + 2 ^ 16 * bits_of low 48 4.

(** ** Lemmas *)
Lemma tss_descriptor_word a : 0 ≤ a < 2 ^ 64 →
  encode_tss_entry (tss_descriptor a) =
    111 + 2 ^ 16 * (a mod 2 ^ 16 + 2 ^ 16 * ((a / 2 ^ 16) mod 2 ^ 8 + 2 ^ 8 * (0x89 + 2 ^ 8 * (0 + 2 ^ 8 *
      ((a / 2 ^ 24) mod 2 ^ 8 + 2 ^ 8 * (a / 2 ^ 32)))))).
Proof.
  intros Ha. unfold encode_tss_entry, tss_descriptor, pack.
  cbn [te_limit te_base0_15 te_base16_23 te_access te_flags2 te_base24_31 te_base32_63 te_reserved].
  change U16_MAX with (Z.ones 16). change 0xff with (Z.ones 8).
  rewrite !Z.land_ones, !Z.shiftr_div_pow2 by lia. unfold u8, u16, u32.
  change ((lor4 GDT_ACCESS_KERNEL GDT_ACCESS_PRESENT GDT_ACCESS_SYSTEM_SEG GDT_ACCESS_TSS) mod 2 ^ 8) with 137.
  change ((TSS_SIZE - 1) mod 2 ^ 16) with 111. rewrite !Z.mod_mod by lia.
  assert (a / 2 ^ 32 < 2 ^ 32) by (apply Z.div_lt_upper_bound; lia).
  assert (0 ≤ a / 2 ^ 32) by (apply Z.div_pos; lia).
  rewrite (Z.mod_small (a / 2 ^ 32)) by lia. change (111 mod 2 ^ 16) with 111.
  change (137 mod 2 ^ 8) with 137. change (0 mod 2 ^ 8) with 0. change (0 mod 2 ^ 32) with 0. lia.
Qed.

Lemma tss_descriptor_fields a (d := encode_tss_entry (tss_descriptor a)) (low := d mod 2 ^ 64) (high := d / 2 ^ 64) :
  0 ≤ a < 2 ^ 64 →
  descriptor_base low high = a ∧ descriptor_limit low = 111 ∧ bits_of low 40 8 = 0x89 ∧ 0 ≤ high < 2 ^ 32.
Proof.
  intros Ha. subst low high. unfold d. rewrite tss_descriptor_word by done. clear d.
  assert (0 ≤ a / 2 ^ 32 < 2 ^ 32) as Hh by (split; [apply Z.div_pos; lia|apply Z.div_lt_upper_bound; lia]).
  assert (a = a mod 2 ^ 16 + 2 ^ 16 * ((a / 2 ^ 16) mod 2 ^ 8) + 2 ^ 24 * ((a / 2 ^ 24) mod 2 ^ 8)
              + 2 ^ 32 * (a / 2 ^ 32)) as Hsum by zlia.
  pose proof (Z.mod_pos_bound a (2 ^ 16) ltac:(lia)) as H0.
  pose proof (Z.mod_pos_bound (a / 2 ^ 16) (2 ^ 8) ltac:(lia)) as H1.
  pose proof (Z.mod_pos_bound (a / 2 ^ 24) (2 ^ 8) ltac:(lia)) as H2.
  rewrite Hsum at 9. clear Hsum.
  generalize dependent (a / 2 ^ 32). generalize dependent ((a / 2 ^ 24) mod 2 ^ 8).
  generalize dependent ((a / 2 ^ 16) mod 2 ^ 8). generalize dependent (a mod 2 ^ 16). clear a Ha.
  intros x0 H0 x1 H1 x2 H2 h Hh.
  assert (∀ z, (111 + 2 ^ 16 * z) / 2 ^ 16 = z) by (intros; zlia).
  unfold descriptor_base, descriptor_limit, bits_of. repeat split; zlia.
Qed.

Section properties.
Context {S : Type} {MS : MemState S} {HW : Hardware S} {GS : GdtState S}.
Implicit Types s : S.

(** C35: after [gdt_reload] of the initial table the processor has been given
    the table and the task register; the five other descriptors are those of the
    initial table: the null one, then present segments of the kernel with privilege
    level 0 and of user space with level 3, long mode ones for code; the task state
    descriptor decodes to the address of [tss] whatever it is, an available present
    TSS of ring 0; and [rsp0] is the word at the label [stack_top_64]. *)
Theorem gdt_reload_installs tss_addr gdt_addr stack_top_64 s :
  g_gdt (gdt_g s) = encode_gdt_entry <$> gdt_initial → 0 ≤ tss_addr < 2 ^ 64 →
  ∃ s' low high, gdt_reload tss_addr gdt_addr stack_top_64 s = Done (tt, s') ∧
    hw_log s' = Ltr (8 * GDT_TSS_INDEX) :: Lgdt 56 gdt_addr :: hw_log s ∧
    t_rsp0 (g_tss (gdt_g s')) = stack_top_64 ∧
    g_gdt (gdt_g s') = take 5 (encode_gdt_entry <$> gdt_initial) ++ [low; high] ∧
    (λ d, (bits_of d 47 1, bits_of d 45 2, bits_of d 43 2, bits_of d 53 1)) <$> take 5 (g_gdt (gdt_g s')) =
      [(0, 0, 0, 0); (1, 0, 3, 1); (1, 0, 2, 0); (1, 3, 3, 1); (1, 3, 2, 0)] ∧
    descriptor_base low high = tss_addr ∧ descriptor_limit low = TSS_SIZE - 1 ∧ bits_of low 40 8 = 0x89.
Proof.
  intros Hg Ha. pose proof (tss_descriptor_fields tss_addr Ha) as (Hb & Hl & Hacc & _).
  set (d := encode_tss_entry (tss_descriptor tss_addr)) in *.
  eexists _, (d mod 2 ^ 64), (d / 2 ^ 64).
  unfold gdt_reload, gdt_init_tss, load_tr, event, modify, gets, mbind, M_bind. rewrite gdt_g_hw.
  destruct (gdt_g s) as [gdt tss]. cbn [g_gdt] in Hg. subst gdt. split; [done|].
  rewrite hw_log_put, gdt_hw_put, hw_log_put, gdt_g_hw, gdt_g_put. split; [done|]. split; [done|].
  cbn [g_gdt]. split; [reflexivity|]. split; [by vm_compute|done].
Qed.
End properties.

(** ** Example *)
Definition ex_gdt : gdt_state := mk_gdt_state (mk_machine ∅ []) gdt_globals_initial.

Lemma gdt_reload_installs_witness :
  ∃ s' low high, gdt_reload 0xffffffff80123456 0xffffffff80124000 7 ex_gdt = Done (tt, s') ∧
    descriptor_base low high = 0xffffffff80123456.
Proof.
  destruct (gdt_reload_installs 0xffffffff80123456 0xffffffff80124000 7 ex_gdt)
    as (s' & low & high & Hrun & _ & _ & _ & _ & Hb & _); [reflexivity|lia|].
  exists s', low, high. split; [exact Hrun|exact Hb].
Defined.
