(* ===== verification/Bitmap.v ===== *)
(** * kernel/lib/bitmap: the allocation bitmap

    An array of 64-bit blocks in memory in which a set bit is a free index
    ("set is 0, unset is 1"); index [k] is bit [63 - k mod 64] of block
    [k / 64].  The abstract view of a bitmap is the predicate [is_free]. *)
From S2P Require Import Prelude CInt Mem CString.

(** ** The data and the operations *)

(** [struct bitmap]; [bm_bitmap] is the address of the blocks. *)
Record bitmap : Type := mk_bitmap {
  bm_len : Z;
  bm_size_in_block : Z;
  bm_bitmap : Z;
}.

Definition BITMAP_SIZE_IN_BLOCK (len : Z) : Z := len / 64 + 1.

(** The address of [bm->bitmap[i]]. *)
Definition block_addr (bm : bitmap) (i : Z) : Z := bm_bitmap bm + 8 * i.

Section defs.
Context {CS : CSem} {S : Type} {MS : MemState S}.

(** The fields of a [struct bitmap] that lives in memory. *)
Definition read_bitmap (p : Z) : M S bitmap :=
  len ← rd64 p;
  size ← rd64 (p + 8);
  blocks ← rd64 (p + 16);
  mret (mk_bitmap len size blocks).

(** It is called on a [BITMAP_STATIC] structure, whose third member is the
    array itself, and reads the third word as a pointer. *)
Definition bitmap_init_static (bm len : Z) : M S unit :=
  wr64 bm len ;;
  wr64 (bm + 8) (BITMAP_SIZE_IN_BLOCK len) ;;
  b ← read_bitmap bm;
  memset (bm_bitmap b) 0xff (u64 (bm_size_in_block b * 8)) ;;
  mret tt.

(** Returns the structure filled in and the "first unused address". *)
Definition bitmap_init (len ptr : Z) : M S (bitmap * Z) :=
  let bm := mk_bitmap len (BITMAP_SIZE_IN_BLOCK len) ptr in
  memset (bm_bitmap bm) 0xff (u64 (bm_size_in_block bm * 8)) ;;
  mret (bm, u64 (ptr + bm_size_in_block bm)).

(** [None] is the [NULL] result. *)
Definition bitmap_init_kheap (kmalloc : Z → M S Z) (len : Z) : M S (option (bitmap * Z)) :=
  let size := BITMAP_SIZE_IN_BLOCK len in
  ptr ← kmalloc (u64 (8 * size));
  if ptr =? NULL then mret None
  else
    let bm := mk_bitmap len size ptr in
    memset (bm_bitmap bm) 0xff (u64 (bm_size_in_block bm * 8)) ;;
    mret (Some (bm, u64 (bm_bitmap bm + bm_size_in_block bm))).

(** [index] is not initialised: it has a value only if a block was not 0. *)
Definition bitmap_find_and_set (bm : bitmap) : M S Z :=
  found ← for_ret 0 (bm_size_in_block bm) (λ i,
    w ← rd64 (block_addr bm i);
    if w =? 0 then mret None
    else
      bit_set_index ← of_outcome (clzll w);
      wr64 (block_addr bm i)
        (Z.land w (u64 (Z.lnot (u64 (Z.shiftl 1 (63 - bit_set_index)))))) ;;
      mret (Some (u64 (i * 64 + bit_set_index))));
  index ← match found with
          | Some index => mret index
          | None => of_outcome uninit_u64
          end;
  mret (MIN index (bm_len bm)).

(** The literal [1] is an [int]. *)
Definition bitmap_unset (bm : bitmap) (i : Z) : M S unit :=
  if bm_len bm <=? i then mret tt
  else
    let j := i / 64 in
    let bit_set_index := i mod 64 in
    w ← rd64 (block_addr bm j);
    mask ← of_outcome (int_shl1 (63 - bit_set_index));
    wr64 (block_addr bm j) (Z.lor w (u64 mask)).
End defs.

(** ** The abstract view *)

(** Index [k] is free in memory [m]. *)
Definition is_free (m : mem) (bm : bitmap) (k : Z) : bool :=
  match load_le 8 m (block_addr bm (k / 64)) with
  | Some w => Z.testbit w (63 - k mod 64)
  | None => false
  end.

(** The blocks are mapped, and there are as many as [bitmap_init] made. *)
Record bitmap_wf (m : mem) (bm : bitmap) : Prop := {
  wf_len : 0 ≤ bm_len bm < 2 ^ 63;
  wf_size : bm_size_in_block bm = BITMAP_SIZE_IN_BLOCK (bm_len bm);
  wf_mapped : mapped m (bm_bitmap bm) (8 * bm_size_in_block bm);
}.

(** The number of indices the blocks can hold. *)
Definition capacity (bm : bitmap) : Z := 64 * bm_size_in_block bm.

(** ** Lemmas *)
Lemma capacity_len m bm :
  bitmap_wf m bm → bm_len bm < capacity bm ≤ bm_len bm + 64 ∧ 0 < bm_size_in_block bm < 2 ^ 58.
Proof.
  intros [Hlen Hsz _]. unfold capacity. rewrite Hsz. unfold BITMAP_SIZE_IN_BLOCK. zlia.
Qed.

Lemma block_mapped m bm k :
  bitmap_wf m bm → 0 ≤ k < capacity bm →
  ∃ w, load_le 8 m (block_addr bm (k / 64)) = Some w ∧ 0 ≤ w < 2 ^ 64.
Proof.
  intros Hwf Hk. destruct (proj2 (load_le_is_Some 8 m (block_addr bm (k / 64)))) as [w Hw].
  - eapply mapped_sub; [by apply wf_mapped|..]; unfold block_addr, capacity in *; zlia.
  - exists w. split; [done|]. by apply load_le_range in Hw.
Qed.

Lemma is_free_Some m bm k w :
  load_le 8 m (block_addr bm (k / 64)) = Some w →
  is_free m bm k = Z.testbit w (63 - k mod 64).
Proof. unfold is_free. by intros ->. Qed.

(** The indices of one block after that block is overwritten. *)
Lemma is_free_write m bm i w' k :
  0 ≤ w' < 2 ^ 64 →
  is_free (write_le 8 m (block_addr bm i) w') bm k =
    if k / 64 =? i then Z.testbit w' (63 - k mod 64) else is_free m bm k.
Proof.
  intros Hw. unfold is_free. case_if; bool_facts.
  - subst i. rewrite load_write_same, Z.mod_small by done. done.
  - rewrite load_write_ne; [done|]. unfold block_addr. lia.
Qed.

Lemma bitmap_wf_only_in lo hi m m' bm : only_in lo hi m m' → bitmap_wf m bm → bitmap_wf m' bm.
Proof. intros Hm [???]. split; [done|done|]. by eapply only_in_mapped. Qed.

(** Clearing the first set bit of a block. *)
Lemma testbit_clear w c i :
  0 ≤ w < 2 ^ 64 → 0 ≤ c < 64 → 0 ≤ i →
  Z.testbit (Z.land w (u64 (Z.lnot (u64 (Z.shiftl 1 (63 - c)))))) i
    = Z.testbit w i && negb (i =? 63 - c).
Proof.
  intros Hw Hc Hi. rewrite Z.land_spec.
  destruct (decide (i < 64)) as [Hlt|Hge].
  - rewrite u64_testbit, Z.lnot_spec, u64_testbit, Z.shiftl_spec by lia.
    f_equal. f_equal. rewrite <- (Z.pow_0_r 2), Z.pow2_bits_eqb by lia.
    destruct (i =? 63 - c) eqn:?, (0 =? i - (63 - c)) eqn:?; bool_facts; lia.
  - assert (Z.testbit w i = false) as ->; [|done].
    rewrite <- (u64_small w) by done. apply u64_testbit_high. lia.
Qed.

Lemma land_range w x : 0 ≤ w < 2 ^ 64 → 0 ≤ Z.land w x < 2 ^ 64.
Proof.
  intros Hw. split; [apply Z.land_nonneg; lia|].
  rewrite <- (Z.mod_small w (2 ^ 64)), <- Z.land_ones, <- Z.land_assoc, (Z.land_comm (Z.ones 64)),
    Z.land_assoc, Z.land_ones by lia.
  apply Z.mod_pos_bound. lia.
Qed.

Lemma lor_range w x : 0 ≤ w < 2 ^ 64 → 0 ≤ x < 2 ^ 64 → 0 ≤ Z.lor w x < 2 ^ 64.
Proof.
  intros Hw Hx. split; [apply Z.lor_nonneg; lia|].
  destruct (decide (w = 0)) as [->|]; [rewrite Z.lor_0_l; lia|].
  destruct (decide (x = 0)) as [->|]; [rewrite Z.lor_0_r; lia|].
  apply Z.log2_lt_cancel. rewrite Z.log2_lor by lia. change (Z.log2 (2 ^ 64)) with 64.
  pose proof (Z.log2_lt_pow2 w 64). pose proof (Z.log2_lt_pow2 x 64). lia.
Qed.

Lemma testbit_high64 w i : 0 ≤ w < 2 ^ 64 → 64 ≤ i → Z.testbit w i = false.
Proof. intros Hw Hi. rewrite <- (u64_small w) by done. by apply u64_testbit_high. Qed.

(** Sign extension: a negative [int] has all its bits from 31 up set, a
    non-negative one none. *)
Lemma int_sign_bits v p :
  - 2 ^ 31 ≤ v < 2 ^ 31 → 31 ≤ p < 64 → Z.testbit (u64 v) p = (v <? 0).
Proof.
  intros Hv Hp. rewrite u64_testbit by lia.
  destruct (v <? 0) eqn:E; bool_facts.
  - apply Z.bits_above_log2_neg; [done|].
    assert (Z.log2 (Z.pred (- v)) < 31); [|lia].
    destruct (decide (v = -1)) as [->|]; [done|]. apply Z.log2_lt_pow2; lia.
  - destruct (decide (v = 0)) as [->|]; [by rewrite Z.bits_0|].
    apply Z.bits_above_log2; [done|].
    assert (Z.log2 v < 31); [|lia]. apply Z.log2_lt_pow2; lia.
Qed.

Lemma block_zero m bm i w :
  load_le 8 m (block_addr bm i) = Some w → 0 ≤ i →
  (∀ k, i * 64 ≤ k < i * 64 + 64 → is_free m bm k = false) → w = 0.
Proof.
  intros Hw Hi Hk. pose proof (load_le_range _ _ _ _ Hw) as Hr. change (256 ^ Z.of_nat 8) with (2 ^ 64) in Hr.
  apply Z.bits_inj_0. intros p.
  destruct (decide (p < 0)); [by apply Z.testbit_neg_r|].
  destruct (decide (64 ≤ p)); [by apply testbit_high64|].
  specialize (Hk (i * 64 + (63 - p)) ltac:(lia)).
  rewrite (is_free_Some _ _ _ w) in Hk.
  - by replace (63 - (i * 64 + (63 - p)) mod 64) with p in Hk by zlia.
  - by replace ((i * 64 + (63 - p)) / 64) with i by zlia.
Qed.

(** The first set bit of the first non-zero block is the least free index. *)
Lemma first_free_clz m bm j w c :
  0 ≤ j → load_le 8 m (block_addr bm (j / 64)) = Some w →
  is_free m bm j = true → (∀ k, 0 ≤ k < j → is_free m bm k = false) →
  0 ≤ c < 64 → Z.testbit w (63 - c) = true → (∀ i, 63 - c < i → Z.testbit w i = false) →
  c = j mod 64.
Proof.
  intros Hj Hw Hfree Hmin Hc Hset Hhigh.
  rewrite (is_free_Some _ _ _ w) in Hfree by done.
  assert (¬ 63 - c < 63 - j mod 64) as Hle.
  { intros Hlt. specialize (Hhigh _ Hlt). congruence. }
  destruct (decide (c < j mod 64)) as [Hlt|]; [|zlia].
  specialize (Hmin (j / 64 * 64 + c) ltac:(zlia)).
  rewrite (is_free_Some _ _ _ w) in Hmin by (by replace ((j / 64 * 64 + c) / 64) with (j / 64) by zlia).
  replace ((j / 64 * 64 + c) mod 64) with c in Hmin by zlia. congruence.
Qed.

Section specs.
Context {CS : CSem} {S : Type} {MS : MemState S}.
Implicit Types s : S.

(** The functional behaviour of [bitmap_find_and_set] when a bit is free. *)
Lemma find_and_set_first bm s j (m := st_mem s) :
  bitmap_wf m bm → 0 ≤ j < capacity bm →
  is_free m bm j = true → (∀ k, 0 ≤ k < j → is_free m bm k = false) →
  ∃ m', bitmap_find_and_set bm s = Done (Z.min j (bm_len bm), st_put m' s)
    ∧ only_in (block_addr bm (j / 64)) (block_addr bm (j / 64) + 8) m m'
    ∧ ∀ k, 0 ≤ k < capacity bm → is_free m' bm k = is_free m bm k && negb (k =? j).
Proof.
  intros Hwf Hj Hfree Hmin. pose proof (capacity_len _ _ Hwf) as [Hcap Hsz].
  assert (wp (bitmap_find_and_set bm) s (λ r s', r = Z.min j (bm_len bm) ∧ ∃ m', s' = st_put m' s
    ∧ only_in (block_addr bm (j / 64)) (block_addr bm (j / 64) + 8) m m'
    ∧ ∀ k, 0 ≤ k < capacity bm → is_free m' bm k = is_free m bm k && negb (k =? j)))
    as (r & s' & Hrun & -> & m' & -> & Hm')%wp_Done; [|by eauto].
  unfold bitmap_find_and_set. wp_step.
  apply wp_for_ret with (I := λ i s', s' = s ∧ i ≤ j / 64).
  - lia.
  - split; [done|zlia].
  - intros i ? Hi [-> Hij].
    destruct (block_mapped m bm (i * 64)) as (w & Hw & Hwr); [done|unfold capacity; lia|].
    rewrite Z.div_mul in Hw by lia.
    wp_step. apply wp_load with w; [done|]. case_if; bool_facts.
    { subst w. apply wp_ret. split; [done|].
      destruct (decide (i = j / 64)) as [->|]; [|lia].
      rewrite (is_free_Some _ _ _ 0), Z.bits_0 in Hfree by done. done. }
    destruct (decide (i = j / 64)) as [->|Hne].
    2: { destruct E. apply (block_zero m bm i); [done|lia|].
         intros k Hk. apply Hmin. zlia. }
    destruct (clzll_spec w) as (c & Hclz & Hc & Hset & Hhigh); [lia|].
    assert (c = j mod 64) as ->.
    { apply (first_free_clz m bm j w); try done. lia. }
    wp_step. eapply wp_of_outcome; [done|]. wp_step. apply wp_store; [by exists w|].
    do 2 wp_step.
    rewrite (u64_small (j / 64 * 64 + j mod 64)) by (unfold capacity in *; zlia).
    replace (j / 64 * 64 + j mod 64) with j by zlia.
    wp_step. apply wp_ret. split; [apply MIN_u64; unfold capacity in *; lia|].
    eexists. split_and!; [done|..].
    + apply (only_in_write_le 8). eapply load_le_mapped, Hw.
    + intros k Hk. rewrite is_free_write by by apply land_range.
      case_if; bool_facts.
      * rewrite testbit_clear, (is_free_Some _ _ _ w) by (done || zlia || congruence).
        f_equal. f_equal. destruct (k =? j) eqn:?; bool_facts; zlia.
      * destruct (k =? j) eqn:?; bool_facts; [subst k; done|]. by rewrite andb_true_r.
  - intros ? [_ Hle]. unfold capacity in *. zlia.
Qed.

(** With every bit taken, the result is whatever the uninitialised [index]
    holds. *)
Lemma find_and_set_empty bm s (m := st_mem s) :
  bitmap_wf m bm → (∀ k, 0 ≤ k < capacity bm → is_free m bm k = false) →
  bitmap_find_and_set bm s =
    match uninit_u64 with
    | Done v => Done (MIN v (bm_len bm), s)
    | Faulted f => Faulted f
    end.
Proof.
  intros Hwf Hnone. pose proof (capacity_len _ _ Hwf) as [Hcap Hsz].
  assert (∀ (body := λ i, w ← rd64 (block_addr bm i);
            if w =? 0 then mret None
            else
              bit_set_index ← of_outcome (clzll w);
              wr64 (block_addr bm i)
                (Z.land w (u64 (Z.lnot (u64 (Z.shiftl 1 (63 - bit_set_index)))))) ;;
              mret (Some (u64 (i * 64 + bit_set_index)))),
    for_ret 0 (bm_size_in_block bm) body s = Done (None, s)) as Hrun.
  { intros body.
    assert (wp (for_ret 0 (bm_size_in_block bm) body) s (λ r s', r = None ∧ s' = s))
      as (? & ? & ? & -> & ->)%wp_Done; [|done].
    apply wp_for_ret with (I := λ _ s', s' = s); [lia|done| |done].
    intros i ? Hi ->. subst body.
    destruct (block_mapped m bm (i * 64)) as (w & Hw & Hwr); [done|unfold capacity; lia|].
    rewrite Z.div_mul in Hw by lia. wp_step. apply wp_load with w; [done|].
    rewrite (block_zero m bm i w); [done|done|lia|].
    intros k Hk. apply Hnone. unfold capacity. lia. }
  unfold bitmap_find_and_set. rewrite (bind_Done _ _ _ _ _ Hrun).
  by destruct uninit_u64.
Qed.

Lemma is_free_lor m bm i w v k :
  load_le 8 m (block_addr bm i) = Some w →
  is_free (write_le 8 m (block_addr bm i) (Z.lor w (u64 v))) bm k =
    is_free m bm k || ((k / 64 =? i) && Z.testbit (u64 v) (63 - k mod 64)).
Proof.
  intros Hw. pose proof (load_le_range _ _ _ _ Hw) as Hr.
  rewrite is_free_write by (apply lor_range; [done|apply u64_range]).
  case_if; bool_facts; simpl.
  - subst i. by rewrite Z.lor_spec, (is_free_Some _ _ _ w).
  - by rewrite orb_false_r.
Qed.

(** [bitmap_unset] below [len], whatever the shift gives. *)
Lemma unset_run bm s i (m := st_mem s) :
  bitmap_wf m bm → 0 ≤ i < bm_len bm →
  match int_shl1 (63 - i mod 64) with
  | Done v =>
      ∃ m', bitmap_unset bm i s = Done (tt, st_put m' s)
        ∧ only_in (block_addr bm (i / 64)) (block_addr bm (i / 64) + 8) m m'
        ∧ ∀ k, is_free m' bm k =
            is_free m bm k || ((k / 64 =? i / 64) && Z.testbit (u64 v) (63 - k mod 64))
  | Faulted f => bitmap_unset bm i s = Faulted f
  end.
Proof.
  intros Hwf Hi. pose proof (capacity_len _ _ Hwf) as [Hcap Hsz].
  destruct (block_mapped m bm i) as (w & Hw & Hwr); [done|lia|].
  unfold bitmap_unset. case_if; bool_facts; [lia|].
  rewrite (bind_Done _ _ _ _ _ (load_Done _ _ _ _ Hw)).
  destruct (int_shl1 _) as [v|f]; [|done]. simpl.
  eexists. split_and!.
  - unfold mbind, M_bind, mret, M_ret. apply store_Done. by exists w.
  - apply (only_in_write_le 8). eapply load_le_mapped, Hw.
  - intros k. by apply is_free_lor.
Qed.

(** In the low half of a block (index mod 64 above 32) exactly [i] is freed. *)
Lemma unset_low bm s i (m := st_mem s) :
  bitmap_wf m bm → 0 ≤ i < bm_len bm → 33 ≤ i mod 64 →
  ∃ m', bitmap_unset bm i s = Done (tt, st_put m' s)
    ∧ only_in (block_addr bm (i / 64)) (block_addr bm (i / 64) + 8) m m'
    ∧ ∀ k, is_free m' bm k = is_free m bm k || (k =? i).
Proof.
  intros Hwf Hi Hlow. pose proof (unset_run bm s i Hwf Hi) as Hrun.
  rewrite int_shl1_small in Hrun by lia. destruct Hrun as (m' & Hrun & Hout & Hfree).
  exists m'. split_and!; [done|done|]. intros k. rewrite Hfree. f_equal.
  rewrite u64_testbit, Z.pow2_bits_eqb by zlia.
  destruct (k =? i) eqn:?, (k / 64 =? i / 64) eqn:?, (63 - i mod 64 =? 63 - k mod 64) eqn:?;
    bool_facts; zlia.
Qed.

(** At index 32 of a block the mask is [INT_MIN], sign-extended: indices 0 to
    32 of the block are all freed. *)
Lemma unset_32 bm s i (m := st_mem s) :
  bitmap_wf m bm → 0 ≤ i < bm_len bm → i mod 64 = 32 →
  ∃ m', bitmap_unset bm i s = Done (tt, st_put m' s)
    ∧ only_in (block_addr bm (i / 64)) (block_addr bm (i / 64) + 8) m m'
    ∧ ∀ k, is_free m' bm k = is_free m bm k || ((i - 32 <=? k) && (k <=? i)).
Proof.
  intros Hwf Hi H32. pose proof (unset_run bm s i Hwf Hi) as Hrun.
  rewrite H32 in Hrun. change (63 - 32) with 31 in Hrun. rewrite int_shl1_31 in Hrun.
  destruct Hrun as (m' & Hrun & Hout & Hfree).
  exists m'. split_and!; [done|done|]. intros k. rewrite Hfree. f_equal.
  assert (Z.testbit (u64 (- 2 ^ 31)) (63 - k mod 64) = (k mod 64 <=? 32)) as ->.
  { change (u64 (- 2 ^ 31)) with (Z.shiftl (Z.ones 33) 31).
    rewrite Z.shiftl_spec, Z.testbit_ones by zlia.
    destruct (0 <=? 63 - k mod 64 - 31) eqn:?, (63 - k mod 64 - 31 <? 33) eqn:?,
      (k mod 64 <=? 32) eqn:?; bool_facts; zlia. }
  destruct (k / 64 =? i / 64) eqn:?, (k mod 64 <=? 32) eqn:?, (i - 32 <=? k) eqn:?, (k <=? i) eqn:?;
    bool_facts; zlia.
Qed.

(** In the high half of a block no [int] is the right mask: either [i] stays
    taken, or indices 0 to 32 of its block are all freed. *)
Lemma unset_high bm s i m' (m := st_mem s) :
  bitmap_wf m bm → 0 ≤ i < bm_len bm → i mod 64 < 32 →
  bitmap_unset bm i s = Done (tt, st_put m' s) →
  is_free m' bm i = is_free m bm i ∨
  ∀ k, k / 64 = i / 64 → k mod 64 ≤ 32 → is_free m' bm k = true.
Proof.
  intros Hwf Hi Hhigh Hdone. pose proof (unset_run bm s i Hwf Hi) as Hrun.
  destruct (int_shl1 (63 - i mod 64)) as [v|f] eqn:Hv; [|congruence].
  destruct Hrun as (m'' & Hrun & _ & Hfree).
  assert (m' = m'') as <-.
  { rewrite Hdone in Hrun. injection Hrun as Heq. apply (f_equal st_mem) in Heq.
    by rewrite !st_mem_put in Heq. }
  apply int_shl1_int in Hv; [|zlia].
  destruct (v <? 0) eqn:Hneg.
  - right. intros k Hk Hk32. rewrite Hfree, int_sign_bits by (done || zlia).
    rewrite Hneg, Hk, Z.eqb_refl. by rewrite orb_true_r.
  - left. rewrite Hfree, int_sign_bits by (done || zlia).
    rewrite Hneg. by rewrite andb_false_r, orb_false_r.
Qed.
End specs.

(** ** Allocation sequences *)
Section sequences.
Context {CS : CSem} {S : Type} {MS : MemState S}.
Implicit Types s : S.

Fixpoint find_and_set_times (n : nat) (bm : bitmap) : M S (list Z) :=
  match n with
  | O => mret []
  | Datatypes.S n' =>
      i ← bitmap_find_and_set bm;
      rest ← find_and_set_times n' bm;
      mret (i :: rest)
  end.

Lemma load_le_fill n m a v :
  (∀ i, a ≤ i < a + Z.of_nat n → m !! i = Some v) → v mod 256 = 255 →
  load_le n m a = Some (256 ^ Z.of_nat n - 1).
Proof.
  intros Hm Hv. revert a Hm. induction n as [|n IH]; intros a Hm; [done|].
  rewrite load_le_S, Hm by lia. simpl. rewrite IH by (intros i Hi; apply Hm; lia). simpl.
  rewrite Hv, Nat2Z.inj_succ, Z.pow_succ_r by lia. f_equal. lia.
Qed.

(** [bitmap_init] makes every index free. *)
Lemma init_all_free len ptr s (m := st_mem s)
    (bm := mk_bitmap len (BITMAP_SIZE_IN_BLOCK len) ptr) :
  0 ≤ len < 2 ^ 63 → mapped m ptr (8 * BITMAP_SIZE_IN_BLOCK len) →
  ∃ m', bitmap_init len ptr s = Done ((bm, u64 (ptr + BITMAP_SIZE_IN_BLOCK len)), st_put m' s)
    ∧ bitmap_wf m' bm
    ∧ only_in ptr (ptr + 8 * BITMAP_SIZE_IN_BLOCK len) m m'
    ∧ ∀ k, 0 ≤ k < capacity bm → is_free m' bm k = true.
Proof.
  intros Hlen Hm.
  assert (wp (bitmap_init len ptr) s (λ r s', r = (bm, u64 (ptr + BITMAP_SIZE_IN_BLOCK len)) ∧
    ∃ m', s' = st_put m' s ∧ bitmap_wf m' bm
    ∧ only_in ptr (ptr + 8 * BITMAP_SIZE_IN_BLOCK len) m m'
    ∧ ∀ k, 0 ≤ k < capacity bm → is_free m' bm k = true))
    as (r & s' & Hrun & -> & m' & -> & Hm')%wp_Done; [|by eauto].
  unfold bitmap_init. wp_step. simpl.
  rewrite u64_small by (unfold BITMAP_SIZE_IN_BLOCK; zlia).
  rewrite (Z.mul_comm _ 8). apply wp_memset; [unfold BITMAP_SIZE_IN_BLOCK; zlia|done|].
  intros m' Hout Hset. apply wp_ret. split; [done|]. exists m'. split_and!; [done| |done|].
  - split; [done|done|]. by eapply only_in_mapped.
  - intros k Hk. unfold capacity in Hk. simpl in Hk.
    erewrite is_free_Some. 2: { apply load_le_fill with 255; [|done].
      intros i Hi. apply Hset. unfold block_addr in Hi. simpl in Hi. zlia. }
    change (256 ^ Z.of_nat 8 - 1) with (Z.ones 64). apply Z.ones_spec_low. zlia.
Qed.

(** With the indices below [a] taken and those from [a] free, [n] calls return
    [a], [a + 1], ..., each clipped to [len]. *)
Lemma find_and_set_times_run n bm a s (m := st_mem s) :
  bitmap_wf m bm → 0 ≤ a → a + Z.of_nat n ≤ capacity bm →
  (∀ k, 0 ≤ k < capacity bm → is_free m bm k = (a <=? k)) →
  ∃ m', find_and_set_times n bm s
          = Done ((λ k, Z.min k (bm_len bm)) <$> seqZ a (Z.of_nat n), st_put m' s)
    ∧ bitmap_wf m' bm
    ∧ (∀ k, 0 ≤ k < capacity bm → is_free m' bm k = (a + Z.of_nat n <=? k)).
Proof.
  revert a s m. induction n as [|n IH]; intros a s m Hwf Ha Hcap Hfree.
  { exists m. unfold m. rewrite st_put_mem, Z.add_0_r. done. }
  destruct (find_and_set_first bm s a) as (m1 & Hrun & Hout & Hfree1); [done|lia|..].
  { rewrite Hfree by lia. apply Z.leb_refl. }
  { intros k Hk. rewrite Hfree by lia. apply Z.leb_gt. lia. }
  destruct (IH (a + 1) (st_put m1 s)) as (m2 & Hrun2 & Hwf2 & Hfree2);
    rewrite ?st_mem_put; [by eapply bitmap_wf_only_in|lia|lia|..].
  { intros k Hk. rewrite Hfree1, Hfree by done.
    destruct (a <=? k) eqn:?, (k =? a) eqn:?, (a + 1 <=? k) eqn:?; bool_facts; simpl; lia. }
  exists m2. split_and!; [|done|].
  - rewrite (seqZ_cons a) by lia.
    replace (Z.pred (Z.of_nat (Datatypes.S n))) with (Z.of_nat n) by lia. simpl.
    rewrite (bind_Done _ _ _ _ _ Hrun), (bind_Done _ _ _ _ _ Hrun2), st_put_put.
    by replace (Z.succ a) with (a + 1) by lia.
  - intros k Hk. rewrite Hfree2 by done. f_equal. lia.
Qed.
End sequences.

Lemma least_free m bm n :
  (∃ k, 0 ≤ k < n ∧ is_free m bm k = true) →
  ∃ j, 0 ≤ j < n ∧ is_free m bm j = true ∧ ∀ k, 0 ≤ k < j → is_free m bm k = false.
Proof.
  intros (k & Hk & Hfree). assert (0 ≤ k) as Hk0 by lia.
  revert Hk Hfree. pattern k. apply Zlt_0_ind; [|done]. clear k Hk0. intros k IH Hk0 Hk Hfree.
  destruct (decide (Exists (λ i, is_free m bm i = true) (seqZ 0 k))) as [Hex|Hnex].
  - apply Exists_exists in Hex as (i & Hi%elem_of_seqZ & Hfi). apply (IH i); [lia|lia|done].
  - exists k. split_and!; [lia..|done|]. intros i Hi. apply not_true_is_false. intros Hfi.
    apply Hnex, Exists_exists. exists i. split; [|done]. apply elem_of_seqZ. lia.
Qed.

(** ** Properties *)
Section properties.
Context {CS : CSem} {S : Type} {MS : MemState S}.
Implicit Types s : S.

(** C27: as long as some bit is set, one of the spare bits after [len] perhaps,
    [bitmap_find_and_set] returns: either the least free index [r] below [len], which it
    marks taken leaving every other index alone, or [len] when no index below [len] is
    free (and the indices below [len] are unchanged).  When no bit is set it reads its
    uninitialised [index]: the result is any stale value, clipped to [len], or undefined. *)
Theorem bitmap_find_and_set_contract bm s (m := st_mem s) :
  bitmap_wf m bm →
  ((∃ k, 0 ≤ k < capacity bm ∧ is_free m bm k = true) →
  ∃ r m', bitmap_find_and_set bm s = Done (r, st_put m' s) ∧ bitmap_wf m' bm ∧
    ((0 ≤ r < bm_len bm ∧ is_free m bm r = true ∧ (∀ k, 0 ≤ k < r → is_free m bm k = false) ∧
      is_free m' bm r = false ∧
      ∀ k, 0 ≤ k < capacity bm → k ≠ r → is_free m' bm k = is_free m bm k) ∨
     (r = bm_len bm ∧
      ∀ k, 0 ≤ k < bm_len bm → is_free m bm k = false ∧ is_free m' bm k = false))) ∧
  ((∀ k, 0 ≤ k < capacity bm → is_free m bm k = false) →
   bitmap_find_and_set bm s =
     match uninit_u64 with Done v => Done (MIN v (bm_len bm), s) | Faulted f => Faulted f end).
Proof.
  intros Hwf. split; [intros Hex|by apply find_and_set_empty]. destruct (least_free _ _ _ Hex) as (j & Hj & Hfree & Hmin).
  destruct (find_and_set_first bm s j) as (m' & Hrun & Hout & Hbits); try done.
  exists (Z.min j (bm_len bm)), m'. split_and!; [done|by eapply bitmap_wf_only_in|].
  destruct (decide (j < bm_len bm)).
  - left. rewrite Z.min_l by lia. split_and!; [lia|lia|done|done|..].
    + rewrite Hbits, Z.eqb_refl by done. by rewrite andb_false_r.
    + intros k Hk Hne. rewrite Hbits by done. apply Z.eqb_neq in Hne as ->. by rewrite andb_true_r.
  - right. split; [lia|]. intros k Hk. split; [apply Hmin; lia|].
    rewrite Hbits, Hmin by lia. done.
Qed.

(** From a fresh bitmap, successive allocations return 0, 1, 2, ... in
    growing order, then [len] until the spare bits of the last block are used
    up. *)
Theorem bitmap_growing_order len ptr n s :
  0 ≤ len < 2 ^ 63 → mapped (st_mem s) ptr (8 * BITMAP_SIZE_IN_BLOCK len) →
  Z.of_nat n ≤ 64 * BITMAP_SIZE_IN_BLOCK len →
  ∃ s', ('(bm, _) ← bitmap_init len ptr; find_and_set_times n bm) s
        = Done ((λ k, Z.min k len) <$> seqZ 0 (Z.of_nat n), s').
Proof.
  intros Hlen Hm Hn. destruct (init_all_free len ptr s) as (m1 & Hinit & Hwf & _ & Hfree); [done..|].
  destruct (find_and_set_times_run n (mk_bitmap len (BITMAP_SIZE_IN_BLOCK len) ptr) 0 (st_put m1 s)) as (m2 & Hrun & _);
    rewrite ?st_mem_put; [done|done|unfold capacity; simpl; lia|..].
  { intros k Hk. rewrite Hfree by done. symmetry. apply Z.leb_le. lia. }
  eexists. rewrite (bind_Done _ _ _ _ _ Hinit). apply Hrun.
Qed.

(** Once the 64 * (len / 64 + 1) bits of a fresh bitmap are used up (the
    last of those calls already report the bitmap full), the next call of
    [bitmap_find_and_set] reads the uninitialised [index]: it is undefined
    behaviour or, on real hardware, returns any stale value clipped to [len]. *)
Theorem bitmap_exhaustion_reads_uninit len ptr n s :
  0 ≤ len < 2 ^ 63 → mapped (st_mem s) ptr (8 * BITMAP_SIZE_IN_BLOCK len) →
  Z.of_nat n = 64 * BITMAP_SIZE_IN_BLOCK len →
  ∃ s', ('(bm, _) ← bitmap_init len ptr;
         find_and_set_times n bm ;; bitmap_find_and_set bm) s
        = match uninit_u64 with
          | Done v => Done (MIN v len, s')
          | Faulted f => Faulted f
          end.
Proof.
  intros Hlen Hm Hn. destruct (init_all_free len ptr s) as (m1 & Hinit & Hwf & _ & Hfree); [done..|].
  destruct (find_and_set_times_run n (mk_bitmap len (BITMAP_SIZE_IN_BLOCK len) ptr) 0 (st_put m1 s)) as (m2 & Hrun & Hwf2 & Hnone);
    rewrite ?st_mem_put; [done|done|unfold capacity; simpl; lia|..].
  { intros k Hk. rewrite Hfree by done. symmetry. apply Z.leb_le. lia. }
  eexists. rewrite (bind_Done _ _ _ _ _ Hinit), (bind_Done _ _ _ _ _ Hrun).
  rewrite find_and_set_empty by (rewrite ?st_mem_put; try done; intros k Hk;
    rewrite Hnone by done; apply Z.leb_gt; unfold capacity in Hk; simpl in *; lia).
  done.
Qed.

(** Freeing the index just allocated restores the free set, for an index
    in the low half of a block. *)
Theorem bitmap_unset_roundtrip bm s r s1 (m := st_mem s) :
  bitmap_wf m bm → (∃ k, 0 ≤ k < capacity bm ∧ is_free m bm k = true) →
  bitmap_find_and_set bm s = Done (r, s1) → r < bm_len bm → 33 ≤ r mod 64 →
  ∃ s2, bitmap_unset bm r s1 = Done (tt, s2) ∧
    ∀ k, 0 ≤ k < capacity bm → is_free (st_mem s2) bm k = is_free m bm k.
Proof.
  intros Hwf Hex Hrun Hr H33. destruct (least_free _ _ _ Hex) as (j & Hj & Hfree & Hmin).
  destruct (find_and_set_first bm s j) as (m' & Hrun' & Hout & Hbits); try done.
  rewrite Hrun in Hrun'. injection Hrun' as Hrj ->.
  assert (r = j) as -> by lia. clear Hrj.
  destruct (unset_low bm (st_put m' s) j) as (m2 & Hunset & _ & Hbits2);
    rewrite ?st_mem_put; [by eapply bitmap_wf_only_in|lia|done|].
  eexists. split; [exact Hunset|]. intros k Hk. rewrite st_mem_put, Hbits2, st_mem_put, Hbits by done.
  destruct (k =? j) eqn:?; bool_facts; simpl; [subst k; fold m; by rewrite Hfree|].
  by rewrite andb_true_r, orb_false_r.
Qed.

(** In the rest of a block the mask [1 << (63 - i % 64)], computed on
    [int], is wrong.  At index 32 of the block it frees indices 0 to 32 of the
    block; below 32, whatever the undefined shift yields, either the index
    stays taken or indices 0 to 32 of its block are all freed. *)
Theorem bitmap_unset_wrong_mask bm s i m' (m := st_mem s) :
  bitmap_wf m bm → 0 ≤ i < bm_len bm → i mod 64 ≤ 32 →
  bitmap_unset bm i s = Done (tt, st_put m' s) →
  (i mod 64 = 32 ∧
   ∀ k, is_free m' bm k = is_free m bm k || ((i - 32 <=? k) && (k <=? i))) ∨
  (i mod 64 < 32 ∧
   (is_free m' bm i = is_free m bm i ∨
    ∀ k, k / 64 = i / 64 → k mod 64 ≤ 32 → is_free m' bm k = true)).
Proof.
  intros Hwf Hi H32 Hdone. destruct (decide (i mod 64 = 32)) as [Heq|Hne].
  - left. split; [done|]. destruct (unset_32 bm s i) as (m'' & Hrun & _ & Hbits); [done..|].
    rewrite Hdone in Hrun. injection Hrun as Hm. apply (f_equal st_mem) in Hm.
    rewrite !st_mem_put in Hm. subst m''. exact Hbits.
  - right. split; [lia|]. apply (unset_high bm s i m'); try done. lia.
Qed.

(** [bitmap_init] frees every index and writes only its blocks, but the
    "first unused address" it returns is inside them: [ptr + n] instead of
    [ptr + 8 * n] for [n] blocks. *)
Theorem bitmap_init_next_overlaps len ptr s :
  0 ≤ len < 2 ^ 63 → 0 ≤ ptr < 2 ^ 62 →
  mapped (st_mem s) ptr (8 * BITMAP_SIZE_IN_BLOCK len) →
  ∃ bm next m', bitmap_init len ptr s = Done ((bm, next), st_put m' s)
    ∧ bitmap_wf m' bm ∧ (∀ k, 0 ≤ k < len → is_free m' bm k = true)
    ∧ only_in ptr (ptr + 8 * bm_size_in_block bm) (st_mem s) m'
    ∧ bm_bitmap bm < next < bm_bitmap bm + 8 * bm_size_in_block bm.
Proof.
  intros Hlen Hptr Hm. destruct (init_all_free len ptr s) as (m' & Hinit & Hwf & Hout & Hfree); [done..|].
  do 3 eexists. split_and!; [exact Hinit|done| |done|..]; simpl.
  - intros k Hk. apply Hfree. pose proof (capacity_len _ _ Hwf). simpl in *. lia.
  - rewrite u64_small; unfold BITMAP_SIZE_IN_BLOCK; zlia.
  - rewrite u64_small; unfold BITMAP_SIZE_IN_BLOCK; zlia.
Qed.

(** [bitmap_init_static] takes the first word [w] of the inline array for a
    pointer: it fills [w, w + 8 * n) and leaves the array as it was. *)
Theorem bitmap_init_static_wild_pointer p len w s (n := BITMAP_SIZE_IN_BLOCK len) :
  0 ≤ len < 2 ^ 63 →
  mapped (st_mem s) p (16 + 8 * n) →
  load_le 8 (st_mem s) (p + 16) = Some w →
  mapped (st_mem s) w (8 * n) →
  w + 8 * n ≤ p ∨ p + 16 + 8 * n ≤ w →
  ∃ m', bitmap_init_static p len s = Done (tt, st_put m' s)
    ∧ (∀ a, w ≤ a < w + 8 * n → m' !! a = Some 255)
    ∧ (∀ i, 0 ≤ i < n → load_le 8 m' (p + 16 + 8 * i) = load_le 8 (st_mem s) (p + 16 + 8 * i)).
Proof.
  intros Hlen Hm Hw Hmw Hsep.
  assert (0 < n < 2 ^ 58) as Hn by (unfold n, BITMAP_SIZE_IN_BLOCK; zlia).
  assert (∀ a, p ≤ a → a + 8 ≤ p + 16 → is_Some (load_le 8 (st_mem s) a)) as Hfield.
  { intros a ? ?. apply load_le_is_Some. eapply mapped_sub; [exact Hm|lia|lia]. }
  assert (wp (bitmap_init_static p len) s (λ r s', ∃ m', s' = st_put m' s
    ∧ (∀ a, w ≤ a < w + 8 * n → m' !! a = Some 255)
    ∧ (∀ i, 0 ≤ i < n → load_le 8 m' (p + 16 + 8 * i) = load_le 8 (st_mem s) (p + 16 + 8 * i))))
    as ([] & s' & Hrun & m' & -> & Hm')%wp_Done; [|by eauto].
  unfold bitmap_init_static, read_bitmap.
  wp_step. apply wp_store; [apply Hfield; lia|].
  wp_step. apply wp_store; [mem_simpl; apply Hfield; lia|].
  wp_step. wp_step. eapply wp_load; [mem_simpl; done|].
  wp_step. eapply wp_load; [mem_simpl; done|].
  wp_step. eapply wp_load; [mem_simpl; done|].
  wp_step. fold n. simpl. wp_step.
  rewrite (Z.mod_small n), u64_small, (Z.mul_comm n) by lia.
  apply wp_memset; [lia| |].
  { rewrite !st_mem_put. by do 2 apply mapped_write_le. }
  intros m' Hout Hset. rewrite !st_put_put. apply wp_ret. eexists. split_and!; [done|exact Hset|].
  intros i Hi. rewrite (only_in_load _ _ _ _ _ _ Hout) by lia. by mem_simpl.
Qed.
End properties.

(** ** Witnesses *)
Definition ex_bm : bitmap := mk_bitmap 100 2 4096.
(** Indices 62 and 63 free, the rest of the first block and the second taken. *)
Definition ex_mem : mem := write_le 8 (zero_mem 4096 24) 4096 3.

Lemma ex_bm_wf : bitmap_wf ex_mem ex_bm.
Proof. split; [done|done|]. by apply mappedb_mapped. Qed.

Lemma ex_bm_free : ∃ k, 0 ≤ k < capacity ex_bm ∧ is_free ex_mem ex_bm k = true.
Proof. by exists 63. Qed.

Lemma bitmap_find_and_set_contract_witness :
  (∃ r m', bitmap_find_and_set (CS := strict_c) ex_bm ex_mem = Done (r, m') ∧ bitmap_wf m' ex_bm ∧
    ((0 ≤ r < 100 ∧ is_free ex_mem ex_bm r = true ∧
      (∀ k, 0 ≤ k < r → is_free ex_mem ex_bm k = false) ∧ is_free m' ex_bm r = false ∧
      ∀ k, 0 ≤ k < 128 → k ≠ r → is_free m' ex_bm k = is_free ex_mem ex_bm k) ∨
     (r = 100 ∧ ∀ k, 0 ≤ k < 100 → is_free ex_mem ex_bm k = false ∧ is_free m' ex_bm k = false))) ∧
  bitmap_find_and_set (CS := x86_O0 1) (mk_bitmap 3 1 4096) (zero_mem 4096 8) = Done (1, zero_mem 4096 8).
Proof.
  split.
  - exact (proj1 (bitmap_find_and_set_contract (CS := strict_c) ex_bm ex_mem ex_bm_wf) ex_bm_free).
  - apply (proj2 (bitmap_find_and_set_contract (CS := x86_O0 1) (mk_bitmap 3 1 4096) (zero_mem 4096 8)
      ltac:(split; [done|done|by apply mappedb_mapped]))).
    intros k Hk. apply negb_true_iff.
    by apply (range_forall (λ k, negb (is_free (zero_mem 4096 8) (mk_bitmap 3 1 4096) k)) 0 64).
Defined.

Lemma bitmap_growing_order_witness :
  ∃ s', ('(bm, _) ← bitmap_init 3 4096; find_and_set_times (CS := strict_c) 5 bm) (zero_mem 4096 8)
        = Done ([0; 1; 2; 3; 3], s').
Proof.
  apply (bitmap_growing_order (CS := strict_c) 3 4096 5); [lia| |vm_compute; discriminate].
  by apply mappedb_mapped.
Defined.

Lemma bitmap_exhaustion_reads_uninit_witness :
  ∃ s', ('(bm, _) ← bitmap_init 3 4096;
         find_and_set_times (CS := x86_O0 1) 64 bm ;; bitmap_find_and_set (CS := x86_O0 1) bm)
          (zero_mem 4096 8) = Done (1, s').
Proof.
  apply (bitmap_exhaustion_reads_uninit (CS := x86_O0 1) 3 4096 64); [lia| |done].
  by apply mappedb_mapped.
Defined.

(** The same blocks with index 62 taken. *)
Definition ex_taken : mem := write_le 8 (zero_mem 4096 24) 4096 1.

Lemma bitmap_unset_roundtrip_witness :
  bitmap_find_and_set (CS := strict_c) ex_bm ex_mem = Done (62, ex_taken) ∧
  ∃ s2, bitmap_unset (CS := strict_c) ex_bm 62 ex_taken = Done (tt, s2) ∧
    ∀ k, 0 ≤ k < capacity ex_bm → is_free s2 ex_bm k = is_free ex_mem ex_bm k.
Proof.
  assert (bitmap_find_and_set (CS := strict_c) ex_bm ex_mem = Done (62, ex_taken)) as Hrun
    by (vm_compute; reflexivity).
  split; [exact Hrun|].
  by apply (bitmap_unset_roundtrip (CS := strict_c) (MS := mem_MemState) ex_bm ex_mem 62 ex_taken ex_bm_wf ex_bm_free Hrun).
Defined.

(** The blocks of [ex_mem] after index 32 is freed. *)
Definition ex_freed : mem := write_le 8 (zero_mem 4096 24) 4096 (Z.lor 3 (u64 (- 2 ^ 31))).

Lemma bitmap_unset_wrong_mask_witness :
  bitmap_unset (CS := strict_c) ex_bm 32 ex_mem = Done (tt, ex_freed) ∧
  ((32 mod 64 = 32 ∧
    ∀ k, is_free ex_freed ex_bm k = is_free ex_mem ex_bm k || ((32 - 32 <=? k) && (k <=? 32))) ∨
   (32 mod 64 < 32 ∧
    (is_free ex_freed ex_bm 32 = is_free ex_mem ex_bm 32 ∨
     ∀ k, k / 64 = 32 / 64 → k mod 64 ≤ 32 → is_free ex_freed ex_bm k = true))).
Proof.
  assert (bitmap_unset (CS := strict_c) ex_bm 32 ex_mem = Done (tt, ex_freed)) as Hrun
    by (vm_compute; reflexivity).
  split; [exact Hrun|].
  apply (bitmap_unset_wrong_mask (CS := strict_c) (MS := mem_MemState) ex_bm ex_mem 32 ex_freed ex_bm_wf).
  - split; [done|]. reflexivity.
  - vm_compute. discriminate.
  - exact Hrun.
Defined.

Lemma bitmap_init_next_overlaps_witness :
  ∃ bm next m', bitmap_init 100 4096 (zero_mem 4096 16) = Done ((bm, next), m')
    ∧ bitmap_wf m' bm ∧ (∀ k, 0 ≤ k < 100 → is_free m' bm k = true)
    ∧ only_in 4096 (4096 + 8 * bm_size_in_block bm) (zero_mem 4096 16) m'
    ∧ bm_bitmap bm < next < bm_bitmap bm + 8 * bm_size_in_block bm.
Proof.
  apply (bitmap_init_next_overlaps (MS := mem_MemState) 100 4096 (zero_mem 4096 16));
    [lia|lia|]. by apply mappedb_mapped.
Defined.

(** The inline array of a static bitmap at 4096, holding the word 8192. *)
Definition ex_static : mem := write_le 8 (zero_mem 4096 32 ∪ zero_mem 8192 16) 4112 8192.

Lemma bitmap_init_static_wild_pointer_witness :
  ∃ m', bitmap_init_static 4096 100 ex_static = Done (tt, m')
    ∧ (∀ a, 8192 ≤ a < 8192 + 8 * 2 → m' !! a = Some 255)
    ∧ (∀ i, 0 ≤ i < 2 → load_le 8 m' (4096 + 16 + 8 * i) = load_le 8 ex_static (4096 + 16 + 8 * i)).
Proof.
  apply (bitmap_init_static_wild_pointer (MS := mem_MemState) 4096 100 8192 ex_static);
    [lia| |done| |right; vm_compute; discriminate].
  - by apply mappedb_mapped.
  - by apply mappedb_mapped.
Defined.
