(* ===== verification/DList.v ===== *)
(** * kernel/lib/list: intrusive circular doubly linked lists

    [struct list_head] is two pointers, [next] at offset 0 and [prev] at
    offset 8.  [clist m h xs] says that in memory [m] the head [h] is linked in
    a circle with the nodes [xs], in order. *)
From S2P Require Import Prelude CInt Mem CString.

(** ** The operations *)
Definition LIST_HEAD_SIZE : Z := 16.

Section defs.
Context {S : Type} {MS : MemState S}.

Definition list_next (p : Z) : M S Z := rd64 p.
Definition list_prev (p : Z) : M S Z := rd64 (p + 8).
Definition set_next (p v : Z) : M S unit := wr64 p v.
Definition set_prev (p v : Z) : M S unit := wr64 (p + 8) v.

Definition INIT_LIST_HEAD (list : Z) : M S unit :=
  set_next list list ;; set_prev list list.

Definition __list_add (el prev next : Z) : M S unit :=
  set_prev next el ;;
  set_next el next ;;
  set_prev el prev ;;
  set_next prev el.

Definition list_add (el head : Z) : M S unit :=
  next ← list_next head;
  __list_add el head next.

Definition list_add_tail (el head : Z) : M S unit :=
  prev ← list_prev head;
  __list_add el prev head.

Definition __list_del (prev next : Z) : M S unit :=
  set_prev next prev ;;
  set_next prev next.

Definition list_del (entry : Z) : M S unit :=
  prev ← list_prev entry;
  next ← list_next entry;
  __list_del prev next ;;
  set_next entry NULL ;;
  set_prev entry NULL.

Definition list_empty (head : Z) : M S bool :=
  next ← list_next head;
  mret (next =? head).

(** [list_entry(ptr, type, member)], with the offset of the member. *)
Definition list_entry (ptr offset : Z) : Z := ptr - offset.

(** [list_for_each_ro]: the body is run on each node; [Some] leaves the loop. *)
Definition list_for_each_ro {A} (head : Z) (body : Z → M S (option A)) : M S (option A) :=
  fuel ← mem_fuel;
  pos ← list_next head;
  loop fuel (λ pos,
    if pos =? head then mret (inr None)
    else
      r ← body pos;
      match r with
      | Some a => mret (inr (Some a))
      | None => pos ← list_next pos; mret (inl pos)
      end) pos.

(** [list_for_each_safe]: the next node is read before the body runs. *)
Definition list_for_each_safe {A} (head : Z) (body : Z → M S (option A)) : M S (option A) :=
  fuel ← mem_fuel;
  pos ← list_next head;
  n ← list_next pos;
  loop fuel (λ '(pos, n),
    if pos =? head then mret (inr None)
    else
      r ← body pos;
      match r with
      | Some a => mret (inr (Some a))
      | None => n' ← list_next n; mret (inl (n, n'))
      end) (pos, n).
End defs.

(** ** Lists in memory *)

(** [a->next == b] and [b->prev == a]. *)
Definition links (m : mem) (a b : Z) : Prop :=
  load_le 8 m a = Some b ∧ load_le 8 m (b + 8) = Some a.

(** Consecutive nodes of [a :: l] are linked. *)
Fixpoint path (m : mem) (a : Z) (l : list Z) : Prop :=
  match l with
  | [] => True
  | b :: l' => links m a b ∧ path m b l'
  end.

Definition apart (x y : Z) : Prop := x + LIST_HEAD_SIZE ≤ y ∨ y + LIST_HEAD_SIZE ≤ x.

(** Distinct nodes do not overlap. *)
Definition spaced (l : list Z) : Prop := ∀ x y, x ∈ l → y ∈ l → x = y ∨ apart x y.

Record clist (m : mem) (h : Z) (xs : list Z) : Prop := {
  clist_path : path m h (xs ++ [h]);
  clist_nodup : NoDup (h :: xs);
  clist_spaced : spaced (h :: xs);
}.

(** [m'] has the bytes of [m] outside the nodes [l]. *)
Definition same_outside (l : list Z) (m m' : mem) : Prop :=
  ∀ i, (∀ x, x ∈ l → ¬ x ≤ i < x + LIST_HEAD_SIZE) → m' !! i = m !! i.

(** ** Lemmas *)

(** The nodes whose [next] field a path uses. *)
Fixpoint sources (a : Z) (l : list Z) : list Z :=
  match l with
  | [] => []
  | b :: l' => a :: sources b l'
  end.

Definition last_of (a : Z) (l : list Z) : Z := default a (last l).

Lemma last_of_cons a b l : last_of a (b :: l) = last_of b l.
Proof. unfold last_of. rewrite last_cons. by destruct (last l). Qed.

Lemma path_app m a l1 l2 :
  path m a (l1 ++ l2) ↔ path m a l1 ∧ path m (last_of a l1) l2.
Proof.
  revert a. induction l1 as [|b l1 IH]; intros a; simpl.
  - unfold last_of. simpl. tauto.
  - rewrite IH, last_of_cons. tauto.
Qed.

Lemma sources_app a l1 l2 : sources a (l1 ++ l2) = sources a l1 ++ sources (last_of a l1) l2.
Proof.
  revert a. induction l1 as [|b l1 IH]; intros a; simpl; [done|]. by rewrite IH, last_of_cons.
Qed.

Lemma sources_circle h xs b : sources h (xs ++ [b]) = h :: xs.
Proof. revert h. induction xs as [|x xs IH]; intros h; simpl; [done|]. by rewrite IH. Qed.

Lemma path_frame m m' a l :
  path m a l →
  (∀ x, x ∈ sources a l → load_le 8 m' x = load_le 8 m x) →
  (∀ y, y ∈ l → load_le 8 m' (y + 8) = load_le 8 m (y + 8)) →
  path m' a l.
Proof.
  revert a. induction l as [|b l IH]; intros a; simpl; [done|].
  intros [[Hn Hp] Hl] Hs Ht. split.
  - split; [rewrite Hs|rewrite Ht]; set_solver.
  - apply IH; [done|set_solver..].
Qed.

Lemma NoDup_mid_ne (l1 l2 : list Z) x y : NoDup (l1 ++ x :: l2) → y ∈ l1 ++ l2 → y ≠ x.
Proof.
  rewrite NoDup_app, NoDup_cons. intros (_ & Hd & Hx & _) [Hy|Hy]%elem_of_app ->; [|done].
  apply (Hd x Hy). set_solver.
Qed.

Lemma spaced_sub l l' : spaced l → (∀ x, x ∈ l' → x ∈ l) → spaced l'.
Proof. intros Hs Hsub x y ??. apply Hs; auto. Qed.

Lemma apart_sym x y : apart x y → apart y x.
Proof. unfold apart. lia. Qed.

Lemma clist_perm_targets (h : Z) (xs : list Z) : xs ++ [h] ≡ₚ h :: xs.
Proof. by rewrite Permutation_app_comm. Qed.

Lemma path_load_next m a l x : path m a l → x ∈ sources a l → is_Some (load_le 8 m x).
Proof.
  revert a. induction l as [|b l IH]; intros a; simpl; [set_solver|].
  intros [[Hn _] Hl] [->|Hx]%elem_of_cons; [by eexists|eauto].
Qed.

Lemma path_load_prev m a l y : path m a l → y ∈ l → is_Some (load_le 8 m (y + 8)).
Proof.
  revert a. induction l as [|b l IH]; intros a; simpl; [set_solver|].
  intros [[_ Hp] Hl] [->|Hy]%elem_of_cons; [by eexists|eauto].
Qed.

Lemma wp_list_add_raw {S} {MS : MemState S} el prev next (s : S) (Q : unit → S → Prop) :
  is_Some (load_le 8 (st_mem s) (next + 8)) → is_Some (load_le 8 (st_mem s) prev) →
  mapped (st_mem s) el LIST_HEAD_SIZE →
  Q tt (st_put (write_le 8 (write_le 8 (write_le 8 (write_le 8 (st_mem s)
          (next + 8) el) el next) (el + 8) prev) prev el) s) →
  wp (__list_add el prev next) s Q.
Proof.
  intros Hn Hp Hel HQ. unfold __list_add, set_prev, set_next, LIST_HEAD_SIZE in *.
  assert (is_Some (load_le 8 (st_mem s) el) ∧ is_Some (load_le 8 (st_mem s) (el + 8))) as [? ?].
  { rewrite !load_le_is_Some. split; (eapply mapped_sub; [exact Hel|lia|lia]). }
  do 4 wp_st_mapped. by rewrite !st_put_put, !st_mem_put.
Qed.

Section splice.
Context (m : mem) (h : Z) (ys : list Z) (n : Z) (zs : list Z).
Let prev := last_of h ys.
Context (nodes : list Z).
Hypothesis Hsrcs : ∀ x, x ∈ sources h (ys ++ n :: zs) → x ∈ nodes.
Hypothesis Htgts : ∀ x, x ∈ ys ++ n :: zs → x ∈ nodes.
Hypothesis Hsp : spaced nodes.
Hypothesis Hnd_src : NoDup (sources h (ys ++ n :: zs)).
Hypothesis Hnd_tgt : NoDup (ys ++ n :: zs).

Lemma splice_prev : prev ∈ nodes.
Proof. apply Hsrcs. rewrite sources_app. simpl. fold prev. set_solver. Qed.

Lemma splice_next : n ∈ nodes.
Proof. apply Htgts. set_solver. Qed.

(** The other source nodes of the path: neither [prev], nor overlapping it;
    [n] itself, or apart from it. *)
Lemma splice_source x :
  x ∈ sources h ys ++ sources n zs → x ∈ nodes ∧ apart x prev ∧ (x = n ∨ apart x n).
Proof.
  intros Hx. pose proof splice_prev. pose proof splice_next.
  pose proof Hsrcs as Hs. pose proof Hnd_src as Hnd.
  rewrite sources_app in Hs, Hnd. simpl in Hs, Hnd. fold prev in Hs, Hnd.
  assert (x ∈ nodes) by (apply Hs; set_solver).
  pose proof (NoDup_mid_ne _ _ _ _ Hnd Hx).
  destruct (Hsp x prev) as [?|?]; [done..|done|]. split_and!; auto.
Qed.

Lemma splice_target y :
  y ∈ ys ++ zs → y ∈ nodes ∧ apart y n ∧ (y = prev ∨ apart y prev).
Proof.
  intros Hy. assert (y ∈ nodes) by (apply Htgts; set_solver).
  pose proof (NoDup_mid_ne _ _ _ _ Hnd_tgt Hy). pose proof splice_prev. pose proof splice_next.
  destruct (Hsp y n) as [?|?]; [done..|done|]. split_and!; auto.
Qed.

Lemma path_splice :
  path m h (ys ++ n :: zs) ↔ path m h ys ∧ links m prev n ∧ path m n zs.
Proof. apply path_app. Qed.

(** The memory after [__list_add(el, prev, n)]. *)
Definition add_mem (el : Z) : mem :=
  write_le 8 (write_le 8 (write_le 8 (write_le 8 m (n + 8) el) el n) (el + 8) prev) prev el.

Lemma list_add_path el :
  path m h (ys ++ n :: zs) → (∀ x, x ∈ nodes → apart el x) → 0 ≤ el < 2 ^ 64 →
  path (add_mem el) h (ys ++ el :: n :: zs).
Proof.
  intros (Hys & [Hnext Hprv] & Hzs)%path_splice Hel Hr.
  pose proof (load_le_range _ _ _ _ Hnext) as Hnr. pose proof (load_le_range _ _ _ _ Hprv) as Hpr.
  change (256 ^ Z.of_nat 8) with (2 ^ 64) in Hnr, Hpr.
  pose proof (Hel _ splice_prev). pose proof (Hel _ splice_next).
  pose proof (Hsp _ _ splice_prev splice_next) as Hpn.
  assert (∀ x, x ∈ sources h ys ++ sources n zs → load_le 8 (add_mem el) x = load_le 8 m x) as Hfs.
  { intros x (Hin & Hxp & Hxn)%splice_source. specialize (Hel x Hin).
    unfold add_mem, apart, LIST_HEAD_SIZE in *. by rewrite !load_write_ne by lia. }
  assert (∀ y, y ∈ ys ++ zs → load_le 8 (add_mem el) (y + 8) = load_le 8 m (y + 8)) as Hft.
  { intros y (Hin & Hyn & Hyp)%splice_target. specialize (Hel y Hin).
    unfold add_mem, apart, LIST_HEAD_SIZE in *. by rewrite !load_write_ne by lia. }
  apply path_app. fold prev. simpl. split_and!.
  - apply (path_frame m); [done|intros; apply Hfs; set_solver|intros; apply Hft; set_solver].
  - unfold links, add_mem, apart, LIST_HEAD_SIZE in *.
    split; mem_simpl; rewrite Z.mod_small by (change (256 ^ Z.of_nat 8) with (2 ^ 64); lia); done.
  - unfold links, add_mem, apart, LIST_HEAD_SIZE in *.
    split; mem_simpl; rewrite Z.mod_small by (change (256 ^ Z.of_nat 8) with (2 ^ 64); lia); done.
  - apply (path_frame m); [done|intros; apply Hfs; set_solver|intros; apply Hft; set_solver].
Qed.
End splice.

(** The memory after [list_del(e)], for [e] between [prev] and [n]. *)
Definition del_mem (m : mem) (prev e n : Z) : mem :=
  write_le 8 (write_le 8 (write_le 8 (write_le 8 m (n + 8) prev) prev n) e 0) (e + 8) 0.

Lemma app_snoc_cons (l1 l2 : list Z) x : l1 ++ x :: l2 = (l1 ++ [x]) ++ l2.
Proof. by rewrite <- app_assoc. Qed.

Lemma list_del_path m h ys e n zs nodes (prev := last_of h ys) :
  (∀ x, x ∈ sources h (ys ++ e :: n :: zs) → x ∈ nodes) →
  (∀ x, x ∈ ys ++ e :: n :: zs → x ∈ nodes) →
  spaced nodes →
  NoDup (sources h (ys ++ e :: n :: zs)) → NoDup (ys ++ e :: n :: zs) →
  path m h (ys ++ e :: n :: zs) →
  path (del_mem m prev e n) h (ys ++ n :: zs) ∧
  load_le 8 (del_mem m prev e n) e = Some 0 ∧ load_le 8 (del_mem m prev e n) (e + 8) = Some 0.
Proof.
  intros Hsrcs Htgts Hsp Hnds Hndt (Hys & [Hpe Hep] & [Hen Hne] & Hzs)%path_splice. fold prev in Hpe, Hep.
  pose proof (load_le_range _ _ _ _ Hen) as Hnr. pose proof (load_le_range _ _ _ _ Hep) as Hpr.
  change (256 ^ Z.of_nat 8) with (2 ^ 64) in Hnr, Hpr.
  assert (NoDup ((sources h ys ++ [prev]) ++ e :: sources n zs)) as Hnds'.
  { rewrite sources_app in Hnds. simpl in Hnds. fold prev in Hnds. by rewrite app_snoc_cons in Hnds. }
  assert (NoDup ((ys ++ [e]) ++ n :: zs)) as Hndt' by (by rewrite <- app_snoc_cons).
  assert (e ∈ nodes) as He by (apply Htgts; set_solver).
  assert (n ∈ nodes) as Hn by (apply Htgts; set_solver).
  assert (prev ∈ nodes) as Hp.
  { apply Hsrcs. rewrite sources_app. simpl. fold prev. set_solver. }
  assert (∀ x, x ∈ sources h ys ++ prev :: sources n zs → x ∈ nodes ∧ apart x e) as Hs.
  { intros x Hx. assert (x ∈ nodes).
    { apply Hsrcs. rewrite sources_app. simpl. fold prev. set_solver. }
    split; [done|]. destruct (Hsp x e) as [?|?]; [done..| |done].
    exfalso. apply (NoDup_mid_ne _ _ _ x Hnds'); [set_solver|done]. }
  assert (∀ y, y ∈ ys ++ zs → y ∈ nodes ∧ apart y n) as Ht.
  { intros y Hy. assert (y ∈ nodes) by (apply Htgts; set_solver).
    split; [done|]. destruct (Hsp y n) as [?|?]; [done..| |done].
    exfalso. apply (NoDup_mid_ne _ _ _ y Hndt'); [set_solver|done]. }
  assert (apart prev e) as Hape by (apply Hs; set_solver).
  assert (apart e n) as Haen.
  { destruct (Hsp e n) as [->|?]; [done..| |done].
    exfalso. apply (NoDup_mid_ne _ _ _ n Hndt'); [set_solver|done]. }
  assert (∀ y, y ∈ ys ++ zs → apart y e) as Hte.
  { intros y Hy. destruct (Hsp y e) as [->|?]; [by apply Ht|done| |done].
    exfalso. apply (NoDup_mid_ne _ _ _ e Hndt); [set_solver|done]. }
  assert (∀ x, x ∈ sources h ys ++ sources n zs → apart x prev) as Hsprev.
  { intros x Hx. destruct (Hsp x prev) as [->|?]; [apply Hs; set_solver|done| |done].
    rewrite <- app_assoc in Hnds'. exfalso.
    apply (NoDup_mid_ne _ _ _ prev Hnds'); [set_solver|done]. }
  pose proof (Hsp _ _ Hp Hn) as Hpn.
  assert (∀ x, x ∈ sources h ys ++ sources n zs → load_le 8 (del_mem m prev e n) x = load_le 8 m x) as Hfs.
  { intros x Hx. pose proof (Hsprev x Hx). destruct (Hs x ltac:(set_solver)) as [Hin ?].
    pose proof (Hsp x n Hin Hn). unfold del_mem, apart, LIST_HEAD_SIZE in *.
    by rewrite !load_write_ne by lia. }
  assert (∀ y, y ∈ ys ++ zs → load_le 8 (del_mem m prev e n) (y + 8) = load_le 8 m (y + 8)) as Hft.
  { intros y Hy. pose proof (Hte y Hy). destruct (Ht y Hy) as [Hin ?].
    pose proof (Hsp y prev Hin Hp). unfold del_mem, apart, LIST_HEAD_SIZE in *.
    by rewrite !load_write_ne by lia. }
  split_and!.
  - apply path_app. fold prev. simpl. split_and!.
    + apply (path_frame m); [done|intros; apply Hfs; set_solver|intros; apply Hft; set_solver].
    + unfold links, del_mem, apart, LIST_HEAD_SIZE in *.
      split; mem_simpl; rewrite Z.mod_small by (change (256 ^ Z.of_nat 8) with (2 ^ 64); lia); done.
    + apply (path_frame m); [done|intros; apply Hfs; set_solver|intros; apply Hft; set_solver].
  - unfold del_mem. by mem_simpl.
  - unfold del_mem. by mem_simpl.
Qed.

(** ** Specifications of the operations *)
Lemma clist_next m h x xs : clist m h (x :: xs) → load_le 8 m h = Some x.
Proof. intros [[[Hn _] _] _ _]. exact Hn. Qed.

Lemma clist_next_nil m h : clist m h [] → load_le 8 m h = Some h.
Proof. intros [[[Hn _] _] _ _]. exact Hn. Qed.

Lemma clist_prev m h xs : clist m h xs → load_le 8 m (h + 8) = Some (last_of h xs).
Proof. intros [[_ [[_ Hp] _]]%path_app _ _]. exact Hp. Qed.

Lemma clist_sources h xs x : x ∈ sources h (xs ++ [h]) → x ∈ h :: xs.
Proof. by rewrite sources_circle. Qed.

Lemma clist_targets h xs (x : Z) : x ∈ xs ++ [h] → x ∈ h :: xs.
Proof. rewrite clist_perm_targets. done. Qed.

Lemma add_mem_outside m h ys n el l :
  el ∈ l → last_of h ys ∈ l → n ∈ l → same_outside l m (add_mem m h ys n el).
Proof.
  intros He Hp Hn i Hi. pose proof (Hi _ He). pose proof (Hi _ Hp). pose proof (Hi _ Hn).
  unfold add_mem, LIST_HEAD_SIZE in *. by rewrite !write_le_lookup_out by lia.
Qed.

Lemma del_mem_outside m prev e n l :
  e ∈ l → prev ∈ l → n ∈ l → same_outside l m (del_mem m prev e n).
Proof.
  intros He Hp Hn i Hi. pose proof (Hi _ He). pose proof (Hi _ Hp). pose proof (Hi _ Hn).
  unfold del_mem, LIST_HEAD_SIZE in *. by rewrite !write_le_lookup_out by lia.
Qed.

Lemma same_outside_load l m m' n a :
  same_outside l m m' → (∀ x, x ∈ l → a + Z.of_nat n ≤ x ∨ x + LIST_HEAD_SIZE ≤ a) →
  load_le n m' a = load_le n m a.
Proof. intros Hs Ha. apply load_le_ext. intros i Hi. apply Hs. intros x Hx. specialize (Ha x Hx). lia. Qed.

Lemma last_of_in h ys : last_of h ys ∈ h :: ys.
Proof.
  unfold last_of. destruct (last ys) as [y|] eqn:Hy; simpl; [|set_solver].
  apply last_Some_elem_of in Hy. set_solver.
Qed.

(** Inserting at any link of the circle. *)
Lemma clist_insert m h ys zs n el :
  clist m h (ys ++ zs) → ys ++ zs ++ [h] = ys ++ n :: drop 1 (zs ++ [h]) →
  (∀ x, x ∈ h :: ys ++ zs → apart el x) → 0 ≤ el < 2 ^ 64 →
  clist (add_mem m h ys n el) h (ys ++ el :: zs).
Proof.
  intros [Hp Hnd Hsp] Heq Hel Hr.
  apply app_inv_head in Heq.
  split.
  - replace ((ys ++ el :: zs) ++ [h]) with (ys ++ el :: n :: drop 1 (zs ++ [h])) by
      (by rewrite <- Heq, <- app_assoc).
    rewrite <- app_assoc, Heq in Hp.
    apply (list_add_path m h ys n (drop 1 (zs ++ [h])) (h :: ys ++ zs)); try done.
    + rewrite <- Heq, app_assoc. apply clist_sources.
    + rewrite <- Heq, app_assoc. apply clist_targets.
    + by rewrite <- Heq, app_assoc, sources_circle.
    + by rewrite <- Heq, app_assoc, clist_perm_targets.
  - assert (h :: ys ++ el :: zs ≡ₚ el :: h :: ys ++ zs) as -> by solve_Permutation.
    constructor; [|done]. intros Hin. specialize (Hel _ Hin). unfold apart, LIST_HEAD_SIZE in Hel. lia.
  - apply spaced_sub with (el :: h :: ys ++ zs); [|set_solver].
    intros x y Hx Hy. apply elem_of_cons in Hx as [->|Hx], Hy as [->|Hy]; auto using apart_sym.
Qed.

Lemma clist_length m h xs : clist m h xs → (length xs < size m)%nat.
Proof.
  intros [Hp Hnd _]. change (length xs < size m)%nat with (length (h :: xs) ≤ size m)%nat.
  apply nodup_mapped_size; [done|]. intros x Hx.
  destruct (path_load_next m h (xs ++ [h]) x Hp) as [v Hv]; [by rewrite sources_circle|].
  apply (load_le_mapped _ _ _ _ Hv). lia.
Qed.

Lemma clist_ext m m' h xs : clist m h xs →
  (∀ x i, x ∈ h :: xs → x ≤ i < x + LIST_HEAD_SIZE → m' !! i = m !! i) → clist m' h xs.
Proof.
  unfold LIST_HEAD_SIZE. intros [Hp Hnd Hsp] Hm. split; [|done|done]. eapply path_frame; [exact Hp|..].
  - intros x Hx%clist_sources. apply load_le_ext. intros i Hi. apply (Hm x); [done|lia].
  - intros y Hy%clist_targets. apply load_le_ext. intros i Hi. apply (Hm y); [done|lia].
Qed.

(** The bytes of the nodes of a list are mapped. *)
Lemma clist_node_mapped m h xs x : clist m h xs → x ∈ h :: xs → mapped m x LIST_HEAD_SIZE.
Proof.
  intros [Hp _ _] Hx i Hi. unfold LIST_HEAD_SIZE in Hi. destruct (decide (i < x + 8)).
  - destruct (path_load_next _ _ _ x Hp) as [v Hv]; [by rewrite sources_circle|]. apply (load_le_mapped _ _ _ _ Hv). lia.
  - destruct (path_load_prev _ _ _ x Hp) as [v Hv]; [by rewrite clist_perm_targets|]. apply (load_le_mapped _ _ _ _ Hv). lia.
Qed.

Section specs.
Context {S : Type} {MS : MemState S}.
Implicit Types s : S.

Definition separate (m : mem) (el h : Z) (xs : list Z) : Prop :=
  mapped m el LIST_HEAD_SIZE ∧ 0 ≤ el < 2 ^ 64 ∧ ∀ x, x ∈ h :: xs → apart el x.

Lemma wp_list_add el h xs s (Q : unit → S → Prop) :
  clist (st_mem s) h xs → separate (st_mem s) el h xs →
  (∀ m', clist m' h (el :: xs) → same_outside (el :: h :: xs) (st_mem s) m' → Q tt (st_put m' s)) →
  wp (list_add el h) s Q.
Proof.
  intros Hl (Hm & Hr & Hap) HQ. unfold list_add, list_next.
  set (n := match xs with [] => h | x :: _ => x end).
  assert (load_le 8 (st_mem s) h = Some n) as Hn.
  { destruct xs; [by apply clist_next_nil|by eapply clist_next]. }
  wp_step. eapply wp_load; [exact Hn|]. apply wp_list_add_raw; [|by eexists|done|].
  - eapply path_load_prev; [apply Hl|]. unfold n. destruct xs; set_solver.
  - apply HQ.
    + apply (clist_insert _ h [] xs n el Hl); [|done|done]. unfold n. by destruct xs.
    + apply (add_mem_outside _ h [] n el); [set_solver|set_solver|].
      unfold n. destruct xs; set_solver.
Qed.

Lemma wp_list_add_tail el h xs s (Q : unit → S → Prop) :
  clist (st_mem s) h xs → separate (st_mem s) el h xs →
  (∀ m', clist m' h (xs ++ [el]) → same_outside (el :: h :: xs) (st_mem s) m' →
     Q tt (st_put m' s)) →
  wp (list_add_tail el h) s Q.
Proof.
  intros Hl (Hm & Hr & Hap) HQ. unfold list_add_tail, list_prev.
  wp_step. eapply wp_load; [by apply clist_prev|]. apply wp_list_add_raw; [|..|done|].
  - eexists. by eapply clist_prev.
  - eapply path_load_next; [apply Hl|]. rewrite sources_app. simpl. set_solver.
  - apply HQ.
    + apply (clist_insert _ h xs [] h el); rewrite ?app_nil_r; done.
    + apply (add_mem_outside _ h xs h el); [set_solver| |set_solver].
      apply elem_of_cons. right. apply last_of_in.
Qed.

Lemma wp_list_del e h ys zs s (Q : unit → S → Prop) :
  clist (st_mem s) h (ys ++ e :: zs) →
  (∀ m', clist m' h (ys ++ zs) → load_le 8 m' e = Some NULL → load_le 8 m' (e + 8) = Some NULL →
     same_outside (h :: ys ++ e :: zs) (st_mem s) m' →
     (∀ i, is_Some (m' !! i) ↔ is_Some (st_mem s !! i)) →
     Q tt (st_put m' s)) →
  wp (list_del e) s Q.
Proof.
  intros [Hp Hnd Hsp] HQ. unfold list_del, list_prev, list_next, __list_del, set_next, set_prev.
  assert (∃ n zs', zs ++ [h] = n :: zs') as (n & zs' & Hzs) by (destruct zs; simpl; eauto).
  rewrite <- app_assoc in Hp. simpl in Hp. rewrite Hzs in Hp.
  pose proof Hp as (Hys & [Hpe Hep] & [Hen Hne] & Hzs')%path_splice.
  set (prev := last_of h ys) in *.
  do 2 (wp_step; eapply wp_load; [eassumption|]).
  do 4 wp_st_mapped. rewrite !st_put_put, !st_mem_put.
  assert (ys ++ e :: n :: zs' = (ys ++ e :: zs) ++ [h]) as Hfull
    by (by rewrite <- app_assoc; simpl; rewrite Hzs).
  destruct (list_del_path (st_mem s) h ys e n zs' (h :: ys ++ e :: zs)) as (Hp' & He & He8); try done.
  { rewrite Hfull. apply clist_sources. }
  { rewrite Hfull. apply clist_targets. }
  { by rewrite Hfull, sources_circle. }
  { by rewrite Hfull, clist_perm_targets. }
  apply HQ; [|done|done|..].
  - assert (h :: ys ++ e :: zs ≡ₚ e :: h :: ys ++ zs) as Hperm by solve_Permutation.
    split.
    + by rewrite <- app_assoc, Hzs.
    + rewrite Hperm in Hnd. by apply NoDup_cons in Hnd as [_ ?].
    + eapply spaced_sub; [done|]. intros x Hx. rewrite Hperm. by apply elem_of_cons; right.
  - apply (del_mem_outside (st_mem s) prev e n); [set_solver|..].
    + pose proof (last_of_in h ys). set_solver.
    + assert (n ∈ zs ++ [h]) by (rewrite Hzs; set_solver). set_solver.
  - intros i. rewrite !write_le_is_Some. split; [|by auto].
    intros [[[[?|Hi]|Hi]|Hi]|Hi]; [done|..].
    + exact (load_le_mapped _ _ _ _ Hne i Hi).
    + exact (load_le_mapped _ _ _ _ Hpe i Hi).
    + exact (load_le_mapped _ _ _ _ Hen i Hi).
    + exact (load_le_mapped _ _ _ _ Hep i Hi).
Qed.

Lemma wp_list_empty h xs s (Q : bool → S → Prop) :
  clist (st_mem s) h xs → Q (bool_decide (xs = [])) s → wp (list_empty h) s Q.
Proof.
  intros Hl HQ. unfold list_empty, list_next. wp_step.
  destruct xs as [|x xs].
  - eapply wp_load; [by apply clist_next_nil|]. wp_step. by rewrite Z.eqb_refl.
  - eapply wp_load; [by eapply clist_next|]. wp_step.
    assert (x ≠ h) as Hne%Z.eqb_neq.
    { destruct Hl as [_ [Hni _]%NoDup_cons _]. set_solver. }
    by rewrite Hne.
Qed.

(** The read-only traversal: [body] is run on [xs] in order, each time in a
    state where the list is intact. *)
Lemma wp_for_each_ro {A} h xs s (body : Z → M S (option A)) (I : list Z → S → Prop)
    (Q : option A → S → Prop) :
  I [] s → clist (st_mem s) h xs →
  (∀ ys x zs s, xs = ys ++ x :: zs → I ys s → clist (st_mem s) h xs →
     wp (body x) s (λ r s', match r with
                            | Some a => Q (Some a) s'
                            | None => I (ys ++ [x]) s' ∧ clist (st_mem s') h xs
                            end)) →
  (∀ s, I xs s → clist (st_mem s) h xs → Q None s) →
  wp (list_for_each_ro h body) s Q.
Proof.
  intros HI Hl Hbody HQ. unfold list_for_each_ro, mem_fuel, list_next.
  pose proof (clist_length _ _ _ Hl) as Hlen.
  set (hd := λ zs, match zs with [] => h | x :: _ => x end).
  assert (∀ s ys zs, clist (st_mem s) h xs → xs = ys ++ zs →
            load_le 8 (st_mem s) (last_of h ys) = Some (hd zs)) as Hnext.
  { intros s' ys zs [Hp _ _] ->. rewrite <- app_assoc in Hp. apply path_app in Hp as [_ Hp].
    destruct zs; simpl in Hp; apply Hp. }
  wp_step. wp_step. wp_step. eapply wp_load; [by apply (Hnext s [] xs)|].
  apply wp_loop_rounds with (n := length xs)
    (I := λ n pos s', ∃ ys zs, n = length zs ∧ xs = ys ++ zs ∧ pos = hd zs ∧ I ys s'
            ∧ clist (st_mem s') h xs); [by exists [], xs|lia|].
  clear s HI Hl Hlen. intros n pos s (ys & zs & -> & -> & -> & HI & Hl).
  destruct zs as [|x zs]; simpl.
  { rewrite Z.eqb_refl. apply wp_ret. rewrite app_nil_r in *. by apply HQ. }
  assert (x ≠ h) as Hne%Z.eqb_neq.
  { destruct Hl as [_ [Hni _]%NoDup_cons _]. set_solver. }
  rewrite Hne. wp_step. eapply wp_mono; [by apply (Hbody ys x zs)|].
  intros [a|] s'; simpl; [intros ?; by apply wp_ret|]. intros [HI' Hl'].
  assert (ys ++ x :: zs = (ys ++ [x]) ++ zs) as Heq by apply app_snoc_cons.
  wp_step. eapply wp_load.
  { rewrite <- (Hnext s' (ys ++ [x]) zs Hl' Heq). unfold last_of. by rewrite last_snoc. }
  apply wp_ret. exists (length zs). split; [lia|]. by exists (ys ++ [x]), zs.
Qed.

(** The safe traversal: [body] is run on the nodes in order, and may unlink the
    node it is run on; [kept] are the nodes it has left in. *)
Lemma wp_for_each_safe {A} h xs s (body : Z → M S (option A)) (I : list Z → list Z → S → Prop)
    (Q : option A → S → Prop) :
  I [] [] s → clist (st_mem s) h xs →
  (∀ ys kept x zs s, xs = ys ++ x :: zs → I ys kept s → clist (st_mem s) h (kept ++ x :: zs) →
     wp (body x) s (λ r s', match r with
                            | Some a => Q (Some a) s'
                            | None => ∃ kept', I (ys ++ [x]) kept' s' ∧ clist (st_mem s') h (kept' ++ zs)
                            end)) →
  (∀ kept s, I xs kept s → clist (st_mem s) h kept → Q None s) →
  wp (list_for_each_safe h body) s Q.
Proof.
  intros HI Hl Hbody HQ. unfold list_for_each_safe, mem_fuel, list_next.
  pose proof (clist_length _ _ _ Hl) as Hlen.
  set (hd := λ zs, match zs with [] => h | x :: _ => x end).
  assert (∀ m ys zs, clist m h (ys ++ zs) → load_le 8 m (last_of h ys) = Some (hd zs)) as Hnext1.
  { intros m ys zs [Hp _ _]. rewrite <- app_assoc in Hp. apply path_app in Hp as [_ Hp].
    destruct zs; simpl in Hp; apply Hp. }
  assert (∀ m ys z zs, clist m h (ys ++ z :: zs) → load_le 8 m z = Some (hd zs)) as Hnext2.
  { intros m ys z zs Hm. rewrite app_snoc_cons in Hm. apply Hnext1 in Hm.
    unfold last_of in Hm. by rewrite last_snoc in Hm. }
  assert (∀ m zs, clist m h zs → ∃ v, load_le 8 m (hd zs) = Some v ∧ (zs ≠ [] → v = hd (drop 1 zs))) as Hnext3.
  { intros m [|z zs] Hm; [|exists (hd zs); split; [by apply (Hnext2 m [])|done]].
    exists (hd []). split; [by apply (Hnext1 m [])|done]. }
  wp_step. wp_step. wp_step. eapply wp_load; [by apply (Hnext1 _ [])|].
  destruct (Hnext3 _ _ Hl) as (v & Hv & Hvn). wp_step. eapply wp_load; [exact Hv|].
  apply wp_loop_rounds with (n := length xs)
    (I := λ n '(pos, nx) s', ∃ ys kept zs, n = length zs ∧ xs = ys ++ zs ∧ pos = hd zs
            ∧ (zs ≠ [] → nx = hd (drop 1 zs)) ∧ I ys kept s' ∧ clist (st_mem s') h (kept ++ zs));
    [by exists [], [], xs|lia|].
  clear s HI Hl Hlen v Hv Hvn. intros n [pos nx] s (ys & kept & zs & -> & -> & -> & Hnx & HI & Hl).
  destruct zs as [|x zs]; simpl.
  { rewrite Z.eqb_refl. apply wp_ret. rewrite app_nil_r in *. by eapply HQ. }
  assert (x ≠ h) as Hne%Z.eqb_neq.
  { destruct Hl as [_ [Hni _]%NoDup_cons _]. set_solver. }
  rewrite Hne, Hnx by done. wp_step. eapply wp_mono; [by apply (Hbody ys kept x zs)|].
  intros [a|] s'; simpl; [intros ?; by apply wp_ret|]. intros (kept' & HI' & Hl'). wp_step.
  change (hd (drop 0 zs)) with (hd zs).
  assert (∃ v, load_le 8 (st_mem s') (hd zs) = Some v ∧ (zs ≠ [] → v = hd (drop 1 zs))) as (v & Hv & Hvn).
  { destruct zs as [|z zs]; [|exists (hd zs); split; [by apply (Hnext2 _ kept')|done]].
    rewrite app_nil_r in Hl'. eexists. split; [by apply (Hnext1 _ [] kept' Hl')|done]. }
  eapply wp_load; [exact Hv|]. apply wp_ret. exists (length zs). split; [lia|].
  exists (ys ++ [x]), kept', zs. by rewrite <- app_assoc.
Qed.

(** When the body unlinks every node it is run on. *)
Lemma wp_for_each_safe_del {A} h xs s (body : Z → M S (option A)) (I : list Z → S → Prop)
    (Q : option A → S → Prop) :
  I [] s → clist (st_mem s) h xs →
  (∀ ys x zs s, xs = ys ++ x :: zs → I ys s → clist (st_mem s) h (x :: zs) →
     wp (body x) s (λ r s', r = None ∧ I (ys ++ [x]) s' ∧ clist (st_mem s') h zs)) →
  (∀ s, I xs s → clist (st_mem s) h [] → Q None s) →
  wp (list_for_each_safe h body) s Q.
Proof.
  intros HI Hl Hbody HQ. apply (wp_for_each_safe h xs s body (λ ys kept s, kept = [] ∧ I ys s)); [done|done|..].
  - intros ys kept x zs s' -> [-> HI'] Hl'. eapply wp_mono; [by apply (Hbody ys x zs)|].
    intros r s1 (-> & HI1 & Hl1). by exists [].
  - intros kept s' [-> HI'] Hl'. by apply HQ.
Qed.
End specs.

(** ** Properties *)
Section properties.
Context {S : Type} {MS : MemState S}.
Implicit Types s : S.

(** On a well-formed circle, [list_add] links the new node first and
    [list_add_tail] links it last; the circle stays well-formed in both
    directions and no byte outside the nodes changes. *)
Theorem list_add_both_ends el h xs s (m := st_mem s) :
  clist m h xs → separate m el h xs →
  (∃ m', list_add el h s = Done (tt, st_put m' s) ∧ clist m' h (el :: xs)
     ∧ same_outside (el :: h :: xs) m m') ∧
  (∃ m', list_add_tail el h s = Done (tt, st_put m' s) ∧ clist m' h (xs ++ [el])
     ∧ same_outside (el :: h :: xs) m m').
Proof.
  intros Hl Hel. split.
  - destruct (proj1 (wp_Done (list_add el h) s (λ _ s', ∃ m', s' = st_put m' s ∧
      clist m' h (el :: xs) ∧ same_outside (el :: h :: xs) m m'))) as ([] & ? & ? & m' & -> & ?); [|by eauto].
    apply (wp_list_add _ _ xs); eauto.
  - destruct (proj1 (wp_Done (list_add_tail el h) s (λ _ s', ∃ m', s' = st_put m' s ∧
      clist m' h (xs ++ [el]) ∧ same_outside (el :: h :: xs) m m'))) as ([] & ? & ? & m' & -> & ?); [|by eauto].
    apply (wp_list_add_tail _ _ xs); eauto.
Qed.

(** [list_del] unlinks exactly the given node, wherever it is in the
    circle, and leaves it with two [NULL] pointers. *)
Theorem list_del_unlinks e h ys zs s (m := st_mem s) :
  clist m h (ys ++ e :: zs) →
  ∃ m', list_del e s = Done (tt, st_put m' s) ∧ clist m' h (ys ++ zs) ∧
    load_le 8 m' e = Some NULL ∧ load_le 8 m' (e + 8) = Some NULL ∧
    same_outside (h :: ys ++ e :: zs) m m'.
Proof.
  intros Hl. destruct (proj1 (wp_Done (list_del e) s (λ _ s', ∃ m', s' = st_put m' s ∧
    clist m' h (ys ++ zs) ∧ load_le 8 m' e = Some NULL ∧ load_le 8 m' (e + 8) = Some NULL ∧
    same_outside (h :: ys ++ e :: zs) m m'))) as ([] & ? & ? & m' & -> & ?); [|by eauto].
  apply (wp_list_del _ h ys zs); [done|]. eauto 10.
Qed.

(** A search with [list_for_each_ro] visits the nodes in list order, stops
    at the first match, terminates on every well-formed circle and changes
    nothing. *)
Theorem list_for_each_ro_find h xs (p : Z → bool) s :
  clist (st_mem s) h xs →
  list_for_each_ro h (λ x, mret (if p x then Some x else None)) s = Done (List.find p xs, s).
Proof.
  intros Hl. assert (wp (list_for_each_ro h (λ x, mret (if p x then Some x else None))) s
    (λ r s', r = List.find p xs ∧ s' = s)) as (? & ? & -> & -> & ->)%wp_Done; [|done].
  apply (wp_for_each_ro h xs) with (I := λ ys s', s' = s ∧ List.find p ys = None).
  - done.
  - done.
  - intros ys x zs ? -> [-> Hnone] _. apply wp_ret. rewrite find_app, Hnone. simpl.
    destruct (p x) eqn:Hpx; [done|]. split; [|done]. split; [done|].
    by rewrite find_app, Hnone; simpl; rewrite Hpx.
  - intros ? [-> Hnone] _. done.
Qed.

(** Freeing a list with [list_for_each_safe] and [list_del] (the loop of
    tests/list.c) terminates, empties the circle and leaves every node with
    two [NULL] pointers. *)
Theorem list_for_each_safe_free_all h xs s :
  clist (st_mem s) h xs →
  ∃ m', list_for_each_safe h (λ x, list_del x ;; mret (None : option unit)) s
          = Done (None, st_put m' s) ∧
    clist m' h [] ∧
    ∀ x, x ∈ xs → load_le 8 m' x = Some NULL ∧ load_le 8 m' (x + 8) = Some NULL.
Proof.
  intros Hl. set (freed := λ (m : mem) x, load_le 8 m x = Some NULL ∧ load_le 8 m (x + 8) = Some NULL).
  assert (wp (list_for_each_safe h (λ x, list_del x ;; mret (None : option unit))) s
    (λ r s', r = None ∧ ∃ m', s' = st_put m' s ∧ clist m' h [] ∧ ∀ x, x ∈ xs → freed m' x))
    as (? & ? & ? & -> & m' & -> & ?)%wp_Done; [|by eauto].
  apply (wp_for_each_safe_del h xs)
    with (I := λ ys s', ∃ m', s' = st_put m' s ∧ ∀ x, x ∈ ys → freed m' x).
  - exists (st_mem s). rewrite st_put_mem. split; [done|set_solver].
  - done.
  - intros ys x zs ? Hxs (m1 & -> & Hfreed) Hl1. rewrite st_mem_put in Hl1. wp_step.
    apply (wp_list_del x h [] zs); rewrite st_mem_put; [done|]. simpl.
    intros m2 Hl2 Hx Hx8 Hout _. apply wp_ret. split; [done|].
    rewrite st_put_put, st_mem_put. split; [|done]. exists m2. split; [done|].
    intros y [Hy| ->%list_elem_of_singleton]%elem_of_app; [|done].
    destruct (Hfreed y Hy) as [Hy0 Hy8].
    assert (∀ z, z ∈ h :: x :: zs → apart y z) as Hap.
    { destruct Hl as [_ Hnd Hsp]. intros z Hz. destruct (Hsp y z) as [<-|?]; [set_solver..| |done].
      exfalso. subst xs. apply NoDup_cons in Hnd as [Hh (_ & Hd & _)%NoDup_app].
      apply elem_of_cons in Hz as [->|Hz]; [set_solver|]. by apply (Hd y). }
    unfold freed. unfold apart, LIST_HEAD_SIZE in Hap.
    rewrite !(same_outside_load _ _ _ _ _ Hout); [done|..];
      intros z Hz; specialize (Hap z Hz); unfold LIST_HEAD_SIZE; lia.
  - intros ? (m' & -> & Hfreed) Hl'. rewrite st_mem_put in Hl'. split; [done|].
    by exists m'.
Qed.
End properties.

(** ** Witnesses *)

(** A circle of the head 4096 and the node 4112, and a free node at 4128. *)
Definition ex_circle : mem :=
  write_le 8 (write_le 8 (write_le 8 (write_le 8 (zero_mem 4096 48) 4096 4112) 4104 4112)
    4112 4096) 4120 4096.

Lemma ex_circle_ok : clist ex_circle 4096 [4112].
Proof.
  split.
  - repeat split.
  - apply (bool_decide_unpack _). by vm_compute.
  - intros x y Hx Hy. unfold apart, LIST_HEAD_SIZE.
    repeat setoid_rewrite elem_of_cons in Hx. repeat setoid_rewrite elem_of_cons in Hy.
    set_solver by lia.
Qed.

Lemma ex_circle_separate : separate ex_circle 4128 4096 [4112].
Proof.
  split_and!; [by apply mappedb_mapped|done|done|].
  intros x Hx. unfold apart, LIST_HEAD_SIZE. set_solver by lia.
Qed.

Lemma list_add_both_ends_witness :
  (∃ m', list_add 4128 4096 ex_circle = Done (tt, m') ∧ clist m' 4096 [4128; 4112]
     ∧ same_outside [4128; 4096; 4112] ex_circle m') ∧
  (∃ m', list_add_tail 4128 4096 ex_circle = Done (tt, m') ∧ clist m' 4096 [4112; 4128]
     ∧ same_outside [4128; 4096; 4112] ex_circle m').
Proof.
  exact (list_add_both_ends (MS := mem_MemState) 4128 4096 [4112] ex_circle ex_circle_ok ex_circle_separate).
Defined.

Lemma list_del_unlinks_witness :
  ∃ m', list_del 4112 ex_circle = Done (tt, m') ∧ clist m' 4096 [] ∧
    load_le 8 m' 4112 = Some NULL ∧ load_le 8 m' (4112 + 8) = Some NULL ∧
    same_outside [4096; 4112] ex_circle m'.
Proof. exact (list_del_unlinks (MS := mem_MemState) 4112 4096 [] [] ex_circle ex_circle_ok). Defined.

Lemma list_for_each_ro_find_witness :
  list_for_each_ro 4096 (λ x, mret (if 4100 <? x then Some x else None)) ex_circle
    = Done (Some 4112, ex_circle).
Proof.
  exact (list_for_each_ro_find (MS := mem_MemState) 4096 [4112] (Z.ltb 4100) ex_circle ex_circle_ok).
Defined.

Lemma list_for_each_safe_free_all_witness :
  ∃ m', list_for_each_safe 4096 (λ x, list_del x ;; mret (None : option unit)) ex_circle
          = Done (None, m') ∧
    clist m' 4096 [] ∧
    ∀ x, x ∈ [4112] → load_le 8 m' x = Some NULL ∧ load_le 8 m' (x + 8) = Some NULL.
Proof.
  exact (list_for_each_safe_free_all (MS := mem_MemState) 4096 [4112] ex_circle ex_circle_ok).
Defined.
