(* ===== verification/Pmm.v ===== *)
(** * kernel/mm/pmm: the physical page allocator

    The memory map given by the boot loader becomes the sorted table [pmap] of
    regions; each available region has a bitmap of its pages.  The globals of
    pmm.c are the record [pmm_globals]; a state that contains them is an
    instance of [PmmState]. *)
From S2P Require Import Prelude CInt Mem CString Bitmap.

(** ** The data *)
Inductive pmm_region_type : Type := PMM_REGION_AVAILABLE | PMM_REGION_RESERVED.

#[export] Instance pmm_region_type_eq_dec : EqDecision pmm_region_type.
Proof. solve_decision. Defined.

Record pmm_region : Type := mk_region {
  r_addr : Z;
  r_size_in_pages : Z;
  r_type : pmm_region_type;
  r_bitmap : bitmap;
}.

#[export] Instance bitmap_eq_dec : EqDecision bitmap.
Proof. solve_decision. Defined.
#[export] Instance pmm_region_eq_dec : EqDecision pmm_region.
Proof. solve_decision. Defined.

Record pmm_phys_addr : Type := mk_phys_addr {
  pa_type : pmm_region_type;
  pa_pa : Z;
}.

Definition PMAP_SIZE : Z := 10.

(** A static region is zeroed: [PMM_REGION_AVAILABLE] is 0. *)
Definition zero_region : pmm_region :=
  mk_region 0 0 PMM_REGION_AVAILABLE (mk_bitmap 0 0 0).

(** The globals of pmm.c. *)
Record pmm_globals : Type := mk_pmm {
  g_pmap : list pmm_region;
  g_pmap_size : Z;
  g_pmm_vma_stop : Z;
}.

Definition pmm_initial : pmm_globals :=
  mk_pmm (replicate (Z.to_nat PMAP_SIZE) zero_region) 0 NULL.

(** A state that contains the memory and the globals of pmm.c. *)
Class PmmState (S : Type) {MS : MemState S} : Type := {
  pmm_g : S → pmm_globals;
  pmm_put : pmm_globals → S → S;
  pmm_g_put : ∀ g s, pmm_g (pmm_put g s) = g;
  pmm_g_mem : ∀ m s, pmm_g (st_put m s) = pmm_g s;
  pmm_mem_put : ∀ g s, st_mem (pmm_put g s) = st_mem s;
  pmm_put_put : ∀ g g' s, pmm_put g (pmm_put g' s) = pmm_put g s;
  pmm_put_g : ∀ s, pmm_put (pmm_g s) s = s;
}.

Record pmm_state : Type := mk_pmm_state { ps_mem : mem; ps_g : pmm_globals }.

#[export] Program Instance pmm_state_mem : MemState pmm_state := {|
  st_mem := ps_mem; st_put := λ m s, mk_pmm_state m (ps_g s);
|}.
Solve All Obligations with by intros; destruct_and?; try match goal with s : pmm_state |- _ => destruct s end.

#[export] Program Instance pmm_state_pmm : PmmState pmm_state := {|
  pmm_g := ps_g; pmm_put := λ g s, mk_pmm_state (ps_mem s) g;
|}.
Solve All Obligations with by intros; try match goal with s : pmm_state |- _ => destruct s end.

(** ** Boot loader data: [struct multiboot_tag_mmap] in memory *)
Definition MULTIBOOT_MEMORY_AVAILABLE : Z := 1.
Definition MULTIBOOT_MEMORY_RESERVED : Z := 2.

Record multiboot_mmap_entry : Type := mk_entry {
  e_addr : Z;
  e_len : Z;
  e_type : Z;
}.

(** [&mmap->entries[i]], with the size of the C structure. *)
Definition mmap_entry_addr (mmap i : Z) : Z := mmap + 16 + 24 * i.

(** ** The operations *)
Section defs.
Context {CS : CSem} {S : Type} {MS : MemState S} {PS : PmmState S}.
(** The end of the kernel image, a symbol of kernel.ld. *)
Context (kernel_vma_stop : Z).

Definition pmap_get (i : Z) : M S pmm_region :=
  g ← gets pmm_g;
  of_option "pmap index" (if 0 <=? i then g_pmap g !! Z.to_nat i else None).

Definition pmap_set (i : Z) (r : pmm_region) : M S unit :=
  _ ← pmap_get i;
  g ← gets pmm_g;
  modify (pmm_put (mk_pmm (<[Z.to_nat i := r]> (g_pmap g)) (g_pmap_size g) (g_pmm_vma_stop g))).

Definition pmap_size : M S Z := gets (λ s, g_pmap_size (pmm_g s)).
Definition set_pmap_size (n : Z) : M S unit :=
  g ← gets pmm_g; modify (pmm_put (mk_pmm (g_pmap g) n (g_pmm_vma_stop g))).
Definition pmm_vma_stop : M S Z := gets (λ s, g_pmm_vma_stop (pmm_g s)).
Definition set_pmm_vma_stop (v : Z) : M S unit :=
  g ← gets pmm_g; modify (pmm_put (mk_pmm (g_pmap g) (g_pmap_size g) v)).

Definition available (r : pmm_region) : bool := bool_decide (r_type r = PMM_REGION_AVAILABLE).

(** [pmap[i].addr + pmap[i].size_in_pages * PAGE_SIZE_IN_BYTES]. *)
Definition region_stop (r : pmm_region) : Z :=
  u64 (r_addr r + u64 (r_size_in_pages r * PAGE_SIZE_IN_BYTES)).

(** The check of the [DEBUG] build. *)
Definition pmap_sorted : M S bool :=
  size ← pmap_size;
  r ← for_ret 1 size (λ i,
    a ← pmap_get i;
    b ← pmap_get (i - 1);
    mret (if r_addr a <=? r_addr b then Some false else None));
  mret (default true r).

(** Selection sort; [start] is [pmap_size - range]. *)
Definition pmap_sort : M S unit :=
  size ← pmap_size;
  if size =? 0 then mret tt
  else
    for_up 0 (size - 1) (λ start,
      min ← for_acc (start + 1) size (λ j min,
        a ← pmap_get min;
        b ← pmap_get j;
        mret (if r_addr b <? r_addr a then j else min)) start;
      tmp ← pmap_get start;
      m ← pmap_get min;
      pmap_set start m ;;
      pmap_set min tmp).

(** The address, the end and the size in pages that [pmap_insert] computes. *)
Definition insert_type (e : multiboot_mmap_entry) : pmm_region_type :=
  if e_type e =? MULTIBOOT_MEMORY_AVAILABLE then PMM_REGION_AVAILABLE else PMM_REGION_RESERVED.
Definition insert_addr (e : multiboot_mmap_entry) : Z :=
  match insert_type e with
  | PMM_REGION_AVAILABLE => PAGE_ADDR (MAX (V2P kernel_vma_stop) (e_addr e)) PAGE_SIZE_IN_BYTES
  | PMM_REGION_RESERVED => PAGE_ADDR (u64 (e_addr e)) PAGE_SIZE_IN_BYTES
  end.
Definition insert_stop (e : multiboot_mmap_entry) : Z :=
  let len := u64 (e_len e - u64 (insert_addr e - e_addr e)) in
  ROUNDUP (u64 (u64 (insert_addr e + len) - 1)) PAGE_SIZE_IN_BYTES.
Definition insert_size (e : multiboot_mmap_entry) : Z :=
  u64 (insert_stop e - insert_addr e) / PAGE_SIZE_IN_BYTES.

Definition read_entry (p : Z) : M S multiboot_mmap_entry :=
  addr ← rd64 p;
  len ← rd64 (p + 8);
  type ← rd32 (p + 16);
  mret (mk_entry addr len type).

Definition pmap_insert (entry pmap_index : Z) : M S unit :=
  e ← read_entry entry;
  old ← pmap_get pmap_index;
  pmap_set pmap_index (mk_region (insert_addr e) (insert_size e) (insert_type e) (r_bitmap old)) ;;
  for_up 0 pmap_index (λ i,
    r ← pmap_get i;
    if (region_stop r <=? insert_addr e) || (insert_stop e <=? r_addr r) then mret tt
    else panic "pmap_insert: physical memory overlap").

Definition pmap_init (mmap : Z) : M S unit :=
  size ← rd32 (mmap + 4);
  entry_size ← rd32 (mmap + 8);
  nb_entries ← (if entry_size =? 0 then faultM (Undefined "division by zero")
                else mret (u32 (u64 (size - 16) / entry_size)));
  n ← for_acc 0 nb_entries (λ i pmap_index,
    e ← read_entry (mmap_entry_addr mmap i);
    let is_available_or_reserved :=
      ((e_type e =? MULTIBOOT_MEMORY_AVAILABLE) && (BIOS_END <=? e_addr e))
      || (e_type e =? MULTIBOOT_MEMORY_RESERVED) in
    if negb is_available_or_reserved then mret pmap_index
    else if (PMAP_SIZE <=? pmap_index) || (pmap_index =? 0xff) then
      panic "statically allocated pmap not big enough"
    else
      pmap_insert (mmap_entry_addr mmap i) pmap_index ;;
      mret (u32 (pmap_index + 1))) 0;
  set_pmap_size n ;;
  pmap_sort.

Definition pmm_next_phys_page (addr : Z) : M S pmm_phys_addr :=
  let next := u64 (addr + PAGE_SIZE_IN_BYTES) in
  size ← pmap_size;
  r ← for_ret 0 size (λ i,
    r ← pmap_get i;
    if region_stop r <=? next then mret None
    else mret (Some (mk_phys_addr (r_type r) (MAX next (r_addr r)))));
  mret (default (mk_phys_addr PMM_REGION_AVAILABLE 1) r).

Definition pmm_alloc : M S Z :=
  size ← pmap_size;
  r ← for_ret 0 size (λ i,
    r ← pmap_get i;
    if negb (available r) then mret None
    else
      j ← bitmap_find_and_set (r_bitmap r);
      if j =? bm_len (r_bitmap r) then mret None
      else mret (Some (u64 (r_addr r + u64 (j * PAGE_SIZE_IN_BYTES)))));
  mret (default NULL r).

Definition pmm_xalloc : M S Z :=
  ret ← pmm_alloc;
  if ret =? NULL then panic "pmm_xalloc: no more memory" else mret ret.

Definition pmm_free (ptr : Z) : M S unit :=
  stop ← pmm_vma_stop;
  if ptr <=? V2P stop then panic "pmm_free: freeing non freeable memory pages"
  else
    size ← pmap_size;
    r ← for_ret 0 size (λ i,
      r ← pmap_get i;
      if negb (available r) then mret None
      else if (region_stop r <=? ptr) || (ptr <? r_addr r) then mret None
      else
        let j := u64 (ptr - r_addr r) / PAGE_SIZE_IN_BYTES in
        bitmap_unset (r_bitmap r) j ;;
        mret (Some tt));
    match r with
    | Some _ => mret tt
    | None => panic "pmm_free: bad page free"
    end.

(** Returns the number of available pages. *)
Definition pmm_init (mmap : Z) : M S Z :=
  pmap_init mmap ;;
  size ← pmap_size;
  '(bitmap_alloc, available_pages) ← for_acc 0 size (λ i '(bitmap_alloc, available_pages),
    r ← pmap_get i;
    if negb (available r) then mret (bitmap_alloc, available_pages)
    else
      '(bm, next) ← bitmap_init (r_size_in_pages r) bitmap_alloc;
      pmap_set i (mk_region (r_addr r) (r_size_in_pages r) (r_type r) bm) ;;
      mret (next, u64 (available_pages + r_size_in_pages r))) (kernel_vma_stop, 0);
  set_pmm_vma_stop (ROUNDUP (u64 (bitmap_alloc - 1)) PAGE_SIZE_IN_BYTES) ;;
  stop ← pmm_vma_stop;
  let pa_stop := V2P stop in
  loop (Datatypes.S (Z.to_nat (pa_stop / PAGE_SIZE_IN_BYTES + 1))) (λ '(pa, available_pages),
    if pa <? pa_stop then
      _ ← pmm_alloc;
      mret (inl (u64 (pa + PAGE_SIZE_IN_BYTES), u64 (available_pages - 1)))
    else mret (inr available_pages)) (V2P kernel_vma_stop, available_pages).
End defs.

(** ** The abstract view: which pages are free *)
Section view.
Context {S : Type} {MS : MemState S} {PS : PmmState S}.
Implicit Types s : S.

(** Region [i] of the table in use. *)
Definition region_at (g : pmm_globals) (i : Z) (r : pmm_region) : Prop :=
  0 ≤ i < g_pmap_size g ∧ g_pmap g !! Z.to_nat i = Some r.

Record region_ok (m : mem) (r : pmm_region) : Prop := {
  ro_addr : 0 ≤ r_addr r;
  ro_aligned : r_addr r mod PAGE_SIZE_IN_BYTES = 0;
  ro_size : 0 < r_size_in_pages r;
  ro_stop : r_addr r + r_size_in_pages r * PAGE_SIZE_IN_BYTES < 2 ^ 64;
  ro_bitmap : available r = true →
    0 < r_addr r ∧ bitmap_wf m (r_bitmap r) ∧ bm_len (r_bitmap r) = r_size_in_pages r;
}.

Definition bitmaps_disjoint (b b' : bitmap) : Prop :=
  bm_bitmap b + 8 * bm_size_in_block b ≤ bm_bitmap b' ∨
  bm_bitmap b' + 8 * bm_size_in_block b' ≤ bm_bitmap b.

(** The table is sorted without overlap and the bitmaps do not overlap. *)
Record pmm_wf (s : S) : Prop := {
  pw_len : Z.of_nat (length (g_pmap (pmm_g s))) = PMAP_SIZE;
  pw_size : 0 ≤ g_pmap_size (pmm_g s) ≤ PMAP_SIZE;
  pw_region : ∀ i r, region_at (pmm_g s) i r → region_ok (st_mem s) r;
  pw_sorted : ∀ i j r r', region_at (pmm_g s) i r → region_at (pmm_g s) j r' → i < j →
    r_addr r + r_size_in_pages r * PAGE_SIZE_IN_BYTES ≤ r_addr r';
  pw_disjoint : ∀ i j r r', region_at (pmm_g s) i r → region_at (pmm_g s) j r' → i ≠ j →
    available r = true → available r' = true → bitmaps_disjoint (r_bitmap r) (r_bitmap r');
}.

(** Page [p] belongs to region [r], as page number [k]. *)
Definition page_of (r : pmm_region) (k p : Z) : Prop :=
  0 ≤ k < r_size_in_pages r ∧ p = r_addr r + k * PAGE_SIZE_IN_BYTES.

Definition page_free (s : S) (p : Z) : Prop :=
  ∃ i r k, region_at (pmm_g s) i r ∧ available r = true ∧ page_of r k p ∧
    is_free (st_mem s) (r_bitmap r) k = true.

(** Only blocks of the bitmaps differ. *)
Definition bitmaps_only (g : pmm_globals) (m m' : mem) : Prop :=
  (∀ i, is_Some (m' !! i) ↔ is_Some (m !! i)) ∧
  ∀ i, (∀ j r, region_at g j r → available r = true →
          ¬ bm_bitmap (r_bitmap r) ≤ i < bm_bitmap (r_bitmap r) + 8 * bm_size_in_block (r_bitmap r)) →
       m' !! i = m !! i.

(** At most one bit has been cleared in [bm]. *)
Definition one_bit_less (m m' : mem) (bm : bitmap) : Prop :=
  ∃ x, ∀ k, 0 ≤ k < capacity bm → is_free m' bm k = is_free m bm k && negb (k =? x).

(** Every available bitmap still has a set bit, possibly a spare one. *)
Definition not_exhausted (s : S) : Prop :=
  ∀ i r, region_at (pmm_g s) i r → available r = true →
    ∃ k, 0 ≤ k < capacity (r_bitmap r) ∧ is_free (st_mem s) (r_bitmap r) k = true.
End view.

(** ** Lemmas *)
Lemma region_at_fun g i r r' : region_at g i r → region_at g i r' → r = r'.
Proof. intros [_ H1] [_ H2]. congruence. Qed.

Lemma region_stop_eq m r :
  region_ok m r → region_stop r = r_addr r + r_size_in_pages r * PAGE_SIZE_IN_BYTES.
Proof.
  intros []. unfold region_stop, PAGE_SIZE_IN_BYTES in *.
  rewrite (u64_small (_ * _)) by lia. rewrite u64_small by lia. done.
Qed.

Lemma is_free_frame lo hi m m' bm k :
  only_in lo hi m m' → 0 ≤ k < capacity bm →
  hi ≤ bm_bitmap bm ∨ bm_bitmap bm + 8 * bm_size_in_block bm ≤ lo →
  is_free m' bm k = is_free m bm k.
Proof.
  intros Hm Hk Hd. unfold is_free. rewrite (only_in_load _ _ _ _ _ _ Hm); [done|].
  unfold block_addr, capacity in *. zlia.
Qed.

Lemma block_in_bitmap bm k :
  0 ≤ k < capacity bm →
  bm_bitmap bm ≤ block_addr bm (k / 64) ∧
  block_addr bm (k / 64) + 8 ≤ bm_bitmap bm + 8 * bm_size_in_block bm.
Proof. unfold block_addr, capacity. zlia. Qed.

Lemma page_of_inj r k k' p : page_of r k p → page_of r k' p → k = k'.
Proof. unfold page_of, PAGE_SIZE_IN_BYTES. lia. Qed.

Section lemmas.
Context {CS : CSem} {S : Type} {MS : MemState S} {PS : PmmState S}.
Implicit Types s : S.

Lemma wp_pmap_get i r s (Q : pmm_region → S → Prop) :
  0 ≤ i → g_pmap (pmm_g s) !! Z.to_nat i = Some r → Q r s → wp (pmap_get i) s Q.
Proof.
  intros Hi Hr HQ. unfold pmap_get. wp_steps. eapply wp_of_option; [|done].
  destruct (0 <=? i) eqn:?; bool_facts; [done|lia].
Qed.

Lemma pmap_get_Done i r s : region_at (pmm_g s) i r → pmap_get i s = Done (r, s).
Proof.
  intros [Hi Hr]. destruct (proj1 (wp_Done (pmap_get i) s (λ r' s', r' = r ∧ s' = s)))
    as (? & ? & ? & -> & ->); [|done]. apply (wp_pmap_get _ r); [lia|done..].
Qed.

Lemma pmm_wf_mem s m' lo hi :
  pmm_wf s → only_in lo hi (st_mem s) m' → pmm_wf (st_put m' s).
Proof.
  intros [Hlen Hsz Hreg Hsort Hdisj] Hm.
  split; rewrite ?pmm_g_mem; try done.
  intros i r Hr. rewrite st_mem_put. destruct (Hreg i r Hr) as [? ? ? ? Hbm]. split; try done.
  intros Hav. destruct (Hbm Hav) as (? & ? & ?). split_and!; [done| |done].
  by eapply bitmap_wf_only_in.
Qed.

(** Distinct regions have no page in common. *)
Lemma page_of_region s i j r r' k k' p :
  pmm_wf s → region_at (pmm_g s) i r → region_at (pmm_g s) j r' →
  page_of r k p → page_of r' k' p → i = j.
Proof.
  intros Hwf Hr Hr' [Hk Hp] [Hk' Hp'].
  destruct (decide (i = j)) as [|Hne]; [done|]. exfalso.
  unfold PAGE_SIZE_IN_BYTES in *.
  destruct (decide (i < j)).
  - pose proof (pw_sorted _ Hwf i j r r' Hr Hr' ltac:(lia)). unfold PAGE_SIZE_IN_BYTES in *. lia.
  - pose proof (pw_sorted _ Hwf j i r' r Hr' Hr ltac:(lia)). unfold PAGE_SIZE_IN_BYTES in *. lia.
Qed.

(** The free pages after a memory change that only changes bit [k] of region [i]. *)
Lemma page_free_update s i r k m' (b : bool) :
  pmm_wf s → region_at (pmm_g s) i r → available r = true →
  0 ≤ k < r_size_in_pages r →
  (∀ k', 0 ≤ k' < r_size_in_pages r →
     is_free m' (r_bitmap r) k' = if k' =? k then b else is_free (st_mem s) (r_bitmap r) k') →
  (∀ j r' k', region_at (pmm_g s) j r' → j ≠ i → available r' = true → 0 ≤ k' < r_size_in_pages r' →
     is_free m' (r_bitmap r') k' = is_free (st_mem s) (r_bitmap r') k') →
  ∀ q, page_free (st_put m' s) q ↔
       if decide (q = r_addr r + k * PAGE_SIZE_IN_BYTES) then b = true else page_free s q.
Proof.
  intros Hwf Hr Hav Hk Hbits Hother q.
  assert (page_of r k (r_addr r + k * PAGE_SIZE_IN_BYTES)) as Hpg by done.
  unfold page_free. rewrite pmm_g_mem, st_mem_put. split.
  - intros (j & r' & k' & Hr' & Hav' & Hq & Hf). case_decide as Hqp.
    + subst q. assert (j = i) as -> by (by eapply page_of_region).
      rewrite (region_at_fun _ _ _ _ Hr' Hr) in *. assert (k' = k) as -> by (by eapply page_of_inj).
      by rewrite Hbits, Z.eqb_refl in Hf.
    + exists j, r', k'. split_and!; try done. destruct (decide (j = i)) as [->|Hne].
      * rewrite (region_at_fun _ _ _ _ Hr' Hr) in *. rewrite Hbits in Hf by apply Hq.
        destruct (k' =? k) eqn:E; bool_facts; [|done]. subst k'. destruct Hq as [_ ->]. done.
      * rewrite <- Hf. symmetry. apply (Hother j); try done. apply Hq.
  - case_decide as Hqp.
    + intros ->. subst q. exists i, r, k. split_and!; try done. by rewrite Hbits, Z.eqb_refl.
    + intros (j & r' & k' & Hr' & Hav' & Hq & Hf). exists j, r', k'. split_and!; try done.
      destruct (decide (j = i)) as [->|Hne].
      * rewrite (region_at_fun _ _ _ _ Hr' Hr) in *. rewrite Hbits by apply Hq.
        destruct (k' =? k) eqn:E; bool_facts; [|done]. subst k'. destruct Hq as [_ ->]. done.
      * rewrite (Hother j); try done. apply Hq.
Qed.

(** One round of the search of [pmm_alloc]. *)
Lemma find_in_region s i r :
  pmm_wf s → region_at (pmm_g s) i r → available r = true →
  (∃ k, 0 ≤ k < capacity (r_bitmap r) ∧ is_free (st_mem s) (r_bitmap r) k = true) →
  ∃ j m', bitmap_find_and_set (r_bitmap r) s = Done (Z.min j (r_size_in_pages r), st_put m' s) ∧
    0 ≤ j < capacity (r_bitmap r) ∧
    is_free (st_mem s) (r_bitmap r) j = true ∧
    (∀ k, 0 ≤ k < j → is_free (st_mem s) (r_bitmap r) k = false) ∧
    pmm_wf (st_put m' s) ∧
    (∀ k, 0 ≤ k < capacity (r_bitmap r) →
       is_free m' (r_bitmap r) k = is_free (st_mem s) (r_bitmap r) k && negb (k =? j)) ∧
    bitmaps_only (pmm_g s) (st_mem s) m' ∧
    (∀ i' r' k, region_at (pmm_g s) i' r' → i' ≠ i → available r' = true →
       0 ≤ k < capacity (r_bitmap r') →
       is_free m' (r_bitmap r') k = is_free (st_mem s) (r_bitmap r') k).
Proof.
  intros Hwf Hr Hav Hex.
  destruct (ro_bitmap _ _ (pw_region _ Hwf _ _ Hr) Hav) as (_ & Hbm & Hlen).
  destruct (least_free _ _ _ Hex) as (j & Hj & Hf & Hmin).
  destruct (find_and_set_first (r_bitmap r) s j) as (m' & Hrun & Hout & Hbits); try done.
  exists j, m'. rewrite Hlen in Hrun. split_and!; try done; [lia|lia|by eapply pmm_wf_mem|..].
  { destruct Hout as [Hout Hdom]. split; [done|]. intros i0 Hi0. apply Hout. intros Hin.
    pose proof (block_in_bitmap (r_bitmap r) j Hj). apply (Hi0 i r Hr Hav). lia. }
  intros i' r' k Hr' Hne Hav' Hk. eapply is_free_frame; [exact Hout|done|].
  pose proof (pw_disjoint _ Hwf _ _ _ _ Hr Hr' ltac:(done) Hav Hav') as Hd.
  pose proof (block_in_bitmap (r_bitmap r) j Hj). unfold bitmaps_disjoint in Hd. lia.
Qed.

(** The state during the search: regions below [i] have no free page, those
    from [i] on are as they were. *)
Definition searched (s0 : S) (i : Z) (s : S) : Prop :=
  ∃ m', s = st_put m' s0 ∧ pmm_wf s ∧
    (∀ j r k, region_at (pmm_g s0) j r → available r = true → 0 ≤ k < r_size_in_pages r →
       is_free m' (r_bitmap r) k = is_free (st_mem s0) (r_bitmap r) k) ∧
    (∀ j r k, region_at (pmm_g s0) j r → available r = true → i ≤ j → 0 ≤ k < capacity (r_bitmap r) →
       is_free m' (r_bitmap r) k = is_free (st_mem s0) (r_bitmap r) k) ∧
    (∀ j r k, region_at (pmm_g s0) j r → available r = true → j < i → 0 ≤ k < r_size_in_pages r →
       is_free (st_mem s0) (r_bitmap r) k = false) ∧
    bitmaps_only (pmm_g s0) (st_mem s0) m' ∧
    (∀ j r, region_at (pmm_g s0) j r → available r = true → one_bit_less (st_mem s0) m' (r_bitmap r)).

Lemma bitmaps_only_trans g m1 m2 m3 : bitmaps_only g m1 m2 → bitmaps_only g m2 m3 → bitmaps_only g m1 m3.
Proof.
  intros [D1 H1] [D2 H2]. split; [intros i; by rewrite D2, D1|]. intros i Hi. by rewrite H2, H1.
Qed.

Lemma one_bit_less_refl m m' bm :
  (∀ k, 0 ≤ k < capacity bm → is_free m' bm k = is_free m bm k) → one_bit_less m m' bm.
Proof.
  intros H. exists (-1). intros k Hk. rewrite H by done. replace (k =? -1) with false by lia.
  by rewrite andb_true_r.
Qed.

Lemma searched_pages s0 i s q : searched s0 i s → page_free s q ↔ page_free s0 q.
Proof.
  intros (m' & -> & _ & Hsame & _). unfold page_free. rewrite pmm_g_mem, st_mem_put.
  split; intros (j & r & k & Hr & Hav & Hq & Hf); exists j, r, k; split_and!; try done.
  - rewrite <- Hf. symmetry. apply (Hsame j); try done. apply Hq.
  - rewrite (Hsame j); try done. apply Hq.
Qed.

Lemma page_size_len s i r k :
  pmm_wf s → region_at (pmm_g s) i r → available r = true → 0 ≤ k < r_size_in_pages r →
  0 ≤ k < capacity (r_bitmap r).
Proof.
  intros Hwf Hr Hav Hk. destruct (ro_bitmap _ _ (pw_region _ Hwf _ _ Hr) Hav) as (_ & Hbm & Hlen).
  destruct (capacity_len _ _ Hbm). lia.
Qed.

(** What [pmm_alloc] does when the bitmaps are not exhausted. *)
Definition alloc_post (s : S) (p : Z) (s' : S) : Prop :=
  (∃ m', s' = st_put m' s ∧ bitmaps_only (pmm_g s) (st_mem s) m' ∧
     ∀ j r, region_at (pmm_g s) j r → available r = true → one_bit_less (st_mem s) m' (r_bitmap r)) ∧
  pmm_wf s' ∧
  ((p = NULL ∧ ∀ q, ¬ page_free s q ∧ ¬ page_free s' q) ∨
   (p ≠ NULL ∧ page_free s p ∧ (∀ q, page_free s q → p ≤ q) ∧
    ∀ q, page_free s' q ↔ page_free s q ∧ q ≠ p)).

(** Bit [j], the lowest free one of region [i], has been cleared between [m1] and [m2]. *)
Record bit_taken (s0 : S) (i : Z) (r : pmm_region) (m1 m2 : mem) (j : Z) : Prop := {
  bt_range : 0 ≤ j < capacity (r_bitmap r);
  bt_free : is_free m1 (r_bitmap r) j = true;
  bt_least : ∀ k, 0 ≤ k < j → is_free m1 (r_bitmap r) k = false;
  bt_wf : pmm_wf (st_put m2 s0);
  bt_bits : ∀ k, 0 ≤ k < capacity (r_bitmap r) → is_free m2 (r_bitmap r) k = is_free m1 (r_bitmap r) k && negb (k =? j);
  bt_only : bitmaps_only (pmm_g s0) m1 m2;
  bt_other : ∀ i' r' k, region_at (pmm_g s0) i' r' → i' ≠ i → available r' = true →
    0 ≤ k < capacity (r_bitmap r') → is_free m2 (r_bitmap r') k = is_free m1 (r_bitmap r') k;
}.

Section searching.
Context (s0 : S) (i : Z) (r : pmm_region) (m1 m2 : mem) (j : Z).
Hypothesis Hs : searched s0 i (st_put m1 s0).
Hypothesis Hr : region_at (pmm_g s0) i r.
Hypothesis Hav : available r = true.
Hypothesis Hbit : bit_taken s0 i r m1 m2 j.

(** [searched] speaks of the memory it is given. *)
Lemma searched_mem m : searched s0 i (st_put m s0) →
  pmm_wf (st_put m s0) ∧
  (∀ i' r' k, region_at (pmm_g s0) i' r' → available r' = true → 0 ≤ k < r_size_in_pages r' →
     is_free m (r_bitmap r') k = is_free (st_mem s0) (r_bitmap r') k) ∧
  (∀ i' r' k, region_at (pmm_g s0) i' r' → available r' = true → i ≤ i' → 0 ≤ k < capacity (r_bitmap r') →
     is_free m (r_bitmap r') k = is_free (st_mem s0) (r_bitmap r') k) ∧
  (∀ i' r' k, region_at (pmm_g s0) i' r' → available r' = true → i' < i → 0 ≤ k < r_size_in_pages r' →
     is_free (st_mem s0) (r_bitmap r') k = false) ∧
  bitmaps_only (pmm_g s0) (st_mem s0) m ∧
  ∀ i' r', region_at (pmm_g s0) i' r' → available r' = true → one_bit_less (st_mem s0) m (r_bitmap r').
Proof.
  intros (m' & Heq & Hrest). apply (f_equal st_mem) in Heq as Hm. rewrite !st_mem_put in Hm. subst m'. done.
Qed.

Lemma taken_frame :
  bitmaps_only (pmm_g s0) (st_mem s0) m2 ∧
  ∀ i' r', region_at (pmm_g s0) i' r' → available r' = true → one_bit_less (st_mem s0) m2 (r_bitmap r').
Proof using Hs Hr Hav Hbit.
  destruct (searched_mem _ Hs) as (_ & _ & Hcap & _ & Honly & Hone). split; [by eapply bitmaps_only_trans, Hbit|].
  intros i' r' Hr' Hav'. destruct (decide (i' = i)) as [->|Hi'].
  - rewrite (region_at_fun _ _ _ _ Hr' Hr) in *. exists j. intros k Hk.
    rewrite (bt_bits _ _ _ _ _ _ Hbit) by done. by rewrite (Hcap i) by (done || lia).
  - destruct (Hone i' r' Hr' Hav') as [x Hx]. exists x. intros k Hk. rewrite <- (Hx k Hk).
    by apply (bt_other _ _ _ _ _ _ Hbit i').
Qed.

Lemma page_capacity i' r' k : region_at (pmm_g s0) i' r' → available r' = true →
  0 ≤ k < r_size_in_pages r' → 0 ≤ k < capacity (r_bitmap r').
Proof using Hs.
  intros. destruct (searched_mem _ Hs) as (Hwf & _). eapply (page_size_len (st_put m1 s0) i'); rewrite ?pmm_g_mem; done.
Qed.

(** No page of the region was free: the search goes on. *)
Lemma searched_more : r_size_in_pages r ≤ j → searched s0 (i + 1) (st_put m2 s0).
Proof using Hs Hr Hav Hbit.
  intros Hj. destruct (searched_mem _ Hs) as (_ & Hsame & Hcap & Hnone & _). pose proof page_capacity as Hps.
  destruct Hbit as [_ _ Hmin Hwf2 Hbits _ Hother].
  exists m2. split; [done|]. split; [done|]. split; [|split; [|split; [|exact taken_frame]]].
  - intros i' r' k Hr' Hav' Hk. rewrite <- (Hsame i' r' k) by done. destruct (decide (i' = i)) as [->|Hi'].
    + rewrite (region_at_fun _ _ _ _ Hr' Hr) in *. rewrite Hbits by (by apply (Hps i)). by rewrite Hmin by lia.
    + apply (Hother i'); try done. by apply (Hps i').
  - intros i' r' k Hr' Hav' Hi' Hk. rewrite <- (Hcap i' r' k) by (done || lia). apply (Hother i'); try done. lia.
  - intros i' r' k Hr' Hav' Hi' Hk. destruct (decide (i' = i)) as [->|Hne'].
    + rewrite (region_at_fun _ _ _ _ Hr' Hr) in *. rewrite <- (Hsame i r k) by done. apply Hmin. lia.
    + apply (Hnone i'); try done. lia.
Qed.

(** The bit is that of a page: it is the lowest free page, and not free any more. *)
Lemma searched_found : 0 < r_addr r → j < r_size_in_pages r → alloc_post s0 (r_addr r + j * 4096) (st_put m2 s0).
Proof using Hs Hr Hav Hbit.
  intros Hpos Hlt. destruct (searched_mem _ Hs) as (Hwf & Hsame & _ & Hnone & _). pose proof page_capacity as Hps.
  destruct Hbit as [Hj Hf Hmin Hwf2 Hbits _ Hother]. destruct taken_frame as [Honly Hone].
  assert (region_at (pmm_g (st_put m1 s0)) i r) as Hr1 by (by rewrite pmm_g_mem).
  assert (∀ q, page_free (st_put m2 s0) q ↔ page_free s0 q ∧ q ≠ r_addr r + j * 4096) as Hpages.
  { intros q. rewrite <- (searched_pages _ _ _ q Hs). replace (st_put m2 s0) with (st_put m2 (st_put m1 s0)) by (by rewrite st_put_put).
    rewrite (page_free_update (st_put m1 s0) i r j m2 false Hwf Hr1 Hav ltac:(lia)); rewrite ?st_mem_put, ?pmm_g_mem.
    - unfold PAGE_SIZE_IN_BYTES. case_decide; [|tauto]. split; [done|tauto].
    - intros k Hk. rewrite Hbits by (by apply (Hps i)).
      destruct (k =? j); [by rewrite andb_false_r|by rewrite andb_true_r].
    - intros i' r' k Hr' Hi' Hav' Hk. apply (Hother i'); try done. by apply (Hps i'). }
  split_and!; [by exists m2|done|]. right. split_and!; [unfold NULL; lia|..|exact Hpages].
  - exists i, r, j. split; [done|]. split; [done|]. split; [split; [lia|done]|]. by rewrite <- (Hsame i r j) by (done || lia).
  - intros q (i' & r' & k & Hr' & Hav' & [Hk ->] & Hfq). unfold PAGE_SIZE_IN_BYTES in *.
    destruct (Z.lt_trichotomy i' i) as [Hlt'|[->|Hgt]].
    + by rewrite (Hnone i' r' k) in Hfq by (done || lia).
    + rewrite (region_at_fun _ _ _ _ Hr' Hr) in *. rewrite <- (Hsame i r k) in Hfq by done.
      assert (¬ k < j); [|lia]. intros Hkj. by rewrite Hmin in Hfq by lia.
    + pose proof (pw_sorted _ Hwf i i' r r' Hr1 ltac:(by rewrite pmm_g_mem) Hgt) as Hsort.
      unfold PAGE_SIZE_IN_BYTES in Hsort. lia.
Qed.
End searching.

Lemma alloc_found s0 i s r :
  searched s0 i s → region_at (pmm_g s0) i r → available r = true → not_exhausted s0 →
  wp (j ← bitmap_find_and_set (r_bitmap r);
      if j =? bm_len (r_bitmap r) then mret None
      else mret (Some (u64 (r_addr r + u64 (j * PAGE_SIZE_IN_BYTES))))) s
     (λ res s', match res with
                | Some p => alloc_post s0 p s'
                | None => searched s0 (i + 1) s'
                end).
Proof.
  intros Hs Hr Hav Hne. pose proof Hs as (m1 & -> & Hwf & _ & Hcap & _).
  assert (region_at (pmm_g (st_put m1 s0)) i r) as Hr1 by (by rewrite pmm_g_mem).
  destruct (ro_bitmap _ _ (pw_region _ Hwf _ _ Hr1) Hav) as (Hpos & Hbm & Hlen).
  destruct (find_in_region _ i r Hwf Hr1 Hav) as (j & m2 & Hrun & Hj & Hf & Hmin & Hwf2 & Hbits & Honly2 & Hother).
  { destruct (Hne i r Hr Hav) as (k & Hk & Hf). exists k. split; [done|]. rewrite st_mem_put. by rewrite (Hcap i). }
  destruct (pw_region _ Hwf _ _ Hr1) as [Ha _ Hsz Hstop _].
  rewrite ?st_put_put, ?st_mem_put, ?pmm_g_mem in *. wp_step. eapply wp_eq; [exact Hrun|].
  assert (bit_taken s0 i r m1 m2 j) as Hbit by done.
  rewrite Hlen. destruct (Z.min j (r_size_in_pages r) =? r_size_in_pages r) eqn:E; bool_facts; apply wp_ret.
  - apply (searched_more s0 i r m1 m2 j); done || lia.
  - rewrite Z.min_l by lia. unfold PAGE_SIZE_IN_BYTES in *. rewrite (u64_small (j * 4096)), u64_small by lia.
    apply (searched_found s0 i r m1 m2 j); done || lia.
Qed.

Lemma alloc_run s :
  pmm_wf s → not_exhausted s → ∃ p s', pmm_alloc s = Done (p, s') ∧ alloc_post s p s'.
Proof.
  intros Hwf Hne. apply wp_Done. unfold pmm_alloc, pmap_size. wp_step. wp_step. wp_step.
  apply wp_for_ret with (I := λ i s', searched s i s').
  - apply Hwf.
  - exists (st_mem s). rewrite st_put_mem. split_and!; try done.
    + intros j r k [? _] ? ?. lia.
    + intros j r _ _. by apply one_bit_less_refl.
  - intros i s' Hi Hs. pose proof Hs as (m1 & -> & Hwf1 & Hsame & Hcap & Hnone & Honly & Hone).
    destruct (lookup_lt_is_Some_2 (g_pmap (pmm_g s)) (Z.to_nat i)) as [r Hr].
    { pose proof (pw_len _ Hwf). pose proof (pw_size _ Hwf). lia. }
    wp_step. apply wp_pmap_get with r; [lia|by rewrite pmm_g_mem|].
    assert (region_at (pmm_g s) i r) as Hat by done.
    destruct (available r) eqn:Hav; simpl.
    + eapply wp_mono; [by apply (alloc_found s i)|]. intros [p|] s'; [|done].
      intros Hp. apply wp_ret. exact Hp.
    + apply wp_ret. exists m1. split_and!; try done.
      * intros j r' k Hr' Hav' Hj Hk. apply (Hcap j); try done. lia.
      * intros j r' k Hr' Hav' Hj Hk. destruct (decide (j = i)) as [->|].
        -- rewrite (region_at_fun _ _ _ _ Hr' Hat) in Hav'. congruence.
        -- apply (Hnone j); try done. lia.
  - intros s' Hs. apply wp_ret. simpl. pose proof Hs as (m1 & -> & Hwf1 & _ & _ & Hnone & Honly & Hone).
    split_and!; [by exists m1|done|]. left. split; [done|]. intros q.
    rewrite (searched_pages _ _ _ q Hs). assert (¬ page_free s q) as Hn; [|done].
    intros (j & r & k & Hr & Hav & Hq & Hf). rewrite (Hnone j r k) in Hf; try done; [apply Hr|apply Hq].
Qed.

End lemmas.

(** *** Frames *)
Definition same_pmm_g {S : Type} {MS : MemState S} {PS : PmmState S} (s s' : S) : Prop := pmm_g s = pmm_g s'.

#[export] Instance same_pmm_g_preorder {S : Type} {MS : MemState S} {PS : PmmState S} : PreOrder (same_pmm_g (PS := PS)).
Proof. split; [by intros s|intros s1 s2 s3; unfold same_pmm_g; congruence]. Qed.

Lemma keeps_g_load {S : Type} {MS : MemState S} {PS : PmmState S} n a : keeps same_pmm_g (load n a).
Proof. unfold load. keeps_auto. Qed.
Lemma keeps_g_store {S : Type} {MS : MemState S} {PS : PmmState S} n a v : keeps same_pmm_g (store n a v).
Proof.
  unfold store. keeps_auto. apply keeps_modify. intros s. unfold same_pmm_g. by rewrite pmm_g_mem.
Qed.
#[export] Hint Resolve keeps_g_load keeps_g_store : b0s.

Lemma keeps_g_find {CS : CSem} {S : Type} {MS : MemState S} {PS : PmmState S} bm : keeps same_pmm_g (bitmap_find_and_set bm).
Proof. unfold bitmap_find_and_set, rd64, wr64. keeps_auto. Qed.
#[export] Hint Resolve keeps_g_find : b0s.

Section lemmas.
Context {CS : CSem} {S : Type} {MS : MemState S} {PS : PmmState S}.
Implicit Types s : S.

Lemma keeps_g_alloc : keeps same_pmm_g pmm_alloc.
Proof. unfold pmm_alloc, pmap_size, pmap_get. keeps_auto. Qed.

(** At least [n] pages are free, and no bitmap gets exhausted before [n]
    allocations. *)
Definition pages_left (n : nat) (s : S) : Prop :=
  (∃ l, NoDup l ∧ length l = n ∧ ∀ p, p ∈ l → page_free s p) ∧
  ∀ i r, region_at (pmm_g s) i r → available r = true →
    ∃ l, NoDup l ∧ length l = n ∧
      ∀ k, k ∈ l → 0 ≤ k < capacity (r_bitmap r) ∧ is_free (st_mem s) (r_bitmap r) k = true.

Lemma NoDup_less (l : list Z) n x :
  NoDup l → length l = Datatypes.S n → ∃ l', NoDup l' ∧ length l' = n ∧ ∀ y, y ∈ l' → y ∈ l ∧ y ≠ x.
Proof.
  intros Hnd Hlen. destruct (decide (x ∈ l)) as [Hx|Hx].
  - apply list_elem_of_split in Hx as (l1 & l2 & ->). exists (l1 ++ l2).
    rewrite length_app in *. simpl in Hlen. split_and!; [|lia|].
    + rewrite NoDup_app, NoDup_cons in *. destruct Hnd as (? & Hd & _ & ?). split_and!; try done.
      intros y Hy Hy'. apply (Hd y Hy). by right.
    + intros y Hy. split; [in_list|]. intros ->. rewrite NoDup_app, NoDup_cons in Hnd. destruct Hnd as (_ & Hd & Hx & _).
      apply elem_of_app in Hy as [Hy|Hy]; [|done]. apply (Hd x Hy). by left.
  - destruct l as [|z l]; [done|]. exists l. apply NoDup_cons in Hnd as [_ ?]. split_and!; [done|simpl in Hlen; lia|].
    intros y Hy. split; [by right|]. intros ->. apply Hx. by right.
Qed.

Lemma pages_left_not_exhausted n s : pages_left (Datatypes.S n) s → not_exhausted s.
Proof.
  intros [_ H] i r Hr Hav. destruct (H i r Hr Hav) as ([|k l] & _ & ? & Hl); [done|].
  exists k. apply Hl. by left.
Qed.

Lemma wp_pmm_xalloc s n (Q : Z → S → Prop) :
  pmm_wf s → pages_left (Datatypes.S n) s →
  (∀ p m', pmm_wf (st_put m' s) → bitmaps_only (pmm_g s) (st_mem s) m' → p ≠ NULL → page_free s p →
     (∀ q, page_free (st_put m' s) q ↔ page_free s q ∧ q ≠ p) → pages_left n (st_put m' s) →
     Q p (st_put m' s)) →
  wp pmm_xalloc s Q.
Proof.
  intros Hwf Hleft HQ. destruct (alloc_run s Hwf (pages_left_not_exhausted _ _ Hleft)) as (p & s' & Hrun & Hpost).
  destruct Hpost as ((m' & -> & Honly & Hone) & Hwf' & Hcase). destruct Hleft as [(l & Hnd & Hlen & Hl) Hreg].
  unfold pmm_xalloc. wp_step. eapply wp_eq; [exact Hrun|].
  destruct Hcase as [[-> Hnone]|(Hp & Hpf & _ & Hpages)].
  { destruct l as [|q l]; [done|]. destruct (Hnone q) as [[] _]. apply Hl. by left. }
  rewrite (proj2 (Z.eqb_neq _ _)) by done. apply wp_ret. apply HQ; try done. split.
  - destruct (NoDup_less l n p Hnd Hlen) as (l' & ? & ? & Hl'). exists l'. split_and!; [done..|].
    intros q Hq. apply Hpages. destruct (Hl' q Hq). auto.
  - rewrite pmm_g_mem, st_mem_put. intros i r Hr Hav. destruct (Hreg i r Hr Hav) as (k & Hndk & Hlenk & Hk).
    destruct (Hone i r Hr Hav) as [x Hx]. destruct (NoDup_less k n x Hndk Hlenk) as (k' & ? & ? & Hk').
    exists k'. split_and!; [done..|]. intros y Hy. destruct (Hk' y Hy) as [Hyk Hyx]. destruct (Hk y Hyk) as [? Hf].
    split; [done|]. rewrite Hx, Hf by done. by apply negb_true_iff, Z.eqb_neq.
Qed.

(** *** [pmm_free] *)

(** The region [pmm_free] uses, for an address in an available region. *)
Lemma free_run s i r ptr k :
  pmm_wf s → region_at (pmm_g s) i r → available r = true →
  0 ≤ k < r_size_in_pages r →
  r_addr r + k * PAGE_SIZE_IN_BYTES ≤ ptr < r_addr r + (k + 1) * PAGE_SIZE_IN_BYTES →
  V2P (g_pmm_vma_stop (pmm_g s)) < ptr →
  pmm_free ptr s = bitmap_unset (r_bitmap r) k s.
Proof.
  intros Hwf Hr Hav Hk Hptr Hstop.
  assert (u64 (ptr - r_addr r) / PAGE_SIZE_IN_BYTES = k) as Hj.
  { destruct (pw_region _ Hwf _ _ Hr) as [? _ ? ? _]. unfold PAGE_SIZE_IN_BYTES in *.
    rewrite u64_small by lia. zlia. }
  unfold pmm_free, pmm_vma_stop, pmap_size.
  rewrite (bind_Done _ _ _ (g_pmm_vma_stop (pmm_g s)) s) by done.
  rewrite (proj2 (Z.leb_gt _ _) Hstop). rewrite (bind_Done _ _ _ (g_pmap_size (pmm_g s)) s) by done.
  assert (∀ n lo, Z.of_nat n = i - lo → 0 ≤ lo →
    for_ret lo (g_pmap_size (pmm_g s)) (λ i,
      r ← pmap_get i;
      if negb (available r) then mret None
      else if (region_stop r <=? ptr) || (ptr <? r_addr r) then mret None
      else
        let j := u64 (ptr - r_addr r) / PAGE_SIZE_IN_BYTES in
        bitmap_unset (r_bitmap r) j ;; mret (Some tt)) s
    = (bitmap_unset (r_bitmap r) k ;; mret (Some tt)) s) as Hfor.
  { pose proof (region_stop_eq _ _ (pw_region _ Hwf _ _ Hr)) as Hrs.
    destruct Hr as [Hi Hlook]. intros n. induction n as [|n IH]; intros lo Hn Hlo.
    - assert (lo = i) as -> by lia. rewrite for_ret_step by lia. unfold mbind at 1, M_bind.
      rewrite (bind_Done _ _ _ r s) by (by apply pmap_get_Done). rewrite Hav. simpl.
      replace ((region_stop r <=? ptr) || (ptr <? r_addr r)) with false.
      2: { symmetry. apply orb_false_iff. unfold PAGE_SIZE_IN_BYTES in *. split; [apply Z.leb_gt|apply Z.ltb_ge]; lia. }
      rewrite Hj. unfold mbind, M_bind. by destruct (bitmap_unset _ _ s) as [[[] s']|].
    - assert (∃ r0, region_at (pmm_g s) lo r0) as [r0 Hr0].
      { destruct (lookup_lt_is_Some_2 (g_pmap (pmm_g s)) (Z.to_nat lo)) as [r0 Hr0].
        - apply lookup_lt_Some in Hlook. lia.
        - exists r0. split; [lia|done]. }
      rewrite for_ret_step by lia. unfold mbind at 1, M_bind.
      rewrite (bind_Done _ _ _ r0 s) by (by apply pmap_get_Done).
      pose proof (region_stop_eq _ _ (pw_region _ Hwf _ _ Hr0)) as Hrs0.
      pose proof (pw_sorted _ Hwf lo i r0 r Hr0 ltac:(done) ltac:(lia)).
      destruct (available r0); simpl; [|apply IH; lia].
      replace (region_stop r0 <=? ptr) with true; [simpl; apply IH; lia|].
      symmetry. apply Z.leb_le. unfold PAGE_SIZE_IN_BYTES in *. lia. }
  destruct Hr as [Hi Hlook].
  unfold mbind at 1, M_bind. rewrite (Hfor (Z.to_nat i)) by lia.
  unfold mbind, M_bind. by destruct (bitmap_unset _ _ s) as [[[] s']|].
Qed.

(** No available region contains [ptr]. *)
Lemma free_unknown s ptr :
  pmm_wf s →
  (∀ i r, region_at (pmm_g s) i r → available r = true →
     ptr < r_addr r ∨ r_addr r + r_size_in_pages r * PAGE_SIZE_IN_BYTES ≤ ptr) →
  V2P (g_pmm_vma_stop (pmm_g s)) < ptr →
  pmm_free ptr s = Faulted (Panicked "pmm_free: bad page free").
Proof.
  intros Hwf Hout Hstop. unfold pmm_free, pmm_vma_stop, pmap_size.
  rewrite (bind_Done _ _ _ (g_pmm_vma_stop (pmm_g s)) s) by done.
  rewrite (proj2 (Z.leb_gt _ _) Hstop). rewrite (bind_Done _ _ _ (g_pmap_size (pmm_g s)) s) by done.
  rewrite (bind_Done _ _ _ None s); [done|].
  destruct (proj1 (wp_Done (for_ret 0 (g_pmap_size (pmm_g s)) (λ i,
      r ← pmap_get i;
      if negb (available r) then mret None
      else if (region_stop r <=? ptr) || (ptr <? r_addr r) then mret None
      else
        let j := u64 (ptr - r_addr r) / PAGE_SIZE_IN_BYTES in
        bitmap_unset (r_bitmap r) j ;; mret (Some tt))) s (λ r s', r = None ∧ s' = s)))
    as (? & ? & ? & -> & ->); [|done].
  pose proof (pw_size _ Hwf). pose proof (pw_len _ Hwf).
  apply wp_for_ret with (I := λ _ s', s' = s); [lia|done| |done].
  intros i s' Hi ->. destruct (lookup_lt_is_Some_2 (g_pmap (pmm_g s)) (Z.to_nat i)) as [r Hr]; [lia|].
  assert (region_at (pmm_g s) i r) as Hat by done.
  wp_step. apply (wp_pmap_get i r); [lia|done|].
  destruct (available r) eqn:Hav; simpl; [|by apply wp_ret].
  rewrite (region_stop_eq _ _ (pw_region _ Hwf _ _ Hat)).
  replace (_ || _) with true; [by apply wp_ret|].
  symmetry. apply orb_true_iff. rewrite Z.leb_le, Z.ltb_lt. destruct (Hout i r Hat Hav); lia.
Qed.

(** Regions other than [i] do not see a change inside the bitmap of region [i]. *)
Lemma other_bitmaps s i r k m' :
  pmm_wf s → region_at (pmm_g s) i r → available r = true → 0 ≤ k < r_size_in_pages r →
  only_in (block_addr (r_bitmap r) (k / 64)) (block_addr (r_bitmap r) (k / 64) + 8) (st_mem s) m' →
  ∀ j r' k', region_at (pmm_g s) j r' → j ≠ i → available r' = true → 0 ≤ k' < r_size_in_pages r' →
     is_free m' (r_bitmap r') k' = is_free (st_mem s) (r_bitmap r') k'.
Proof.
  intros Hwf Hr Hav Hk Hout j r' k' Hr' Hne Hav' Hk'.
  eapply is_free_frame; [exact Hout|by eapply page_size_len|].
  pose proof (pw_disjoint _ Hwf _ _ _ _ Hr Hr' ltac:(done) Hav Hav') as Hd.
  pose proof (block_in_bitmap (r_bitmap r) k (page_size_len _ _ _ _ Hwf Hr Hav Hk)).
  unfold bitmaps_disjoint in Hd. lia.
Qed.

Lemma free_low s ptr :
  ptr ≤ V2P (g_pmm_vma_stop (pmm_g s)) → ∃ msg, pmm_free ptr s = Faulted (Panicked msg).
Proof.
  intros Hle. eexists. unfold pmm_free, pmm_vma_stop.
  rewrite (bind_Done _ _ _ (g_pmm_vma_stop (pmm_g s)) s) by done.
  by rewrite (proj2 (Z.leb_le _ _) Hle).
Qed.

Lemma only_in_bitmaps s i r k m' :
  region_at (pmm_g s) i r → available r = true → 0 ≤ k < capacity (r_bitmap r) →
  only_in (block_addr (r_bitmap r) (k / 64)) (block_addr (r_bitmap r) (k / 64) + 8) (st_mem s) m' →
  bitmaps_only (pmm_g s) (st_mem s) m'.
Proof.
  intros Hr Hav Hk [Hout Hdom]. split; [exact Hdom|]. intros a Ha. apply Hout. intros Hin.
  apply (Ha i r Hr Hav). pose proof (block_in_bitmap (r_bitmap r) k Hk). lia.
Qed.

(** Freeing a page whose number is at least 33 modulo 64. *)
Lemma free_page s i r k p :
  pmm_wf s → region_at (pmm_g s) i r → available r = true → page_of r k p →
  V2P (g_pmm_vma_stop (pmm_g s)) < p → 33 ≤ k mod 64 →
  ∃ m', pmm_free p s = Done (tt, st_put m' s) ∧ bitmaps_only (pmm_g s) (st_mem s) m' ∧
    pmm_wf (st_put m' s) ∧ ∀ q, page_free (st_put m' s) q ↔ page_free s q ∨ q = p.
Proof.
  intros Hwf Hr Hav [Hk ->] Hstop H33.
  destruct (ro_bitmap _ _ (pw_region _ Hwf _ _ Hr) Hav) as (_ & Hbm & Hlen).
  destruct (unset_low (r_bitmap r) s k) as (m' & Hrun & Hout & Hfree); [done|lia|done|].
  exists m'. split_and!.
  - rewrite (free_run s i r _ k); try done. unfold PAGE_SIZE_IN_BYTES. lia.
  - eapply only_in_bitmaps; [done|done| |done]. by eapply page_size_len.
  - by eapply pmm_wf_mem.
  - intros q. rewrite (page_free_update s i r k m' true) by
      (first [done|by eapply other_bitmaps|intros k' _; rewrite Hfree; destruct (k' =? k);
         by rewrite ?orb_true_r, ?orb_false_r]).
    case_decide; naive_solver.
Qed.

(** Freeing a page whose number is 32 modulo 64 frees the 32 pages before it as well. *)
Lemma free_page_32 s i r k p :
  pmm_wf s → region_at (pmm_g s) i r → available r = true → page_of r k p →
  V2P (g_pmm_vma_stop (pmm_g s)) < p → k mod 64 = 32 →
  ∃ m', pmm_free p s = Done (tt, st_put m' s) ∧
    ∀ j q, k - 32 ≤ j ≤ k → page_of r j q → page_free (st_put m' s) q.
Proof.
  intros Hwf Hr Hav [Hk ->] Hstop H32.
  destruct (ro_bitmap _ _ (pw_region _ Hwf _ _ Hr) Hav) as (_ & Hbm & Hlen).
  destruct (unset_32 (r_bitmap r) s k) as (m' & Hrun & _ & Hfree); [done|lia|done|].
  exists m'. split.
  - rewrite (free_run s i r _ k); try done. unfold PAGE_SIZE_IN_BYTES. lia.
  - intros j q Hj Hq. exists i, r, j. rewrite pmm_g_mem, st_mem_put. split_and!; [done..|].
    rewrite Hfree. rewrite (proj2 (Z.leb_le _ _)), (proj2 (Z.leb_le _ _)) by lia. apply orb_true_r.
Qed.

(** *** [pmm_next_phys_page] *)
(** The first page after [addr] in the first region that ends beyond it; the
    address 1, which no page has, when there is none. *)
Definition next_phys_post (s : S) (addr : Z) (res : pmm_phys_addr) : Prop :=
  (pa_pa res = 1 ∧ ∀ i r, region_at (pmm_g s) i r → region_stop r ≤ addr + PAGE_SIZE_IN_BYTES) ∨
  (∃ i r, region_at (pmm_g s) i r ∧ addr + PAGE_SIZE_IN_BYTES < region_stop r ∧
     pa_type res = r_type r ∧ pa_pa res = Z.max (addr + PAGE_SIZE_IN_BYTES) (r_addr r) ∧
     ∀ j r', region_at (pmm_g s) j r' → j < i → region_stop r' ≤ addr + PAGE_SIZE_IN_BYTES).

Lemma next_phys_run s addr :
  pmm_wf s → 0 ≤ addr → addr + PAGE_SIZE_IN_BYTES < 2 ^ 64 →
  ∃ res, pmm_next_phys_page addr s = Done (res, s) ∧ next_phys_post s addr res.
Proof.
  intros Hwf Ha Hlt. pose proof (pw_size _ Hwf). pose proof (pw_len _ Hwf).
  destruct (proj1 (wp_Done (pmm_next_phys_page addr) s (λ res s', s' = s ∧ next_phys_post s addr res)))
    as (res & ? & Hrun & -> & HP); [|by exists res]. unfold next_phys_post.
  unfold pmm_next_phys_page, pmap_size. unfold PAGE_SIZE_IN_BYTES in *. rewrite u64_small by lia.
  wp_step. wp_step. wp_step.
  apply wp_for_ret with (I := λ i s', s' = s ∧
    ∀ j r', region_at (pmm_g s) j r' → j < i → region_stop r' ≤ addr + 4096).
  - lia.
  - split; [done|]. intros j r' [? _]. lia.
  - intros i s' Hi [-> Hbelow].
    destruct (lookup_lt_is_Some_2 (g_pmap (pmm_g s)) (Z.to_nat i)) as [r Hr]; [lia|].
    assert (region_at (pmm_g s) i r) as Hat by done.
    wp_step. apply (wp_pmap_get i r); [lia|done|].
    case_if; bool_facts; apply wp_ret.
    + split; [done|]. intros j r' Hr' Hj. destruct (decide (j = i)) as [->|].
      * by rewrite (region_at_fun _ _ _ _ Hr' Hat).
      * apply (Hbelow j); [done|lia].
    + apply wp_ret. split; [done|]. right. exists i, r. simpl.
      destruct (pw_region _ Hwf _ _ Hat) as [? _ ? Hs _]. unfold PAGE_SIZE_IN_BYTES in Hs.
      split_and!; try done. apply MAX_u64; lia.
  - intros s' [-> Hbelow]. apply wp_ret. split; [done|]. left. split; [done|].
    intros i r Hr. apply (Hbelow i); [done|]. apply Hr.
Qed.
End lemmas.

(** *** [pmap_sort] *)
Section sort.
Context {S : Type} {MS : MemState S} {PS : PmmState S}.
Implicit Types s : S.

(** The state with table [u] in use, and [rest] after it. *)
Definition with_table (s : S) (u rest : list pmm_region) : S :=
  pmm_put (mk_pmm (u ++ rest) (Z.of_nat (length u)) (g_pmm_vma_stop (pmm_g s))) s.

Lemma with_table_g s u rest :
  pmm_g (with_table s u rest) = mk_pmm (u ++ rest) (Z.of_nat (length u)) (g_pmm_vma_stop (pmm_g s)).
Proof. apply pmm_g_put. Qed.

Lemma wp_table_get s u rest i r (Q : pmm_region → S → Prop) :
  0 ≤ i → u !! Z.to_nat i = Some r → Q r (with_table s u rest) →
  wp (pmap_get i) (with_table s u rest) Q.
Proof.
  intros Hi Hr HQ. apply wp_pmap_get with r; [done| |done].
  rewrite with_table_g. simpl. by rewrite lookup_app_l by (by eapply lookup_lt_Some).
Qed.

Lemma wp_table_set s u rest i r (Q : unit → S → Prop) :
  0 ≤ i < Z.of_nat (length u) → Q tt (with_table s (<[Z.to_nat i := r]> u) rest) →
  wp (pmap_set i r) (with_table s u rest) Q.
Proof.
  intros Hi HQ. destruct (lookup_lt_is_Some_2 u (Z.to_nat i)) as [old Hold]; [lia|].
  unfold pmap_set. wp_step. eapply wp_table_get; [lia|done|]. wp_steps.
  rewrite with_table_g. simpl. unfold with_table. rewrite pmm_put_put.
  rewrite insert_app_l by lia. unfold with_table in HQ. by rewrite length_insert in HQ.
Qed.

(** The minimum of the unsorted part. *)
Lemma min_index s u rest start :
  0 ≤ start < Z.of_nat (length u) →
  wp (for_acc (start + 1) (Z.of_nat (length u)) (λ j min,
        a ← pmap_get min;
        b ← pmap_get j;
        mret (if r_addr b <? r_addr a then j else min)) start) (with_table s u rest)
     (λ m s', s' = with_table s u rest ∧ start ≤ m < Z.of_nat (length u) ∧
        ∀ j a b, u !! Z.to_nat m = Some a → u !! Z.to_nat j = Some b →
          start ≤ j → r_addr a ≤ r_addr b).
Proof.
  intros Hstart.
  apply wp_for_acc with (I := λ k m s', s' = with_table s u rest ∧ start ≤ m < k ∧
        ∀ j a b, u !! Z.to_nat m = Some a → u !! Z.to_nat j = Some b →
          start ≤ j < k → r_addr a ≤ r_addr b).
  - lia.
  - split_and!; [done|lia|lia|]. intros j a b Ha Hb Hj. assert (j = start) as -> by lia.
    simplify_eq. lia.
  - intros k m s' Hk (-> & Hm & Hmin).
    destruct (lookup_lt_is_Some_2 u (Z.to_nat m)) as [a Ha]; [lia|].
    destruct (lookup_lt_is_Some_2 u (Z.to_nat k)) as [b Hb]; [lia|].
    wp_step. eapply wp_table_get; [lia|done|]. wp_step. eapply wp_table_get; [lia|done|].
    apply wp_ret. split; [done|]. case_if; bool_facts; (split; [lia|]); intros j a' b' Ha' Hb' Hj.
    + simplify_eq. destruct (decide (j = k)) as [->|]; [simplify_eq; lia|].
      pose proof (Hmin j a b' Ha Hb'). lia.
    + simplify_eq. destruct (decide (j = k)) as [->|]; [simplify_eq; lia|].
      apply (Hmin j a b' Ha Hb'). lia.
  - intros m s' (-> & Hm & Hmin). split_and!; [done|lia|lia|]. intros j a b Ha Hb Hj.
    apply (Hmin j a b Ha Hb). apply lookup_lt_Some in Hb. lia.
Qed.

Definition sorted_upto (u : list pmm_region) (n : Z) : Prop :=
  ∀ i j a b, u !! i = Some a → u !! j = Some b → Z.of_nat i < n → (i < j)%nat →
    r_addr a ≤ r_addr b.

Lemma sort_step u start m a b :
  0 ≤ start ≤ m → u !! Z.to_nat start = Some a → u !! Z.to_nat m = Some b →
  sorted_upto u start →
  (∀ j c, u !! Z.to_nat j = Some c → start ≤ j → r_addr b ≤ r_addr c) →
  sorted_upto (<[Z.to_nat m := a]> (<[Z.to_nat start := b]> u)) (start + 1).
Proof.
  intros Hsm Ha Hb Hsort Hmin i j c d Hc Hd Hi Hij.
  pose proof (lookup_lt_Some _ _ _ Ha). pose proof (lookup_lt_Some _ _ _ Hb).
  assert (∀ k e, <[Z.to_nat m := a]> (<[Z.to_nat start := b]> u) !! k = Some e →
    (Z.of_nat k < start → u !! k = Some e) ∧
    (start ≤ Z.of_nat k → ∃ k', start ≤ Z.of_nat k' ∧ u !! k' = Some e) ∧
    (Z.of_nat k = start → e = b)) as Hlook.
  { intros k e He. destruct (decide (k = Z.to_nat m)) as [->|Hkm].
    - rewrite list_lookup_insert_eq in He by (rewrite length_insert; lia). injection He as <-.
      split_and!; [lia|intros _; exists (Z.to_nat start); split; [lia|done]|].
      intros Heq. assert (m = start) as -> by lia. congruence.
    - rewrite list_lookup_insert_ne in He by done. destruct (decide (k = Z.to_nat start)) as [->|Hks].
      + rewrite list_lookup_insert_eq in He by lia. injection He as <-.
        split_and!; [lia|intros _; exists (Z.to_nat m); split; [lia|done]|done].
      + rewrite list_lookup_insert_ne in He by done. split_and!; [done|by eauto|lia]. }
  destruct (Hlook i c Hc) as (Hi1 & _ & Hi3). destruct (Hlook j d Hd) as (Hj1 & Hj2 & _).
  destruct (decide (Z.of_nat i = start)) as [Heq|].
  - rewrite (Hi3 Heq). destruct Hj2 as (j' & Hj' & Hd'); [lia|].
    apply (Hmin (Z.of_nat j')); [by rewrite Nat2Z.id|done].
  - assert (Z.of_nat i < start) as Hlt by lia. destruct (decide (Z.of_nat j < start)).
    + apply (Hsort i j); auto.
    + destruct Hj2 as (j' & Hj' & Hd'); [lia|]. apply (Hsort i j'); auto; lia.
Qed.

Lemma sort_run s u rest :
  ∃ u', pmap_sort (with_table s u rest) = Done (tt, with_table s u' rest) ∧
    u' ≡ₚ u ∧ sorted_upto u' (Z.of_nat (length u')).
Proof.
  destruct (proj1 (wp_Done pmap_sort (with_table s u rest) (λ _ s', ∃ u', s' = with_table s u' rest ∧
    u' ≡ₚ u ∧ sorted_upto u' (Z.of_nat (length u'))))) as ([] & ? & ? & u' & -> & ?); [|by exists u'].
  unfold pmap_sort, pmap_size. wp_step. wp_step. rewrite with_table_g. simpl.
  case_if; bool_facts.
  { apply wp_ret. exists u. split_and!; [done|done|]. destruct u; [|done]. by intros ????. }
  apply wp_for_up with (I := λ k s', ∃ u', s' = with_table s u' rest ∧ u' ≡ₚ u ∧ sorted_upto u' k).
  - lia.
  - exists u. split_and!; [done|done|]. intros ????. lia.
  - intros start s' Hstart (u' & -> & Hperm & Hsort).
    pose proof (Permutation_length Hperm) as Hlen.
    rewrite <- Hlen in *. wp_step. eapply wp_mono; [by apply min_index; lia|].
    intros m s' (-> & Hm & Hmin).
    destruct (lookup_lt_is_Some_2 u' (Z.to_nat start)) as [a Ha]; [lia|].
    destruct (lookup_lt_is_Some_2 u' (Z.to_nat m)) as [b Hb]; [lia|].
    wp_step. eapply wp_table_get; [lia|done|]. wp_step. eapply wp_table_get; [lia|done|].
    wp_step. apply wp_table_set; [lia|]. apply wp_table_set; [rewrite length_insert; lia|].
    eexists. split_and!; [done| |].
    + etrans; [|exact Hperm]. by apply Permutation_insert_swap.
    + apply sort_step; [lia|done|done|done|]. intros j c Hc Hj. by apply (Hmin j).
  - intros s' (u' & -> & Hperm & Hsort). exists u'. split_and!; [done|done|].
    pose proof (Permutation_length Hperm) as Hlen.
    intros i j a b Ha Hb Hi Hij. apply (Hsort i j a b Ha Hb); [|done].
    apply lookup_lt_Some in Hb. lia.
Qed.
End sort.

(** *** [pmap_insert] *)
Section insert.
Context {S : Type} {MS : MemState S} {PS : PmmState S} (kernel_vma_stop : Z).
Implicit Types s : S.

(** An entry as a boot loader gives it: not empty, below the last page. *)
Definition entry_ok (e : multiboot_mmap_entry) : Prop :=
  0 ≤ V2P kernel_vma_stop < 2 ^ 63 ∧ 0 ≤ e_addr e ∧ 0 < e_len e ∧
  e_addr e + e_len e + PAGE_SIZE_IN_BYTES ≤ 2 ^ 64.

(** Where the part of the entry above the kernel starts. *)
Definition entry_start (e : multiboot_mmap_entry) : Z :=
  match insert_type e with
  | PMM_REGION_AVAILABLE => Z.max (V2P kernel_vma_stop) (e_addr e)
  | PMM_REGION_RESERVED => e_addr e
  end.

Definition page_floor (a : Z) : Z := a - a mod PAGE_SIZE_IN_BYTES.
Definition page_ceil (a : Z) : Z := a + (- a) mod PAGE_SIZE_IN_BYTES.

Lemma insert_addr_eq e : entry_ok e → insert_addr kernel_vma_stop e = page_floor (entry_start e).
Proof.
  intros (HV & Ha & Hl & Hs). unfold page_floor, insert_addr, entry_start, PAGE_SIZE_IN_BYTES in *.
  destruct (insert_type e).
  - rewrite MAX_u64 by lia. apply PAGE_ADDR_page. lia.
  - rewrite u64_small by lia. apply PAGE_ADDR_page. lia.
Qed.

(** The wrapped [len] cancels: the end does not depend on the start. *)
Lemma insert_stop_eq e : entry_ok e → insert_stop kernel_vma_stop e = page_ceil (e_addr e + e_len e).
Proof.
  intros (HV & Ha & Hl & Hs). unfold page_ceil, insert_stop, PAGE_SIZE_IN_BYTES in *.
  rewrite u64_sub_r, u64_add_r, u64_sub_l.
  replace (_ + (e_len e - (insert_addr kernel_vma_stop e - e_addr e)) - 1) with (e_addr e + e_len e - 1) by lia.
  rewrite u64_small by lia. change 4096 with (2 ^ 12) at 1. rewrite ROUNDUP_pow2 by lia.
  change (2 ^ 12) with 4096. zlia.
Qed.

(** The size of the range of an entry, also when the range is the wrong way round. *)
Lemma insert_range_size e (start := page_floor (entry_start e)) (stop := page_ceil (e_addr e + e_len e))
    (size := u64 (stop - start) / PAGE_SIZE_IN_BYTES) :
  entry_ok e →
  (start ≤ stop → start + size * PAGE_SIZE_IN_BYTES = stop) ∧
  (insert_type e = PMM_REGION_RESERVED → start ≤ stop) ∧
  (stop < start → 2 ^ 51 ≤ size).
Proof.
  intros (HV & Ha & Hl & Hs). assert (start mod 4096 = 0 ∧ stop mod 4096 = 0) as [Hsm Hsp].
  { subst start stop. unfold page_floor, page_ceil, PAGE_SIZE_IN_BYTES. split; zlia. }
  assert (0 ≤ start < 2 ^ 64 ∧ 0 ≤ stop < 2 ^ 64 ∧ start - stop ≤ 2 ^ 63) as (Hs1 & Hs2 & Hd).
  { subst start stop. unfold page_floor, page_ceil, entry_start, PAGE_SIZE_IN_BYTES in *. destruct (insert_type e); zlia. }
  split_and!; [intros Hle|intros Hr|intros Hlt].
  - unfold size. rewrite u64_small by lia. unfold PAGE_SIZE_IN_BYTES. zlia.
  - subst start stop. unfold entry_start in *. rewrite Hr. unfold page_floor, page_ceil, PAGE_SIZE_IN_BYTES. zlia.
  - unfold size, u64, PAGE_SIZE_IN_BYTES. replace ((stop - start) mod 2 ^ 64) with (stop - start + 2 ^ 64); [zlia|].
    rewrite <- (Z.mod_small (stop - start + 2 ^ 64) (2 ^ 64)) at 1 by lia. by rewrite <- (Z.mul_1_l (2 ^ 64)) at 1; rewrite Z_mod_plus_full.
Qed.
End insert.

(** *** [pmm_init] *)
Section init.
Context {CS : CSem} {S : Type} {MS : MemState S} {PS : PmmState S} (kernel_vma_stop : Z).
Implicit Types s : S.

(** The bitmaps of the available regions of [l], the first at [next] and each
    at the "first unused address" [bitmap_init] returned for the one before. *)
Fixpoint laid_out (next : Z) (l : list pmm_region) (stop : Z) : Prop :=
  match l with
  | [] => stop = next
  | r :: l =>
      if available r then
        r_bitmap r = mk_bitmap (r_size_in_pages r) (BITMAP_SIZE_IN_BLOCK (r_size_in_pages r)) next ∧
        laid_out (u64 (next + BITMAP_SIZE_IN_BLOCK (r_size_in_pages r))) l stop
      else laid_out next l stop
  end.

Lemma laid_out_app l l' next mid stop :
  laid_out next l mid → laid_out mid l' stop → laid_out next (l ++ l') stop.
Proof.
  revert next. induction l as [|r l IH]; simpl; intros next; [by intros ->|].
  destruct (available r); [intros [? ?]; eauto|eauto].
Qed.

Lemma keeps_g_memset dst src n : keeps same_pmm_g (memset dst src n).
Proof.
  unfold memset, wr8. keeps_auto.
Qed.

Lemma init_laid_out mmap s n s' :
  pmm_init kernel_vma_stop mmap s = Done (n, s') → 0 ≤ g_pmap_size (pmm_g s') →
  ∃ stop, laid_out kernel_vma_stop
            (take (Z.to_nat (g_pmap_size (pmm_g s'))) (g_pmap (pmm_g s'))) stop ∧
    g_pmm_vma_stop (pmm_g s') = ROUNDUP (u64 (stop - 1)) PAGE_SIZE_IN_BYTES.
Proof.
  unfold pmm_init. intros ([] & s1 & _ & Hrun)%bind_inv.
  apply bind_inv in Hrun as (size & s2 & [= <- <-] & Hrun).
  apply bind_inv in Hrun as ([stop av] & s2 & Hfor & Hrun).
  apply bind_inv in Hrun as ([] & s3 & Hset & Hrun).
  apply bind_inv in Hrun as (vs & s4 & [= <- <-] & Hrun).
  set (I := λ i (a : Z * Z) s, g_pmap_size (pmm_g s) = g_pmap_size (pmm_g s1) ∧
    laid_out kernel_vma_stop (take (Z.to_nat i) (g_pmap (pmm_g s))) a.1).
  assert (pmm_g s' = pmm_g s3) as ->.
  { symmetry. eapply (keeps_loop same_pmm_g); [|exact Hrun]. intros [pa av'].
    keeps_auto. apply keeps_g_alloc. }
  unfold set_pmm_vma_stop in Hset. apply bind_inv in Hset as (g & s4 & [= <- <-] & [= <-]).
  rewrite pmm_g_put. simpl. intros Hpos.
  exists stop. split; [|done].
  destruct (decide (0 ≤ g_pmap_size (pmm_g s1))) as [Hle|Hneg].
  2: { unfold for_acc in Hfor. replace (Z.to_nat _) with 0%nat in Hfor by lia.
       injection Hfor as ? ? ?. subst. lia. }
  assert (I (g_pmap_size (pmm_g s1)) (stop, av) s2) as [Hsz Hlaid].
  { refine (for_acc_inv I _ _ _ _ _ _ _ Hle _ _ Hfor); [by split|].
    intros i [next pages] sa [next' pages'] sb Hi [HIs HIl] Hbody.
    apply bind_inv in Hbody as (r & sc & Hget & Hbody).
    unfold pmap_get in Hget. apply bind_inv in Hget as (g & sd & [= <- <-] & Hget).
    destruct (0 <=? i) eqn:Hi0; [|done].
    destruct (g_pmap (pmm_g sa) !! Z.to_nat i) as [r0|] eqn:Hr0; [|done].
    injection Hget as <- <-.
    destruct (available r0) eqn:Hav; simpl in Hbody.
    - apply bind_inv in Hbody as ([bm nx] & sc & Hbm & Hbody).
      apply bind_inv in Hbody as ([] & sd & Hset & [= <- <- <-]).
      unfold bitmap_init in Hbm. simpl in Hbm.
      apply bind_inv in Hbm as (? & se & Hms & [= <- <- <-]).
      pose proof (keeps_g_memset _ _ _ _ _ _ Hms) as Hg. unfold same_pmm_g in Hg. clear Hms.
      unfold pmap_set in Hset. apply bind_inv in Hset as (? & sf & Hget & Hset).
      unfold pmap_get in Hget. apply bind_inv in Hget as (g & sg & [= <- <-] & Hget).
      rewrite <- Hg, Hi0, Hr0 in Hget. injection Hget as <- <-.
      apply bind_inv in Hset as (g & sg & [= <- <-] & [= <-]). rewrite <- Hg.
      unfold I. rewrite pmm_g_put. simpl. split; [done|].
      replace (Z.to_nat (i + 1)) with (Datatypes.S (Z.to_nat i)) by lia.
      pose proof (lookup_lt_Some _ _ _ Hr0).
      erewrite take_S_r; [|by apply list_lookup_insert_eq].
      rewrite take_insert_ge by lia.
      eapply laid_out_app; [exact HIl|]. simpl. unfold available in *. simpl. rewrite Hav. done.
    - injection Hbody as <- <- <-. split; [done|].
      replace (Z.to_nat (i + 1)) with (Datatypes.S (Z.to_nat i)) by lia.
      erewrite take_S_r; [|exact Hr0]. eapply laid_out_app; [exact HIl|]. simpl. by rewrite Hav. }
  rewrite Hsz. exact Hlaid.
Qed.
End init.

(** ** Properties *)
Section properties.
Context {CS : CSem} {S : Type} {MS : MemState S} {PS : PmmState S}.
Implicit Types s : S.

(** Once the bitmap of the first region is exhausted, [pmm_alloc] hands out
    the page numbered by the uninitialised [index] of [bitmap_find_and_set],
    whenever that is below the region's size: a page that is already taken. *)
Lemma alloc_exhausted s r v :
  pmm_wf s → region_at (pmm_g s) 0 r → available r = true →
  (∀ k, 0 ≤ k < capacity (r_bitmap r) → is_free (st_mem s) (r_bitmap r) k = false) →
  uninit_u64 = Done v → 0 ≤ v < r_size_in_pages r →
  pmm_alloc s = Done (r_addr r + v * PAGE_SIZE_IN_BYTES, s) ∧
  ¬ page_free s (r_addr r + v * PAGE_SIZE_IN_BYTES).
Proof.
  intros Hwf Hr Hav Hnone Hv Hlt.
  destruct (pw_region _ Hwf _ _ Hr) as [Ha _ Hsz Hstop Hbm].
  destruct (Hbm Hav) as (_ & Hbwf & Hlen). unfold PAGE_SIZE_IN_BYTES in *. split.
  - unfold pmm_alloc, pmap_size. pose proof Hr as [Hi _].
    rewrite (bind_Done _ _ _ (g_pmap_size (pmm_g s)) s) by done.
    rewrite for_ret_step by lia. unfold mbind at 1, M_bind.
    unfold mbind at 1, M_bind. rewrite (bind_Done _ _ _ r s) by (by apply pmap_get_Done).
    rewrite Hav. simpl. unfold mbind at 1, M_bind. rewrite find_and_set_empty, Hv by done.
    rewrite MIN_u64, Hlen, Z.min_l by lia. rewrite (proj2 (Z.eqb_neq _ _)) by lia.
    unfold mret, M_ret. unfold PAGE_SIZE_IN_BYTES. simpl.
    rewrite (u64_small (v * 4096)), u64_small by lia. done.
  - intros (j & r' & k & Hr' & Hav' & Hk & Hf).
    assert (page_of r v (r_addr r + v * 4096)) as Hpv by done.
    assert (j = 0) as -> by (by eapply page_of_region).
    rewrite (region_at_fun _ _ _ _ Hr' Hr) in *.
    rewrite Hnone in Hf; [done|]. eapply page_size_len; [exact Hwf|done|done|apply Hk].
Qed.

(** C17: while every bitmap keeps a set bit, one after its last page perhaps, [pmm_alloc]
    returns the lowest free page of the machine and takes exactly it, or [NULL] when no
    page is free; the table stays well formed.  Once the bitmap of the first region is
    exhausted, it hands out the page numbered by the uninitialised [index] of
    [bitmap_find_and_set], whenever that is below the region's size: a page that is
    already taken. *)
Theorem pmm_alloc_lowest s :
  pmm_wf s →
  (not_exhausted s →
   ∃ p s', pmm_alloc s = Done (p, s') ∧ pmm_wf s' ∧
     ((p = NULL ∧ ∀ q, ¬ page_free s q ∧ ¬ page_free s' q) ∨
      (p ≠ NULL ∧ page_free s p ∧ (∀ q, page_free s q → p ≤ q) ∧
       ∀ q, page_free s' q ↔ page_free s q ∧ q ≠ p))) ∧
  (∀ r v, region_at (pmm_g s) 0 r → available r = true →
   (∀ k, 0 ≤ k < capacity (r_bitmap r) → is_free (st_mem s) (r_bitmap r) k = false) →
   uninit_u64 = Done v → 0 ≤ v < r_size_in_pages r →
   pmm_alloc s = Done (r_addr r + v * PAGE_SIZE_IN_BYTES, s) ∧
   ¬ page_free s (r_addr r + v * PAGE_SIZE_IN_BYTES)).
Proof.
  intros Hwf. split; [intros Hne|intros r v; by apply alloc_exhausted].
  destruct (alloc_run s Hwf Hne) as (p & s' & Hrun & _ & Hwf' & Hpost). eauto.
Qed.

(** Freeing a page whose number in its region is at least 33 modulo 64
    makes exactly that page free. *)
Theorem pmm_free_frees_page s i r k p :
  pmm_wf s → region_at (pmm_g s) i r → available r = true → page_of r k p →
  V2P (g_pmm_vma_stop (pmm_g s)) < p → 33 ≤ k mod 64 →
  ∃ s', pmm_free p s = Done (tt, s') ∧ pmm_wf s' ∧
    ∀ q, page_free s' q ↔ page_free s q ∨ q = p.
Proof.
  intros Hwf Hr Hav Hp Hstop H33.
  destruct (free_page s i r k p) as (m' & Hrun & _ & Hwf' & Hfree); [done..|].
  by exists (st_put m' s).
Qed.

(** [pmm_free] panics on every page up to and including the one at
    [V2P(pmm_vma_stop)] (the first that [pmm_init] leaves to the allocator),
    and on every address outside the available regions. *)
Theorem pmm_free_rejects s p :
  pmm_wf s →
  p ≤ V2P (g_pmm_vma_stop (pmm_g s)) ∨
  (∀ i r, region_at (pmm_g s) i r → available r = true →
     p < r_addr r ∨ r_addr r + r_size_in_pages r * PAGE_SIZE_IN_BYTES ≤ p) →
  ∃ msg, pmm_free p s = Faulted (Panicked msg).
Proof.
  intros Hwf Hp. destruct (decide (p ≤ V2P (g_pmm_vma_stop (pmm_g s)))) as [Hle|Hgt].
  - by apply free_low.
  - destruct Hp as [|Hout]; [done|]. eexists. apply free_unknown; [done|done|lia].
Qed.

(** C30: [pmm_free] of an allocatable page makes exactly that page free when its
    number in its region is at least 33 modulo 64; it panics on every page up to
    and including the first allocatable one, and outside the available regions. *)
Theorem pmm_free_contract s p :
  pmm_wf s →
  (∀ i r k, region_at (pmm_g s) i r → available r = true → page_of r k p →
     V2P (g_pmm_vma_stop (pmm_g s)) < p → 33 ≤ k mod 64 →
     ∃ s', pmm_free p s = Done (tt, s') ∧ pmm_wf s' ∧ ∀ q, page_free s' q ↔ page_free s q ∨ q = p) ∧
  (p ≤ V2P (g_pmm_vma_stop (pmm_g s)) ∨
   (∀ i r, region_at (pmm_g s) i r → available r = true →
      p < r_addr r ∨ r_addr r + r_size_in_pages r * PAGE_SIZE_IN_BYTES ≤ p) →
   ∃ msg, pmm_free p s = Faulted (Panicked msg)).
Proof. intros Hwf. split; [intros i r k; by apply pmm_free_frees_page|by apply pmm_free_rejects]. Qed.

(** C28: [pmap_sort] is a sort of the part of the table in use, by address. *)
Theorem pmap_sort_sorts s u rest :
  ∃ u', pmap_sort (with_table s u rest) = Done (tt, with_table s u' rest) ∧
    u' ≡ₚ u ∧
    ∀ i j a b, u' !! i = Some a → u' !! j = Some b → (i < j)%nat → r_addr a ≤ r_addr b.
Proof.
  destruct (sort_run s u rest) as (u' & Hrun & Hperm & Hsort). exists u'. split_and!; [done|done|].
  intros i j a b Ha Hb Hij. apply (Hsort i j a b Ha Hb); [|done].
  apply lookup_lt_Some in Ha. lia.
Qed.

(** C29: [pmap_insert] writes the region from the page of the entry's start (the kernel's
    end if that is higher and the entry available) with the size up to the end of its last
    page, or panics exactly when an earlier region overlaps that range.  The size is that of
    the range when the range is not empty the wrong way round; for an available entry that
    ends a page or more below the kernel's end it wraps to more than [2^51] pages. *)
Theorem pmap_insert_region kernel_vma_stop s u rest entry e old :
  read_entry entry (with_table s (u ++ [old]) rest) = Done (e, with_table s (u ++ [old]) rest) →
  entry_ok kernel_vma_stop e →
  let start := page_floor (entry_start kernel_vma_stop e) in
  let stop := page_ceil (e_addr e + e_len e) in
  let size := u64 (stop - start) / PAGE_SIZE_IN_BYTES in
  let r := mk_region start size (insert_type e) (r_bitmap old) in
  pmap_insert kernel_vma_stop entry (Z.of_nat (length u)) (with_table s (u ++ [old]) rest) =
    (if forallb (λ r', (region_stop r' <=? start) || (stop <=? r_addr r')) u
     then Done (tt, with_table s (u ++ [r]) rest)
     else Faulted (Panicked "pmap_insert: physical memory overlap")) ∧
  (start ≤ stop → start + size * PAGE_SIZE_IN_BYTES = stop) ∧
  (insert_type e = PMM_REGION_RESERVED → start ≤ stop) ∧
  (stop < start → 2 ^ 51 ≤ size).
Proof.
  intros Hread Hok start stop size r. pose proof Hok as (HV & Ha & Hl & Hs).
  pose proof (insert_addr_eq _ _ Hok) as Haddr. pose proof (insert_stop_eq _ _ Hok) as Hst.
  fold start in Haddr. fold stop in Hst.
  assert (insert_size kernel_vma_stop e = size) as Hsize by (unfold insert_size; by rewrite Haddr, Hst).
  split.
  2: { by apply insert_range_size. }
  unfold pmap_insert. rewrite (bind_Done _ _ _ _ _ Hread). rewrite Hsize, Haddr, Hst.
  assert ((u ++ [old]) !! length u = Some old) as Hold by (by rewrite list_lookup_middle).
  assert ((pmap_get (Z.of_nat (length u))) (with_table s (u ++ [old]) rest) = Done (old, with_table s (u ++ [old]) rest)) as Hget.
  { destruct (proj1 (wp_Done (pmap_get (Z.of_nat (length u))) (with_table s (u ++ [old]) rest)
      (λ r' s', r' = old ∧ s' = with_table s (u ++ [old]) rest))) as (? & ? & ? & -> & ->); [|done].
    eapply wp_table_get; [lia|by rewrite Nat2Z.id|done]. }
  rewrite (bind_Done _ _ _ _ _ Hget).
  rewrite (bind_Done _ _ _ tt (with_table s (u ++ [r]) rest)).
  2: { destruct (proj1 (wp_Done (pmap_set (Z.of_nat (length u)) r) (with_table s (u ++ [old]) rest)
         (λ _ s', s' = with_table s (u ++ [r]) rest))) as ([] & ? & ? & ->); [|done].
       apply wp_table_set; [rewrite length_app; simpl; lia|].
       rewrite Nat2Z.id. rewrite insert_app_r_alt by lia. by rewrite Nat.sub_diag. }
  erewrite (for_up_guard (λ i, match u !! Z.to_nat i with
    | Some r' => (region_stop r' <=? start) || (stop <=? r_addr r') | None => true end)).
  2: { intros i Hi. destruct (lookup_lt_is_Some_2 u (Z.to_nat i)) as [r' Hr']; [lia|].
    rewrite (bind_Done _ _ _ r' (with_table s (u ++ [r]) rest)).
    - rewrite Hr'. by destruct (_ || _).
    - destruct (proj1 (wp_Done (pmap_get i) (with_table s (u ++ [r]) rest)
        (λ r0 s', r0 = r' ∧ s' = with_table s (u ++ [r]) rest))) as (? & ? & ? & -> & ->); [|done].
      eapply wp_table_get; [lia|by rewrite lookup_app_l by lia|done]. }
  replace (forallb _ (seqZ _ _)) with (forallb (λ r', (region_stop r' <=? start) || (stop <=? r_addr r')) u);
    [done|].
  apply eq_true_iff_eq. rewrite !forallb_forall. split.
  - intros Hall i Hi. destruct (u !! Z.to_nat i) eqn:Hr'; [|done].
    apply Hall, list_elem_of_In. by eapply list_elem_of_lookup_2.
  - intros Hall r' Hr'. apply list_elem_of_In, list_elem_of_lookup in Hr' as [i Hi].
    specialize (Hall (Z.of_nat i)). rewrite Nat2Z.id, Hi in Hall. apply Hall.
    apply list_elem_of_In, elem_of_seqZ. apply lookup_lt_Some in Hi. lia.
Qed.

(** An available entry that ends a page or more below the end of the
    kernel gets a size of more than [2^51] pages: the subtraction wraps. *)
Theorem pmap_insert_below_kernel_wraps kernel_vma_stop e :
  entry_ok kernel_vma_stop e → insert_type e = PMM_REGION_AVAILABLE →
  page_ceil (e_addr e + e_len e) < page_floor (V2P kernel_vma_stop) →
  2 ^ 51 ≤ insert_size kernel_vma_stop e.
Proof.
  intros Hok Hav Hlt. pose proof Hok as (HV & Ha & Hl & Hs).
  unfold insert_size. rewrite insert_addr_eq, insert_stop_eq by done.
  unfold entry_start. rewrite Hav. unfold page_floor, page_ceil, PAGE_SIZE_IN_BYTES in *.
  rewrite Z.max_l by zlia. unfold u64. zlia.
Qed.

(** [pmm_next_phys_page] finds the first page after [addr] that is in the
    table, and its type; 1, never a page, says there is none. *)
Theorem pmm_next_phys_page_least s addr :
  pmm_wf s → 0 ≤ addr → addr + PAGE_SIZE_IN_BYTES < 2 ^ 64 → addr mod PAGE_SIZE_IN_BYTES = 0 →
  ∃ res, pmm_next_phys_page addr s = Done (res, s) ∧
    (pa_pa res ≠ 1 → ∃ i r k, region_at (pmm_g s) i r ∧ page_of r k (pa_pa res) ∧ pa_type res = r_type r) ∧
    (∀ i r k q, region_at (pmm_g s) i r → page_of r k q → addr < q →
       pa_pa res ≠ 1 ∧ pa_pa res ≤ q).
Proof.
  intros Hwf Ha Hlt Hal. destruct (next_phys_run s addr Hwf Ha Hlt) as (res & Hrun & Hpost).
  assert (∀ i r, region_at (pmm_g s) i r → region_ok (st_mem s) r) as Hok by apply Hwf.
  exists res. split_and!; [done|..]; unfold next_phys_post, page_of, PAGE_SIZE_IN_BYTES in *.
  - intros Hne. destruct Hpost as [[]|(i & r & Hr & Hst & Hty & Hpa & _)]; [done|].
    rewrite (region_stop_eq _ _ (Hok _ _ Hr)) in Hst. destruct (Hok _ _ Hr) as [? Hr4 ? _ _].
    exists i, r, ((pa_pa res - r_addr r) / 4096). unfold PAGE_SIZE_IN_BYTES in *. split_and!; try done; zlia.
  - intros i r k q Hr [Hk ->] Hq. destruct (Hok _ _ Hr) as [? Hr4 ? _ _].
    pose proof (region_stop_eq _ _ (Hok _ _ Hr)) as Hst. unfold PAGE_SIZE_IN_BYTES in *.
    destruct Hpost as [[_ Hall]|(j & r' & Hr' & Hst' & _ & Hpa & Hbelow)].
    { specialize (Hall _ _ Hr). zlia. }
    rewrite (region_stop_eq _ _ (Hok _ _ Hr')) in Hst'. destruct (Hok _ _ Hr') as [? Hr4' ? _ _].
    unfold PAGE_SIZE_IN_BYTES in *. split; [lia|]. rewrite Hpa.
    destruct (Z.lt_trichotomy i j) as [Hij|[->|Hij]].
    + specialize (Hbelow _ _ Hr Hij). zlia.
    + rewrite (region_at_fun _ _ _ _ Hr' Hr) in *. zlia.
    + pose proof (pw_sorted _ Hwf _ _ _ _ Hr' Hr Hij). unfold PAGE_SIZE_IN_BYTES in *. zlia.
Qed.

(** [pmm_init] places the bitmaps of two consecutive available regions so
    that they overlap, since [bitmap_init] returns an address only
    [size_in_block] bytes further: the table it leaves is not well formed. *)
Theorem pmm_init_bitmaps_overlap kernel_vma_stop mmap s n s' r r' :
  pmm_init kernel_vma_stop mmap s = Done (n, s') →
  region_at (pmm_g s') 0 r → region_at (pmm_g s') 1 r' →
  available r = true → available r' = true →
  0 ≤ r_size_in_pages r < 2 ^ 52 → 0 ≤ r_size_in_pages r' →
  0 ≤ kernel_vma_stop → kernel_vma_stop + BITMAP_SIZE_IN_BLOCK (r_size_in_pages r) < 2 ^ 64 →
  bm_bitmap (r_bitmap r) = kernel_vma_stop ∧
  bm_bitmap (r_bitmap r') = kernel_vma_stop + bm_size_in_block (r_bitmap r) ∧
  ¬ bitmaps_disjoint (r_bitmap r) (r_bitmap r') ∧ ¬ pmm_wf s'.
Proof.
  intros Hrun Hr Hr' Hav Hav' Hsz Hsz' Hkv Hkv'.
  pose proof Hr as [[_ H0] Hl]. pose proof Hr' as [[_ H1] Hl'].
  destruct (init_laid_out _ _ _ _ _ Hrun) as (stop & Hlaid & _); [lia|].
  destruct (g_pmap (pmm_g s')) as [|r0 [|r1 l]]; [done|done|]. simpl in Hl, Hl'. simplify_eq.
  replace (Z.to_nat (g_pmap_size (pmm_g s'))) with
    (Datatypes.S (Datatypes.S (Z.to_nat (g_pmap_size (pmm_g s')) - 2))) in Hlaid by lia.
  simpl in Hlaid. rewrite Hav, Hav' in Hlaid. destruct Hlaid as (Hb & Hb' & _).
  assert (0 < BITMAP_SIZE_IN_BLOCK (r_size_in_pages r) ≤ 2 ^ 46) as HB
    by (unfold BITMAP_SIZE_IN_BLOCK; zlia).
  assert (0 < BITMAP_SIZE_IN_BLOCK (r_size_in_pages r')) by (unfold BITMAP_SIZE_IN_BLOCK; zlia).
  rewrite u64_small in Hb' by lia.
  assert (¬ bitmaps_disjoint (r_bitmap r) (r_bitmap r')) as Hnd.
  { unfold bitmaps_disjoint. rewrite Hb, Hb'. simpl. lia. }
  split_and!; [by rewrite Hb|by rewrite Hb, Hb'|done|].
  intros Hwf. apply Hnd. by eapply (pw_disjoint _ Hwf 0 1).
Qed.
End properties.

(** ** Witnesses *)

(** Two available regions around a reserved one; the bitmaps are at 0x1000. *)
Definition ex_r0 : pmm_region :=
  mk_region 0x300000 40 PMM_REGION_AVAILABLE (mk_bitmap 40 1 0x1000).
Definition ex_r1 : pmm_region := mk_region 0x400000 2 PMM_REGION_RESERVED (mk_bitmap 0 0 0).
Definition ex_r2 : pmm_region :=
  mk_region 0x500000 3 PMM_REGION_AVAILABLE (mk_bitmap 3 1 0x1008).
Definition ex_pmap : list pmm_region := [ex_r0; ex_r1; ex_r2].
Definition ex_rest : list pmm_region := replicate 7 zero_region.
Definition ex_globals : pmm_globals := mk_pmm (ex_pmap ++ ex_rest) 3 0xffffffff80302000.
(** Pages 0 to 35 of the first region and 0 of the last are taken. *)
Definition ex_pmm_mem : mem :=
  write_le 8 (write_le 8 (zero_mem 0x1000 16) 0x1000 (Z.ones 28)) 0x1008 (Z.ones 63).
Definition ex_pmm : pmm_state := mk_pmm_state ex_pmm_mem ex_globals.
(** The same with the first bitmap exhausted. *)
Definition ex_pmm_full : pmm_state :=
  mk_pmm_state (write_le 8 ex_pmm_mem 0x1000 0) ex_globals.

Lemma ex_region_at i r :
  region_at ex_globals i r → (i = 0 ∧ r = ex_r0) ∨ (i = 1 ∧ r = ex_r1) ∨ (i = 2 ∧ r = ex_r2).
Proof.
  intros [Hi Hr]. simpl in Hi. assert (i = 0 ∨ i = 1 ∨ i = 2) as [->|[->| ->]] by lia;
    simpl in Hr; simplify_eq; auto.
Qed.

Lemma ex_wf m : mappedb m 0x1000 16 = true → pmm_wf (mk_pmm_state m ex_globals).
Proof.
  intros Hm%mappedb_mapped. split; simpl.
  - done.
  - done.
  - intros i r [[-> ->]|[[-> ->]|[-> ->]]]%ex_region_at; split; try done; intros _;
      (split; [done|split; [|done]]); split; try done; (eapply mapped_sub; [exact Hm|done|done]).
  - intros i j r r' [[-> ->]|[[-> ->]|[-> ->]]]%ex_region_at
      [[-> ->]|[[-> ->]|[-> ->]]]%ex_region_at; done.
  - intros i j r r' [[-> ->]|[[-> ->]|[-> ->]]]%ex_region_at
      [[-> ->]|[[-> ->]|[-> ->]]]%ex_region_at; try done; intros _ _ _; [left|right]; done.
Qed.

Lemma ex_pmm_wf : pmm_wf ex_pmm.
Proof. by apply ex_wf. Qed.
Lemma ex_pmm_full_wf : pmm_wf ex_pmm_full.
Proof. by apply ex_wf. Qed.

Lemma ex_not_exhausted : not_exhausted ex_pmm.
Proof.
  intros i r [[-> ->]|[[-> ->]|[-> ->]]]%ex_region_at; [|done|]; intros _; [exists 36|exists 1]; done.
Qed.

Lemma pmm_alloc_lowest_witness :
  (∃ s', pmm_alloc (CS := strict_c) ex_pmm = Done (0x300000 + 36 * 4096, s')) ∧
  (∃ p s', pmm_alloc (CS := strict_c) ex_pmm = Done (p, s') ∧ pmm_wf s' ∧
    ((p = NULL ∧ ∀ q, ¬ page_free ex_pmm q ∧ ¬ page_free s' q) ∨
     (p ≠ NULL ∧ page_free ex_pmm p ∧ (∀ q, page_free ex_pmm q → p ≤ q) ∧
      ∀ q, page_free s' q ↔ page_free ex_pmm q ∧ q ≠ p))) ∧
  pmm_alloc (CS := x86_O0 5) ex_pmm_full = Done (0x300000 + 5 * PAGE_SIZE_IN_BYTES, ex_pmm_full) ∧
  ¬ page_free ex_pmm_full (0x300000 + 5 * PAGE_SIZE_IN_BYTES).
Proof.
  split; [eexists; vm_compute; reflexivity|]. split.
  - by apply (proj1 (pmm_alloc_lowest (CS := strict_c) (MS := pmm_state_mem) ex_pmm ex_pmm_wf) ex_not_exhausted).
  - apply (proj2 (pmm_alloc_lowest (CS := x86_O0 5) (MS := pmm_state_mem) ex_pmm_full ex_pmm_full_wf) ex_r0 5); try done.
    intros k Hk. apply negb_true_iff.
    by apply (range_forall (λ k, negb (is_free (ps_mem ex_pmm_full) (r_bitmap ex_r0) k)) 0 64).
Defined.


Lemma pmm_free_frees_page_witness :
  ∃ s', pmm_free (CS := strict_c) (0x300000 + 35 * 4096) ex_pmm = Done (tt, s') ∧ pmm_wf s' ∧
    ∀ q, page_free s' q ↔ page_free ex_pmm q ∨ q = 0x300000 + 35 * 4096.
Proof.
  by apply (pmm_free_frees_page (CS := strict_c) (MS := pmm_state_mem) ex_pmm 0 ex_r0 35
    (0x300000 + 35 * 4096) ex_pmm_wf).
Defined.

Lemma pmm_free_rejects_witness :
  ∃ msg, pmm_free (CS := strict_c) 0x302000 ex_pmm = Faulted (Panicked msg).
Proof.
  apply (pmm_free_rejects (CS := strict_c) (MS := pmm_state_mem) ex_pmm 0x302000 ex_pmm_wf).
  left. vm_compute. discriminate.
Defined.

Lemma pmm_free_contract_witness :
  (∃ s', pmm_free (CS := strict_c) (0x300000 + 35 * 4096) ex_pmm = Done (tt, s') ∧ pmm_wf s' ∧
    ∀ q, page_free s' q ↔ page_free ex_pmm q ∨ q = 0x300000 + 35 * 4096) ∧
  ∃ msg, pmm_free (CS := strict_c) 0x302000 ex_pmm = Faulted (Panicked msg).
Proof.
  split.
  - by apply (pmm_free_contract (CS := strict_c) (MS := pmm_state_mem) ex_pmm (0x300000 + 35 * 4096) ex_pmm_wf) with 0 ex_r0 35.
  - apply (pmm_free_contract (CS := strict_c) (MS := pmm_state_mem) ex_pmm 0x302000 ex_pmm_wf).
    left. vm_compute. discriminate.
Defined.

(** A memory map entry at 0x2000: [addr], [len] and [type]. *)
Definition ex_entry_mem (addr len type : Z) : mem :=
  write_le 4 (write_le 8 (write_le 8 (zero_mem 0x2000 24) 0x2000 addr) 0x2008 len) 0x2010 type.

Lemma pmap_insert_region_witness :
  pmap_insert 0xffffffff80300800 0x2000 0
    (with_table (mk_pmm_state (ex_entry_mem 0x200000 0x200000 1) pmm_initial) [zero_region] [])
  = Done (tt, with_table (mk_pmm_state (ex_entry_mem 0x200000 0x200000 1) pmm_initial)
      [mk_region 0x300000 0x100 PMM_REGION_AVAILABLE (mk_bitmap 0 0 0)] []).
Proof.
  apply (pmap_insert_region (MS := pmm_state_mem) 0xffffffff80300800
    (mk_pmm_state (ex_entry_mem 0x200000 0x200000 1) pmm_initial) [] [] 0x2000
    (mk_entry 0x200000 0x200000 1) zero_region); [vm_compute; reflexivity|done].
Defined.

Lemma pmap_insert_below_kernel_wraps_witness :
  2 ^ 51 ≤ insert_size 0xffffffff80300000 (mk_entry 0x100000 0x50000 1).
Proof. by apply pmap_insert_below_kernel_wraps. Defined.

Lemma pmm_next_phys_page_least_witness :
  ∃ res, pmm_next_phys_page 0x327000 ex_pmm = Done (res, ex_pmm) ∧
    (pa_pa res ≠ 1 → ∃ i r k, region_at (pmm_g ex_pmm) i r ∧ page_of r k (pa_pa res) ∧ pa_type res = r_type r) ∧
    (∀ i r k q, region_at (pmm_g ex_pmm) i r → page_of r k q → 0x327000 < q →
       pa_pa res ≠ 1 ∧ pa_pa res ≤ q).
Proof. by apply (pmm_next_phys_page_least (MS := pmm_state_mem) ex_pmm 0x327000 ex_pmm_wf). Defined.

(** A memory map with two available entries, after a kernel ending at 3 MiB;
    the page after the kernel is mapped. *)
Definition ex_boot_mem : mem :=
  let m := zero_mem 0x2000 (16 + 48) ∪ zero_mem 0xffffffff80300000 64 in
  let m := write_le 4 (write_le 4 m 0x2004 (16 + 48)) 0x2008 24 in
  let m := write_le 4 (write_le 8 (write_le 8 m 0x2010 0x300000) 0x2018 0x64000) 0x2020 1 in
  write_le 4 (write_le 8 (write_le 8 m 0x2028 0x400000) 0x2030 0x10000) 0x2038 1.
Definition ex_boot : pmm_state := mk_pmm_state ex_boot_mem pmm_initial.
Definition ex_booted : pmm_state :=
  match pmm_init (CS := strict_c) 0xffffffff80300000 0x2000 ex_boot with
  | Done (_, s') => s'
  | Faulted _ => ex_boot
  end.
Definition ex_b0 : pmm_region :=
  mk_region 0x300000 100 PMM_REGION_AVAILABLE (mk_bitmap 100 2 0xffffffff80300000).
Definition ex_b1 : pmm_region :=
  mk_region 0x400000 16 PMM_REGION_AVAILABLE (mk_bitmap 16 1 0xffffffff80300002).

Lemma pmm_init_bitmaps_overlap_witness :
  pmm_init (CS := strict_c) 0xffffffff80300000 0x2000 ex_boot = Done (115, ex_booted) ∧
  bm_bitmap (r_bitmap ex_b0) = 0xffffffff80300000 ∧
  bm_bitmap (r_bitmap ex_b1) = 0xffffffff80300000 + bm_size_in_block (r_bitmap ex_b0) ∧
  ¬ bitmaps_disjoint (r_bitmap ex_b0) (r_bitmap ex_b1) ∧ ¬ pmm_wf ex_booted.
Proof.
  assert (pmm_init (CS := strict_c) 0xffffffff80300000 0x2000 ex_boot = Done (115, ex_booted)) as Hrun
    by (vm_compute; reflexivity).
  split; [exact Hrun|].
  assert (region_at (pmm_g ex_booted) 0 ex_b0) as H0 by (vm_compute; split; [split; [discriminate|reflexivity]|reflexivity]).
  assert (region_at (pmm_g ex_booted) 1 ex_b1) as H1 by (vm_compute; split; [split; [discriminate|reflexivity]|reflexivity]).
  apply (pmm_init_bitmaps_overlap (CS := strict_c) (MS := pmm_state_mem) (PS := pmm_state_pmm) 0xffffffff80300000 0x2000 ex_boot 115
    ex_booted ex_b0 ex_b1 Hrun H0 H1); clear; done.
Defined.
