(* ===== verification/PmmRuns.v ===== *)
(** * kernel/mm/pmm.c (second part): every run of the allocator

    The states that allocations and frees lead to, with the set of the pages
    handed out: the free pages and the pages handed out always are the pages
    that were free at the start. *)
From S2P Require Import Prelude CInt Mem Bitmap Pmm.

Section runs.
Context {CS : CSem} {S : Type} {MS : MemState S} {PS : PmmState S}.
Implicit Types (s : S) (H : gset Z).

(** The pages [pmm_free] gives back: above the first allocatable one, with a
    number of at least 33 modulo 64 in their region. *)
Definition freeable s (p : Z) : Prop :=
  V2P (g_pmm_vma_stop (pmm_g s)) < p ∧
  ∃ i r k, region_at (pmm_g s) i r ∧ available r = true ∧ page_of r k p ∧ 33 ≤ k mod 64.

Inductive pmm_run (s0 : S) : S → gset Z → Prop :=
  | pmm_run_start : pmm_wf s0 → pmm_run s0 s0 ∅
  | pmm_run_none s H s' :
      pmm_run s0 s H → not_exhausted s → pmm_alloc s = Done (NULL, s') → pmm_run s0 s' H
  | pmm_run_alloc s H p s' :
      pmm_run s0 s H → not_exhausted s → pmm_alloc s = Done (p, s') → p ≠ NULL → pmm_run s0 s' ({[p]} ∪ H)
  | pmm_run_free s H p s' :
      pmm_run s0 s H → p ∈ H → freeable s p → pmm_free p s = Done (tt, s') → pmm_run s0 s' (H ∖ {[p]}).

(** Nothing is lost and nothing is handed out twice. *)
Record conserves (s0 s : S) (H : gset Z) : Prop := {
  cv_wf : pmm_wf s;
  cv_pages : ∀ q, page_free s0 q ↔ page_free s q ∨ q ∈ H;
  cv_apart : ∀ q, page_free s q → q ∉ H;
}.

Lemma conserves_alloc s0 s H p s' :
  conserves s0 s H → not_exhausted s → pmm_alloc s = Done (p, s') →
  (p = NULL ∧ conserves s0 s' H) ∨ (p ≠ NULL ∧ p ∉ H ∧ conserves s0 s' ({[p]} ∪ H)).
Proof.
  intros [Hwf Hp Ha] Hne Hrun. destruct (alloc_run s Hwf Hne) as (p' & s1 & Hrun' & _ & Hwf' & Hcase).
  rewrite Hrun in Hrun'. injection Hrun' as <- <-. destruct Hcase as [[-> Hnone]|(Hp0 & Hfree & _ & Hless)].
  - left. split; [done|]. split; [done| |]; intros q; destruct (Hnone q); [|done]. rewrite Hp. tauto.
  - right. split_and!; [done|by apply Ha|]. split; [done| |]; intros q.
    + rewrite Hp, Hless. destruct (decide (q = p)) as [->|]; set_solver.
    + rewrite Hless. specialize (Ha q). set_solver.
Qed.

Lemma conserves_free s0 s H p s' :
  conserves s0 s H → p ∈ H → freeable s p → pmm_free p s = Done (tt, s') → conserves s0 s' (H ∖ {[p]}).
Proof.
  intros [Hwf Hp Ha] Hin (Hstop & i & r & k & Hr & Hav & Hk & H33) Hrun.
  destruct (free_page s i r k p Hwf Hr Hav Hk Hstop H33) as (m' & Hrun' & _ & Hwf' & Hmore).
  rewrite Hrun in Hrun'. injection Hrun' as ->. split; [done| |]; intros q.
  - rewrite Hp, Hmore. destruct (decide (q = p)) as [->|]; set_solver.
  - rewrite Hmore. specialize (Ha q). set_solver.
Qed.

Lemma pmm_run_conserves s0 s H : pmm_run s0 s H → conserves s0 s H.
Proof.
  induction 1 as [Hwf|s H s' _ IH Hne Hrun|s H p s' _ IH Hne Hrun Hp|s H p s' _ IH Hp Hfr Hrun].
  - split; [done| |]; set_solver.
  - by destruct (conserves_alloc _ _ _ _ _ IH Hne Hrun) as [[_ ?]|[? _]].
  - by destruct (conserves_alloc _ _ _ _ _ IH Hne Hrun) as [[? _]|(_ & _ & ?)].
  - by eapply conserves_free.
Qed.

(** C18: take the runs in which every allocation finds a set bit in each bitmap, and every
    page freed is above the first allocatable one and numbered at least 33 modulo 64 in its
    region.  In every state they lead to, the table is well
    formed, the free pages and the pages handed out are apart and together are
    those free at the start; the next such allocation returns: [NULL] when no page
    is free, otherwise a page that nobody holds; and the next such free returns.
    The other frees do not fit: that of the first allocatable page panics, and that of a
    page numbered 32 modulo 64 makes the 32 pages before it free too, whoever holds them. *)
Theorem pmm_run_hands_out_once s0 s H :
  pmm_run s0 s H → conserves s0 s H ∧
  (not_exhausted s → ∃ p s', pmm_alloc s = Done (p, s') ∧ (p = NULL ∨ p ∉ H) ∧ (p = NULL ↔ ∀ q, ¬ page_free s q)) ∧
  (∀ p, p ∈ H → freeable s p → ∃ s', pmm_free p s = Done (tt, s')) ∧
  (∀ p, p ∈ H → p ≤ V2P (g_pmm_vma_stop (pmm_g s)) → ∃ msg, pmm_free p s = Faulted (Panicked msg)) ∧
  ∀ i r k p, p ∈ H → region_at (pmm_g s) i r → available r = true → page_of r k p →
    V2P (g_pmm_vma_stop (pmm_g s)) < p → k mod 64 = 32 →
    ∃ s', pmm_free p s = Done (tt, s') ∧ ∀ j q, k - 32 ≤ j ≤ k → page_of r j q → page_free s' q.
Proof.
  intros Hc%pmm_run_conserves. split; [done|]. split_and!.
  - intros Hne. destruct (alloc_run s (cv_wf _ _ _ Hc) Hne) as (p & s' & Hrun & _ & _ & Hcase). exists p, s'.
    split; [done|]. destruct Hcase as [[-> Hnone]|(Hp & Hfree & _)].
    + split; [by left|]. split; [|done]. intros _ q. apply Hnone.
    + pose proof (cv_apart _ _ _ Hc p Hfree). split; [by right|]. split; [done|]. intros Hno. by destruct (Hno p).
  - intros p Hp (Hstop & i & r & k & Hr & Hav & Hk & H33).
    destruct (free_page s i r k p (cv_wf _ _ _ Hc) Hr Hav Hk Hstop H33) as (m' & Hrun & _). by eexists.
  - intros p _ Hp. by apply free_low.
  - intros i r k p _ Hr Hav Hk Hstop H32.
    destruct (free_page_32 s i r k p (cv_wf _ _ _ Hc) Hr Hav Hk Hstop H32) as (m' & Hrun & Hall). by eexists.
Qed.
End runs.

(** Two allocations and a free. *)
Definition after {A} (m : M pmm_state A) (s : pmm_state) : pmm_state :=
  match m s with Done (_, s') => s' | Faulted _ => s end.
Definition ex_alloc1 : pmm_state := after (pmm_alloc (CS := strict_c)) ex_pmm.
Definition ex_alloc2 : pmm_state := after (pmm_alloc (CS := strict_c)) ex_alloc1.
Definition ex_freed : pmm_state := after (pmm_free (CS := strict_c) (0x300000 + 36 * 4096)) ex_alloc2.
Definition ex_held : gset Z := ({[0x300000 + 37 * 4096]} ∪ ({[0x300000 + 36 * 4096]} ∪ ∅)) ∖ {[0x300000 + 36 * 4096]}.

Lemma ex_pmm_run : pmm_run (CS := strict_c) ex_pmm ex_freed ex_held.
Proof.
  assert (pmm_run (CS := strict_c) ex_pmm ex_alloc1 ({[0x300000 + 36 * 4096]} ∪ ∅)) as H1.
  { eapply pmm_run_alloc; [by apply pmm_run_start, ex_pmm_wf|exact ex_not_exhausted|by vm_compute|done]. }
  assert (pmm_run (CS := strict_c) ex_pmm ex_alloc2 ({[0x300000 + 37 * 4096]} ∪ ({[0x300000 + 36 * 4096]} ∪ ∅))) as H2.
  { eapply pmm_run_alloc; [exact H1| |by vm_compute|done]. 
    intros i r [[-> ->]|[[-> ->]|[-> ->]]]%ex_region_at; [|done|]; intros _; [exists 37|exists 1]; done. }
  eapply pmm_run_free; [exact H2| | |by vm_compute].
  - set_solver.
  - split; [done|]. exists 0, ex_r0, 36. split_and!; try done.
Qed.

Lemma pmm_run_hands_out_once_witness :
  pmm_run (CS := strict_c) ex_pmm ex_freed ex_held ∧ conserves ex_pmm ex_freed ex_held.
Proof.
  split; [exact ex_pmm_run|]. apply (pmm_run_hands_out_once (CS := strict_c) ex_pmm ex_freed ex_held ex_pmm_run).
Defined.
