(* ===== verification/Mmu.v ===== *)
(** * kernel/arch/x86_64/mm/mmu: the four-level page tables

    The tables are pages of the byte memory, reached through the direct mapping.
    [pt_wf m T root] says which pages are the tables: [T] maps the list of
    indices that leads to a table to its address. *)
From S2P Require Import Prelude CInt Mem CString Bitmap Pmm.

(** ** The operations *)
(** [struct vmm_space]: [page_directory] at offset 0, [region] at 8. *)
Definition s_page_directory (space : Z) : Z := space.
(** [struct vmm_region]: [va_start] at offset 0, [va_stop] 8, [next] 16,
    [prev] 24, [flags] 32. *)
Definition g_va_start (region : Z) : Z := region.
Definition g_va_stop (region : Z) : Z := region + 8.
Definition g_next (region : Z) : Z := region + 16.
Definition g_prev (region : Z) : Z := region + 24.
Definition g_flags (region : Z) : Z := region + 32.
Definition s_region (space : Z) : Z := space + 8.

Section defs.
Context {CS : CSem} {S : Type} {MS : MemState S} {PS : PmmState S}.
(** Assembly: [invlpg] and the load of CR3. *)
Context (invlpg paging_load : Z → M S unit).

Definition present (e : Z) : bool := negb (Z.land e PAGE_PRESENT =? 0).

Definition mmu_translate_4k (pml4e va : Z) : M S Z :=
  e4 ← rd64 (pml4e + 8 * PML4E_INDEX va);
  if negb (present e4) then mret U64_MAX
  else
    let pdpt := PAGE_ADDR (DM_P2V e4) PAGE_TABLE_SIZE_IN_BYTES in
    e3 ← rd64 (pdpt + 8 * PDPT_INDEX va);
    if negb (present e3) then mret U64_MAX
    else
      let pdt := PAGE_ADDR (DM_P2V e3) PAGE_TABLE_SIZE_IN_BYTES in
      e2 ← rd64 (pdt + 8 * PDT_INDEX va);
      if negb (present e2) then mret U64_MAX
      else
        let pt := PAGE_ADDR (DM_P2V e2) PAGE_TABLE_SIZE_IN_BYTES in
        e1 ← rd64 (pt + 8 * PT_INDEX va);
        mret (Z.lor (PAGE_ADDR e1 PAGE_SIZE_IN_BYTES) (Z.land (u64 va) (PAGE_SIZE_IN_BYTES - 1))).

Definition mmu_translate_1gb (pml4 va : Z) : M S Z :=
  e4 ← rd64 (pml4 + 8 * PML4E_INDEX va);
  if negb (present e4) then mret U64_MAX
  else
    let pdpt := PAGE_ADDR e4 PAGE_TABLE_SIZE_IN_BYTES in
    e3 ← rd64 (pdpt + 8 * PDPT_INDEX va);
    if negb (present e3) then mret U64_MAX
    else mret (Z.lor (PAGE_ADDR e3 BOOT_PAGE_SIZE_IN_BYTES) (Z.land (u64 va) (BOOT_PAGE_SIZE_IN_BYTES - 1))).

(** One level of [mmu_map_page]: the table below entry [index] of [table],
    made when it is not present. *)
Definition next_table (table index perm_wo_g : Z) : M S Z :=
  e ← rd64 (table + 8 * index);
  (if negb (present e) then
     t ← pmm_xalloc;
     memset (DM_P2V t) 0 PAGE_SIZE_IN_BYTES ;;
     wr64 (table + 8 * index) (Z.lor (Z.lor t PAGE_PRESENT) perm_wo_g)
   else mret tt) ;;
  e ← rd64 (table + 8 * index);
  mret (PAGE_ADDR (DM_P2V e) PAGE_TABLE_SIZE_IN_BYTES).

Definition mmu_map_page (space va pa perm : Z) : M S Z :=
  let perm_wo_g := Z.land perm (u64 (Z.lnot PAGE_GLOBAL)) in
  pml4e ← rd64 (s_page_directory space);
  pdpt ← next_table pml4e (PML4E_INDEX va) perm_wo_g;
  pdt ← next_table pdpt (PDPT_INDEX va) perm_wo_g;
  pt ← next_table pdt (PDT_INDEX va) perm_wo_g;
  ret ← rd64 (pt + 8 * PT_INDEX va);
  wr64 (pt + 8 * PT_INDEX va) (Z.lor pa perm) ;;
  mret ret.

Definition mmu_unmap_page (space va : Z) : M S Z :=
  pa ← mmu_map_page space va 0 0;
  pmm_free (PAGE_ADDR pa PAGE_SIZE_IN_BYTES) ;;
  invlpg va ;;
  mret pa.

(** [for (va = va_start; va < va_stop; va += PAGE_SIZE_IN_BYTES)], for a
    [va_stop] that is read again in each round. *)
Definition for_pages (start : Z) (stop : M S Z) (body : Z → M S unit) : M S unit :=
  hi ← stop;
  loop (Datatypes.S (Z.to_nat ((hi - start) / PAGE_SIZE_IN_BYTES + 1))) (λ va,
    hi ← stop;
    if va <? hi then body va ;; mret (inl (u64 (va + PAGE_SIZE_IN_BYTES))) else mret (inr tt)) start.

Definition mmu_copy_pages (dst src region : Z) : M S unit :=
  start ← rd64 (g_va_start region);
  for_pages start (rd64 (g_va_stop region)) (λ va,
    pml4e ← rd64 (s_page_directory src);
    pa ← mmu_translate_4k pml4e va;
    flags ← rd64 (g_flags region);
    old ← mmu_map_page dst va pa flags;
    if negb (old =? 0) then panic "mmu_copy_pages: overwrite preexisting mapping" else mret tt).

Definition mmu_switch_space (space : Z) : M S unit :=
  pml4e ← rd64 (s_page_directory space);
  paging_load (DM_V2P pml4e).

Definition mmu_init (space : Z) : M S unit :=
  t ← pmm_xalloc;
  wr64 (s_page_directory space) (DM_P2V t) ;;
  pml4e ← rd64 (s_page_directory space);
  memset pml4e 0 PAGE_SIZE_IN_BYTES ;;
  mret tt.

(** The [DEBUG] comparison of the boot tables with the new ones. *)
Definition mmu_test_kernel_mapping (PML4 kernel_vma_start space : Z) : M S unit :=
  for_pages kernel_vma_start pmm_vma_stop (λ addr,
    old ← mmu_translate_1gb (P2V PML4) addr;
    pml4e ← rd64 (s_page_directory space);
    new ← mmu_translate_4k pml4e addr;
    if negb (old =? new) then panic "mmu_test_kernel_mapping" else mret tt).

Definition mmu_test_compare_mapping (space1 space2 : Z) : M S unit :=
  fuel ← mem_fuel;
  r1 ← rd64 (s_region space1);
  r2 ← rd64 (s_region space2);
  '(r1, r2) ← loop fuel (λ '(region1, region2),
    if (region1 =? NULL) || (region2 =? NULL) then mret (inr (region1, region2))
    else
      start1 ← rd64 (g_va_start region1);
      start2 ← rd64 (g_va_start region2);
      if negb (start1 =? start2) then panic "regions don't have the same va_start"
      else
        stop1 ← rd64 (g_va_stop region1);
        stop2 ← rd64 (g_va_stop region2);
        if negb (stop1 =? stop2) then panic "regions don't have the same va_stop"
        else
          flags1 ← rd64 (g_flags region1);
          flags2 ← rd64 (g_flags region2);
          if negb (flags1 =? flags2) then panic "regions don't have the same flags"
          else
            for_pages start1 (rd64 (g_va_stop region1)) (λ va,
              d1 ← rd64 (s_page_directory space1);
              pa1 ← mmu_translate_4k d1 va;
              d2 ← rd64 (s_page_directory space2);
              pa2 ← mmu_translate_4k d2 va;
              if negb (pa1 =? pa2) then panic "mismatch address" else mret tt) ;;
            next1 ← rd64 (g_next region1);
            next2 ← rd64 (g_next region2);
            mret (inl (next1, next2))) (r1, r2);
  if negb (r1 =? NULL) || negb (r2 =? NULL) then
    panic "spaces don't have the same number of regions"
  else mret tt.
End defs.

(** ** The abstract view: a tree of tables *)
Abbreviation tables := (gmap (list Z) Z).

Record pt_wf (m : mem) (T : tables) (root : Z) : Prop := {
  pt_root : T !! [] = Some root;
  pt_page : ∀ p t, T !! p = Some t →
    (length p ≤ 3)%nat ∧ 0 < t ∧ t + 4096 ≤ 2 ^ 64 ∧ t mod 4096 = 0 ∧ mapped m t 4096;
  pt_prefix : ∀ p i t, T !! (p ++ [i]) = Some t → is_Some (T !! p);
  pt_inj : ∀ p q t, T !! p = Some t → T !! q = Some t → p = q;
  pt_entry : ∀ p t i, T !! p = Some t → (length p < 3)%nat → 0 ≤ i < 512 →
    ∃ e, load_le 8 m (t + 8 * i) = Some e ∧
      match T !! (p ++ [i]) with
      | Some t' => present e = true ∧ PAGE_ADDR (DM_P2V e) PAGE_TABLE_SIZE_IN_BYTES = t'
      | None => present e = false
      end;
}.

(** The path to the last table of an address, and the last index. *)
Definition va_path (va : Z) : list Z := [PML4E_INDEX va; PDPT_INDEX va; PDT_INDEX va].

(** Entry [j] of the last-level table at [p]; 0, not present, without a table. *)
Definition leaf_at (m : mem) (T : tables) (p : list Z) (j : Z) : Z :=
  match T !! p with Some t => default 0 (load_le 8 m (t + 8 * j)) | None => 0 end.
Definition leaf (m : mem) (T : tables) (va : Z) : Z := leaf_at m T (va_path va) (PT_INDEX va).

(** [i] is an address of a table. *)
Definition in_tables (T : tables) (i : Z) : Prop := ∃ p t, T !! p = Some t ∧ t ≤ i < t + 4096.

(** ** Lemmas *)
Lemma index_range x k : 0 ≤ u16 (Z.land (Z.shiftr (u64 x) k) 0x1ff) < 512.
Proof.
  change 0x1ff with (Z.ones 9). rewrite Z.land_ones by lia.
  pose proof (Z.mod_pos_bound (Z.shiftr (u64 x) k) (2 ^ 9)). unfold u16. rewrite Z.mod_small; lia.
Qed.

Lemma index_div x k : 0 ≤ k → u16 (Z.land (Z.shiftr (u64 x) k) 0x1ff) = (u64 x / 2 ^ k) mod 512.
Proof.
  intros Hk. change 0x1ff with (Z.ones 9). rewrite Z.land_ones, Z.shiftr_div_pow2 by lia.
  unfold u16. change (2 ^ 9) with 512. pose proof (Z.mod_pos_bound (u64 x / 2 ^ k) 512). rewrite Z.mod_small; lia.
Qed.

(** Two addresses use the same entry of the same table when they are in the
    same page of the 48-bit address space. *)
Definition same_page (va va' : Z) : bool := (u64 va / 4096) mod 2 ^ 36 =? (u64 va' / 4096) mod 2 ^ 36.

Lemma same_page_spec va va' :
  same_page va va' = true ↔ va_path va = va_path va' ∧ PT_INDEX va = PT_INDEX va'.
Proof.
  unfold same_page, va_path, PML4E_INDEX, PDPT_INDEX, PDT_INDEX, PT_INDEX.
  rewrite !index_div, Z.eqb_eq by lia.
  change (2 ^ 39) with (4096 * 134217728). change (2 ^ 30) with (4096 * 262144).
  change (2 ^ 21) with (4096 * 512). change (2 ^ 12) with (4096 * 1).
  rewrite <- !Z.div_div by lia. rewrite !Z.div_1_r. change (2 ^ 36) with (512 * (512 * (512 * 512))).
  generalize (u64 va / 4096) (u64 va' / 4096). intros x y. clear. split.
  - intros H. split; [|zlia]. f_equal; [zlia|]. f_equal; [zlia|]. f_equal. zlia.
  - intros [[= H1 H2 H3] H4]. zlia.
Qed.

(** The entry made for a new table at physical page [t]. *)
Lemma table_entry t f :
  0 < t → t + 4096 ≤ 2 ^ 47 → t mod 4096 = 0 → 0 ≤ f < 4096 →
  let e := Z.lor (Z.lor t PAGE_PRESENT) f in
  0 ≤ e < 2 ^ 64 ∧ present e = true ∧ PAGE_ADDR (DM_P2V e) PAGE_TABLE_SIZE_IN_BYTES = HIGHER_HALF_START + t.
Proof.
  intros Ht Hhi Hal Hf e. unfold PAGE_PRESENT in e.
  assert (0 ≤ e) as He0 by (apply Z.lor_nonneg; split; [apply Z.lor_nonneg|]; lia).
  assert (e / 4096 = t / 4096) as Hdiv.
  { change 4096 with (2 ^ 12). rewrite <- !Z.shiftr_div_pow2 by lia. unfold e. rewrite !Z.shiftr_lor.
    assert (Z.shiftr f 12 = 0) as -> by (rewrite Z.shiftr_div_pow2 by lia; zlia).
    change (Z.shiftr 1 12) with 0. by rewrite !Z.lor_0_r. }
  assert (0 ≤ e < 2 ^ 47) as He by zlia.
  split; [lia|]. split.
  - unfold present. change PAGE_PRESENT with (Z.ones 1). rewrite Z.land_ones by lia.
    assert (Z.testbit e 0 = true) as Hb by (unfold e; by rewrite !Z.lor_spec, orb_true_r).
    rewrite Z.bit0_odd in Hb. apply Z.odd_spec in Hb as [q ->]. apply negb_true_iff, Z.eqb_neq. zlia.
  - unfold DM_P2V, PAGE_TABLE_SIZE_IN_BYTES, HIGHER_HALF_START.
    rewrite u64_small by lia. change 4096 with PAGE_SIZE_IN_BYTES. rewrite PAGE_ADDR_page by lia. zlia.
Qed.

Lemma perm_wo_g_range perm :
  0 ≤ perm < 4096 → 0 ≤ Z.land perm (u64 (Z.lnot PAGE_GLOBAL)) < 4096.
Proof.
  intros Hp. set (x := u64 _). replace perm with (Z.land perm (Z.ones 12)).
  2: { rewrite Z.land_ones by lia. apply Z.mod_small. done. }
  rewrite <- Z.land_assoc, (Z.land_comm (Z.ones 12)), Z.land_assoc, Z.land_ones by lia.
  apply Z.mod_pos_bound. lia.
Qed.

Section lemmas.
Context {CS : CSem} {S : Type} {MS : MemState S} {PS : PmmState S}.
Implicit Types s : S.

(** The tables, the bitmaps of the page allocator and the free pages do not
    overlap, and the free pages are reachable in the direct mapping. *)
Record mm_ok (s : S) (T : tables) (root : Z) : Prop := {
  mo_pmm : pmm_wf s;
  mo_pt : pt_wf (st_mem s) T root;
  mo_bitmaps : ∀ i r, region_at (pmm_g s) i r → available r = true → ∀ a,
    bm_bitmap (r_bitmap r) ≤ a < bm_bitmap (r_bitmap r) + 8 * bm_size_in_block (r_bitmap r) →
    ¬ in_tables T a ∧ ∀ q, page_free s q → ¬ HIGHER_HALF_START + q ≤ a < HIGHER_HALF_START + q + 4096;
  mo_free : ∀ q, page_free s q →
    0 < q ∧ q + 4096 ≤ 2 ^ 47 ∧ q mod 4096 = 0 ∧ mapped (st_mem s) (HIGHER_HALF_START + q) 4096 ∧
    ∀ a, HIGHER_HALF_START + q ≤ a < HIGHER_HALF_START + q + 4096 → ¬ in_tables T a;
}.

(** Bytes that are neither in a bitmap, nor in a free page, nor in a table. *)
Definition not_paging (s : S) (T : tables) (a : Z) : Prop :=
  ¬ in_tables T a ∧
  (∀ q, page_free s q → ¬ HIGHER_HALF_START + q ≤ a < HIGHER_HALF_START + q + 4096) ∧
  ∀ i r, region_at (pmm_g s) i r → available r = true →
    ¬ bm_bitmap (r_bitmap r) ≤ a < bm_bitmap (r_bitmap r) + 8 * bm_size_in_block (r_bitmap r).

Lemma table_load s T root p t j :
  mm_ok s T root → T !! p = Some t → 0 ≤ j < 512 → is_Some (load_le 8 (st_mem s) (t + 8 * j)).
Proof.
  intros Hok Ht Hj. destruct (pt_page _ _ _ (mo_pt _ _ _ Hok) _ _ Ht) as (_ & _ & _ & _ & Hm).
  apply load_le_is_Some. eapply mapped_sub; [exact Hm|lia|lia].
Qed.

(** Two tables of the tree are the same or apart. *)
Lemma tables_apart m T root p q t u :
  pt_wf m T root → T !! p = Some t → T !! q = Some u → p ≠ q → t + 4096 ≤ u ∨ u + 4096 ≤ t.
Proof.
  intros Hwf Ht Hu Hne. destruct (pt_page _ _ _ Hwf _ _ Ht) as (_ & _ & _ & Ha & _).
  destruct (pt_page _ _ _ Hwf _ _ Hu) as (_ & _ & _ & Hb & _).
  assert (t ≠ u) by (intros ->; apply Hne; by eapply pt_inj). zlia.
Qed.

(** A page that may be given back to the page allocator. *)
Definition page_fits (s : S) (T : tables) (q : Z) : Prop :=
  0 < q ∧ q + 4096 ≤ 2 ^ 47 ∧ q mod 4096 = 0 ∧ mapped (st_mem s) (HIGHER_HALF_START + q) 4096 ∧
  ∀ a, HIGHER_HALF_START + q ≤ a < HIGHER_HALF_START + q + 4096 → ¬ in_tables T a ∧
    ∀ i r, region_at (pmm_g s) i r → available r = true →
      ¬ bm_bitmap (r_bitmap r) ≤ a < bm_bitmap (r_bitmap r) + 8 * bm_size_in_block (r_bitmap r).

(** The state after an operation of the page allocator. *)
Lemma mm_ok_bitmaps s m' T root :
  mm_ok s T root → pmm_wf (st_put m' s) → bitmaps_only (pmm_g s) (st_mem s) m' →
  (∀ p, page_free (st_put m' s) p → page_free s p ∨ page_fits s T p) → mm_ok (st_put m' s) T root.
Proof.
  intros [Hp Hpt Hbm Hfr] Hwf [Hdom Hm] Hpages.
  assert (∀ a, in_tables T a → m' !! a = st_mem s !! a) as Hta.
  { intros a Ha. apply Hm. intros j r Hr Hav Hin. by destruct (Hbm j r Hr Hav a Hin) as [? _]. }
  split; rewrite ?pmm_g_mem, ?st_mem_put; try done.
  - destruct Hpt as [H1 H2 H0 H3 H4]. split; try done.
    + intros p t Ht. destruct (H2 p t Ht) as (? & ? & ? & ? & Hmap). split_and!; try done.
      intros i Hi. apply Hdom, Hmap, Hi.
    + intros p t i Ht Hl Hi. destruct (H4 p t i Ht Hl Hi) as (e & He & Hc). exists e. split; [|done].
      rewrite <- He. apply load_le_ext. intros a Ha. apply Hta. exists p, t. split; [done|]. lia.
  - intros i r Hr Hav a Ha. destruct (Hbm i r Hr Hav a Ha) as [? Hf]. split; [done|].
    intros p [Hpf|(_ & _ & _ & _ & Hfit)]%Hpages Hin; [by apply (Hf p)|].
    destruct (Hfit a Hin) as [_ Hnb]. by apply (Hnb i r).
  - intros p [Hpf|(? & ? & ? & Hmap & Hfit)]%Hpages.
    + destruct (Hfr p Hpf) as (? & ? & ? & Hmap & ?). split_and!; try done.
      intros i Hi. apply Hdom, Hmap, Hi.
    + split_and!; try done; [|intros; by apply Hfit]. intros i Hi. apply Hdom, Hmap, Hi.
Qed.

(** Memory changes outside the bitmaps do not concern the page allocator. *)
Definition bitmap_same (g : pmm_globals) (m m' : mem) : Prop :=
  ∀ i r, region_at g i r → available r = true → ∀ a,
    bm_bitmap (r_bitmap r) ≤ a < bm_bitmap (r_bitmap r) + 8 * bm_size_in_block (r_bitmap r) → m' !! a = m !! a.

Lemma bitmap_same_free g m m' i r k :
  bitmap_same g m m' → region_at g i r → available r = true → 0 ≤ k < capacity (r_bitmap r) →
  is_free m' (r_bitmap r) k = is_free m (r_bitmap r) k.
Proof.
  intros Hs Hr Hav Hk. unfold is_free. rewrite (load_le_ext 8 m m'); [done|]. intros a Ha.
  pose proof (block_in_bitmap (r_bitmap r) k Hk). eapply Hs; [done|done|]. lia.
Qed.

Lemma pmm_ext s m m' :
  bitmap_same (pmm_g s) m m' → pmm_wf (st_put m s) →
  pmm_wf (st_put m' s) ∧ (∀ x, page_free (st_put m' s) x ↔ page_free (st_put m s) x) ∧
  ∀ n, pages_left n (st_put m s) → pages_left n (st_put m' s).
Proof.
  intros Hs Hwf.
  assert (∀ x, page_free (st_put m' s) x ↔ page_free (st_put m s) x) as Hpf.
  { intros x. unfold page_free. rewrite !pmm_g_mem, !st_mem_put.
    split; intros (i & r & k & Hr & Hav & Hp & Hf); exists i, r, k; split_and!; try done;
      rewrite <- Hf; [symmetry|]; (eapply bitmap_same_free; [exact Hs|exact Hr|done|]);
      (eapply (page_size_len (st_put m s)); [done|by rewrite pmm_g_mem|done|apply Hp]). }
  split_and!; [|done|].
  - destruct Hwf as [H1 H2 H3 H4 H5]. rewrite ?pmm_g_mem, ?st_mem_put in *. split; rewrite ?pmm_g_mem, ?st_mem_put; try done.
    intros i r Hr. destruct (H3 i r Hr) as [? ? ? ? Hb]. split; try done. intros Hav.
    destruct (Hb Hav) as (? & [? ? Hmap] & ?). split_and!; try done. split; try done.
    intros a Ha. rewrite (Hs i r Hr Hav a) by lia. by apply Hmap.
  - intros n [(l & ? & ? & Hl) Hreg]. split.
    + exists l. split_and!; try done. intros x Hx. by apply Hpf, Hl.
    + rewrite pmm_g_mem, st_mem_put in *. intros i r Hr Hav. destruct (Hreg i r Hr Hav) as (k & ? & ? & Hk).
      exists k. split_and!; try done. intros y Hy. destruct (Hk y Hy) as [? Hf]. split; [done|].
      rewrite <- Hf. by eapply bitmap_same_free.
Qed.

Lemma pages_left_less n s : pages_left (Datatypes.S n) s → pages_left n s.
Proof.
  intros [(l & Hnd & Hlen & Hl) Hreg]. split.
  - destruct (NoDup_less l n 0 Hnd Hlen) as (l' & ? & ? & Hl'). exists l'. split_and!; try done.
    intros x Hx. apply Hl. by apply Hl'.
  - intros i r Hr Hav. destruct (Hreg i r Hr Hav) as (k & Hndk & Hlenk & Hk).
    destruct (NoDup_less k n 0 Hndk Hlenk) as (k' & ? & ? & Hk'). exists k'. split_and!; try done.
    intros y Hy. apply Hk. by apply Hk'.
Qed.

(** What [next_table] guarantees: the tree [T'] has the next table [r], and
    shows the same last-level entries. *)
Definition next_post (s : S) (T : tables) (root : Z) (p : list Z) (n : nat) (r : Z) (s' : S) : Prop :=
  ∃ m' T', s' = st_put m' s ∧ mm_ok s' T' root ∧ T' !! p = Some r ∧ T ⊆ T' ∧ pages_left n s' ∧
    (∀ x, page_free s' x → page_free s x) ∧
    (∀ i, is_Some (m' !! i) ↔ is_Some (st_mem s !! i)) ∧
    (∀ q j, length q = 3%nat → 0 ≤ j < 512 → leaf_at m' T' q j = leaf_at (st_mem s) T q j) ∧
    ∀ a, not_paging s T a → m' !! a = st_mem s !! a ∧ not_paging s' T' a.

Section new_table.
Context (s : S) (T : tables) (root : Z) (p : list Z) (t i q : Z) (m1 m2 : mem) (e : Z).
Hypothesis Hok : mm_ok s T root.
Hypothesis Ht : T !! p = Some t.
Hypothesis Hlen : (length p < 3)%nat.
Hypothesis Hi : 0 ≤ i < 512.
Hypothesis Hnone : T !! (p ++ [i]) = None.
Hypothesis Hq : page_free s q.
Hypothesis Hwf1 : pmm_wf (st_put m1 s).
Hypothesis Honly : bitmaps_only (pmm_g s) (st_mem s) m1.
Hypothesis Hpages : ∀ x, page_free (st_put m1 s) x ↔ page_free s x ∧ x ≠ q.
Let u := HIGHER_HALF_START + q.
Hypothesis Hout : only_in u (u + 4096) m1 m2.
Hypothesis Hzero : ∀ a, u ≤ a < u + 4096 → m2 !! a = Some 0.
Hypothesis He : 0 ≤ e < 2 ^ 64.
Hypothesis Hpres : present e = true.
Hypothesis Hadr : PAGE_ADDR (DM_P2V e) PAGE_TABLE_SIZE_IN_BYTES = u.
Let m3 := write_le 8 m2 (t + 8 * i) e.
Let T' := <[p ++ [i] := u]> T.

Lemma nt_q : 0 < q ∧ q + 4096 ≤ 2 ^ 47 ∧ q mod 4096 = 0 ∧ ∀ a, u ≤ a < u + 4096 → ¬ in_tables T a.
Proof. destruct (mo_free _ _ _ Hok q Hq) as (? & ? & ? & _ & ?). done. Qed.

Lemma nt_t : t mod 4096 = 0 ∧ (t + 4096 ≤ u ∨ u + 4096 ≤ t).
Proof.
  destruct nt_q as (? & ? & ? & Hn). destruct (pt_page _ _ _ (mo_pt _ _ _ Hok) _ _ Ht) as (_ & _ & _ & Ha & _).
  split; [done|]. assert (t ≠ u) as Hne.
  { intros Heq. apply (Hn u); [lia|]. exists p, t. split; [done|]. lia. }
  unfold u, HIGHER_HALF_START in *. zlia.
Qed.

(** Outside the new table and the entry, the memory is the one after the
    allocation. *)
Lemma nt_m3 a : ¬ u ≤ a < u + 4096 → ¬ t + 8 * i ≤ a < t + 8 * i + 8 → m3 !! a = m1 !! a.
Proof. intros Ha Hb. unfold m3. rewrite write_le_lookup_out by lia. by apply Hout. Qed.

Lemma nt_bitmap : bitmap_same (pmm_g s) m1 m3.
Proof.
  intros j r Hr Hav a Ha. destruct (mo_bitmaps _ _ _ Hok j r Hr Hav a Ha) as [Hnt Hnf].
  apply nt_m3; [by apply Hnf|]. intros Hin. apply Hnt. exists p, t. split; [done|]. lia.
Qed.

Lemma nt_table_byte p' t' a :
  T !! p' = Some t' → t' ≤ a < t' + 4096 → ¬ t + 8 * i ≤ a < t + 8 * i + 8 → m3 !! a = st_mem s !! a.
Proof.
  intros Ht' Ha Hb. destruct nt_q as (_ & _ & _ & Hn). assert (in_tables T a) as Hin by (by exists p', t').
  rewrite nt_m3; [|by intros ?%Hn|done]. apply Honly.
  intros j r Hr Hav Hbm. by destruct (mo_bitmaps _ _ _ Hok j r Hr Hav a Hbm).
Qed.

Lemma nt_zero j : 0 ≤ j < 512 → load_le 8 m3 (u + 8 * j) = Some 0.
Proof.
  intros Hj. destruct nt_t as [_ Hap]. unfold m3. rewrite load_write_ne by lia.
  assert (∀ n a, u ≤ a → a + Z.of_nat n ≤ u + 4096 → load_le n m2 a = Some 0) as Hz; [|apply Hz; lia].
  intros n. induction n as [|n IH]; intros a ??; [done|]. rewrite load_le_S, Hzero by lia. simpl.
  by rewrite IH by lia.
Qed.

Lemma nt_path_ne p' j : T !! p' = Some t → p' ++ [j] = p ++ [i] → p' = p ∧ j = i.
Proof. intros _ Heq. by apply app_inj_tail in Heq. Qed.

Lemma nt_pt_wf : pt_wf m3 T' root.
Proof.
  pose proof (mo_pt _ _ _ Hok) as [H1 H2 H0 H3 H4]. destruct nt_q as (Hq1 & Hq2 & Hq3 & Hqt). destruct nt_t as [Ht4 Htu].
  assert (∀ a, is_Some (st_mem s !! a) → is_Some (m3 !! a)) as Hdom.
  { intros a Ha. unfold m3. apply write_le_is_Some. left. apply Hout. by apply Honly. }
  assert (∀ p' t', T !! p' = Some t' → t' ≠ u) as Hnu.
  { intros p' t' Ht' ->. apply (Hqt u); [lia|]. exists p', u. split; [done|]. lia. }
  assert (∀ p', is_Some (T !! p') → is_Some (T' !! p')) as Hgrow.
  { intros p' Hp'. unfold T'. apply lookup_insert_is_Some'. by right. }
  split; unfold T' in *.
  - rewrite lookup_insert_ne; [done|]. by destruct p.
  - intros p' t' Ht'. apply lookup_insert_Some in Ht' as [[<- <-]|[_ Ht']].
    + rewrite length_app. simpl. unfold u, HIGHER_HALF_START in *. split_and!; [lia|lia|lia|zlia|].
      intros a Ha. unfold m3. apply write_le_is_Some. left. rewrite Hzero by lia. by eexists.
    + destruct (H2 p' t' Ht') as (? & ? & ? & ? & Hm). split_and!; try done. intros a Ha. by apply Hdom, Hm.
  - intros p' j t' Ht'. apply lookup_insert_Some in Ht' as [[Heq _]|[Hne Ht']].
    + apply app_inj_tail in Heq as [<- _]. apply Hgrow. by eexists.
    + apply Hgrow. by eapply H0.
  - intros p1 p2 t' Ha Hb. apply lookup_insert_Some in Ha as [[<- <-]|[_ Ha]];
      apply lookup_insert_Some in Hb as [[<- Hb]|[_ Hb]]; [done|by apply Hnu in Hb|subst t'; by apply Hnu in Ha|by eapply H3].
  - intros p' t' j Ht' Hl Hj. apply lookup_insert_Some in Ht' as [[<- <-]|[Hne Ht']].
    + exists 0. split; [by apply nt_zero|].
      rewrite lookup_insert_ne by (intros Heq%(f_equal length); rewrite !length_app in Heq; simpl in Heq; lia).
      destruct (T !! ((p ++ [i]) ++ [j])) as [x|] eqn:Hx; [|done]. apply H0 in Hx as [? ?]. congruence.
    + destruct (decide (p' = p ∧ j = i)) as [[-> ->]|Hpj].
      * simplify_eq. exists e. rewrite lookup_insert_eq. split; [|done]. unfold m3.
        rewrite load_write_same, Z.mod_small; [done|exact He].
      * rewrite lookup_insert_ne by (intros Heq; apply Hpj; by apply app_inj_tail in Heq as [-> ->]).
        destruct (H4 p' t' j Ht' Hl Hj) as (e' & He' & Hc). exists e'. split; [|done].
        rewrite <- He'. apply load_le_ext. intros a Ha. apply (nt_table_byte p' t'); [done|lia|].
        destruct (decide (p' = p)) as [->|Hpp]; [simplify_eq; assert (j ≠ i) by naive_solver; lia|].
        destruct (tables_apart _ _ _ _ _ _ _ (mo_pt _ _ _ Hok) Ht' Ht Hpp); lia.
Qed.

Lemma nt_in_tables a : in_tables T' a ↔ in_tables T a ∨ u ≤ a < u + 4096.
Proof.
  unfold in_tables, T'. split.
  - intros (p' & t' & Ht' & Ha). apply lookup_insert_Some in Ht' as [[_ <-]|[_ Ht']]; [by right|]. left. by exists p', t'.
  - intros [(p' & t' & Ht' & Ha)|Ha].
    + exists p', t'. split; [|done]. rewrite lookup_insert_ne; [done|]. intros <-. congruence.
    + exists (p ++ [i]), u. by rewrite lookup_insert_eq.
Qed.

Lemma nt_mm_ok : mm_ok (st_put m3 s) T' root.
Proof.
  destruct (pmm_ext s m1 m3 nt_bitmap Hwf1) as (Hwf3 & Hpf & _).
  destruct nt_q as (Hq1 & Hq2 & Hq3 & Hqt).
  assert (∀ x, page_free (st_put m3 s) x → page_free s x ∧ x ≠ q) as Hx by (intros x; rewrite Hpf; apply Hpages).
  split; rewrite ?pmm_g_mem, ?st_mem_put; [done|exact nt_pt_wf|..].
  - intros j r Hr Hav a Ha. destruct (mo_bitmaps _ _ _ Hok j r Hr Hav a Ha) as [Hnt Hnf]. split.
    + rewrite nt_in_tables. intros [?|?]; [done|]. by apply (Hnf q).
    + intros x [Hxf _]%Hx. by apply Hnf.
  - intros x [Hxf Hxq]%Hx. destruct (mo_free _ _ _ Hok x Hxf) as (? & ? & ? & Hm & Hnt). split_and!; try done.
    + intros a Ha. unfold m3. apply write_le_is_Some. left. apply Hout. by apply Honly, Hm.
    + intros a Ha. rewrite nt_in_tables. intros [?|Hin]; [by apply (Hnt a)|].
      unfold u, HIGHER_HALF_START in *. zlia.
Qed.

Lemma nt_leaf p' j : length p' = 3%nat → 0 ≤ j < 512 → leaf_at m3 T' p' j = leaf_at (st_mem s) T p' j.
Proof.
  intros Hp' Hj. unfold leaf_at, T'. destruct (decide (p' = p ++ [i])) as [->|Hne].
  - rewrite lookup_insert_eq, Hnone, nt_zero by done. done.
  - rewrite lookup_insert_ne by done. destruct (T !! p') as [t'|] eqn:Ht'; [|done]. f_equal.
    apply load_le_ext. intros a Ha. apply (nt_table_byte p' t'); [done|lia|].
    assert (p' ≠ p) as Hpp by (intros ->; lia).
    destruct (tables_apart _ _ _ _ _ _ _ (mo_pt _ _ _ Hok) Ht' Ht Hpp); lia.
Qed.

Lemma nt_not_paging a : not_paging s T a → m3 !! a = st_mem s !! a ∧ not_paging (st_put m3 s) T' a.
Proof.
  intros (Hnt & Hnf & Hnb). destruct (pmm_ext s m1 m3 nt_bitmap Hwf1) as (_ & Hpf & _). split.
  - rewrite nt_m3; [by apply Honly|by apply Hnf|]. intros Hin. apply Hnt. exists p, t. split; [done|]. lia.
  - split; [|split].
    + rewrite nt_in_tables. intros [?|?]; [done|]. by apply (Hnf q).
    + intros x Hx. apply Hnf. apply Hpf, Hpages in Hx. tauto.
    + by rewrite pmm_g_mem.
Qed.
End new_table.

Lemma wp_next_table s T root p t i f n :
  mm_ok s T root → T !! p = Some t → (length p < 3)%nat → 0 ≤ i < 512 → 0 ≤ f < 4096 →
  pages_left (Datatypes.S n) s →
  wp (next_table t i f) s (next_post s T root (p ++ [i]) n).
Proof.
  intros Hok Ht Hlen Hi Hf Hleft.
  destruct (pt_entry _ _ _ (mo_pt _ _ _ Hok) p t i Ht Hlen Hi) as (e & He & Hc).
  unfold next_table. wp_step. eapply wp_load; [exact He|]. wp_step.
  destruct (T !! (p ++ [i])) as [t'|] eqn:Hchild.
  - destruct Hc as [-> Hadr]. simpl. apply wp_ret. wp_step. eapply wp_load; [exact He|]. apply wp_ret.
    exists (st_mem s), T. rewrite st_put_mem, Hadr. split; [done|]. split; [done|]. split; [done|].
    split; [done|]. split; [by apply pages_left_less|]. done.
  - rewrite Hc. simpl. wp_step. eapply wp_pmm_xalloc; [apply Hok|exact Hleft|].
    intros q m1 Hwf1 Honly Hq0 Hq Hpages Hleft1.
    destruct (mo_free _ _ _ Hok q Hq) as (Hq1 & Hq2 & Hq3 & Hqm & Hqt).
    assert (DM_P2V q = HIGHER_HALF_START + q) as Hdm.
    { unfold DM_P2V. rewrite Z.add_comm. apply u64_small. unfold HIGHER_HALF_START. lia. }
    wp_step. rewrite Hdm. apply wp_memset; [unfold PAGE_SIZE_IN_BYTES; lia|..].
    { rewrite st_mem_put. intros a Ha. by apply Honly, Hqm. }
    rewrite st_mem_put. intros m2 Hout Hzero. rewrite st_put_put.
    destruct (table_entry q f Hq1 Hq2 Hq3 Hf) as (He2 & Hpr & Hadr).
    destruct (pt_page _ _ _ (mo_pt _ _ _ Hok) _ _ Ht) as (_ & _ & _ & _ & Htm).
    assert (is_Some (load_le 8 m2 (t + 8 * i))) as Hm2.
    { apply load_le_is_Some. intros a Ha. apply Hout, Honly, Htm. lia. }
    apply wp_store; [by rewrite st_mem_put|]. rewrite st_mem_put, st_put_put.
    wp_step. eapply wp_load.
    { rewrite st_mem_put, load_write_same, Z.mod_small; [done|exact He2]. }
    apply wp_ret. rewrite Hadr. set (e2 := Z.lor _ f) in *.
    eexists (write_le 8 m2 (t + 8 * i) e2), (<[p ++ [i] := HIGHER_HALF_START + q]> T).
    split; [done|]. change PAGE_SIZE_IN_BYTES with 4096 in *.
    split_and!.
    + by eapply nt_mm_ok.
    + apply lookup_insert_eq.
    + by apply insert_subseteq.
    + by eapply pmm_ext; [eapply nt_bitmap|..].
    + intros x. destruct (pmm_ext s m1 (write_le 8 m2 (t + 8 * i) e2)) as (_ & Hpf & _); [by eapply nt_bitmap|done|].
      intros Hx%Hpf%Hpages. tauto.
    + intros a. rewrite write_le_dom by done. destruct Hout as [_ ->]. by destruct Honly as [-> _].
    + intros. by eapply nt_leaf.
    + intros. by eapply nt_not_paging.
Qed.

(** Writing an entry of a last-level table. *)
Lemma leaf_store s T root p t j v :
  mm_ok s T root → T !! p = Some t → length p = 3%nat → 0 ≤ j < 512 → 0 ≤ v < 2 ^ 64 →
  let m' := write_le 8 (st_mem s) (t + 8 * j) v in
  mm_ok (st_put m' s) T root ∧
  (∀ n, pages_left n s → pages_left n (st_put m' s)) ∧
  (∀ x, page_free (st_put m' s) x ↔ page_free s x) ∧
  (∀ q k, length q = 3%nat → 0 ≤ k < 512 →
     leaf_at m' T q k = if decide (q = p ∧ k = j) then v else leaf_at (st_mem s) T q k) ∧
  ∀ a, not_paging s T a → m' !! a = st_mem s !! a ∧ not_paging (st_put m' s) T a.
Proof.
  intros Hok Ht Hlen Hj Hv m'. pose proof Hok as [Hp Hpt Hbm Hfr].
  assert (∀ a, is_Some (st_mem s !! a) → is_Some (m' !! a)) as Hdom.
  { intros a Ha. apply write_le_is_Some. by left. }
  assert (∀ a, t + 8 * j ≤ a < t + 8 * j + 8 → in_tables T a) as Hin.
  { intros a Ha. exists p, t. split; [done|]. lia. }
  assert (bitmap_same (pmm_g s) (st_mem s) m') as Hsame.
  { intros i r Hr Hav a Ha. apply write_le_lookup_out. intros Ha2%Hin. by destruct (Hbm i r Hr Hav a Ha) as [? _]. }
  assert (pmm_wf (st_put (st_mem s) s)) as Hwf by by rewrite st_put_mem.
  destruct (pmm_ext s _ m' Hsame Hwf) as (Hwf' & Hpf & Hleft). rewrite st_put_mem in Hpf, Hleft.
  assert (∀ q u k, T !! q = Some u → 0 ≤ k < 512 → ¬ (q = p ∧ k = j) → load_le 8 m' (u + 8 * k) = load_le 8 (st_mem s) (u + 8 * k)) as Hne.
  { intros q u k Hu Hk Hqk. apply load_write_ne. destruct (decide (q = p)) as [->|Hqp].
    - simplify_eq. assert (k ≠ j) by tauto. lia.
    - destruct (tables_apart _ _ _ _ _ _ _ Hpt Hu Ht Hqp); lia. }
  split; [|split; [done|split; [done|split]]].
  - split; rewrite ?pmm_g_mem, ?st_mem_put; [done|..].
    + destruct Hpt as [H1 H2 H0 H3 H4]. split; try done.
      * intros q u Hu. destruct (H2 q u Hu) as (? & ? & ? & ? & Hm). split_and!; try done. intros a Ha. by apply Hdom, Hm.
      * intros q u k Hu Hl Hk. rewrite (Hne q u k); [by apply H4|done|done|]. intros [-> ->]. lia.
    + intros i r Hr Hav a Ha. destruct (Hbm i r Hr Hav a Ha) as [? Hf]. split; [done|]. intros x Hx%Hpf. by apply Hf.
    + intros x Hx%Hpf. destruct (Hfr x Hx) as (? & ? & ? & Hm & ?). split_and!; try done. intros a Ha. by apply Hdom, Hm.
  - intros q k Hq Hk. unfold leaf_at. case_decide as Hd.
    + destruct Hd as [-> ->]. rewrite Ht. unfold m'. rewrite load_write_same, Z.mod_small; [done|exact Hv].
    + destruct (T !! q) as [u|] eqn:Hu; [|done]. by rewrite (Hne q u k).
  - intros a (Hnt & Hnf & Hnb). split; [|split_and!].
    + apply write_le_lookup_out. by intros ?%Hin.
    + done.
    + intros x Hx%Hpf. by apply Hnf.
    + by rewrite pmm_g_mem.
Qed.

Lemma PT_INDEX_range va : 0 ≤ PT_INDEX va < 512.
Proof. apply index_range. Qed.

(** What [mmu_map_page] does, with [n] free pages left after it. *)
Definition map_post (s : S) (T : tables) (root va pa perm : Z) (n : nat) (old : Z) (s' : S) : Prop :=
  ∃ m' T', s' = st_put m' s ∧ old = leaf (st_mem s) T va ∧ mm_ok s' T' root ∧ is_Some (T' !! va_path va) ∧ T ⊆ T' ∧
    pages_left n s' ∧ (∀ x, page_free s' x → page_free s x) ∧
    (∀ i, is_Some (m' !! i) ↔ is_Some (st_mem s !! i)) ∧
    (∀ va', leaf m' T' va' = if same_page va va' then Z.lor pa perm else leaf (st_mem s) T va') ∧
    ∀ a, not_paging s T a → m' !! a = st_mem s !! a ∧ not_paging s' T' a.

Lemma wp_mmu_map_page s T root space va pa perm n :
  mm_ok s T root → load_le 8 (st_mem s) (s_page_directory space) = Some root →
  pages_left (3 + n) s → 0 ≤ perm < 4096 → 0 ≤ pa < 2 ^ 64 →
  wp (mmu_map_page space va pa perm) s (map_post s T root va pa perm n).
Proof.
  intros Hok Hroot Hleft Hperm Hpa. unfold mmu_map_page.
  pose proof (perm_wo_g_range perm Hperm) as Hf. set (f := Z.land _ _) in *. clearbody f.
  wp_step. eapply wp_load; [done|].
  wp_step. eapply wp_mono; [by apply (wp_next_table s T root [] root _ f (2 + n) Hok);
    [apply (mo_pt _ _ _ Hok)|simpl; lia|apply index_range|..]|].
  intros t1 s1 (m1 & T1 & -> & Hok1 & Ht1 & Hsub1 & Hleft1 & Hfree1 & Hdom1 & Hleaf1 & Hnp1).
  wp_step. eapply wp_mono; [by apply (wp_next_table _ T1 root _ t1 (PDPT_INDEX va) f (1 + n) Hok1 Ht1);
    [simpl; lia|apply index_range|..]|].
  intros t2 s2 (m2 & T2 & -> & Hok2 & Ht2 & Hsub2 & Hleft2 & Hfree2 & Hdom2 & Hleaf2 & Hnp2).
  wp_step. eapply wp_mono; [by apply (wp_next_table _ T2 root _ t2 (PDT_INDEX va) f n Hok2 Ht2);
    [simpl; lia|apply index_range|..]|].
  intros t3 s3 (m3 & T3 & -> & Hok3 & Ht3 & Hsub3 & Hleft3 & Hfree3 & Hdom3 & Hleaf3 & Hnp3).
  rewrite !st_put_put, !st_mem_put in *. simpl in Ht3. change (T3 !! va_path va = Some t3) in Ht3.
  destruct (table_load _ T3 root _ _ (PT_INDEX va) Hok3 Ht3 (PT_INDEX_range va)) as [old Hold].
  wp_step. eapply wp_load; [done|]. wp_step. apply wp_store; [by eexists|]. wp_step.
  destruct (leaf_store _ T3 root _ _ _ (Z.lor pa perm) Hok3 Ht3 eq_refl (PT_INDEX_range va)) as (Hok4 & Hleft4 & Hfree4 & Hleaf4 & Hnp4).
  { apply lor_range; lia. }
  rewrite !st_put_put, !st_mem_put in *.
  eexists _, T3. split; [done|]. split_and!; try done.
  - unfold leaf. rewrite <- Hleaf1, <- Hleaf2, <- Hleaf3 by (done || apply PT_INDEX_range).
    unfold leaf_at. by rewrite Ht3, Hold.
  - by etrans; [exact Hsub1|etrans].
  - by apply Hleft4.
  - intros x Hx%Hfree4. by apply Hfree1, Hfree2, Hfree3.
  - intros i. rewrite write_le_dom by (by rewrite Hold). by rewrite Hdom3, Hdom2, Hdom1.
  - intros va'. unfold leaf. rewrite Hleaf4 by (done || apply PT_INDEX_range).
    rewrite Hleaf3, Hleaf2, Hleaf1 by (done || apply PT_INDEX_range).
    destruct (same_page va va') eqn:Hsp.
    + apply same_page_spec in Hsp as [-> ->]. by rewrite decide_True.
    + rewrite decide_False; [done|]. intros [??]. apply not_true_iff_false in Hsp. by apply Hsp, same_page_spec.
  - intros a Ha. destruct (Hnp1 a Ha) as [E1 N1]. destruct (Hnp2 a N1) as [E2 N2].
    destruct (Hnp3 a N2) as [E3 N3]. destruct (Hnp4 a N3) as [E4 N4]. split; [congruence|done].
Qed.

Lemma page_lor e va :
  0 ≤ e < 2 ^ 64 →
  Z.lor (PAGE_ADDR e PAGE_SIZE_IN_BYTES) (Z.land (u64 va) (PAGE_SIZE_IN_BYTES - 1)) =
    e - e mod 4096 + u64 va mod 4096.
Proof.
  intros He. rewrite PAGE_ADDR_page by done. change (PAGE_SIZE_IN_BYTES - 1) with (Z.ones 12).
  rewrite Z.land_ones by lia. change (2 ^ 12) with 4096. rewrite <- Z.add_lor_land.
  set (r := u64 va mod 4096). assert (0 ≤ r < 4096) as Hr by (apply Z.mod_pos_bound; lia).
  assert (Z.land (e - e mod 4096) r = 0) as ->; [|lia].
  replace (e - e mod 4096) with (Z.shiftl (e / 4096) 12) by (rewrite Z.shiftl_mul_pow2 by lia; zlia).
  apply Z.bits_inj'. intros n Hn. rewrite Z.land_spec, Z.bits_0.
  destruct (decide (n < 12)); [by rewrite Z.shiftl_spec_low by lia|].
  rewrite (Z.bits_above_log2 r n), andb_false_r; [done|lia|].
  destruct (decide (r = 0)) as [->|]; [simpl; lia|]. apply Z.log2_lt_pow2; [lia|].
  pose proof (Z.pow_le_mono_r 2 12 n). change (2 ^ 12) with 4096 in *. lia.
Qed.

Lemma translate_run s T root va :
  pt_wf (st_mem s) T root →
  mmu_translate_4k root va s =
    Done (match T !! va_path va with
          | Some _ => leaf (st_mem s) T va - leaf (st_mem s) T va mod 4096 + u64 va mod 4096
          | None => U64_MAX
          end, s).
Proof.
  intros Hwf. unfold mmu_translate_4k.
  assert (∀ p i, T !! p = None → T !! (p ++ [i]) = None) as Hnone.
  { intros p i Hp. destruct (T !! (p ++ [i])) eqn:Hq; [|done]. apply (pt_prefix _ _ _ Hwf) in Hq. rewrite Hp in Hq. by destruct Hq. }
  destruct (pt_entry _ _ _ Hwf [] root (PML4E_INDEX va) (pt_root _ _ _ Hwf)) as (e4 & He4 & Hc4); [simpl; lia|apply index_range|].
  rewrite (bind_Done _ _ _ e4 s) by (by apply load_Done).
  change ([] ++ [PML4E_INDEX va]) with [PML4E_INDEX va] in Hc4.
  destruct (T !! [PML4E_INDEX va]) as [t3|] eqn:Ht3.
  2: { rewrite Hc4. simpl. apply (Hnone _ (PDPT_INDEX va)) in Ht3. apply (Hnone _ (PDT_INDEX va)) in Ht3.
       simpl in Ht3. unfold va_path. by rewrite Ht3. }
  destruct Hc4 as [-> ->]. simpl.
  destruct (pt_entry _ _ _ Hwf _ t3 (PDPT_INDEX va) Ht3) as (e3 & He3 & Hc3); [simpl; lia|apply index_range|].
  rewrite (bind_Done _ _ _ e3 s) by (by apply load_Done). simpl in Hc3.
  destruct (T !! [PML4E_INDEX va; PDPT_INDEX va]) as [t2|] eqn:Ht2.
  2: { rewrite Hc3. simpl. apply (Hnone _ (PDT_INDEX va)) in Ht2. simpl in Ht2. unfold va_path. by rewrite Ht2. }
  destruct Hc3 as [-> ->]. simpl.
  destruct (pt_entry _ _ _ Hwf _ t2 (PDT_INDEX va) Ht2) as (e2 & He2 & Hc2); [simpl; lia|apply index_range|].
  rewrite (bind_Done _ _ _ e2 s) by (by apply load_Done). simpl in Hc2.
  unfold leaf, leaf_at. change (va_path va) with [PML4E_INDEX va; PDPT_INDEX va; PDT_INDEX va].
  destruct (T !! [PML4E_INDEX va; PDPT_INDEX va; PDT_INDEX va]) as [t1|] eqn:Ht1.
  2: { by rewrite Hc2. }
  destruct Hc2 as [-> ->]. simpl.
  destruct (pt_page _ _ _ Hwf _ _ Ht1) as (_ & _ & _ & _ & Hm1).
  pose proof (PT_INDEX_range va) as Hi.
  assert (is_Some (load_le 8 (st_mem s) (t1 + 8 * PT_INDEX va))) as [e1 He1].
  { apply load_le_is_Some. eapply mapped_sub; [exact Hm1|lia|lia]. }
  rewrite (bind_Done _ _ _ e1 s) by (by apply load_Done). rewrite He1. simpl.
  apply load_le_range in He1. by rewrite page_lor.
Qed.

Lemma leaf_bitmaps s m' T root va :
  mm_ok s T root → bitmaps_only (pmm_g s) (st_mem s) m' → leaf m' T va = leaf (st_mem s) T va.
Proof.
  intros Hok [_ Hm]. unfold leaf, leaf_at. destruct (T !! va_path va) as [t|] eqn:Ht; [|done].
  f_equal. apply load_le_ext. intros a Ha. apply Hm. intros i r Hr Hav Hin.
  destruct (mo_bitmaps _ _ _ Hok i r Hr Hav a Hin) as [Hnt _]. apply Hnt.
  exists (va_path va), t. split; [done|]. pose proof (PT_INDEX_range va). lia.
Qed.

Lemma leaf_range m T va : 0 ≤ leaf m T va < 2 ^ 64.
Proof.
  unfold leaf, leaf_at. destruct (T !! va_path va) as [t|]; [|done].
  destruct (load_le 8 m _) as [e|] eqn:He; simpl; [|lia]. by apply load_le_range in He.
Qed.

Lemma same_page_refl va : same_page va va = true.
Proof. by apply same_page_spec. Qed.

(** Writes outside the tables and the bitmaps do not concern the page tables. *)
Lemma mm_ok_frame s m' T root :
  mm_ok s T root → (∀ i, is_Some (m' !! i) ↔ is_Some (st_mem s !! i)) →
  (∀ a, in_tables T a → m' !! a = st_mem s !! a) → bitmap_same (pmm_g s) (st_mem s) m' →
  mm_ok (st_put m' s) T root ∧ (∀ n, pages_left n s → pages_left n (st_put m' s)) ∧
  (∀ x, page_free (st_put m' s) x ↔ page_free s x) ∧
  (∀ va, leaf m' T va = leaf (st_mem s) T va) ∧ ∀ a, not_paging (st_put m' s) T a ↔ not_paging s T a.
Proof.
  intros Hok Hdom Hta Hsame. pose proof Hok as [Hp Hpt Hbm Hfr].
  assert (pmm_wf (st_put (st_mem s) s)) as Hwf by by rewrite st_put_mem.
  destruct (pmm_ext s _ m' Hsame Hwf) as (Hwf' & Hpf & Hleft). rewrite st_put_mem in Hpf, Hleft.
  split; [|split; [done|split; [done|split]]].
  - split; rewrite ?pmm_g_mem, ?st_mem_put; [done|..].
    + destruct Hpt as [H1 H2 H0 H3 H4]. split; [done| |done|done|].
      * intros p t Ht. destruct (H2 p t Ht) as (? & ? & ? & ? & Hm). split_and!; try done. intros a Ha. by apply Hdom, Hm.
      * intros p t i Ht Hl Hi. destruct (H4 p t i Ht Hl Hi) as (e & He & Hc). exists e. split; [|done].
        rewrite <- He. apply load_le_ext. intros a Ha. apply Hta. exists p, t. split; [done|lia].
    + intros i r Hr Hav a Ha. destruct (Hbm i r Hr Hav a Ha) as [? Hf]. split; [done|]. intros x Hx%Hpf. by apply Hf.
    + intros x Hx%Hpf. destruct (Hfr x Hx) as (? & ? & ? & Hm & ?). split_and!; try done. intros a Ha. by apply Hdom, Hm.
  - intros va. unfold leaf, leaf_at. destruct (T !! va_path va) as [t|] eqn:Ht; [|done]. f_equal.
    apply load_le_ext. intros a Ha. apply Hta. exists (va_path va), t. split; [done|]. pose proof (PT_INDEX_range va). lia.
  - intros a. unfold not_paging. rewrite pmm_g_mem.
    split; intros (H1 & H2 & H3); split_and!; try done; intros x Hx%Hpf; by apply H2.
Qed.

Lemma lor_page pa perm :
  0 ≤ pa → pa mod 4096 = 0 → 0 ≤ perm < 4096 → Z.lor pa perm - Z.lor pa perm mod 4096 = pa.
Proof.
  intros Hpa Hal Hp.
  assert (Z.lor pa perm / 4096 = pa / 4096); [|zlia].
  change 4096 with (2 ^ 12). rewrite <- !Z.shiftr_div_pow2 by lia. rewrite Z.shiftr_lor.
  replace (Z.shiftr perm 12) with 0; [by rewrite Z.lor_0_r|].
  rewrite Z.shiftr_div_pow2 by lia. change (2 ^ 12) with 4096. zlia.
Qed.
End lemmas.

(** ** Properties *)
Section properties.
Context {CS : CSem} {S : Type} {MS : MemState S} {PS : PmmState S}.
Context (invlpg : Z → M S unit).
(** [invlpg] drops a cached translation: the memory does not change. *)
Hypothesis invlpg_spec : ∀ va s, invlpg va s = Done (tt, s).
Implicit Types s : S.

(** C7: [mmu_map_page] makes the tables it needs and returns the old entry of
    the page; afterwards the entry of the page is [pa | perm], the entry of
    every other page is what it was, the tables are still well formed, and
    memory outside the tables, the bitmaps and the free pages is untouched. *)
Theorem mmu_map_page_maps s T root space va pa perm :
  mm_ok s T root → load_le 8 (st_mem s) (s_page_directory space) = Some root →
  pages_left 3 s → 0 ≤ perm < 4096 → 0 ≤ pa < 2 ^ 64 →
  ∃ s' T', mmu_map_page space va pa perm s = Done (leaf (st_mem s) T va, s') ∧ mm_ok s' T' root ∧
    (∀ va', leaf (st_mem s') T' va' = if same_page va va' then Z.lor pa perm else leaf (st_mem s) T va') ∧
    ∀ a, not_paging s T a → st_mem s' !! a = st_mem s !! a.
Proof.
  intros Hok Hroot Hleft Hperm Hpa.
  destruct (proj1 (wp_Done _ _ _) (wp_mmu_map_page s T root space va pa perm 0 Hok Hroot Hleft Hperm Hpa))
    as (old & s' & Hrun & m' & T' & -> & -> & Hok' & _ & _ & _ & _ & _ & Hleaf & Hnp).
  exists (st_put m' s), T'. rewrite st_mem_put. split_and!; try done. intros a Ha. by apply Hnp.
Qed.

(** C6: what [mmu_map_page] maps, [mmu_translate_4k] finds: the translation of
    every address of the page is the address at the same offset of [pa], and a
    page that was translated before still is, to the same address. *)
Theorem mmu_map_translate s T root space va pa perm :
  mm_ok s T root → load_le 8 (st_mem s) (s_page_directory space) = Some root →
  pages_left 3 s → 0 ≤ perm < 4096 → 0 ≤ pa < 2 ^ 64 → pa mod 4096 = 0 →
  ∃ old s', mmu_map_page space va pa perm s = Done (old, s') ∧
    (∀ va', same_page va va' = true →
       mmu_translate_4k root va' s' = Done (pa + u64 va' mod 4096, s')) ∧
    ∀ va' x, same_page va va' = false → mmu_translate_4k root va' s = Done (x, s) → x ≠ U64_MAX →
      mmu_translate_4k root va' s' = Done (x, s').
Proof.
  intros Hok Hroot Hleft Hperm Hpa Hal.
  destruct (proj1 (wp_Done _ _ _) (wp_mmu_map_page s T root space va pa perm 0 Hok Hroot Hleft Hperm Hpa))
    as (old & s' & Hrun & m' & T' & -> & -> & Hok' & [t Ht] & Hsub & _ & _ & _ & Hleaf & _).
  exists (leaf (st_mem s) T va), (st_put m' s). split; [done|].
  pose proof (mo_pt _ _ _ Hok') as Hwf'. split.
  - intros va' Hsame. pose proof Hsame as [Hpath _]%same_page_spec.
    rewrite (translate_run _ T' root) by done.
    rewrite st_mem_put, <- Hpath, Ht, Hleaf, Hsame, lor_page by lia. done.
  - intros va' x Hsame Hx Hmax. rewrite (translate_run _ T root) in Hx by apply Hok.
    destruct (T !! va_path va') as [u|] eqn:Hu; [|congruence]. injection Hx as <-.
    rewrite (translate_run _ T' root) by done.
    rewrite (lookup_weaken T T' _ u) by done. by rewrite st_mem_put, Hleaf, Hsame.
Qed.

(** An address whose last table exists is always translated, its entry
    present or not: a page that is not mapped (or not any more) is reported at
    physical address 0, not as [U64_MAX]. *)
Theorem mmu_translate_unmapped s T root va :
  mm_ok s T root → leaf (st_mem s) T va = 0 →
  mmu_translate_4k root va s =
    Done (if decide (is_Some (T !! va_path va)) then u64 va mod 4096 else U64_MAX, s).
Proof.
  intros Hok Hleaf. rewrite (translate_run _ T root), Hleaf by apply Hok.
  case_decide as Hd; [by destruct Hd as [t ->]|]. destruct (T !! va_path va); [|done]. by destruct Hd.
Qed.

(** [mmu_unmap_page] of a mapped page clears its entry, returns it and
    gives its physical page back to the page allocator; no other entry
    changes. *)
Theorem mmu_unmap_page_frees s T root space va i r k pa :
  mm_ok s T root → load_le 8 (st_mem s) (s_page_directory space) = Some root → pages_left 3 s →
  region_at (pmm_g s) i r → available r = true → page_of r k pa → 33 ≤ k mod 64 →
  V2P (g_pmm_vma_stop (pmm_g s)) < pa →
  leaf (st_mem s) T va - leaf (st_mem s) T va mod 4096 = pa → pa + 4096 ≤ 2 ^ 47 →
  mapped (st_mem s) (HIGHER_HALF_START + pa) 4096 →
  (∀ a, HIGHER_HALF_START + pa ≤ a < HIGHER_HALF_START + pa + 4096 → not_paging s T a) →
  ∃ s' T', mmu_unmap_page invlpg space va s = Done (leaf (st_mem s) T va, s') ∧ mm_ok s' T' root ∧
    page_free s' pa ∧
    ∀ va', leaf (st_mem s') T' va' = if same_page va va' then 0 else leaf (st_mem s) T va'.
Proof.
  intros Hok Hroot Hleft Hr Hav Hpage H33 Hstop Hpa Hhi Hmap Hnp.
  destruct (proj1 (wp_Done _ _ _) (wp_mmu_map_page s T root space va 0 0 0 Hok Hroot Hleft ltac:(lia) ltac:(lia)))
    as (old & s1 & Hrun & m1 & T1 & -> & -> & Hok1 & _ & _ & _ & _ & _ & Hleaf1 & Hnp1).
  destruct (free_page (st_put m1 s) i r k pa) as (m2 & Hfree & Honly & Hwf2 & Hpf);
    [apply Hok1|by rewrite pmm_g_mem|done|done|by rewrite pmm_g_mem|done|].
  assert (page_fits (st_put m1 s) T1 pa) as Hfit.
  { pose proof (leaf_range (st_mem s) T va). split_and!; [|done|zlia|..].
    - pose proof (u64_range (g_pmm_vma_stop (pmm_g s) - KERNEL_VMA)). unfold V2P in Hstop. lia.
    - intros a Ha. rewrite st_mem_put. destruct (Hnp1 a) as [-> _]; [by apply Hnp|]. by apply Hmap.
    - intros a Ha. destruct (Hnp1 a) as [_ (? & _ & ?)]; [by apply Hnp|]. done. }
  assert (mm_ok (st_put m2 (st_put m1 s)) T1 root) as Hok2.
  { apply mm_ok_bitmaps; [done|done|done|]. intros p [?| ->]%Hpf; auto. }
  exists (st_put m2 (st_put m1 s)), T1. split_and!; [|done|by apply Hpf; right|].
  - unfold mmu_unmap_page. rewrite (bind_Done _ _ _ _ _ Hrun).
    rewrite PAGE_ADDR_page, Hpa by apply leaf_range. rewrite (bind_Done _ _ _ _ _ Hfree).
    by rewrite (bind_Done _ _ _ _ _ (invlpg_spec _ _)).
  - intros va'. rewrite st_mem_put, (leaf_bitmaps (st_put m1 s) m2 T1 root va' Hok1 Honly), st_mem_put.
    by rewrite Hleaf1.
Qed.

(** [mmu_unmap_page] of a page whose entry names a page that [pmm_free] refuses never
    returns; without a mapping that is physical page 0. *)
Lemma mmu_unmap_page_refused s T root space va (pa := leaf (st_mem s) T va - leaf (st_mem s) T va mod 4096) :
  mm_ok s T root → load_le 8 (st_mem s) (s_page_directory space) = Some root → pages_left 3 s →
  pa ≤ V2P (g_pmm_vma_stop (pmm_g s)) ∨
  (∀ i r, region_at (pmm_g s) i r → available r = true →
     pa < r_addr r ∨ r_addr r + r_size_in_pages r * PAGE_SIZE_IN_BYTES ≤ pa) →
  ∃ msg, mmu_unmap_page invlpg space va s = Faulted (Panicked msg).
Proof.
  intros Hok Hroot Hleft Hpa.
  destruct (proj1 (wp_Done _ _ _) (wp_mmu_map_page s T root space va 0 0 0 Hok Hroot Hleft ltac:(lia) ltac:(lia)))
    as (old & s1 & Hrun & m1 & T1 & -> & -> & Hok1 & _).
  destruct (pmm_free_rejects (st_put m1 s) pa) as [msg Hmsg]; [apply Hok1|by rewrite pmm_g_mem|].
  exists msg. unfold mmu_unmap_page. rewrite (bind_Done _ _ _ _ _ Hrun), PAGE_ADDR_page by apply leaf_range.
  by apply bind_Faulted.
Qed.

(** C22: [mmu_unmap_page] of a page mapped to a physical page that the page allocator can
    take back - above the first allocatable one, numbered at least 33 modulo 64 in its
    region, and apart from the page tables - clears its entry, returns it and gives
    the physical page back, and no other entry changes.  Of a page without a mapping,
    or mapped to a physical page up to the first allocatable one or outside the available
    regions, it panics. *)
Theorem mmu_unmap_page_contract s T root space va pa :
  leaf (st_mem s) T va - leaf (st_mem s) T va mod 4096 = pa → mm_ok s T root → load_le 8 (st_mem s) (s_page_directory space) = Some root → pages_left 3 s →
  (∀ i r k, region_at (pmm_g s) i r → available r = true → page_of r k pa → 33 ≤ k mod 64 →
     V2P (g_pmm_vma_stop (pmm_g s)) < pa → pa + 4096 ≤ 2 ^ 47 →
     mapped (st_mem s) (HIGHER_HALF_START + pa) 4096 →
     (∀ a, HIGHER_HALF_START + pa ≤ a < HIGHER_HALF_START + pa + 4096 → not_paging s T a) →
     ∃ s' T', mmu_unmap_page invlpg space va s = Done (leaf (st_mem s) T va, s') ∧ mm_ok s' T' root ∧
       page_free s' pa ∧
       ∀ va', leaf (st_mem s') T' va' = if same_page va va' then 0 else leaf (st_mem s) T va') ∧
  (leaf (st_mem s) T va = 0 ∨ pa ≤ V2P (g_pmm_vma_stop (pmm_g s)) ∨
   (∀ i r, region_at (pmm_g s) i r → available r = true →
      pa < r_addr r ∨ r_addr r + r_size_in_pages r * PAGE_SIZE_IN_BYTES ≤ pa) →
   ∃ msg, mmu_unmap_page invlpg space va s = Faulted (Panicked msg)).
Proof.
  intros Epa Hok Hroot Hleft. split; [intros i r k; intros; by eapply mmu_unmap_page_frees|].
  intros Hpa. apply (mmu_unmap_page_refused s T root); [done..|]. destruct Hpa as [H0|Hpa]; [left|by rewrite Epa].
  rewrite H0. apply u64_range.
Qed.
End properties.

(** ** Witnesses *)

(** Nineteen pages of the direct mapping: the four tables of the addresses below
    2 MiB, a page for the bitmap and the [struct vmm_space], the page mapped at
    0x5000, the twelve free pages, and a page that the page allocator does not
    manage.  The last table maps 0x5000 alone. *)
Definition ex_base : Z := HIGHER_HALF_START + 0x31e000.
Definition ex_pml4 : Z := ex_base.
Definition ex_pdpt : Z := ex_base + 0x1000.
Definition ex_pdt : Z := ex_base + 0x2000.
Definition ex_pt : Z := ex_base + 0x3000.
Definition ex_bits : Z := ex_base + 0x4000.
Definition ex_space : Z := ex_base + 0x4040.
Definition ex_tables : tables := {[ [] := ex_pml4; [0] := ex_pdpt; [0; 0] := ex_pdt; [0; 0; 0] := ex_pt ]}.
Definition ex_mm_mem : mem :=
  let m := zero_mem ex_base (19 * 4096) in
  let m := write_le 8 m ex_pml4 0x31f003 in
  let m := write_le 8 m ex_pdpt 0x320003 in
  let m := write_le 8 m ex_pdt 0x321003 in
  let m := write_le 8 m (ex_pt + 8 * 5) 0x323003 in
  let m := write_le 8 m ex_bits 0xfff0000 in
  write_le 8 m ex_space ex_pml4.
Definition ex_mm_region : pmm_region :=
  mk_region 0x300000 48 PMM_REGION_AVAILABLE (mk_bitmap 48 1 ex_bits).
Definition ex_mm_globals : pmm_globals :=
  mk_pmm (ex_mm_region :: replicate 9 zero_region) 1 0xffffffff80302000.
Lemma ex_mm_loads :
  mapped ex_mm_mem ex_base (19 * 4096) ∧
  (∀ i, 0 ≤ i < 512 →
    load_le 8 ex_mm_mem (ex_pml4 + 8 * i) = Some (if decide (i = 0) then 0x31f003 else 0) ∧
    load_le 8 ex_mm_mem (ex_pdpt + 8 * i) = Some (if decide (i = 0) then 0x320003 else 0) ∧
    load_le 8 ex_mm_mem (ex_pdt + 8 * i) = Some (if decide (i = 0) then 0x321003 else 0) ∧
    load_le 8 ex_mm_mem (ex_pt + 8 * i) = Some (if decide (i = 5) then 0x323003 else 0)) ∧
  load_le 8 ex_mm_mem ex_bits = Some 0xfff0000 ∧
  load_le 8 ex_mm_mem ex_space = Some ex_pml4.
Proof.
  assert (∀ b, ex_base ≤ b → b + 8 ≤ ex_base + 19 * 4096 → load_le 8 (zero_mem ex_base (19 * 4096)) b = Some 0) as Hz
    by (intros; apply zero_mem_load; lia).
  assert (mapped (zero_mem ex_base (19 * 4096)) ex_base (19 * 4096)) as Hm by (by apply zero_mem_mapped).
  unfold ex_mm_mem. revert Hz Hm. generalize (zero_mem ex_base (19 * 4096)) as m. intros m Hz Hm.
  unfold ex_pml4, ex_pdpt, ex_pdt, ex_pt, ex_bits, ex_space in *.
  assert (0 < ex_base) as Hb by done. assert (ex_base < 2 ^ 64) as Hb' by done.
  generalize dependent ex_base. intros b Hz Hm Hb Hb'. split_and!.
  - by repeat apply mapped_write_le.
  - intros i Hi. split_and!; case_decide as E; subst;
      rewrite ?Z.mul_0_r, ?Z.add_0_r;
      repeat first [rewrite load_write_same; done|rewrite load_write_ne by lia]; apply Hz; lia.
  - repeat first [rewrite load_write_same; done|rewrite load_write_ne by lia].
  - rewrite load_write_same, Z.mod_small; [done|]. change (256 ^ Z.of_nat 8) with (2 ^ 64). lia.
Qed.

#[local] Opaque ex_mm_mem.

Lemma ex_tables_lookup p t :
  ex_tables !! p = Some t →
  (p = [] ∧ t = ex_pml4) ∨ (p = [0] ∧ t = ex_pdpt) ∨ (p = [0; 0] ∧ t = ex_pdt) ∨ (p = [0; 0; 0] ∧ t = ex_pt).
Proof.
  unfold ex_tables. rewrite !lookup_insert_Some, lookup_singleton_Some. naive_solver.
Qed.

Lemma ex_tables_range p t : ex_tables !! p = Some t → ex_base ≤ t ∧ t + 4096 ≤ ex_bits.
Proof. intros [[_ ->]|[[_ ->]|[[_ ->]|[_ ->]]]]%ex_tables_lookup; done. Qed.

Lemma ex_mm_pt_wf : pt_wf ex_mm_mem ex_tables ex_pml4.
Proof.
  destruct ex_mm_loads as (Hm & Hl & _). generalize dependent ex_mm_mem. intros m Hm Hl. split.
  - done.
  - intros p t Ht. pose proof (ex_tables_range p t Ht) as [Hlo Hhi].
    split_and!; [..|eapply mapped_sub; [exact Hm|done|unfold ex_bits in Hhi; lia]];
      by destruct (ex_tables_lookup p t Ht) as [[-> ->]|[[-> ->]|[[-> ->]|[-> ->]]]]; simpl; try lia.
  - intros p i t [[Hp _]|[[Hp _]|[[Hp _]|[Hp _]]]]%ex_tables_lookup.
    + by destruct p.
    + apply (app_inj_tail _ []) in Hp as [-> _]. by eexists.
    + apply (app_inj_tail _ [0]) in Hp as [-> _]. by eexists.
    + apply (app_inj_tail _ [0; 0]) in Hp as [-> _]. by eexists.
  - intros p q t [[-> ->]|[[-> ->]|[[-> ->]|[-> ->]]]]%ex_tables_lookup
      [[-> Hq]|[[-> Hq]|[[-> Hq]|[-> Hq]]]]%ex_tables_lookup; done.
  - intros p t i Ht Hlen Hi. destruct (Hl i Hi) as (H4 & H3 & H2 & _).
    assert (i ≠ 0 → ex_tables !! (p ++ [i]) = None) as Hnone.
    { intros Hne. destruct (ex_tables !! (p ++ [i])) as [u|] eqn:Hu; [|done].
      apply ex_tables_lookup in Hu as [[Hp _]|[[Hp _]|[[Hp _]|[Hp _]]]]; [by destruct p|..];
        [apply (app_inj_tail _ []) in Hp|apply (app_inj_tail _ [0]) in Hp|apply (app_inj_tail _ [0; 0]) in Hp];
        by destruct Hp. }
    apply ex_tables_lookup in Ht as [[-> ->]|[[-> ->]|[[-> ->]|[-> ->]]]]; [..|simpl in Hlen; lia];
      eexists; (split; [eassumption|]); case_decide as E; subst; try (by rewrite Hnone);
      simpl; split; reflexivity.
Qed.

Lemma ex_mm_region_at i r : region_at ex_mm_globals i r → i = 0 ∧ r = ex_mm_region.
Proof. intros [Hi Hr]. simpl in Hi. assert (i = 0) as -> by lia. simpl in Hr. by simplify_eq. Qed.

Lemma ex_mm_is_free k :
  0 ≤ k < 48 → is_free ex_mm_mem (r_bitmap ex_mm_region) k = (36 <=? k).
Proof.
  intros Hk. destruct ex_mm_loads as (_ & _ & Hb & _). unfold is_free, block_addr.
  change (bm_bitmap (r_bitmap ex_mm_region)) with ex_bits.
  assert (k / 64 = 0) as -> by (clear - Hk; zlia). rewrite Z.mul_0_r, Z.add_0_r, Hb.
  apply Bool.eqb_prop.
  exact (range_forall (λ k, Bool.eqb (Z.testbit 0xfff0000 (63 - k mod 64)) (36 <=? k)) 0 48 eq_refl k Hk).
Qed.

Lemma ex_mm_mapped a n : ex_base ≤ a → a + n ≤ ex_base + 19 * 4096 → mapped ex_mm_mem a n.
Proof. destruct ex_mm_loads as (Hm & _). intros. by eapply mapped_sub. Qed.

(** Any state with this memory and these globals. *)
Section ex_state.
Context {S : Type} {MS : MemState S} {PS : PmmState S} (s : S).
Hypothesis Hmem : st_mem s = ex_mm_mem.
Hypothesis Hglob : pmm_g s = ex_mm_globals.

Lemma ex_page_free q : page_free s q → ∃ k, 36 ≤ k < 48 ∧ q = 0x300000 + k * 4096.
Proof.
  unfold page_free. rewrite Hglob, Hmem. intros (i & r & k & [-> ->]%ex_mm_region_at & _ & [Hk ->] & Hf). exists k. split; [|done].
  simpl in Hk. rewrite ex_mm_is_free in Hf by done. bool_facts. lia.
Qed.

Lemma ex_state_pmm_wf : pmm_wf s.
Proof.
  split; rewrite ?Hglob, ?Hmem; clear Hmem Hglob.
  - reflexivity.
  - by simpl.
  - intros i r [-> ->]%ex_mm_region_at. split; [done..|]. intros _. split; [done|split; [|done]].
    split; [done|done|]. by apply ex_mm_mapped.
  - intros i j r r' [-> ->]%ex_mm_region_at [-> ->]%ex_mm_region_at; lia.
  - intros i j r r' [-> ->]%ex_mm_region_at [-> ->]%ex_mm_region_at; done.
Qed.

Lemma ex_state_ok : mm_ok s ex_tables ex_pml4.
Proof.
  split; rewrite ?Hglob, ?Hmem.
  - apply ex_state_pmm_wf.
  - apply ex_mm_pt_wf.
  - intros i r [-> ->]%ex_mm_region_at _ a Ha. simpl in Ha. split.
    + intros (p & t & Ht%ex_tables_range & Hin). lia.
    + intros q (k & Hk & ->)%ex_page_free Hin. unfold ex_bits, ex_base in Ha. lia.
  - intros q (k & Hk & ->)%ex_page_free. split_and!; [lia|lia|zlia|..].
    + apply ex_mm_mapped; unfold ex_base; lia.
    + intros a Ha (p & t & Ht%ex_tables_range & Hin). unfold ex_bits, ex_base in Ht. lia.
Qed.

Lemma ex_state_left : pages_left 8 s.
Proof.
  assert (∀ k, k ∈ [36; 37; 38; 39; 40; 41; 42; 43] → 0 ≤ k < 48 ∧ is_free ex_mm_mem (r_bitmap ex_mm_region) k = true) as Hl.
  { intros k Hk. assert (36 ≤ k < 44) by (rewrite !elem_of_cons, elem_of_nil in Hk; lia).
    rewrite ex_mm_is_free by lia. split; [lia|]. apply Z.leb_le. lia. }
  split; unfold page_free; rewrite ?Hglob, ?Hmem; clear Hmem Hglob.
  - exists ((λ k, 0x300000 + k * 4096) <$> [36; 37; 38; 39; 40; 41; 42; 43]). split_and!.
    + by apply (bool_decide_unpack _).
    + done.
    + intros p (k & -> & Hk)%list_elem_of_fmap. apply Hl in Hk as [Hk Hf].
      exists 0, ex_mm_region, k. split; [clear; done|]. split; [clear; done|].
      split; [split; [exact Hk|reflexivity]|exact Hf].
  - intros i r [-> ->]%ex_mm_region_at _. exists [36; 37; 38; 39; 40; 41; 42; 43]. split_and!.
    + by apply (bool_decide_unpack _).
    + done.
    + intros k Hk. apply Hl in Hk as [Hk Hf]. split; [|exact Hf]. unfold capacity. simpl. clear - Hk. lia.
Qed.

(** Pages of the example that the paging structures do not use. *)
Lemma ex_not_paging a :
  ex_base + 0x4008 ≤ a < ex_base + 0x6000 ∨ ex_base + 0x12000 ≤ a → not_paging s ex_tables a.
Proof.
  intros Ha. split; [|split].
  - intros (p & t & Ht%ex_tables_range & Hin). unfold ex_bits, ex_base in *. lia.
  - intros q (k & Hk & ->)%ex_page_free. unfold ex_base in *. lia.
  - rewrite Hglob. intros i r [-> ->]%ex_mm_region_at _. simpl. unfold ex_bits, ex_base in *. lia.
Qed.
End ex_state.

Definition ex_mm : pmm_state := mk_pmm_state ex_mm_mem ex_mm_globals.
Lemma ex_mm_ok : mm_ok ex_mm ex_tables ex_pml4.
Proof. by apply ex_state_ok. Qed.
Lemma ex_mm_left : pages_left 3 ex_mm.
Proof. by do 5 apply pages_left_less; apply ex_state_left. Qed.

Lemma ex_mm_root : load_le 8 ex_mm_mem (s_page_directory ex_space) = Some ex_pml4.
Proof. apply ex_mm_loads. Qed.

Lemma ex_mm_leaf va :
  va_path va = [0; 0; 0] → leaf ex_mm_mem ex_tables va = if decide (PT_INDEX va = 5) then 0x323003 else 0.
Proof.
  intros Hp. unfold leaf, leaf_at. rewrite Hp. change (ex_tables !! [0; 0; 0]) with (Some ex_pt).
  destruct ex_mm_loads as (_ & Hl & _). destruct (Hl (PT_INDEX va) (PT_INDEX_range va)) as (_ & _ & _ & ->).
  by case_decide.
Qed.

Lemma mmu_map_page_maps_witness :
  ∃ s' T', mmu_map_page (CS := strict_c) ex_space 0x40006000 0x12345000 PAGE_KERNEL_RW ex_mm =
      Done (leaf ex_mm_mem ex_tables 0x40006000, s') ∧ mm_ok s' T' ex_pml4 ∧
    (∀ va', leaf (st_mem s') T' va' =
      if same_page 0x40006000 va' then Z.lor 0x12345000 PAGE_KERNEL_RW else leaf ex_mm_mem ex_tables va') ∧
    ∀ a, not_paging ex_mm ex_tables a → st_mem s' !! a = ex_mm_mem !! a.
Proof.
  by apply (mmu_map_page_maps (CS := strict_c) (MS := pmm_state_mem) (PS := pmm_state_pmm) ex_mm ex_tables ex_pml4 ex_space
    0x40006000 0x12345000 PAGE_KERNEL_RW ex_mm_ok ex_mm_root ex_mm_left).
Defined.

Lemma mmu_map_translate_witness :
  ∃ old s', mmu_map_page (CS := strict_c) ex_space 0x40006000 0x12345000 PAGE_KERNEL_RW ex_mm = Done (old, s') ∧
    (∀ va', same_page 0x40006000 va' = true →
       mmu_translate_4k ex_pml4 va' s' = Done (0x12345000 + u64 va' mod 4096, s')) ∧
    ∀ va' x, same_page 0x40006000 va' = false → mmu_translate_4k ex_pml4 va' ex_mm = Done (x, ex_mm) → x ≠ U64_MAX →
      mmu_translate_4k ex_pml4 va' s' = Done (x, s').
Proof.
  by apply (mmu_map_translate (CS := strict_c) (MS := pmm_state_mem) (PS := pmm_state_pmm) ex_mm ex_tables ex_pml4 ex_space
    0x40006000 0x12345000 PAGE_KERNEL_RW ex_mm_ok ex_mm_root ex_mm_left).
Defined.

Lemma mmu_translate_unmapped_witness : mmu_translate_4k ex_pml4 0x6008 ex_mm = Done (8, ex_mm).
Proof.
  assert (leaf ex_mm_mem ex_tables 0x6008 = 0) as Hleaf by by rewrite ex_mm_leaf.
  pose proof (mmu_translate_unmapped (MS := pmm_state_mem) (PS := pmm_state_pmm) ex_mm ex_tables ex_pml4 0x6008
    ex_mm_ok Hleaf) as H.
  rewrite decide_True in H by (by eexists). exact H.
Defined.

Lemma mmu_unmap_page_frees_witness :
  ∃ s' T', mmu_unmap_page (CS := strict_c) (λ _, mret tt) ex_space 0x5000 ex_mm =
      Done (leaf ex_mm_mem ex_tables 0x5000, s') ∧ mm_ok s' T' ex_pml4 ∧ page_free s' 0x323000 ∧
    ∀ va', leaf (st_mem s') T' va' = if same_page 0x5000 va' then 0 else leaf ex_mm_mem ex_tables va'.
Proof.
  apply (mmu_unmap_page_frees (CS := strict_c) (MS := pmm_state_mem) (PS := pmm_state_pmm) (λ _, mret tt) (λ _ _, eq_refl)
    ex_mm ex_tables ex_pml4 ex_space 0x5000 0 ex_mm_region 35 0x323000 ex_mm_ok ex_mm_root ex_mm_left);
    [clear; done|reflexivity|split; [clear; done|reflexivity]|clear; done|clear; done| |clear; done|by apply ex_mm_mapped|].
  - change (st_mem ex_mm) with ex_mm_mem. by rewrite ex_mm_leaf.
  - intros a Ha. apply ex_not_paging; [reflexivity|reflexivity|]. left. unfold ex_base. lia.
Defined.

Lemma mmu_unmap_page_contract_witness :
  (∃ s' T', mmu_unmap_page (CS := strict_c) (λ _, mret tt) ex_space 0x5000 ex_mm =
      Done (leaf ex_mm_mem ex_tables 0x5000, s') ∧ mm_ok s' T' ex_pml4 ∧ page_free s' 0x323000 ∧
    ∀ va', leaf (st_mem s') T' va' = if same_page 0x5000 va' then 0 else leaf ex_mm_mem ex_tables va') ∧
  ∃ msg, mmu_unmap_page (CS := strict_c) (λ _, mret tt) ex_space 0x6000 ex_mm = Faulted (Panicked msg).
Proof.
  split.
  - apply (mmu_unmap_page_contract (CS := strict_c) (MS := pmm_state_mem) (PS := pmm_state_pmm) (λ _, mret tt) (λ _ _, eq_refl)
      ex_mm ex_tables ex_pml4 ex_space 0x5000 0x323000) with 0 ex_mm_region 35;
      [|exact ex_mm_ok|exact ex_mm_root|exact ex_mm_left
      |clear; done|reflexivity|split; [clear; done|reflexivity]|clear; done|clear; done|clear; done|by apply ex_mm_mapped|].
    + change (st_mem ex_mm) with ex_mm_mem. by rewrite ex_mm_leaf.
    + intros a Ha. apply ex_not_paging; [reflexivity|reflexivity|]. left. unfold ex_base. lia.
  - apply (mmu_unmap_page_contract (CS := strict_c) (MS := pmm_state_mem) (PS := pmm_state_pmm) (λ _, mret tt) (λ _ _, eq_refl)
      ex_mm ex_tables ex_pml4 ex_space 0x6000 0); [|exact ex_mm_ok|exact ex_mm_root|exact ex_mm_left|].
    + change (st_mem ex_mm) with ex_mm_mem. by rewrite ex_mm_leaf.
    + left. by rewrite ex_mm_leaf.
Defined.
