(* ===== verification/MmuInit.v ===== *)
(** * kernel/arch/x86_64/mm/mmu.c (second part): the first table of a space

    [mmu_init] establishes the invariant [mm_ok] that the other operations on
    page tables keep: from a page allocator in order it makes a space in which
    nothing is mapped. *)
From S2P Require Import Prelude CInt Mem CString Bitmap Pmm Mmu.

Section init.
Context {CS : CSem} {S : Type} {MS : MemState S} {PS : PmmState S}.
Implicit Types s : S.

Definition in_bitmap (s : S) (a : Z) : Prop :=
  ∃ i r, region_at (pmm_g s) i r ∧ available r = true ∧
    bm_bitmap (r_bitmap r) ≤ a < bm_bitmap (r_bitmap r) + 8 * bm_size_in_block (r_bitmap r).
Definition in_free_page (s : S) (a : Z) : Prop :=
  ∃ q, page_free s q ∧ HIGHER_HALF_START + q ≤ a < HIGHER_HALF_START + q + 4096.

(** The page allocator is in order, its bitmaps are not in free pages, and the
    free pages are reachable in the direct mapping. *)
Record pmm_ready (s : S) : Prop := {
  pr_wf : pmm_wf s;
  pr_bitmaps : ∀ a, in_bitmap s a → ¬ in_free_page s a;
  pr_free : ∀ q, page_free s q →
    0 < q ∧ q + 4096 ≤ 2 ^ 47 ∧ q mod 4096 = 0 ∧ mapped (st_mem s) (HIGHER_HALF_START + q) 4096;
}.

(** It is what [mm_ok] says of a space, without the tables. *)
Lemma mm_ok_ready s T root : mm_ok s T root → pmm_ready s.
Proof.
  intros [Hwf _ Hbm Hfr]. split; [done|..].
  - intros a (i & r & Hr & Hav & Ha) (q & Hq & Hin). destruct (Hbm i r Hr Hav a Ha) as [_ Hno]. by apply (Hno q).
  - intros q Hq. destruct (Hfr q Hq) as (? & ? & ? & ? & _). done.
Qed.

Definition empty_tables (root : Z) : tables := {[ [] := root ]}.

Lemma empty_tables_Some root p t : empty_tables root !! p = Some t ↔ [] = p ∧ root = t.
Proof. apply lookup_singleton_Some. Qed.

Lemma empty_pt_wf m root : 0 < root → root + 4096 ≤ 2 ^ 64 → root mod 4096 = 0 →
  (∀ a, root ≤ a < root + 4096 → m !! a = Some 0) → pt_wf m (empty_tables root) root.
Proof.
  intros Hr Hhi Hal Hz. unfold empty_tables. split.
  - apply lookup_singleton_eq.
  - intros p t [<- <-]%lookup_singleton_Some. split_and!; [simpl; lia|done|done|done|]. intros a Ha. rewrite Hz by done. by eexists.
  - intros p i t [Hp _]%lookup_singleton_Some. by destruct p.
  - intros p q t [<- _]%lookup_singleton_Some [<- _]%lookup_singleton_Some. done.
  - intros p t i [<- <-]%lookup_singleton_Some _ Hi. exists 0. split; [|by rewrite lookup_singleton_ne].
    assert (∀ n a, root ≤ a → a + Z.of_nat n ≤ root + 4096 → load_le n m a = Some 0) as Hl; [|apply Hl; lia].
    intros n. induction n as [|n IH]; intros a ??; [done|]. rewrite load_le_S, Hz by lia. simpl. by rewrite IH by lia.
Qed.

Lemma empty_leaf m root va : leaf m (empty_tables root) va = 0.
Proof. unfold leaf, leaf_at, empty_tables, va_path. by rewrite lookup_singleton_ne. Qed.

(** The state after [mmu_init], with the page [q] for the table. *)
Definition init_post (s : S) (space : Z) (q : Z) (s' : S) (root := HIGHER_HALF_START + q) : Prop :=
  page_free s q ∧ (∀ x, page_free s' x ↔ page_free s x ∧ x ≠ q) ∧ mm_ok s' (empty_tables root) root ∧
  load_le 8 (st_mem s') (s_page_directory space) = Some root ∧
  (∀ va, leaf (st_mem s') (empty_tables root) va = 0) ∧
  (∃ m, s' = st_put m s ∧ ∀ i, is_Some (m !! i) ↔ is_Some (st_mem s !! i)) ∧
  ∀ a, ¬ in_bitmap s a → ¬ in_free_page s a → ¬ space ≤ a < space + 8 → st_mem s' !! a = st_mem s !! a.

Lemma wp_mmu_init s space k :
  pmm_ready s → pages_left (Datatypes.S k) s → mapped (st_mem s) space 8 →
  (∀ a, space ≤ a < space + 8 → ¬ in_bitmap s a ∧ ¬ in_free_page s a) →
  wp (mmu_init space) s (λ _ s', (∃ q, init_post s space q s') ∧ pages_left k s').
Proof.
  intros [Hwf Hbm Hfr] Hleft Hsp Hspace. unfold mmu_init. wp_step. eapply wp_pmm_xalloc; [done|exact Hleft|].
  intros q m1 Hwf1 Honly Hq0 Hq Hpages Hleft1. destruct (Hfr q Hq) as (Hq1 & Hq2 & Hq3 & Hqm).
  assert (DM_P2V q = HIGHER_HALF_START + q) as ->.
  { unfold DM_P2V. rewrite Z.add_comm. apply u64_small. unfold HIGHER_HALF_START. lia. }
  set (u := HIGHER_HALF_START + q) in *. assert (0 < u ∧ u + 4096 ≤ 2 ^ 64) as [Hu Huhi] by (unfold u, HIGHER_HALF_START; lia).
  assert (∀ a, space ≤ a < space + 8 → ¬ u ≤ a < u + 4096) as Hsu.
  { intros a Ha Hin. destruct (Hspace a Ha) as [_ Hno]. apply Hno. by exists q. }
  wp_step. apply wp_store; [rewrite st_mem_put; apply load_le_is_Some; intros a Ha; by apply Honly, Hsp|].
  rewrite st_mem_put, st_put_put. unfold s_page_directory. set (m2 := write_le 8 m1 space u).
  assert (∀ i, is_Some (m2 !! i) ↔ is_Some (m1 !! i)) as Hdom2.
  { intros i. apply write_le_dom. apply load_le_is_Some. intros a Ha. by apply Honly, Hsp. }
  wp_step. apply (wp_load _ _ u).
  { rewrite st_mem_put. unfold m2. rewrite load_write_same, Z.mod_small; [done|]. change (256 ^ Z.of_nat 8) with (2 ^ 64). lia. }
  wp_step. apply wp_memset; [done|rewrite st_mem_put; intros a Ha; by apply Hdom2, Honly, Hqm|].
  rewrite st_mem_put. intros m3 Hout Hzero. wp_step. rewrite st_put_put. change PAGE_SIZE_IN_BYTES with 4096 in *.
  assert (∀ a, ¬ u ≤ a < u + 4096 → ¬ space ≤ a < space + 8 → m3 !! a = m1 !! a) as Hm3.
  { intros a Ha Hb. destruct Hout as [-> _]; [|done]. unfold m2. by rewrite write_le_lookup_out by (change (Z.of_nat 8) with 8; lia). }
  assert (bitmap_same (pmm_g s) m1 m3) as Hsame.
  { intros i r Hr Hav a Ha. assert (in_bitmap s a) as Hin by (by exists i, r). apply Hm3.
    - intros Hau. apply (Hbm a Hin). by exists q.
    - intros Hasp. by destruct (Hspace a Hasp). }
  destruct (pmm_ext s m1 m3 Hsame Hwf1) as (Hwf3 & Hpf3 & Hleft3).
  assert (∀ x, page_free (st_put m3 s) x ↔ page_free s x ∧ x ≠ q) as Hfree by (intros x; by rewrite Hpf3, Hpages).
  assert (∀ i, is_Some (m3 !! i) ↔ is_Some (st_mem s !! i)) as Hdom3.
  { intros i. destruct Hout as [_ ->]. rewrite Hdom2. by destruct Honly as [-> _]. }
  split; [|by apply Hleft3]. exists q. unfold init_post. rewrite st_mem_put. fold u.
  split; [done|]. split; [done|]. split; [|split; [|split; [|split; [by exists m3|]]]].
  - split; rewrite ?pmm_g_mem, ?st_mem_put; [done|..].
    + apply empty_pt_wf; [done|done| |exact Hzero]. unfold u, HIGHER_HALF_START in *. clear - Hq3. zlia.
    + intros i r Hr Hav a Ha. assert (in_bitmap s a) as Hin by (by exists i, r). split.
      * intros (p & t & [<- <-]%empty_tables_Some & Hat). apply (Hbm a Hin). by exists q.
      * intros x [Hx _]%Hfree Hax. apply (Hbm a Hin). by exists x.
    + intros x [Hx Hne]%Hfree. destruct (Hfr x Hx) as (? & ? & Hx3 & Hxm). split_and!; [done|done|done| |].
      * intros a Ha. by apply Hdom3, Hxm.
      * intros a Ha (p & t & [<- <-]%empty_tables_Some & Hat). clear - Ha Hat Hne Hx3 Hq3. unfold u, HIGHER_HALF_START in *. zlia.
  - rewrite (load_le_ext 8 m2 m3).
    + unfold m2. rewrite load_write_same, Z.mod_small; [done|]. change (256 ^ Z.of_nat 8) with (2 ^ 64). lia.
    + intros a Ha. apply Hout. by apply Hsu.
  - intros va. apply empty_leaf.
  - intros a Hnb Hnf Hns. rewrite Hm3; [apply Honly| |done].
    + intros i r Hr Hav Ha. apply Hnb. by exists i, r.
    + intros Hau. apply Hnf. by exists q.
Qed.

(** C25: from a page allocator in order, [mmu_init] takes one free page for the
    top-level table and establishes the invariant of the page tables for a space
    in which no page is mapped and every address translates to [U64_MAX]; memory
    outside the bitmaps, the free pages and the field of the space is untouched. *)
Theorem mmu_init_establishes s space :
  pmm_ready s → pages_left 1 s → mapped (st_mem s) space 8 →
  (∀ a, space ≤ a < space + 8 → ¬ in_bitmap s a ∧ ¬ in_free_page s a) →
  ∃ q s', mmu_init space s = Done (tt, s') ∧ init_post s space q s' ∧
    ∀ va, mmu_translate_4k (HIGHER_HALF_START + q) va s' = Done (U64_MAX, s').
Proof.
  intros Hr Hleft Hsp Hspace. destruct (proj1 (wp_Done _ _ _) (wp_mmu_init s space 0 Hr Hleft Hsp Hspace)) as ([] & s' & Hrun & (q & Hpost) & _).
  exists q, s'. split; [done|]. split; [done|]. intros va. destruct Hpost as (_ & _ & Hok & _).
  rewrite (translate_run _ _ _ va (mo_pt _ _ _ Hok)). unfold empty_tables, va_path. by rewrite lookup_singleton_ne.
Qed.
End init.

#[local] Opaque ex_mm_mem.

(** A new space behind the one of the example. *)
Definition ex_new_space : Z := ex_base + 0x4080.

Lemma mmu_init_establishes_witness :
  ∃ q s', mmu_init (CS := strict_c) ex_new_space ex_mm = Done (tt, s') ∧ init_post ex_mm ex_new_space q s' ∧
    ∀ va, mmu_translate_4k (HIGHER_HALF_START + q) va s' = Done (U64_MAX, s').
Proof.
  apply (mmu_init_establishes (CS := strict_c) (MS := pmm_state_mem) (PS := pmm_state_pmm) ex_mm ex_new_space
    (mm_ok_ready _ _ _ ex_mm_ok) (pages_left_less _ _ (pages_left_less _ _ ex_mm_left))).
  - apply ex_mm_mapped; [unfold ex_new_space; lia|unfold ex_new_space; lia].
  - intros a Ha. destruct (ex_not_paging (MS := pmm_state_mem) (PS := pmm_state_pmm) ex_mm eq_refl eq_refl a ltac:(unfold ex_new_space in Ha; lia)) as (_ & Hf & Hb). split.
    + intros (i & r & Hr & Hav & Hin). exact (Hb i r Hr Hav Hin).
    + intros (q & Hq & Hin). exact (Hf q Hq Hin).
Defined.
