(* ===== verification/VmmSlab.v ===== *)
(** * kernel/mm/vmm (first part): the object allocator of the memory manager

    The regions and spaces of vmm.c live in pages of the direct mapping, each
    page a [struct block] followed by an array of objects and a bitmap.  This
    file has the globals of vmm.c and the operations on the blocks. *)
From S2P Require Import Prelude CInt Mem CString Bitmap Pmm.

(** ** The globals of vmm.c *)
Inductive struct_type : Type := TYPE_VMM_REGION | TYPE_VMM_SPACE | NUM_TYPES.

#[export] Instance struct_type_eq_dec : EqDecision struct_type.
Proof. solve_decision. Defined.

(** [block_heads[TYPE_VMM_REGION]], [block_heads[TYPE_VMM_SPACE]], [kspace],
    [kernel_dm_stop]; [kernel_dm_start] is never written. *)
Record vmm_globals : Type := mk_vmm {
  g_region_blocks : Z;
  g_space_blocks : Z;
  g_kspace : Z;
  g_kernel_dm_stop : Z;
}.
Definition vmm_initial : vmm_globals := mk_vmm NULL NULL NULL NULL.

(** A state that contains the memory, the globals of pmm.c and of vmm.c. *)
Class VmmState (S : Type) {MS : MemState S} {PS : PmmState S} : Type := {
  vmm_g : S → vmm_globals;
  vmm_put : vmm_globals → S → S;
  vmm_g_put : ∀ g s, vmm_g (vmm_put g s) = g;
  vmm_g_mem : ∀ m s, vmm_g (st_put m s) = vmm_g s;
  vmm_g_pmm : ∀ g s, vmm_g (pmm_put g s) = vmm_g s;
  vmm_mem_put : ∀ g s, st_mem (vmm_put g s) = st_mem s;
  vmm_pmm_put : ∀ g s, pmm_g (vmm_put g s) = pmm_g s;
}.

Record vmm_state : Type := mk_vmm_state { vs_mem : mem; vs_pmm : pmm_globals; vs_vmm : vmm_globals }.

#[export] Program Instance vmm_state_mem : MemState vmm_state := {|
  st_mem := vs_mem; st_put := λ m s, mk_vmm_state m (vs_pmm s) (vs_vmm s);
|}.
Solve All Obligations with by intros; try match goal with s : vmm_state |- _ => destruct s end.

#[export] Program Instance vmm_state_pmm : PmmState vmm_state := {|
  pmm_g := vs_pmm; pmm_put := λ g s, mk_vmm_state (vs_mem s) g (vs_vmm s);
|}.
Solve All Obligations with by intros; try match goal with s : vmm_state |- _ => destruct s end.

#[export] Program Instance vmm_state_vmm : VmmState vmm_state := {|
  vmm_g := vs_vmm; vmm_put := λ g s, mk_vmm_state (vs_mem s) (vs_pmm s) g;
|}.
Solve All Obligations with by intros; try match goal with s : vmm_state |- _ => destruct s end.

(** ** What the region lists rely on

    [oa_ok n s]: [n] more regions can be taken from the block in use;
    [oa_own s a]: a byte of the block, [oa_meta s a]: a byte of it that the
    allocator keeps for itself; [oa_live s p]: the region at [p] is handed out;
    [oa_freeable s p]: giving it back does what it should. *)
Definition REGION_SIZE : Z := 40.

Class ObjectAllocator (S : Type) {MS : MemState S} : Type := {
  obj_alloc : struct_type → M S Z;
  obj_free : Z → struct_type → M S unit;
  oa_ok : nat → S → Prop;
  oa_own : S → Z → Prop;
  oa_meta : S → Z → Prop;
  oa_live : S → Z → Prop;
  oa_freeable : S → Z → Prop;
  oa_ok_less : ∀ n s, oa_ok (Datatypes.S n) s → oa_ok n s;
  oa_meta_own : ∀ s a, oa_meta s a → oa_own s a;
  oa_live_mem : ∀ n s p, oa_ok n s → oa_live s p →
    0 < p ∧ p + REGION_SIZE ≤ 2 ^ 64 ∧ mapped (st_mem s) p REGION_SIZE ∧
    ∀ a, p ≤ a < p + REGION_SIZE → oa_own s a ∧ ¬ oa_meta s a;
  oa_live_apart : ∀ n s p q, oa_ok n s → oa_live s p → oa_live s q → p ≠ q →
    p + REGION_SIZE ≤ q ∨ q + REGION_SIZE ≤ p;
  oa_ext : ∀ n s m, oa_ok n s →
    (∀ i, is_Some (m !! i) ↔ is_Some (st_mem s !! i)) →
    (∀ a, oa_meta s a → m !! a = st_mem s !! a) →
    oa_ok n (st_put m s) ∧ (∀ p, oa_live (st_put m s) p ↔ oa_live s p) ∧
    ∀ p, oa_freeable (st_put m s) p ↔ oa_freeable s p;
  oa_same : ∀ m s a, (oa_own (st_put m s) a ↔ oa_own s a) ∧ (oa_meta (st_put m s) a ↔ oa_meta s a);
  oa_alloc : ∀ n s, oa_ok (Datatypes.S n) s →
    wp (obj_alloc TYPE_VMM_REGION) s (λ p s', ∃ m, s' = st_put m s ∧ oa_ok n s' ∧
      (∀ i, is_Some (m !! i) ↔ is_Some (st_mem s !! i)) ∧
      (∀ a, ¬ oa_meta s a → m !! a = st_mem s !! a) ∧
      ¬ oa_live s p ∧ ∀ q, oa_live s' q ↔ oa_live s q ∨ q = p);
  oa_free : ∀ n s p, oa_ok n s → oa_live s p → oa_freeable s p →
    wp (obj_free p TYPE_VMM_REGION) s (λ _ s', ∃ m, s' = st_put m s ∧ oa_ok n s' ∧
      (∀ i, is_Some (m !! i) ↔ is_Some (st_mem s !! i)) ∧
      (∀ a, ¬ oa_meta s a → m !! a = st_mem s !! a) ∧
      ∀ q, oa_live s' q ↔ oa_live s q ∧ q ≠ p);
}.

(** ** [struct block]: the offsets of its fields *)
Definition BLOCK_SIZE : Z := 72.
Definition k_objects (b : Z) : Z := b.
Definition k_nb_used (b : Z) : Z := b + 8.
Definition k_object_size (b : Z) : Z := b + 16.
Definition k_max_objects (b : Z) : Z := b + 24.
Definition k_bm (b : Z) : Z := b + 32.
Definition k_prev (b : Z) : Z := b + 56.
Definition k_next (b : Z) : Z := b + 64.

(** ** The operations *)
Section defs.
Context {CS : CSem} {S : Type} {MS : MemState S} {PS : PmmState S} {VS : VmmState S}.

Definition block_head (type : struct_type) : M S Z :=
  match type with
  | TYPE_VMM_REGION => gets (λ s, g_region_blocks (vmm_g s))
  | TYPE_VMM_SPACE => gets (λ s, g_space_blocks (vmm_g s))
  | NUM_TYPES => faultM (Undefined "block_heads[NUM_TYPES]")
  end.

Definition set_block_head (type : struct_type) (b : Z) : M S unit :=
  '(mk_vmm r sp k d) ← gets vmm_g;
  match type with
  | TYPE_VMM_REGION => modify (vmm_put (mk_vmm b sp k d))
  | TYPE_VMM_SPACE => modify (vmm_put (mk_vmm r b k d))
  | NUM_TYPES => faultM (Undefined "block_heads[NUM_TYPES]")
  end.

Definition get_struct_size (type : struct_type) : M S Z :=
  match type with
  | TYPE_VMM_REGION => mret 40
  | TYPE_VMM_SPACE => mret 16
  | NUM_TYPES => panic "get_struct_size: unknown type"
  end.

(** [bitmap_init] of a [struct bitmap] in memory at [p]. *)
Definition bitmap_init_at (p len ptr : Z) : M S Z :=
  wr64 p len ;;
  wr64 (p + 8) (BITMAP_SIZE_IN_BLOCK len) ;;
  wr64 (p + 16) ptr ;;
  '(_, next) ← bitmap_init len ptr;
  mret next.

Definition create_block (type : struct_type) (prev : Z) : M S Z :=
  page ← pmm_xalloc;
  let new_block := DM_P2V page in
  size ← get_struct_size type;
  wr64 (k_object_size new_block) size ;;
  size ← rd64 (k_object_size new_block);
  wr64 (k_max_objects new_block) ((PAGE_SIZE_IN_BYTES - BLOCK_SIZE) / u64 (size + 1)) ;;
  wr64 (k_objects new_block) (u64 (new_block + BLOCK_SIZE)) ;;
  wr64 (k_prev new_block) prev ;;
  wr64 (k_next new_block) NULL ;;
  max_objects ← rd64 (k_max_objects new_block);
  objects ← rd64 (k_objects new_block);
  size ← rd64 (k_object_size new_block);
  bitmap_init_at (k_bm new_block) max_objects (u64 (objects + u64 (max_objects * size))) ;;
  mret new_block.

Definition block_alloc (type : struct_type) : M S Z :=
  head ← block_head type;
  (if head =? NULL then b ← create_block type NULL; set_block_head type b else mret tt) ;;
  current ← block_head type;
  fuel ← mem_fuel;
  loop fuel (λ current,
    if current =? NULL then mret (inr NULL)
    else
      bm ← read_bitmap (k_bm current);
      index ← bitmap_find_and_set bm;
      len ← rd64 (k_bm current);
      if negb (index =? len) then
        nb_used ← rd64 (k_nb_used current);
        wr64 (k_nb_used current) (u64 (nb_used + 1)) ;;
        objects ← rd64 (k_objects current);
        size ← rd64 (k_object_size current);
        mret (inr (u64 (objects + u64 (index * size))))
      else
        next ← rd64 (k_next current);
        (if next =? NULL then
           b ← create_block type current; wr64 (k_next current) b
         else mret tt) ;;
        next ← rd64 (k_next current);
        mret (inl next)) current.

Definition block_free (ptr : Z) (type : struct_type) : M S unit :=
  head ← block_head type;
  fuel ← mem_fuel;
  loop fuel (λ current,
    if current =? NULL then panic "block_free: freeing unknown pointer"
    else
      objects ← rd64 (k_objects current);
      max_objects ← rd64 (k_max_objects current);
      size ← rd64 (k_object_size current);
      if (ptr <? objects) || (u64 (objects + u64 (max_objects * size)) <? ptr) then
        next ← rd64 (k_next current);
        mret (inl next)
      else
        bm ← read_bitmap (k_bm current);
        i ← (if size =? 0 then faultM (Undefined "division by zero") else mret ((ptr - objects) / size));
        bitmap_unset bm i ;;
        nb_used ← rd64 (k_nb_used current);
        wr64 (k_nb_used current) (u64 (nb_used - 1)) ;;
        nb_used ← rd64 (k_nb_used current);
        (if nb_used =? 0 then
           prev ← rd64 (k_prev current);
           (if negb (prev =? NULL) then next ← rd64 (k_next current); wr64 (k_next prev) next else mret tt) ;;
           next ← rd64 (k_next current);
           (if negb (next =? NULL) then prev ← rd64 (k_prev current); wr64 (k_prev next) prev else mret tt) ;;
           pmm_free (DM_V2P current)
         else mret tt) ;;
        mret (inr tt)) head.
End defs.

(** ** The block in use as an allocator of regions *)

(** Block [h] of regions: 98 objects of 40 bytes from offset 72, a bitmap of
    two words at 3992. *)
Definition REGIONS_PER_BLOCK : Z := 98.
Definition slab_bm (h : Z) : bitmap := mk_bitmap REGIONS_PER_BLOCK 2 (h + 3992).
Definition slab_object (h k : Z) : Z := h + BLOCK_SIZE + k * REGION_SIZE.
Definition slab_meta (h a : Z) : Prop := h ≤ a < h + 72 ∨ h + 3992 ≤ a < h + 4008.

Record slab_wf (m : mem) (h : Z) : Prop := {
  sw_range : 0 < h ∧ h + 4096 ≤ 2 ^ 64;
  sw_mapped : mapped m h 4096;
  sw_objects : load_le 8 m (k_objects h) = Some (h + BLOCK_SIZE);
  sw_size : load_le 8 m (k_object_size h) = Some REGION_SIZE;
  sw_max : load_le 8 m (k_max_objects h) = Some REGIONS_PER_BLOCK;
  sw_len : load_le 8 m (k_bm h) = Some REGIONS_PER_BLOCK;
  sw_blocks : load_le 8 m (k_bm h + 8) = Some 2;
  sw_ptr : load_le 8 m (k_bm h + 16) = Some (h + 3992);
}.

Definition slab_room (n : nat) (m : mem) (h : Z) : Prop :=
  ∃ l, NoDup l ∧ length l = n ∧
    ∀ k, k ∈ l → 0 ≤ k < REGIONS_PER_BLOCK ∧ is_free m (slab_bm h) k = true.
Definition slab_live (m : mem) (h p : Z) : Prop :=
  ∃ k, 0 ≤ k < REGIONS_PER_BLOCK ∧ p = slab_object h k ∧ is_free m (slab_bm h) k = false.
(** [bitmap_unset] frees exactly its index from 33 (modulo 64) on; the count
    of objects must not reach 0, which gives the page itself back. *)
Definition slab_freeable (m : mem) (h p : Z) : Prop :=
  ∃ k n, 0 ≤ k < REGIONS_PER_BLOCK ∧ p = slab_object h k ∧ 33 ≤ k mod 64 ∧
    load_le 8 m (k_nb_used h) = Some n ∧ n ≠ 1.

Section slab.
Context {CS : CSem} {S : Type} {MS : MemState S} {PS : PmmState S} {VS : VmmState S}.
Implicit Types s : S.

Lemma slab_bm_wf m h : slab_wf m h → bitmap_wf m (slab_bm h).
Proof.
  intros Hwf. split; [done|done|]. simpl. eapply mapped_sub; [apply (sw_mapped _ _ Hwf)|lia..].
Qed.

Lemma slab_load_ext m m' h o :
  (∀ a, slab_meta h a → m' !! a = m !! a) → 0 ≤ o → o + 8 ≤ 72 →
  load_le 8 m' (h + o) = load_le 8 m (h + o).
Proof. intros Hm ??. apply load_le_ext. intros i Hi. apply Hm. left. lia. Qed.

Lemma slab_free_ext m m' h k :
  (∀ a, slab_meta h a → m' !! a = m !! a) → 0 ≤ k < 128 →
  is_free m' (slab_bm h) k = is_free m (slab_bm h) k.
Proof.
  intros Hm Hk. unfold is_free, block_addr. simpl. rewrite (load_le_ext 8 m m'); [done|].
  intros i Hi. apply Hm. right. zlia.
Qed.

(** A change that keeps the fields keeps the block well formed. *)
Lemma slab_wf_fields m m' h :
  (∀ i, is_Some (m' !! i) ↔ is_Some (m !! i)) →
  (∀ a, h ≤ a < h + 8 ∨ h + 16 ≤ a < h + 56 → m' !! a = m !! a) →
  slab_wf m h → slab_wf m' h.
Proof.
  intros Hdom Hm [H1 H2 H3 H4 H5 H6 H7 H8].
  assert (∀ o v, o = 0 ∨ 16 ≤ o ≤ 48 → load_le 8 m (h + o) = Some v → load_le 8 m' (h + o) = Some v) as Hl.
  { intros o v Ho <-. apply load_le_ext. intros i Hi. apply Hm. lia. }
  split; [done| |..].
  - intros i Hi. by apply Hdom, H2.
  - rewrite <- (Z.add_0_r (k_objects h)). apply Hl; [lia|]. by rewrite Z.add_0_r.
  - apply Hl; [lia|done].
  - apply Hl; [lia|done].
  - apply Hl; [lia|done].
  - unfold k_bm in *. rewrite <- Z.add_assoc in *. apply Hl; [lia|done].
  - unfold k_bm in *. rewrite <- Z.add_assoc in *. apply Hl; [lia|done].
Qed.

Lemma wp_read_bitmap m h s (Q : bitmap → S → Prop) :
  slab_wf m h → st_mem s = m → Q (slab_bm h) s → wp (read_bitmap (k_bm h)) s Q.
Proof.
  intros Hwf <- HQ. unfold read_bitmap. wp_step. eapply wp_load; [apply (sw_len _ _ Hwf)|].
  wp_step. eapply wp_load; [apply (sw_blocks _ _ Hwf)|].
  wp_step. eapply wp_load; [apply (sw_ptr _ _ Hwf)|]. by wp_step.
Qed.

Lemma slab_object_range h k :
  0 < h → h + 4096 ≤ 2 ^ 64 → 0 ≤ k < REGIONS_PER_BLOCK →
  h + 72 ≤ slab_object h k ∧ slab_object h k + 40 ≤ h + 3992 ∧
  u64 (h + BLOCK_SIZE + u64 (k * REGION_SIZE)) = slab_object h k.
Proof.
  intros Hh Hhi Hk. unfold slab_object, BLOCK_SIZE, REGION_SIZE, REGIONS_PER_BLOCK in *.
  rewrite (u64_small (k * 40)), u64_small by lia. lia.
Qed.

Definition region_slab (s : S) : Z := g_region_blocks (vmm_g s).

Lemma wp_block_head s (Q : Z → S → Prop) : Q (region_slab s) s → wp (block_head TYPE_VMM_REGION) s Q.
Proof. done. Qed.

(** A bit of the bitmap and then the count have been written. *)
Record slab_step (m m1 m2 : mem) (h : Z) : Prop := {
  ss_wf1 : slab_wf m1 h;
  ss_wf : slab_wf m2 h;
  ss_count : load_le 8 m1 (k_nb_used h) = load_le 8 m (k_nb_used h);
  ss_dom : ∀ i, is_Some (m2 !! i) ↔ is_Some (m !! i);
  ss_out : ∀ a, ¬ slab_meta h a → m2 !! a = m !! a;
  ss_free : ∀ k, 0 ≤ k < 128 → is_free m2 (slab_bm h) k = is_free m1 (slab_bm h) k;
}.

Lemma slab_step_ok m m1 h k n (a := block_addr (slab_bm h) (k / 64)) :
  slab_wf m h → 0 ≤ k < 128 → only_in a (a + 8) m m1 → slab_step m m1 (write_le 8 m1 (k_nb_used h) n) h.
Proof.
  intros Hwf Hk [Hout Hdom]. unfold a, block_addr in Hout. simpl in Hout. set (m2 := write_le 8 m1 _ _).
  assert (∀ a, h ≤ a < h + 72 → m1 !! a = m !! a) as Hhead by (intros b Hb; apply Hout; zlia).
  assert (slab_wf m1 h) as Hwf1 by (eapply slab_wf_fields; [exact Hdom| |exact Hwf]; intros; apply Hhead; lia).
  assert (∀ a, ¬ h + 8 ≤ a < h + 16 → m2 !! a = m1 !! a) as Hm2.
  { intros b Hb. unfold m2. apply write_le_lookup_out. unfold k_nb_used. lia. }
  assert (∀ i, is_Some (m2 !! i) ↔ is_Some (m1 !! i)) as Hdom2.
  { intros i. unfold m2. rewrite write_le_is_Some. split; [|by left]. intros [?|Hi]; [done|].
    apply (sw_mapped _ _ Hwf1). unfold k_nb_used in Hi. lia. }
  split; [done|eapply slab_wf_fields; [exact Hdom2| |exact Hwf1]; intros; apply Hm2; lia|..].
  - apply load_le_ext. intros i Hi. apply Hhead. unfold k_nb_used in Hi. lia.
  - intros i. by rewrite Hdom2, Hdom.
  - intros b Hb. unfold slab_meta in Hb. rewrite Hm2 by lia. apply Hout. zlia.
  - intros j Hj. unfold is_free. rewrite (load_le_ext 8 m1 m2); [done|].
    intros i Hi. apply Hm2. unfold block_addr in Hi. simpl in Hi. zlia.
Qed.

(** The index of the lowest free object. *)
Lemma slab_least n m h : slab_room (Datatypes.S n) m h →
  ∃ j, 0 ≤ j < REGIONS_PER_BLOCK ∧ is_free m (slab_bm h) j = true ∧ ∀ k, 0 ≤ k < j → is_free m (slab_bm h) k = false.
Proof.
  intros (l & _ & Hlen & Hl). destruct l as [|k l]; [done|]. destruct (Hl k) as [Hk Hkf]; [by left|].
  unfold REGIONS_PER_BLOCK in *. destruct (least_free m (slab_bm h) 128) as (j & Hj & Hjf & Hjmin); [exists k; split; [lia|done]|].
  exists j. split; [|done]. destruct (decide (j ≤ k)) as [|Hn]; [lia|]. rewrite Hjmin in Hkf; [done|lia].
Qed.

(** An object less is free, and one more in use. *)
Lemma slab_taken n m m2 h j :
  slab_room (Datatypes.S n) m h → 0 ≤ j < REGIONS_PER_BLOCK → is_free m (slab_bm h) j = true →
  (∀ k, 0 ≤ k < 128 → is_free m2 (slab_bm h) k = is_free m (slab_bm h) k && negb (k =? j)) →
  slab_room n m2 h ∧ ¬ slab_live m h (slab_object h j) ∧
  ∀ q, slab_live m2 h q ↔ slab_live m h q ∨ q = slab_object h j.
Proof.
  intros (l & Hnd & Hlen & Hl) Hj Hjf Hfree. unfold REGIONS_PER_BLOCK in *. split; [|split].
  - destruct (NoDup_less l n j Hnd Hlen) as (l' & ? & ? & Hl'). exists l'. split_and!; [done..|].
    intros k Hk. destruct (Hl' k Hk) as [Hkl Hkj]. destruct (Hl k Hkl) as [Hk98 Hkf]. split; [done|].
    rewrite Hfree, Hkf by lia. simpl. by apply negb_true_iff, Z.eqb_neq.
  - intros (k & Hk & Hp & Hkf). unfold slab_object, REGION_SIZE in Hp. assert (k = j) as -> by lia. congruence.
  - intros q. unfold slab_live, REGIONS_PER_BLOCK. split.
    + intros (k & Hk & -> & Hkf). rewrite Hfree in Hkf by lia.
      destruct (decide (k = j)) as [->|Hne]; [by right|]. left. exists k. split; [done|]. split; [done|].
      by rewrite (proj2 (Z.eqb_neq _ _) Hne), andb_true_r in Hkf.
    + intros [(k & Hk & -> & Hkf)| ->].
      * exists k. split; [done|]. split; [done|]. by rewrite Hfree, Hkf by lia.
      * exists j. split; [lia|]. split; [done|]. rewrite Hfree, Z.eqb_refl by lia. by rewrite andb_false_r.
Qed.

(** Taking the first free object. *)
Lemma slab_alloc n s (h := region_slab s) :
  slab_wf (st_mem s) h → slab_room (Datatypes.S n) (st_mem s) h →
  wp (block_alloc TYPE_VMM_REGION) s (λ p s', ∃ m, s' = st_put m s ∧ slab_wf m h ∧ slab_room n m h ∧
    (∀ i, is_Some (m !! i) ↔ is_Some (st_mem s !! i)) ∧
    (∀ a, ¬ slab_meta h a → m !! a = st_mem s !! a) ∧
    ¬ slab_live (st_mem s) h p ∧ ∀ q, slab_live m h q ↔ slab_live (st_mem s) h q ∨ q = p).
Proof.
  intros Hwf Hroom. pose proof (sw_range _ _ Hwf) as [Hh Hhi]. pose proof (slab_bm_wf _ _ Hwf) as Hbm.
  destruct (slab_least n _ _ Hroom) as (j & Hj & Hjf & Hjmin). unfold REGIONS_PER_BLOCK in Hj.
  destruct (find_and_set_first (slab_bm h) s j Hbm) as (m1 & Hrun & Hin & Hbits); [change (capacity (slab_bm h)) with 128; lia|done|done|].
  rewrite Z.min_l in Hrun by (simpl; unfold REGIONS_PER_BLOCK; lia).
  pose proof (λ c, slab_step_ok _ m1 h j c Hwf ltac:(lia) Hin) as Hstep. pose proof (ss_wf1 _ _ _ _ (Hstep 0)) as Hwf1.
  pose proof (slab_object_range h j Hh Hhi Hj) as (_ & _ & Heq).
  assert (is_Some (load_le 8 m1 (k_nb_used h))) as [nb Hnb].
  { apply load_le_is_Some. eapply mapped_sub; [apply (sw_mapped _ _ Hwf1)|unfold k_nb_used; lia..]. }
  unfold block_alloc. wp_step. apply wp_block_head. fold h.
  rewrite (proj2 (Z.eqb_neq h NULL)) by (unfold NULL; lia). wp_steps. apply wp_block_head. fold h.
  unfold mem_fuel. wp_steps. cbn [loop]. rewrite (proj2 (Z.eqb_neq h NULL)) by (unfold NULL; lia).
  wp_step. wp_step. eapply wp_read_bitmap; [exact Hwf|done|].
  wp_step. eapply wp_eq; [exact Hrun|].
  wp_step. eapply wp_load; [rewrite st_mem_put; apply (sw_len _ _ Hwf1)|].
  rewrite (proj2 (Z.eqb_neq _ _)) by (unfold REGIONS_PER_BLOCK; lia). simpl.
  wp_step. eapply wp_load; [by rewrite st_mem_put|].
  wp_step. apply wp_store; [by rewrite st_mem_put, Hnb|]. rewrite st_mem_put, st_put_put.
  destruct (Hstep (u64 (nb + 1))) as [_ Hwf2 _ Hdom Hout Hfree].
  wp_step. eapply wp_load; [rewrite st_mem_put; apply (sw_objects _ _ Hwf2)|].
  wp_step. eapply wp_load; [rewrite st_mem_put; apply (sw_size _ _ Hwf2)|].
  wp_steps. rewrite Heq. eexists. split; [done|]. split; [exact Hwf2|].
  destruct (slab_taken n (st_mem s) (write_le 8 m1 (k_nb_used h) (u64 (nb + 1))) h j Hroom Hj Hjf) as (? & ? & ?); [|done].
  intros k Hk. by rewrite Hfree, Hbits.
Qed.

Lemma slab_live_range m h p : slab_wf m h → slab_live m h p → h + 72 ≤ p ∧ p + REGION_SIZE ≤ h + 3992.
Proof.
  intros Hwf (k & Hk & -> & _). destruct (sw_range _ _ Hwf).
  by pose proof (slab_object_range h k ltac:(done) ltac:(done) Hk) as (? & ? & _).
Qed.

(** [block_free] of an object, when the count does not reach 0. *)
Lemma slab_free_run s k nb m1 (h := region_slab s) :
  slab_wf (st_mem s) h → 0 ≤ k < REGIONS_PER_BLOCK → load_le 8 (st_mem s) (k_nb_used h) = Some nb → nb ≠ 1 →
  bitmap_unset (slab_bm h) k s = Done (tt, st_put m1 s) →
  only_in (block_addr (slab_bm h) (k / 64)) (block_addr (slab_bm h) (k / 64) + 8) (st_mem s) m1 →
  block_free (slab_object h k) TYPE_VMM_REGION s = Done (tt, st_put (write_le 8 m1 (k_nb_used h) (u64 (nb - 1))) s).
Proof.
  intros Hwf Hk Hnb Hnb1 Hrun Hin. pose proof (sw_range _ _ Hwf) as [Hh Hhi].
  pose proof (slab_object_range h k Hh Hhi Hk) as (Hlo & Hup & _). unfold REGIONS_PER_BLOCK in Hk.
  pose proof (load_le_range _ _ _ _ Hnb) as Hnbr. change (256 ^ Z.of_nat 8) with (2 ^ 64) in Hnbr.
  pose proof (λ c, slab_step_ok _ m1 h k c Hwf ltac:(lia) Hin) as Hstep.
  enough (wp (block_free (slab_object h k) TYPE_VMM_REGION) s (λ _ s', s' = st_put (write_le 8 m1 (k_nb_used h) (u64 (nb - 1))) s))
    as ([] & ? & Hdone & ->)%wp_Done by done.
  unfold block_free. wp_step. apply wp_block_head. fold h. unfold mem_fuel. wp_steps. cbn [loop].
  rewrite (proj2 (Z.eqb_neq h NULL)) by (unfold NULL; lia).
  wp_step. wp_step. eapply wp_load; [apply (sw_objects _ _ Hwf)|].
  wp_step. eapply wp_load; [apply (sw_max _ _ Hwf)|]. wp_step. eapply wp_load; [apply (sw_size _ _ Hwf)|].
  replace (_ || _) with false.
  2: { symmetry. apply orb_false_iff. change (u64 (REGIONS_PER_BLOCK * REGION_SIZE)) with 3920.
       unfold BLOCK_SIZE. rewrite u64_small by lia. split; apply Z.ltb_ge; lia. }
  wp_step. eapply wp_read_bitmap; [exact Hwf|done|]. wp_step. change (REGION_SIZE =? 0) with false.
  cbn beta iota. wp_step. replace ((slab_object h k - (h + BLOCK_SIZE)) / REGION_SIZE) with k
    by (unfold slab_object, REGION_SIZE; zlia).
  wp_step. eapply wp_eq; [exact Hrun|].
  wp_step. eapply wp_load; [by rewrite st_mem_put, (ss_count _ _ _ _ (Hstep 0))|].
  wp_step. apply wp_store; [by rewrite st_mem_put, (ss_count _ _ _ _ (Hstep 0)), Hnb|]. rewrite st_mem_put, st_put_put.
  wp_step. eapply wp_load; [rewrite st_mem_put; apply load_write_same|].
  change (256 ^ Z.of_nat 8) with (2 ^ 64). fold (u64 (u64 (nb - 1))). rewrite u64_idemp.
  rewrite (proj2 (Z.eqb_neq _ _)) by (unfold u64; zlia). by wp_steps.
Qed.

(** Giving back an object that [bitmap_unset] frees alone. *)
Lemma slab_free n s p (h := region_slab s) :
  slab_wf (st_mem s) h → slab_room n (st_mem s) h → slab_live (st_mem s) h p → slab_freeable (st_mem s) h p →
  wp (block_free p TYPE_VMM_REGION) s (λ _ s', ∃ m, s' = st_put m s ∧ slab_wf m h ∧ slab_room n m h ∧
    (∀ i, is_Some (m !! i) ↔ is_Some (st_mem s !! i)) ∧
    (∀ a, ¬ slab_meta h a → m !! a = st_mem s !! a) ∧
    ∀ q, slab_live m h q ↔ slab_live (st_mem s) h q ∧ q ≠ p).
Proof.
  intros Hwf (l & Hnd & Hlen & Hl) _ (k & nb & Hk & -> & H33 & Hnb & Hnb1).
  pose proof (slab_bm_wf _ _ Hwf) as Hbm.
  destruct (unset_low (slab_bm h) s k Hbm) as (m1 & Hrun & Hin & Hbits); [done|done|].
  eapply wp_eq; [by apply slab_free_run|]. unfold REGIONS_PER_BLOCK in Hk.
  destruct (slab_step_ok _ m1 h k (u64 (nb - 1)) Hwf ltac:(lia) Hin) as [_ Hwf2 _ Hdom Hout Hfree2].
  assert (∀ i, 0 ≤ i < 128 → is_free (write_le 8 m1 (k_nb_used h) (u64 (nb - 1))) (slab_bm h) i =
    is_free (st_mem s) (slab_bm h) i || (i =? k)) as Hfree by (intros i Hi; by rewrite Hfree2, Hbits).
  eexists. split_and!; [done|exact Hwf2| |exact Hdom|exact Hout|].
  - exists l. split_and!; [done..|]. intros i Hi. destruct (Hl i Hi) as [Hi98 Hif]. split; [done|].
    by rewrite Hfree, Hif by (unfold REGIONS_PER_BLOCK in *; lia).
  - intros q. unfold slab_live, REGIONS_PER_BLOCK. split.
    + intros (i & Hi & -> & Hif). rewrite Hfree in Hif by lia. apply orb_false_iff in Hif as [Hif Hik%Z.eqb_neq].
      split; [by exists i|]. unfold slab_object, REGION_SIZE. lia.
    + intros [(i & Hi & -> & Hif) Hne]. exists i. split; [done|]. split; [done|]. rewrite Hfree, Hif by lia.
      apply Z.eqb_neq. by intros ->.
Qed.

(** The object numbered 32 modulo 64 takes the 32 before it along. *)
Lemma slab_free_32 s k nb (h := region_slab s) :
  slab_wf (st_mem s) h → 0 ≤ k < REGIONS_PER_BLOCK → k mod 64 = 32 →
  load_le 8 (st_mem s) (k_nb_used h) = Some nb → nb ≠ 1 →
  ∃ m, block_free (slab_object h k) TYPE_VMM_REGION s = Done (tt, st_put m s) ∧ slab_wf m h ∧
    (∀ a, ¬ slab_meta h a → m !! a = st_mem s !! a) ∧
    ∀ q, slab_live m h q ↔ slab_live (st_mem s) h q ∧ (q < slab_object h (k - 32) ∨ slab_object h k < q).
Proof.
  intros Hwf Hk H32 Hnb Hnb1.
  destruct (unset_32 (slab_bm h) s k (slab_bm_wf _ _ Hwf)) as (m1 & Hrun & Hin & Hbits); [done|done|].
  eexists. split; [by apply slab_free_run|]. unfold REGIONS_PER_BLOCK in Hk.
  destruct (slab_step_ok _ m1 h k (u64 (nb - 1)) Hwf ltac:(lia) Hin) as [_ Hwf2 _ _ Hout Hfree2].
  split; [exact Hwf2|]. split; [exact Hout|]. intros q.
  assert (∀ i, 0 ≤ i < 128 → is_free (write_le 8 m1 (k_nb_used h) (u64 (nb - 1))) (slab_bm h) i = false ↔
    is_free (st_mem s) (slab_bm h) i = false ∧ (i < k - 32 ∨ k < i)) as Hfree.
  { intros i Hi. rewrite Hfree2, Hbits, orb_false_iff, andb_false_iff, !Z.leb_gt by done. done. }
  unfold slab_live, REGIONS_PER_BLOCK, slab_object, REGION_SIZE. split.
  - intros (i & Hi & -> & [Hif Hik]%Hfree); [|lia]. split; [by exists i|lia].
  - intros [(i & Hi & -> & Hif) Hne]. exists i. split; [done|]. split; [done|]. apply Hfree; [lia|]. split; [done|lia].
Qed.

(** The real allocator, while the block in use has room. *)
#[export] Program Instance region_allocator : ObjectAllocator S := {|
  obj_alloc := block_alloc;
  obj_free := block_free;
  oa_ok n s := slab_wf (st_mem s) (region_slab s) ∧ slab_room n (st_mem s) (region_slab s);
  oa_own s a := region_slab s ≤ a < region_slab s + 4096;
  oa_meta s a := slab_meta (region_slab s) a;
  oa_live s p := slab_live (st_mem s) (region_slab s) p;
  oa_freeable s p := slab_freeable (st_mem s) (region_slab s) p;
|}.
Next Obligation.
  intros n s [Hwf (l & Hnd & Hlen & Hl)]. split; [done|].
  destruct (NoDup_less l n 0 Hnd Hlen) as (l' & ? & ? & Hl'). exists l'. split_and!; [done..|].
  intros k Hk. by apply Hl, Hl'.
Qed.
Next Obligation. unfold slab_meta. intros s a Ha. lia. Qed.
Next Obligation.
  intros n s p [Hwf _] Hlive. pose proof (slab_live_range _ _ _ Hwf Hlive). destruct (sw_range _ _ Hwf).
  unfold REGION_SIZE in *. split_and!; [lia|lia| |intros a Ha; unfold slab_meta; lia].
  eapply mapped_sub; [apply (sw_mapped _ _ Hwf)|lia..].
Qed.
Next Obligation.
  intros n s p q _ (k & Hk & -> & _) (i & Hi & -> & _) Hne. unfold slab_object, REGION_SIZE in *. lia.
Qed.
Next Obligation.
  intros n s m [Hwf (l & Hnd & Hlen & Hl)] Hdom Hm. unfold region_slab in *. rewrite vmm_g_mem, st_mem_put.
  set (h := g_region_blocks _) in *.
  assert (∀ k, 0 ≤ k < REGIONS_PER_BLOCK → is_free m (slab_bm h) k = is_free (st_mem s) (slab_bm h) k) as Hf.
  { intros k Hk. apply slab_free_ext; [done|]. unfold REGIONS_PER_BLOCK in Hk. lia. }
  split_and!; [|exists l; split_and!; [done..|]|..].
  - eapply slab_wf_fields; [done| |done]. intros a Ha. apply Hm. left. lia.
  - intros k Hk. destruct (Hl k Hk) as [? <-]. split; [done|]. by apply Hf.
  - intros p. unfold slab_live. split; intros (k & Hk & ? & Hkf); exists k; (split; [done|]; split; [done|]);
      by rewrite Hf in *.
  - intros p. unfold slab_freeable.
    assert (load_le 8 m (k_nb_used h) = load_le 8 (st_mem s) (k_nb_used h)) as ->; [|done].
    apply slab_load_ext; [done|lia..].
Qed.
Next Obligation.
  intros m s a. unfold region_slab. by rewrite vmm_g_mem.
Qed.
Next Obligation.
  intros n s [Hwf Hroom]. eapply wp_mono; [by apply (slab_alloc n)|].
  intros p s' (m & -> & ? & ? & ? & ? & ? & ?). exists m. unfold region_slab in *. rewrite vmm_g_mem, st_mem_put. done.
Qed.
Next Obligation.
  intros n s p [Hwf Hroom] Hlive Hfree. eapply wp_mono; [by apply (slab_free n)|].
  intros _ s' (m & -> & ? & ? & ? & ? & ?). exists m. unfold region_slab in *. rewrite vmm_g_mem, st_mem_put. done.
Qed.
End slab.
