(* ===== verification/Vmm.v ===== *)
(** * kernel/mm/vmm (second part): address spaces as lists of regions

    A [struct vmm_space] is the address of its page directory and a doubly
    linked list of [struct vmm_region], sorted by address. *)
From stdpp Require Import sorting.
From S2P Require Import Prelude CInt Mem CString Bitmap Pmm Mmu VmmSlab.

(** ** The operations *)
Section defs.
Context {CS : CSem} {S : Type} {MS : MemState S} {PS : PmmState S} {VS : VmmState S}
  {OA : ObjectAllocator S}.
(** Assembly: [invlpg] and the load of CR3. *)
Context (invlpg paging_load : Z → M S unit).

Definition vmm_create_region (space va_start va_stop flags prev next : Z) : M S Z :=
  region ← obj_alloc TYPE_VMM_REGION;
  (if prev =? NULL then wr64 (s_region space) region else mret tt) ;;
  wr64 (g_va_start region) va_start ;;
  wr64 (g_va_stop region) va_stop ;;
  wr64 (g_flags region) flags ;;
  wr64 (g_next region) next ;;
  wr64 (g_prev region) prev ;;
  p ← rd64 (g_prev region);
  (if negb (p =? NULL) then wr64 (g_next p) region else mret tt) ;;
  n ← rd64 (g_next region);
  (if negb (n =? NULL) then wr64 (g_prev n) region else mret tt) ;;
  mret region.

Definition vmm_remove_region (space region : Z) : M S unit :=
  prev ← rd64 (g_prev region);
  next ← rd64 (g_next region);
  (if (prev =? NULL) && (next =? NULL) then wr64 (s_region space) NULL
   else
     first ← rd64 (s_region space);
     (if first =? region then next ← rd64 (g_next region); wr64 (s_region space) next else mret tt) ;;
     prev ← rd64 (g_prev region);
     (if negb (prev =? NULL) then next ← rd64 (g_next region); wr64 (g_next prev) next else mret tt) ;;
     next ← rd64 (g_next region);
     (if negb (next =? NULL) then prev ← rd64 (g_prev region); wr64 (g_prev next) prev else mret tt)) ;;
  obj_free region TYPE_VMM_REGION.

(** [region != NULL && va == region->field && flags == region->flags] *)
Definition connected (region field va flags : Z) : M S bool :=
  if region =? NULL then mret false
  else
    v ← rd64 field;
    if negb (va =? v) then mret false
    else f ← rd64 (g_flags region); mret (flags =? f).

Definition vmm_insert_range (space prev next va_start va_stop flags : Z) : M S Z :=
  (if negb (next =? NULL) then
     start ← rd64 (g_va_start next);
     if start <? va_stop then panic "vmm_insert_range: overlap" else mret tt
   else mret tt) ;;
  (if negb (prev =? NULL) then
     stop ← rd64 (g_va_stop prev);
     if va_start <? stop then panic "vmm_insert_range: overlap" else mret tt
   else mret tt) ;;
  connected_with_prev ← connected prev (g_va_stop prev) va_start flags;
  connected_with_next ← connected next (g_va_start next) va_stop flags;
  if connected_with_prev && connected_with_next then
    stop ← rd64 (g_va_stop next);
    wr64 (g_va_stop prev) stop ;;
    vmm_remove_region space next ;;
    mret prev
  else if (connected_with_prev : bool) then
    wr64 (g_va_stop prev) va_stop ;; mret prev
  else if (connected_with_next : bool) then
    wr64 (g_va_start next) va_start ;; mret next
  else vmm_create_region space va_start va_stop flags prev next.

(** The loop of [vmm_add_range]: the neighbours of the new range. *)
Definition find_neighbours (space va_start va_stop : Z) : M S (Z * Z) :=
  first ← rd64 (s_region space);
  fuel ← mem_fuel;
  loop fuel (λ '(prev, cur),
    if cur =? NULL then mret (inr (prev, cur))
    else
      after_prev ← (if prev =? NULL then mret true else start ← rd64 (g_va_start prev); mret (start <? va_start));
      stop ← rd64 (g_va_stop cur);
      if after_prev && (va_stop <? stop) then mret (inr (prev, cur))
      else next ← rd64 (g_next cur); mret (inl (cur, next))) (NULL, first).

Definition vmm_add_range (space va_start va_stop flags : Z) : M S Z :=
  first ← rd64 (s_region space);
  if first =? NULL then vmm_create_region space va_start va_stop flags NULL NULL
  else
    '(prev, cur) ← find_neighbours space va_start va_stop;
    vmm_insert_range space prev cur va_start va_stop flags.

(** The loop of [vmm_remove_range]: the region that contains [va_start]. *)
Definition find_containing (space va_start : Z) : M S Z :=
  first ← rd64 (s_region space);
  fuel ← mem_fuel;
  loop fuel (λ region,
    if region =? NULL then mret (inr NULL)
    else
      start ← rd64 (g_va_start region);
      stop ← rd64 (g_va_stop region);
      if (start <=? va_start) && (va_start <? stop) then mret (inr region)
      else next ← rd64 (g_next region); mret (inl next)) first.

Definition vmm_remove_range (space va_start va_stop : Z) : M S unit :=
  region ← find_containing space va_start;
  if region =? NULL then panic "vmm_remove_range: not region matching va range"
  else
    stop ← rd64 (g_va_stop region);
    if stop <? va_stop then panic "vmm_remove_range: can't free non contiguous va"
    else
      start ← rd64 (g_va_start region);
      if (start =? va_start) && (stop =? va_stop) then vmm_remove_region space region
      else if start =? va_start then wr64 (g_va_start region) va_stop
      else if stop =? va_stop then wr64 (g_va_stop region) va_start
      else
        flags ← rd64 (g_flags region);
        region_va_start ← rd64 (g_va_start region);
        region_va_stop ← rd64 (g_va_stop region);
        vmm_remove_region space region ;;
        vmm_add_range space region_va_start va_start flags ;;
        vmm_add_range space va_stop region_va_stop flags ;;
        mret tt.

Definition vmm_create_space (va_start va_stop : Z) : M S Z :=
  space ← obj_alloc TYPE_VMM_SPACE;
  wr64 (s_region space) NULL ;;
  mmu_init space ;;
  mret space.

Definition vmm_delete_space (space : Z) : M S unit :=
  fuel ← mem_fuel;
  loop fuel (λ _,
    tmp ← rd64 (s_region space);
    if tmp =? NULL then mret (inr tt)
    else
      next ← rd64 (g_next tmp);
      wr64 (s_region space) next ;;
      obj_free tmp TYPE_VMM_REGION ;;
      mret (inl tt)) tt ;;
  obj_free space TYPE_VMM_SPACE.

(** The search loop of [vmm_alloc_between]. *)
Definition find_gap (space lower_va size_in_bytes padding : Z) : M S (Z * Z * Z) :=
  first ← rd64 (s_region space);
  fuel ← mem_fuel;
  loop fuel (λ '(cur, prev, va),
    if cur =? NULL then mret (inr (cur, prev, va))
    else
      stop ← rd64 (g_va_stop cur);
      '(va, found) ← (if stop <? lower_va then mret (va, false)
        else
          let va := MAX va lower_va in
          start ← rd64 (g_va_start cur);
          mret (va, u64 (size_in_bytes + padding) <=? u64 (start - va)));
      if (found : bool) then mret (inr (cur, prev, va))
      else
        va ← rd64 (g_va_stop cur);
        next ← rd64 (g_next cur);
        mret (inl (next, cur, va))) (first, NULL, lower_va).

(** The mapping loop of [vmm_alloc_between] and [vmm_alloc_at]: to the end of
    the region. *)
Definition map_fresh_pages (space region va flags : Z) : M S unit :=
  for_pages va (rd64 (g_va_stop region)) (λ _va,
    pa ← pmm_xalloc;
    old ← mmu_map_page space _va pa flags;
    if negb (old =? 0) then panic "vmm_alloc: overwrite of an already used virtual address" else mret tt).

Definition vmm_alloc_between (space lower_va upper_va size_in_pages flags : Z) : M S Z :=
  let size_in_bytes := u64 (size_in_pages * PAGE_SIZE_IN_BYTES) in
  let padding := 2 * PAGE_SIZE_IN_BYTES in
  '(cur, prev, va) ← find_gap space lower_va size_in_bytes padding;
  if upper_va <=? u64 (va + size_in_bytes + padding) then mret NULL
  else
    let va := u64 (va + PAGE_SIZE_IN_BYTES) in
    region ← vmm_insert_range space prev cur va (u64 (va + size_in_bytes)) flags;
    if region =? NULL then mret NULL
    else
      map_fresh_pages space region va flags ;;
      mret va.

Definition vmm_alloc_at (space va size_in_pages flags : Z) : M S Z :=
  if va =? NULL then mret NULL
  else
    region ← vmm_add_range space va (u64 (va + u64 (size_in_pages * PAGE_SIZE_IN_BYTES))) flags;
    if region =? NULL then mret NULL
    else
      map_fresh_pages space region va flags ;;
      mret va.

Definition vmm_map (space va pa flags : Z) : M S Z :=
  region ← vmm_add_range space va (u64 (va + PAGE_SIZE_IN_BYTES)) flags;
  if region =? NULL then mret NULL
  else
    old ← mmu_map_page space va pa flags;
    if negb (old =? 0) then panic "vmm_map: overwrite of an already used virtual address" else mret va.

Definition vmm_free (space va size_in_pages : Z) : M S unit :=
  let va_stop := u64 (va + u64 (size_in_pages * PAGE_SIZE_IN_BYTES)) in
  vmm_remove_range space va va_stop ;;
  for_pages va (mret va_stop) (λ _va,
    old ← mmu_unmap_page invlpg space _va;
    if old =? 0 then panic "vmm_free: trying to unmap a non mapped va" else mret tt).

Definition kspace : M S Z := gets (λ s, g_kspace (vmm_g s)).

(** The fuel is one round per page of the region, and one to leave. *)
Definition vmm_init_phys_contiguous_region (region pa : Z) : M S unit :=
  start ← rd64 (g_va_start region);
  stop ← rd64 (g_va_stop region);
  loop (Datatypes.S (Z.to_nat ((stop - start) / PAGE_SIZE_IN_BYTES + 1))) (λ offset,
    start ← rd64 (g_va_start region);
    stop ← rd64 (g_va_stop region);
    if u64 (start + offset) <? stop then
      start ← rd64 (g_va_start region);
      let _va := u64 (start + offset) in
      let _pa := u64 (pa + offset) in
      space ← kspace;
      flags ← rd64 (g_flags region);
      old ← mmu_map_page space _va _pa flags;
      (if negb (old =? 0) then panic "vmm_init: mapping an already mapped entry" else mret tt) ;;
      mret (inl (u64 (offset + PAGE_SIZE_IN_BYTES)))
    else mret (inr tt)) 0.

Definition set_kernel_dm_stop (a : Z) : M S unit :=
  '(mk_vmm r sp k _) ← gets vmm_g; modify (vmm_put (mk_vmm r sp k a)).
Definition set_kspace (a : Z) : M S unit :=
  '(mk_vmm r sp _ d) ← gets vmm_g; modify (vmm_put (mk_vmm r sp a d)).

(** The number of pages of the memory map bounds the rounds. *)
Definition pmap_pages : M S nat :=
  gets (λ s, Z.to_nat (foldr (λ r n, r_size_in_pages r + n) 0 (g_pmap (pmm_g s)))).

Definition vmm_init_direct_mapping : M S unit :=
  addr ← pmm_next_phys_page 0;
  fuel ← pmap_pages;
  loop (Datatypes.S fuel) (λ addr,
    let flags := if decide (pa_type addr = PMM_REGION_AVAILABLE) then PAGE_KERNEL_RW else PAGE_KERNEL_RO in
    space ← kspace;
    region ← vmm_add_range space (DM_P2V (pa_pa addr)) (u64 (DM_P2V (pa_pa addr) + PAGE_SIZE_IN_BYTES)) flags;
    (if region =? NULL then panic "DAM" else mret tt) ;;
    set_kernel_dm_stop (DM_P2V (pa_pa addr)) ;;
    space ← kspace;
    old ← mmu_map_page space (DM_P2V (pa_pa addr)) (pa_pa addr) flags;
    (if negb (old =? 0) then panic "vmm_init: mapping an already mapped entry" else mret tt) ;;
    addr ← pmm_next_phys_page (pa_pa addr);
    if negb (pa_pa addr =? 1) then mret (inl addr) else mret (inr tt)) addr.

(** [DEBUG]: reads a byte of every page of the writable regions. *)
Definition vmm_probe_space (space : Z) : M S unit :=
  first ← rd64 (s_region space);
  fuel ← mem_fuel;
  loop fuel (λ region,
    if region =? NULL then mret (inr tt)
    else
      flags ← rd64 (g_flags region);
      (if (flags =? PAGE_KERNEL_RO) || (flags =? PAGE_USER_RO) then mret tt
       else
         start ← rd64 (g_va_start region);
         for_pages start (rd64 (g_va_stop region)) (λ addr, rd8 addr ;; mret tt)) ;;
      next ← rd64 (g_next region);
      mret (inl next)) first.

(** The addresses are the symbols of kernel.ld; [debug] is the build option. *)
Definition vmm_init (debug : bool) (PML4 kernel_vma_start kernel_vma_rw_start kernel_vma_rw_stop
    kernel_vma_ro_start kernel_vma_ro_stop : Z) : M S unit :=
  space ← vmm_create_space HIGHER_HALF_START HIGHER_HALF_STOP;
  set_kspace space ;;
  space ← kspace;
  kuefi ← vmm_add_range space kernel_vma_rw_start kernel_vma_rw_stop PAGE_KERNEL_RW;
  space ← kspace;
  kcode ← vmm_add_range space kernel_vma_ro_start kernel_vma_ro_stop PAGE_KERNEL_RO;
  space ← kspace;
  stop ← pmm_vma_stop;
  kdata ← vmm_add_range space kernel_vma_ro_stop stop PAGE_KERNEL_RW;
  start ← rd64 (g_va_start kuefi);
  vmm_init_phys_contiguous_region kuefi (V2P start) ;;
  start ← rd64 (g_va_start kcode);
  vmm_init_phys_contiguous_region kcode (V2P start) ;;
  start ← rd64 (g_va_start kdata);
  vmm_init_phys_contiguous_region kdata (V2P start) ;;
  vmm_init_direct_mapping ;;
  space ← kspace;
  (if debug then mmu_test_kernel_mapping PML4 kernel_vma_start space else mret tt) ;;
  mmu_switch_space paging_load space ;;
  if debug then vmm_probe_space space else mret tt.

Definition vmm_copy_regions (dst src : Z) : M S unit :=
  first ← rd64 (s_region src);
  fuel ← mem_fuel;
  loop fuel (λ region,
    if region =? NULL then mret (inr tt)
    else
      start ← rd64 (g_va_start region);
      stop ← rd64 (g_va_stop region);
      flags ← rd64 (g_flags region);
      r ← vmm_add_range dst start stop flags;
      (if r =? NULL then panic "vmm_copy_regions: copy on region possibly corrupted" else mret tt) ;;
      mmu_copy_pages dst src region ;;
      next ← rd64 (g_next region);
      mret (inl next)) first.
End defs.

(** ** The abstract view: a list of regions *)

(** A region and the address of its [struct vmm_region]. *)
Record region : Type := mk_vr { vr_addr : Z; vr_start : Z; vr_stop : Z; vr_flags : Z }.

Abbreviation addrs := (fmap (M := list) vr_addr).

Definition hd_addr (l : list region) (n : Z) : Z := match l with [] => n | r :: _ => vr_addr r end.
Fixpoint last_addr (p : Z) (l : list region) : Z :=
  match l with [] => p | r :: l' => last_addr (vr_addr r) l' end.

(** The structure of [r] in memory, between the structures [prev] and [next]. *)
Record node (m : mem) (r : region) (prev next : Z) : Prop := {
  nd_start : load_le 8 m (g_va_start (vr_addr r)) = Some (vr_start r);
  nd_stop : load_le 8 m (g_va_stop (vr_addr r)) = Some (vr_stop r);
  nd_next : load_le 8 m (g_next (vr_addr r)) = Some next;
  nd_prev : load_le 8 m (g_prev (vr_addr r)) = Some prev;
  nd_flags : load_le 8 m (g_flags (vr_addr r)) = Some (vr_flags r);
}.

(** [l] is linked in memory, between [p] and [n]. *)
Fixpoint seg (m : mem) (p : Z) (l : list region) (n : Z) : Prop :=
  match l with
  | [] => True
  | r :: l' => node m r p (hd_addr l' n) ∧ seg m (vr_addr r) l' n
  end.

(** Address [a] is mapped with flags [f]. *)
Definition covers (l : list region) (a f : Z) : Prop :=
  ∃ r, r ∈ l ∧ vr_start r ≤ a < vr_stop r ∧ vr_flags r = f.

(** The regions are not empty, in order, and do not overlap. *)
Definition in_order (l : list region) : Prop :=
  Forall (λ r, 0 ≤ vr_start r < vr_stop r) l ∧ StronglySorted (λ r r', vr_stop r ≤ vr_start r') l.

Definition separate (x y : Z) : Prop := x + REGION_SIZE ≤ y ∨ y + REGION_SIZE ≤ x.

(** ** Lemmas on linked regions *)
Lemma hd_addr_app l1 l2 n : hd_addr (l1 ++ l2) n = hd_addr l1 (hd_addr l2 n).
Proof. by destruct l1. Qed.

Lemma last_addr_app p l1 l2 : last_addr p (l1 ++ l2) = last_addr (last_addr p l1) l2.
Proof. revert p. induction l1 as [|r l1 IH]; intros p; [done|]. apply IH. Qed.

Lemma seg_app m p l1 l2 n :
  seg m p (l1 ++ l2) n ↔ seg m p l1 (hd_addr l2 n) ∧ seg m (last_addr p l1) l2 n.
Proof.
  revert p. induction l1 as [|r l1 IH]; intros p; simpl; [tauto|]. rewrite IH, hd_addr_app. tauto.
Qed.

Lemma node_frame m m' r p n :
  (∀ a, vr_addr r ≤ a < vr_addr r + REGION_SIZE → m' !! a = m !! a) → node m r p n → node m' r p n.
Proof.
  unfold REGION_SIZE. intros Hm [H1 H2 H3 H4 H5]. unfold g_va_start, g_va_stop, g_next, g_prev, g_flags in *.
  split; (erewrite load_le_ext; [eassumption|]); intros i Hi; apply Hm;
    unfold g_va_start, g_va_stop, g_next, g_prev, g_flags in *; lia.
Qed.

Lemma seg_frame m m' p l n :
  (∀ r a, r ∈ l → vr_addr r ≤ a < vr_addr r + REGION_SIZE → m' !! a = m !! a) → seg m p l n → seg m' p l n.
Proof.
  revert p. induction l as [|r l IH]; intros p Hm; [done|]. intros [Hn Hs]. split.
  - eapply node_frame; [|done]. intros a. apply Hm. by left.
  - apply IH; [|done]. intros r' a Hr'. apply Hm. by right.
Qed.

(** A write to a structure apart from those of [l]. *)
Lemma seg_write m p l n x o v :
  (∀ r, r ∈ l → separate x (vr_addr r)) → 0 ≤ o → o + 8 ≤ REGION_SIZE →
  seg m p l n → seg (write_le 8 m (x + o) v) p l n.
Proof.
  intros Hx ??. apply seg_frame. intros r a Hr Ha. apply write_le_lookup_out.
  destruct (Hx r Hr); unfold REGION_SIZE in *; lia.
Qed.

Ltac node_writes :=
  unfold g_va_start, g_va_stop, g_next, g_prev, g_flags in *;
  first [ rewrite load_write_same, Z.mod_small; [done|assumption]
        | rewrite load_write_ne by lia; assumption ].

Lemma node_set_next m r p n n' :
  0 ≤ n' < 2 ^ 64 → node m r p n → node (write_le 8 m (g_next (vr_addr r)) n') r p n'.
Proof. intros Hn [H1 H2 H3 H4 H5]. split; node_writes. Qed.
Lemma node_set_prev m r p n p' :
  0 ≤ p' < 2 ^ 64 → node m r p n → node (write_le 8 m (g_prev (vr_addr r)) p') r p' n.
Proof. intros Hn [H1 H2 H3 H4 H5]. split; node_writes. Qed.
Lemma node_set_start m r p n v :
  0 ≤ v < 2 ^ 64 → node m r p n →
  node (write_le 8 m (g_va_start (vr_addr r)) v) (mk_vr (vr_addr r) v (vr_stop r) (vr_flags r)) p n.
Proof. intros Hn [H1 H2 H3 H4 H5]. split; simpl; node_writes. Qed.
Lemma node_set_stop m r p n v :
  0 ≤ v < 2 ^ 64 → node m r p n →
  node (write_le 8 m (g_va_stop (vr_addr r)) v) (mk_vr (vr_addr r) (vr_start r) v (vr_flags r)) p n.
Proof. intros Hn [H1 H2 H3 H4 H5]. split; simpl; node_writes. Qed.

(** The last structure gets a new successor, the first a new predecessor. *)
Lemma seg_set_next m p l r n n' :
  (∀ q, q ∈ l → separate (vr_addr r) (vr_addr q)) → 0 ≤ n' < 2 ^ 64 →
  seg m p (l ++ [r]) n → seg (write_le 8 m (g_next (vr_addr r)) n') p (l ++ [r]) n'.
Proof.
  intros Hsep Hn. rewrite !seg_app. simpl. intros [Hl [Hr _]]. split_and!; [|by eapply node_set_next|done].
  apply seg_write; [done|unfold REGION_SIZE; lia..|done].
Qed.

Lemma seg_set_prev m p r l n p' :
  (∀ q, q ∈ l → separate (vr_addr r) (vr_addr q)) → 0 ≤ p' < 2 ^ 64 →
  seg m p (r :: l) n → seg (write_le 8 m (g_prev (vr_addr r)) p') p' (r :: l) n.
Proof.
  intros Hsep Hp [Hr Hl]. split; [by eapply node_set_prev|].
  apply seg_write; [done|unfold REGION_SIZE; lia..|done].
Qed.

(** *** Order and coverage *)
Lemma in_order_app l1 l2 :
  in_order (l1 ++ l2) ↔ in_order l1 ∧ in_order l2 ∧ ∀ r q, r ∈ l1 → q ∈ l2 → vr_stop r ≤ vr_start q.
Proof. unfold in_order. rewrite Forall_app, StronglySorted_app. naive_solver. Qed.

Lemma in_order_cons r l :
  in_order (r :: l) ↔ 0 ≤ vr_start r < vr_stop r ∧ in_order l ∧ ∀ q, q ∈ l → vr_stop r ≤ vr_start q.
Proof. unfold in_order. rewrite Forall_cons, StronglySorted_cons, !Forall_forall. naive_solver. Qed.

Lemma in_order_nil : in_order [].
Proof. split; constructor. Qed.

Lemma in_order_elem l r : in_order l → r ∈ l → 0 ≤ vr_start r < vr_stop r.
Proof. intros [H _] Hr. by apply (proj1 (Forall_forall _ _) H). Qed.

Lemma covers_app l1 l2 a f : covers (l1 ++ l2) a f ↔ covers l1 a f ∨ covers l2 a f.
Proof.
  unfold covers. split; [intros (r & [?|?]%elem_of_app & ?); eauto|].
  intros [(r & ? & ?)|(r & ? & ?)]; exists r; rewrite elem_of_app; auto.
Qed.

Lemma covers_cons r l a f :
  covers (r :: l) a f ↔ (vr_start r ≤ a < vr_stop r ∧ f = vr_flags r) ∨ covers l a f.
Proof.
  unfold covers. split.
  - intros (q & [->|?]%elem_of_cons & ? & <-); [by left|right; eauto].
  - intros [[? ->]|(q & ? & ?)]; [exists r|exists q]; rewrite elem_of_cons; auto.
Qed.

Lemma covers_nil a f : ¬ covers [] a f.
Proof. by intros (r & ?%elem_of_nil & _). Qed.

(** [l'] is [l] with the range [start, stop) added, inside the region at [p],
    which goes on beyond [stop] if a region of [l] with the same flags starts
    there. *)
Definition range_added (l l' : list region) (start stop flags p : Z) : Prop :=
  in_order l' ∧ (∀ a f, covers l' a f ↔ covers l a f ∨ (start ≤ a < stop ∧ f = flags)) ∧
  ∃ r, r ∈ l' ∧ vr_addr r = p ∧ vr_flags r = flags ∧ vr_start r ≤ start ∧ stop ≤ vr_stop r ∧
    (vr_stop r = stop → ∀ w, w ∈ l → vr_start w = stop → vr_flags w ≠ flags).

(** The four shapes: a new region, or the neighbours extended. *)
Section added.
Context (l1 l2 : list region) (start stop flags : Z).
Hypothesis Hord : in_order (l1 ++ l2).
Hypothesis Hrange : 0 ≤ start < stop.
Hypothesis Hbefore : ∀ r, r ∈ l1 → vr_stop r ≤ start.
Hypothesis Hafter : ∀ r, r ∈ l2 → stop ≤ vr_start r.

Lemma not_connected :
  (∀ w, hd_error l2 = Some w → vr_start w = stop → vr_flags w ≠ flags) →
  ∀ w, w ∈ l1 ++ l2 → vr_start w = stop → vr_flags w ≠ flags.
Proof.
  intros Hhd w [Hw|Hw]%elem_of_app Hs.
  - specialize (Hbefore w Hw). pose proof (in_order_elem _ w Hord ltac:(apply elem_of_app; by left)). lia.
  - apply in_order_app in Hord as (_ & H2 & _). destruct l2 as [|q l3]; [by apply elem_of_nil in Hw|].
    apply elem_of_cons in Hw as [->|Hw]; [by apply Hhd|]. apply in_order_cons in H2 as (Hq & _ & H3).
    specialize (H3 w Hw). specialize (Hafter q ltac:(by left)). lia.
Qed.

Lemma added_new p :
  (∀ w, hd_error l2 = Some w → vr_start w = stop → vr_flags w ≠ flags) →
  range_added (l1 ++ l2) (l1 ++ mk_vr p start stop flags :: l2) start stop flags p.
Proof.
  intros Hhd. pose proof (not_connected Hhd) as Hnc.
  apply in_order_app in Hord as (H1 & H2 & H12). split; [|split].
  - apply in_order_app. split; [done|]. split; [by apply in_order_cons|].
    intros r q Hr [->|Hq]%elem_of_cons; [by apply Hbefore|by apply H12].
  - intros a f. rewrite !covers_app, covers_cons. simpl. tauto.
  - exists (mk_vr p start stop flags). simpl. split; [apply elem_of_app; right; by left|]. by split_and!.
Qed.

Lemma added_prev l0 q :
  (∀ w, hd_error l2 = Some w → vr_start w = stop → vr_flags w ≠ flags) →
  l1 = l0 ++ [q] → vr_stop q = start → vr_flags q = flags →
  range_added (l1 ++ l2) (l0 ++ mk_vr (vr_addr q) (vr_start q) stop (vr_flags q) :: l2) start stop flags (vr_addr q).
Proof.
  intros Hhd. pose proof (not_connected Hhd) as Hnc. revert Hnc.
  intros Hnc -> Hq Hf. apply in_order_app in Hord as (H1 & H2 & H12).
  apply in_order_app in H1 as (H0 & (Hq1 & _ & _)%in_order_cons & H01). split; [|split].
  - apply in_order_app. split; [done|]. split.
    + apply in_order_cons. simpl. split; [lia|]. split; done.
    + intros r w Hr [->|Hw]%elem_of_cons; [apply (H01 r q); [done|by left]|]. apply H12; [apply elem_of_app; by left|done].
  - intros a f. rewrite !covers_app, !covers_cons. simpl. pose proof (covers_nil a f). rewrite <- Hf.
    split; [|intros [[[?|[[? ?]|?]]|?]|[? ?]]; try tauto; right; left; split; auto; lia].
    intros [?|[[? ?]|?]]; [by auto| |by auto]. destruct (decide (a < start)); [left; left; right; left|right]; split; auto; lia.
  - eexists. split; [apply elem_of_app; right; by left|]. simpl. split_and!; try done; lia.
Qed.

Lemma added_next q l3 :
  l2 = q :: l3 → vr_start q = stop → vr_flags q = flags →
  range_added (l1 ++ l2) (l1 ++ mk_vr (vr_addr q) start (vr_stop q) (vr_flags q) :: l3) start stop flags (vr_addr q).
Proof.
  intros -> Hq Hf. apply in_order_app in Hord as (H1 & (Hq1 & H3 & Hq3)%in_order_cons & H12). split; [|split].
  - apply in_order_app. split; [done|]. split; [apply in_order_cons; simpl; split; [lia|]; done|].
    intros r w Hr [->|Hw]%elem_of_cons; [by apply Hbefore|]. apply H12; [done|by right].
  - intros a f. rewrite !covers_app, !covers_cons. simpl. rewrite <- Hf.
    split; [|intros [[?|[[? ?]|?]]|[? ?]]; try tauto; right; left; split; auto; lia].
    intros [?|[[? ?]|?]]; [by auto| |by auto]. destruct (decide (a < stop)); [right|left; right; left]; split; auto; lia.
  - eexists. split; [apply elem_of_app; right; by left|]. simpl. split_and!; try done; try lia.
Qed.

Lemma added_both l0 q w l3 :
  l1 = l0 ++ [q] → l2 = w :: l3 → vr_stop q = start → vr_flags q = flags → vr_start w = stop → vr_flags w = flags →
  range_added (l1 ++ l2) (l0 ++ mk_vr (vr_addr q) (vr_start q) (vr_stop w) (vr_flags q) :: l3) start stop flags (vr_addr q).
Proof.
  intros -> -> Hq Hf Hw Hfw. apply in_order_app in Hord as (H1 & (Hw1 & H3 & Hw3)%in_order_cons & H12).
  apply in_order_app in H1 as (H0 & (Hq1 & _ & _)%in_order_cons & H01). split; [|split].
  - apply in_order_app. split; [done|]. split; [apply in_order_cons; simpl; split; [lia|]; done|].
    intros r x Hr [->|Hx]%elem_of_cons; [apply (H01 r q); [done|by left]|]. apply H12; [apply elem_of_app; by left|by right].
  - intros a f. rewrite !covers_app, !covers_cons. simpl. pose proof (covers_nil a f). rewrite Hf, Hfw.
    split; [|intros [[[?|[[? ?]|?]]|[[? ?]|?]]|[? ?]]; try tauto; right; left; split; auto; lia].
    intros [?|[[? ?]|?]]; [by auto| |by auto].
    destruct (decide (a < start)); [left; left; right; left; split; auto; lia|].
    destruct (decide (a < stop)); [right; split; auto; lia|left; right; left; split; auto; lia].
  - eexists. split; [apply elem_of_app; right; by left|]. simpl. split_and!; try done; try lia.
Qed.
End added.

Lemma last_addr_snoc p l r : last_addr p (l ++ [r]) = vr_addr r.
Proof. by rewrite last_addr_app. Qed.

Lemma list_snoc {A} (l : list A) : l = [] ∨ ∃ l' x, l = l' ++ [x].
Proof. induction l using rev_ind; eauto. Qed.

Lemma separate_sym x y : separate x y → separate y x.
Proof. unfold separate. tauto. Qed.

(** The structures of [l] do not overlap. *)
Definition apart (l : list region) : Prop := StronglySorted (λ r q, separate (vr_addr r) (vr_addr q)) l.
Definition in_nodes (l : list region) (a : Z) : Prop :=
  ∃ r, r ∈ l ∧ vr_addr r ≤ a < vr_addr r + REGION_SIZE.

Lemma in_nodes_app l1 l2 a : in_nodes (l1 ++ l2) a ↔ in_nodes l1 a ∨ in_nodes l2 a.
Proof. unfold in_nodes. split; [intros (r & [?|?]%elem_of_app & ?); eauto|intros [(r & ? & ?)|(r & ? & ?)]; exists r; in_list]. Qed.

(** The last structure of [l1] is linked to [x], and the first of [l2]. *)
Definition link_next (m : mem) (l1 : list region) (x : Z) : mem :=
  match l1 with [] => m | _ => write_le 8 m (g_next (last_addr NULL l1)) x end.
Definition link_prev (m : mem) (l2 : list region) (x : Z) : mem :=
  match l2 with [] => m | r :: _ => write_le 8 m (g_prev (vr_addr r)) x end.

Lemma link_next_snoc m l r x : link_next m (l ++ [r]) x = write_le 8 m (g_next (vr_addr r)) x.
Proof. unfold link_next. rewrite last_addr_snoc. by destruct l. Qed.

Lemma link_next_out m l x a : ¬ in_nodes l a → link_next m l x !! a = m !! a.
Proof.
  destruct (list_snoc l) as [->|(l' & r & ->)]; [done|]. rewrite link_next_snoc. intros Ha.
  apply write_le_lookup_out. intros Hin. apply Ha. exists r. split; [apply elem_of_app; right; by left|].
  unfold g_next, REGION_SIZE in *. lia.
Qed.

Lemma link_prev_out m l x a : ¬ in_nodes l a → link_prev m l x !! a = m !! a.
Proof.
  destruct l as [|r l]; [done|]. intros Ha. apply write_le_lookup_out. intros Hin. apply Ha.
  exists r. split; [by left|]. unfold g_prev, REGION_SIZE in *. lia.
Qed.

Lemma node_mapped m r p n o :
  node m r p n → o = 0 ∨ o = 8 ∨ o = 16 ∨ o = 24 ∨ o = 32 → is_Some (load_le 8 m (vr_addr r + o)).
Proof.
  intros [H1 H2 H3 H4 H5]. unfold g_va_start, g_va_stop, g_next, g_prev, g_flags in *.
  intros [->|[->|[->|[->| ->]]]]; rewrite ?Z.add_0_r; eauto.
Qed.

Lemma link_next_dom m p l n x i :
  seg m p l n → is_Some (link_next m l x !! i) ↔ is_Some (m !! i).
Proof.
  destruct (list_snoc l) as [->|(l' & r & ->)]; [done|]. rewrite link_next_snoc, seg_app. intros [_ [Hr _]].
  apply write_le_dom. eapply node_mapped; [exact Hr|tauto].
Qed.

Lemma link_prev_dom m p l n x i :
  seg m p l n → is_Some (link_prev m l x !! i) ↔ is_Some (m !! i).
Proof.
  destruct l as [|r l]; [done|]. intros [Hr _]. apply write_le_dom. eapply node_mapped; [exact Hr|tauto].
Qed.

Lemma seg_link_next m p l n x :
  apart l → 0 ≤ x < 2 ^ 64 → seg m p l n → seg (link_next m l x) p l x.
Proof.
  destruct (list_snoc l) as [->|(l' & r & ->)]; [done|]. rewrite link_next_snoc. intros Hap Hx.
  apply seg_set_next; [|done]. intros q Hq. apply separate_sym.
  apply StronglySorted_app in Hap as (Hap & _). apply Hap; [done|by left].
Qed.

Lemma seg_link_prev m p l n x :
  apart l → 0 ≤ x < 2 ^ 64 → seg m p l n → seg (link_prev m l x) x l n.
Proof.
  destruct l as [|r l]; [done|]. intros [Hap _]%StronglySorted_cons Hx. apply seg_set_prev; [|done].
  intros q Hq. by apply (proj1 (Forall_forall _ _) Hap).
Qed.

Lemma seg_out m m' p l n :
  (∀ a, in_nodes l a → m' !! a = m !! a) → seg m p l n → seg m' p l n.
Proof. intros Hm. apply seg_frame. intros r a Hr Ha. apply Hm. by exists r. Qed.

(** ** Spaces *)
Section spaces.
Context {S : Type} {MS : MemState S} {OA : ObjectAllocator S}.
Implicit Types s : S.

(** [space] has the regions [l]. *)
Record space_wf (s : S) (space : Z) (l : list region) : Prop := {
  sp_head : load_le 8 (st_mem s) (s_region space) = Some (hd_addr l NULL);
  sp_seg : seg (st_mem s) NULL l NULL;
  sp_live : ∀ r, r ∈ l → oa_live s (vr_addr r);
  sp_nodup : NoDup (addrs l);
  sp_own : ∀ a, s_region space ≤ a < s_region space + 8 → ¬ oa_own s a;
}.

(** Memory that the operations on the regions [l] of [space] leave alone: the
    structures of other spaces among it. *)
Definition quiet (s : S) (space : Z) (l : list region) (a : Z) : Prop :=
  ¬ s_region space ≤ a < s_region space + 8 ∧
  (¬ oa_own s a ∨ (∃ p, oa_live s p ∧ (p ∉ addrs l) ∧ p ≤ a < p + REGION_SIZE)).

(** [s'] is [s] with the regions of [space] changed from [l] to [l']. *)
Definition list_step (s s' : S) (space : Z) (l l' : list region) : Prop :=
  ∃ m, s' = st_put m s ∧ (∀ i, is_Some (m !! i) ↔ is_Some (st_mem s !! i)) ∧
    (∀ a, quiet s space l a → m !! a = st_mem s !! a) ∧ space_wf s' space l' ∧
    (∀ p, oa_live s' p ↔ (oa_live s p ∧ p ∉ addrs l) ∨ p ∈ addrs l') ∧
    ∀ p, p ∈ addrs l' → p ∈ addrs l ∨ ¬ oa_live s p.

Lemma list_step_trans s1 s2 s3 space l1 l2 l3 :
  list_step s1 s2 space l1 l2 → list_step s2 s3 space l2 l3 → list_step s1 s3 space l1 l3.
Proof.
  intros (m2 & -> & Hdom2 & Hq2 & Hwf2 & Hlive2 & Hnew2) (m3 & -> & Hdom3 & Hq3 & Hwf3 & Hlive3 & Hnew3).
  rewrite st_mem_put in *. rewrite st_put_put in *. exists m3. split; [done|]. split; [|split; [|split; [done|split]]].
  - intros i. by rewrite Hdom3, Hdom2.
  - intros a Ha. rewrite Hq3; [by apply Hq2|]. destruct Ha as [Ha Hown]. split; [done|].
    destruct (oa_same m2 s1 a) as [-> _]. destruct Hown as [?|(p & Hp & Hpl & Hin)]; [by left|]. right.
    exists p. split; [apply Hlive2; by left|]. split; [|done]. intros Hp2. by destruct (Hnew2 p Hp2).
  - intros p. rewrite Hlive3, Hlive2. split; [|].
    + intros [[[[? ?]|?] ?]|?]; [by left|done|by right].
    + intros [[? ?]|?]; [|by right]. destruct (decide (p ∈ addrs l2)) as [Hp2|]; [|by auto].
      by destruct (Hnew2 p Hp2).
  - intros p Hp. destruct (Hnew3 p Hp) as [Hp2|Hnl]; [by apply Hnew2|]. rewrite Hlive2 in Hnl.
    destruct (decide (p ∈ addrs l1)) as [|Hn]; [by left|]. right. intros Hl. apply Hnl. by left.
Qed.

Lemma space_apart n s space l : oa_ok n s → space_wf s space l → apart l.
Proof.
  intros Hok [_ _ Hlive Hnd _]. unfold apart. induction l as [|r l IH]; [constructor|].
  rewrite fmap_cons, NoDup_cons in Hnd. destruct Hnd as [Hr Hnd]. apply StronglySorted_cons. split.
  - apply Forall_forall. intros q Hq. eapply oa_live_apart; [done|apply Hlive; by left|apply Hlive; by right|].
    intros Heq. apply Hr. rewrite Heq. by apply list_elem_of_fmap_2.
  - apply IH; [|done]. intros q Hq. apply Hlive. by right.
Qed.

Lemma live_pos n s p : oa_ok n s → oa_live s p → 0 < p < 2 ^ 64.
Proof. intros Hok Hp. destruct (oa_live_mem _ _ _ Hok Hp) as (? & ? & _). unfold REGION_SIZE in *. lia. Qed.

Lemma in_nodes_own n s space l a : oa_ok n s → space_wf s space l → in_nodes l a → oa_own s a ∧ ¬ oa_meta s a.
Proof.
  intros Hok Hwf (r & Hr & Ha). destruct (oa_live_mem _ _ _ Hok (sp_live _ _ _ Hwf r Hr)) as (_ & _ & _ & Hm).
  by apply Hm.
Qed.

Lemma in_nodes_quiet n s space l a : oa_ok n s → space_wf s space l → quiet s space l a → ¬ in_nodes l a.
Proof.
  intros Hok Hwf [_ [Hn|(p & Hp & Hpl & Hin)]] Hnode.
  - apply Hn. by eapply in_nodes_own.
  - destruct Hnode as (r & Hr & Ha). assert (p ≠ vr_addr r) as Hne.
    { intros ->. apply Hpl. by apply list_elem_of_fmap_2. }
    destruct (oa_live_apart _ _ _ _ Hok Hp (sp_live _ _ _ Hwf r Hr) Hne); lia.
Qed.

Lemma last_addr_NULL n s space l1 l2 :
  oa_ok n s → space_wf s space (l1 ++ l2) → (last_addr NULL l1 =? NULL) = match l1 with [] => true | _ => false end.
Proof.
  intros Hok Hwf. destruct (list_snoc l1) as [->|(l & r & ->)]; [done|]. rewrite last_addr_snoc.
  destruct (live_pos _ _ _ Hok (sp_live _ _ _ Hwf r ltac:(in_list))).
  rewrite (proj2 (Z.eqb_neq _ _)) by (unfold NULL; lia). by destruct l.
Qed.

Lemma hd_addr_NULL n s space l1 l2 :
  oa_ok n s → space_wf s space (l1 ++ l2) → (hd_addr l2 NULL =? NULL) = match l2 with [] => true | _ => false end.
Proof.
  intros Hok Hwf. destruct l2 as [|r l2]; [done|]. simpl.
  destruct (live_pos _ _ _ Hok (sp_live _ _ _ Hwf r ltac:(in_list))).
  by rewrite (proj2 (Z.eqb_neq _ _)) by (unfold NULL; lia).
Qed.

Lemma apart_disjoint l1 l2 a : apart (l1 ++ l2) → in_nodes l1 a → ¬ in_nodes l2 a.
Proof.
  intros [Hap _]%StronglySorted_app (r & Hr & Ha) (q & Hq & Hb).
  destruct (Hap r q Hr Hq); unfold REGION_SIZE in *; lia.
Qed.

Lemma in_nodes_one r a : in_nodes [r] a ↔ vr_addr r ≤ a < vr_addr r + REGION_SIZE.
Proof.
  split; [|by exists r; split; [left|]]. intros (q & Hq & Ha). by apply list_elem_of_singleton in Hq as ->.
Qed.

Lemma addr_range n s l :
  oa_ok n s → (∀ r, r ∈ l → oa_live s (vr_addr r)) →
  0 ≤ last_addr NULL l < 2 ^ 64 ∧ 0 ≤ hd_addr l NULL < 2 ^ 64.
Proof.
  intros Hok Hl. assert (∀ r, r ∈ l → 0 < vr_addr r < 2 ^ 64) as Hr by (intros r Hr; by eapply live_pos, Hl).
  split.
  - destruct (list_snoc l) as [->|(l' & r & ->)]; [done|]. rewrite last_addr_snoc.
    pose proof (Hr r ltac:(in_list)). lia.
  - destruct l as [|r l]; [done|]. pose proof (Hr r ltac:(by left)). simpl. lia.
Qed.

(** The writes that fill in a structure. *)
Definition put_node (m : mem) (r : region) (prev next : Z) : mem :=
  let m := write_le 8 m (g_va_start (vr_addr r)) (vr_start r) in
  let m := write_le 8 m (g_va_stop (vr_addr r)) (vr_stop r) in
  let m := write_le 8 m (g_flags (vr_addr r)) (vr_flags r) in
  let m := write_le 8 m (g_next (vr_addr r)) next in
  write_le 8 m (g_prev (vr_addr r)) prev.

Lemma put_node_out m r p n a : ¬ in_nodes [r] a → put_node m r p n !! a = m !! a.
Proof.
  rewrite in_nodes_one. unfold put_node, REGION_SIZE, g_va_start, g_va_stop, g_next, g_prev, g_flags. intros Ha.
  by rewrite !write_le_lookup_out by lia.
Qed.

Lemma put_node_dom m r p n i :
  mapped m (vr_addr r) REGION_SIZE → is_Some (put_node m r p n !! i) ↔ is_Some (m !! i).
Proof.
  intros Hm. destruct (decide (vr_addr r ≤ i < vr_addr r + REGION_SIZE)) as [Hi|Hi].
  - split; intros _; [by apply Hm|]. unfold put_node. repeat (apply write_le_is_Some; left). by apply Hm.
  - rewrite put_node_out; [done|]. by rewrite in_nodes_one.
Qed.

Lemma put_node_node m r p n :
  0 ≤ vr_start r < 2 ^ 64 → 0 ≤ vr_stop r < 2 ^ 64 → 0 ≤ vr_flags r < 2 ^ 64 → 0 ≤ p < 2 ^ 64 → 0 ≤ n < 2 ^ 64 →
  node (put_node m r p n) r p n.
Proof.
  intros. change (2 ^ 64) with (256 ^ Z.of_nat 8) in *.
  unfold put_node, g_va_start, g_va_stop, g_next, g_prev, g_flags.
  split; unfold g_va_start, g_va_stop, g_next, g_prev, g_flags;
    rewrite ?load_write_ne by lia; rewrite load_write_same, Z.mod_small; done.
Qed.

(** The link to a new structure, from its neighbours. *)
Lemma wp_link_next s p l n x (Q : unit → S → Prop) :
  (last_addr NULL l =? NULL) = match l with [] => true | _ => false end →
  seg (st_mem s) p l n → Q tt (st_put (link_next (st_mem s) l x) s) →
  wp (if negb (last_addr NULL l =? NULL) then wr64 (g_next (last_addr NULL l)) x else mret tt) s Q.
Proof.
  intros ->. destruct (list_snoc l) as [->|(l' & r & ->)]; simpl; [by rewrite st_put_mem|].
  rewrite link_next_snoc, last_addr_snoc, seg_app. intros [_ [Hr _]] HQ.
  replace (match l' ++ [r] with [] => true | _ => false end) with false by (by destruct l').
  apply wp_store; [|exact HQ]. eapply node_mapped; [exact Hr|tauto].
Qed.

Lemma wp_link_prev s p l n x (Q : unit → S → Prop) :
  (hd_addr l NULL =? NULL) = match l with [] => true | _ => false end →
  seg (st_mem s) p l n → Q tt (st_put (link_prev (st_mem s) l x) s) →
  wp (if negb (hd_addr l NULL =? NULL) then wr64 (g_prev (hd_addr l NULL)) x else mret tt) s Q.
Proof.
  intros ->. destruct l as [|r l]; simpl; [by rewrite st_put_mem|]. intros [Hr _] HQ.
  apply wp_store; [|exact HQ]. eapply node_mapped; [exact Hr|tauto].
Qed.

Lemma wp_put_node {B} s r p n (k : M S B) (Q : B → S → Prop) :
  mapped (st_mem s) (vr_addr r) REGION_SIZE → wp k (st_put (put_node (st_mem s) r p n) s) Q →
  wp (wr64 (g_va_start (vr_addr r)) (vr_start r) ;; wr64 (g_va_stop (vr_addr r)) (vr_stop r) ;;
      wr64 (g_flags (vr_addr r)) (vr_flags r) ;; wr64 (g_next (vr_addr r)) n ;;
      wr64 (g_prev (vr_addr r)) p ;; k) s Q.
Proof.
  intros Hm HQ. unfold REGION_SIZE in Hm.
  assert (∀ o, 0 ≤ o ≤ 32 → is_Some (load_le 8 (st_mem s) (vr_addr r + o))) as Hl.
  { intros o Ho. apply load_le_is_Some. eapply mapped_sub; [exact Hm|lia..]. }
  pose proof (Hl 0 ltac:(lia)) as H0. rewrite Z.add_0_r in H0.
  do 5 (wp_step; apply wp_store;
    [rewrite ?st_mem_put; repeat apply load_write_mono; unfold g_va_start, g_va_stop, g_flags, g_next, g_prev; (exact H0 || (apply Hl; lia))|
     rewrite ?st_mem_put, ?st_put_put]).
  exact HQ.
Qed.

(** The memory after a new structure [r] is linked between [l1] and [l2]. *)
Lemma linked_new m r l1 l2 :
  apart (l1 ++ r :: l2) → 0 < vr_addr r < 2 ^ 64 → node m r (last_addr NULL l1) (hd_addr l2 NULL) →
  seg m NULL (l1 ++ l2) NULL →
  seg (link_prev (link_next m l1 (vr_addr r)) l2 (vr_addr r)) NULL (l1 ++ r :: l2) NULL.
Proof.
  intros Hap Hr Hnode [Hl1 Hl2]%seg_app. set (m1 := link_next m l1 (vr_addr r)).
  assert (∀ a, in_nodes l1 a → ¬ in_nodes (r :: l2) a) as Hd1 by (intros a; by apply apart_disjoint).
  change (r :: l2) with ([r] ++ l2) in *.
  pose proof Hap as (_ & Hap1 & Hap2)%StronglySorted_app.
  assert (∀ a, in_nodes [r] a → ¬ in_nodes l2 a) as Hd2 by (intros a; by apply apart_disjoint).
  pose proof Hap2 as (_ & _ & Hap3)%StronglySorted_app.
  apply seg_app. split; [|split].
  - apply (seg_out m1); [|apply (seg_link_next _ _ _ (hd_addr l2 NULL)); [done|simpl; lia|exact Hl1]].
    intros a Ha. apply link_prev_out. intros ?. apply (Hd1 a Ha), in_nodes_app. by right.
  - apply (node_frame m); [|exact Hnode]. intros a Ha%in_nodes_one.
    rewrite link_prev_out by (by apply Hd2). apply link_next_out. intros Hb. by apply (Hd1 a Hb), in_nodes_app; left.
  - apply seg_link_prev with (p := last_addr NULL l1); [done|lia|].
    apply (seg_out m); [|exact Hl2]. intros a Ha. apply link_next_out. intros Hb.
    apply (Hd1 a Hb), in_nodes_app. by right.
Qed.
End spaces.

(** *** A new region in the list *)
Section created.
Context {S : Type} {MS : MemState S} {OA : ObjectAllocator S}.
Context (s : S) (space : Z) (l1 l2 : list region) (r : region) (n : nat) (m1 : mem).
Hypothesis Hok : oa_ok (Datatypes.S n) s.
Hypothesis Hwf : space_wf s space (l1 ++ l2).
Hypothesis Hok1 : oa_ok n (st_put m1 s).
Hypothesis Hdom1 : ∀ i, is_Some (m1 !! i) ↔ is_Some (st_mem s !! i).
Hypothesis Hm1 : ∀ a, ¬ oa_meta s a → m1 !! a = st_mem s !! a.
Hypothesis Hnew : ¬ oa_live s (vr_addr r).
Hypothesis Hlive1 : ∀ q, oa_live (st_put m1 s) q ↔ oa_live s q ∨ q = vr_addr r.

Lemma cr_elem q : q ∈ l1 ++ r :: l2 ↔ q ∈ l1 ++ l2 ∨ q = r.
Proof. in_list. Qed.

Lemma cr_live q : q ∈ l1 ++ r :: l2 → oa_live (st_put m1 s) (vr_addr q).
Proof. intros [Hq| ->]%cr_elem; apply Hlive1; [left; by apply (sp_live _ _ _ Hwf)|by right]. Qed.

Lemma cr_range : 0 < vr_addr r < 2 ^ 64 ∧ mapped m1 (vr_addr r) REGION_SIZE.
Proof.
  assert (oa_live (st_put m1 s) (vr_addr r)) as Hr by (apply Hlive1; by right). split; [by eapply live_pos|].
  destruct (oa_live_mem _ _ _ Hok1 Hr) as (_ & _ & Hm & _). by rewrite st_mem_put in Hm.
Qed.

Lemma cr_separate q : q ∈ l1 ++ l2 → separate (vr_addr r) (vr_addr q).
Proof.
  intros Hq. apply (oa_live_apart _ _ _ _ Hok1); [apply Hlive1; by right|apply cr_live, cr_elem; by left|].
  intros Heq. apply Hnew. rewrite Heq. by apply (sp_live _ _ _ Hwf).
Qed.

Lemma cr_apart : apart (l1 ++ r :: l2).
Proof.
  pose proof (space_apart _ _ _ _ Hok Hwf) as (Hap & Hap1 & Hap2)%StronglySorted_app.
  apply StronglySorted_app. split; [|split; [done|]].
  - intros x y Hx [-> |Hy]%elem_of_cons; [apply separate_sym, cr_separate; in_list|by apply Hap].
  - apply StronglySorted_cons. split; [|done]. apply Forall_forall. intros y Hy. apply cr_separate. in_list.
Qed.

Lemma cr_own a : in_nodes (l1 ++ r :: l2) a → oa_own s a ∧ ¬ oa_meta s a.
Proof.
  intros (q & Hq & Ha). destruct (oa_same m1 s a) as [<- <-].
  destruct (oa_live_mem _ _ _ Hok1 (cr_live q Hq)) as (_ & _ & _ & Hm). by apply Hm.
Qed.

Lemma cr_quiet a : quiet s space (l1 ++ l2) a → ¬ in_nodes (l1 ++ r :: l2) a ∧ ¬ oa_meta s a.
Proof.
  intros Ha. split.
  - intros Hin. pose proof (cr_own a Hin) as [Hown _]. destruct Hin as (q & [Hq| ->]%cr_elem & Hqa).
    + apply (in_nodes_quiet _ _ _ _ _ Hok Hwf Ha). by exists q.
    + destruct Ha as [_ [?|(q & Hq & _ & Hqb)]]; [done|]. assert (vr_addr r ≠ q) as Hne by (intros <-; done).
      destruct (oa_live_apart _ _ _ q Hok1 ltac:(apply Hlive1; by right) ltac:(apply Hlive1; by left) Hne); lia.
  - intros Hmeta. destruct Ha as [_ [?|(q & Hq & _ & Hqb)]]; [by apply oa_meta_own in Hmeta|].
    destruct (oa_live_mem _ _ _ Hok Hq) as (_ & _ & _ & Hm). by destruct (Hm a Hqb).
Qed.

Lemma cr_addrs : addrs (l1 ++ r :: l2) ≡ₚ vr_addr r :: addrs (l1 ++ l2).
Proof. by rewrite <- Permutation_middle. Qed.

(** The state after the structures are linked. *)
Lemma cr_step m :
  (∀ i, is_Some (m !! i) ↔ is_Some (m1 !! i)) →
  (∀ a, ¬ in_nodes (l1 ++ r :: l2) a → ¬ s_region space ≤ a < s_region space + 8 → m !! a = m1 !! a) →
  load_le 8 m (s_region space) = Some (hd_addr (l1 ++ r :: l2) NULL) →
  seg m NULL (l1 ++ r :: l2) NULL →
  oa_ok n (st_put m s) ∧ list_step s (st_put m s) space (l1 ++ l2) (l1 ++ r :: l2).
Proof.
  intros Hdom Hm Hhead Hseg. pose proof (sp_own _ _ _ Hwf) as Hown.
  destruct (oa_ext _ _ m Hok1) as (Hok5 & Hlive5 & _); rewrite ?st_mem_put, ?st_put_put in *.
  { done. }
  { intros a Ha%oa_same. apply Hm; intros Hin; [by apply cr_own in Hin as [_ ?]|by apply (Hown a Hin), oa_meta_own]. }
  split; [done|]. exists m. split; [done|]. split; [intros i; by rewrite Hdom|]. split; [|split; [|split]].
  - intros a Ha. destruct (cr_quiet a Ha) as [Hn Hmeta]. rewrite Hm; [by apply Hm1|done|apply Ha].
  - split; rewrite ?st_mem_put; try done.
    + intros q Hq. by apply Hlive5, cr_live.
    + rewrite cr_addrs. apply NoDup_cons. split; [|apply Hwf].
      intros (q & Heq & Hq)%list_elem_of_fmap. apply Hnew. rewrite Heq. by apply (sp_live _ _ _ Hwf).
    + intros a Ha. destruct (oa_same m s a) as [-> _]. by apply Hown.
  - intros q. rewrite Hlive5, Hlive1, cr_addrs, elem_of_cons. split.
    + intros [Hq| ->]; [|by right; left]. destruct (decide (q ∈ addrs (l1 ++ l2))); [by right; right|by left].
    + intros [[? _]|[->|(q' & -> & Hq')%list_elem_of_fmap]]; [by left|by right|left; by apply (sp_live _ _ _ Hwf)].
  - intros q. rewrite cr_addrs, elem_of_cons. intros [->|?]; [by right|by left].
Qed.

Lemma cr_seg m2 :
  (∀ a, ¬ s_region space ≤ a < s_region space + 8 → m2 !! a = m1 !! a) → seg m2 NULL (l1 ++ l2) NULL.
Proof.
  intros Hm2. apply (seg_out (st_mem s)); [|apply Hwf]. intros a Ha.
  destruct (in_nodes_own _ _ _ _ a Hok Hwf Ha) as [Ho Hmeta]. rewrite Hm2; [by apply Hm1|].
  intros Hin. by apply (sp_own _ _ _ Hwf a).
Qed.

Lemma cr_head : load_le 8 m1 (s_region space) = Some (hd_addr (l1 ++ l2) NULL).
Proof.
  rewrite <- (sp_head _ _ _ Hwf). apply load_le_ext. intros a Ha. apply Hm1.
  intros Hmeta%oa_meta_own. by apply (sp_own _ _ _ Hwf a).
Qed.
End created.

(** *** A region taken out of the list *)
Lemma seg_cut m l1 r l2 :
  apart (l1 ++ r :: l2) → 0 ≤ last_addr NULL l1 < 2 ^ 64 → 0 ≤ hd_addr l2 NULL < 2 ^ 64 →
  seg m NULL (l1 ++ r :: l2) NULL →
  seg (link_prev (link_next m l1 (hd_addr l2 NULL)) l2 (last_addr NULL l1)) NULL (l1 ++ l2) NULL.
Proof.
  intros Hap Hlr Hhr. set (m1 := link_next m l1 (hd_addr l2 NULL)).
  change (r :: l2) with ([r] ++ l2) in *. rewrite !seg_app. intros (Hl1 & _ & Hl2).
  assert (∀ a, in_nodes l1 a → ¬ in_nodes l2 a) as Hd.
  { intros a Ha Hb. by apply (apart_disjoint _ _ _ Hap Ha), in_nodes_app; right. }
  pose proof Hap as (_ & Hap1 & (_ & _ & Hap3)%StronglySorted_app)%StronglySorted_app. split.
  - apply (seg_out m1); [intros a Ha; by apply link_prev_out, Hd|].
    by apply (seg_link_next _ _ _ (hd_addr ([r] ++ l2) NULL)).
  - apply (seg_link_prev _ (last_addr (last_addr NULL l1) [r])); [done|done|].
    apply (seg_out m); [|done]. intros a Ha. apply link_next_out. intros Hb. by apply (Hd a).
Qed.

Section removed.
Context {S : Type} {MS : MemState S} {OA : ObjectAllocator S}.
Context (s : S) (space : Z) (l1 l2 : list region) (r : region) (n : nat).
Hypothesis Hok : oa_ok n s.
Hypothesis Hwf : space_wf s space (l1 ++ r :: l2).

Lemma rm_in q : q ∈ l1 ∨ q = r ∨ q ∈ l2 → q ∈ l1 ++ r :: l2.
Proof. in_list. Qed.

Lemma rm_ranges :
  0 ≤ last_addr NULL l1 < 2 ^ 64 ∧ 0 ≤ hd_addr l2 NULL < 2 ^ 64 ∧ 0 < vr_addr r < 2 ^ 64 ∧ oa_live s (vr_addr r).
Proof.
  pose proof (sp_live _ _ _ Hwf) as Hl.
  destruct (addr_range _ s l1 Hok) as [Hlr _]; [intros q Hq; apply Hl; in_list|].
  destruct (addr_range _ s l2 Hok) as [_ Hhr]; [intros q Hq; apply Hl; in_list|].
  assert (oa_live s (vr_addr r)) as Hr by (apply Hl, rm_in; tauto).
  pose proof (live_pos _ _ _ Hok Hr). split_and!; by try lia.
Qed.

Lemma rm_first l0 r0 : l1 = r0 :: l0 → vr_addr r0 ≠ vr_addr r.
Proof.
  intros -> Heq. pose proof (sp_nodup _ _ _ Hwf) as Hnd. simpl in Hnd. apply NoDup_cons in Hnd as [Hn _].
  apply Hn. rewrite Heq. apply list_elem_of_fmap_2. in_list.
Qed.

Lemma rm_elem q : q ∈ l1 ++ l2 → q ∈ l1 ++ r :: l2.
Proof. intros [?|?]%elem_of_app; apply rm_in; tauto. Qed.

Lemma rm_addrs : addrs (l1 ++ r :: l2) ≡ₚ vr_addr r :: addrs (l1 ++ l2).
Proof. by rewrite <- Permutation_middle. Qed.

(** [m] is the memory after the links have changed. *)
Lemma rm_step m :
  (∀ i, is_Some (m !! i) ↔ is_Some (st_mem s !! i)) →
  (∀ a, ¬ in_nodes (l1 ++ r :: l2) a → ¬ s_region space ≤ a < s_region space + 8 → m !! a = st_mem s !! a) →
  load_le 8 m (s_region space) = Some (hd_addr (l1 ++ l2) NULL) →
  seg m NULL (l1 ++ l2) NULL → oa_freeable s (vr_addr r) →
  wp (obj_free (vr_addr r) TYPE_VMM_REGION) (st_put m s) (λ _ s',
    oa_ok n s' ∧ list_step s s' space (l1 ++ r :: l2) (l1 ++ l2)).
Proof.
  intros Hdom Hm Hhead Hseg Hfree. pose proof (sp_own _ _ _ Hwf) as Hown.
  assert (∀ a, in_nodes (l1 ++ r :: l2) a → oa_own s a ∧ ¬ oa_meta s a) as Hno by (intros a; by eapply in_nodes_own).
  destruct (oa_ext _ _ m Hok) as (Hok1 & Hlive1 & Hfree1); [done| |].
  { intros a Ha. apply Hm; intros Hin; [by apply Hno in Hin as [_ ?]|by apply (Hown a Hin), oa_meta_own]. }
  eapply wp_mono; [apply oa_free; [exact Hok1|apply Hlive1, rm_ranges|by apply Hfree1]|].
  intros _ s' (m2 & -> & Hok2 & Hdom2 & Hm2 & Hlive2). rewrite st_mem_put, st_put_put in *.
  assert (∀ a, ¬ oa_meta s a → m2 !! a = m !! a) as Hm2'.
  { intros a Ha. apply Hm2. by rewrite (proj2 (oa_same m s a)). }
  split; [done|]. exists m2. split; [done|]. split; [intros i; by rewrite Hdom2|]. split; [|split; [|split]].
  - intros a Ha. rewrite Hm2', Hm; [done|exact (in_nodes_quiet n s space _ a Hok Hwf Ha)|apply Ha|].
    intros Hmeta. destruct Ha as [_ [?|(q & Hq & _ & Hqb)]]; [by apply oa_meta_own in Hmeta|].
    destruct (oa_live_mem _ _ _ Hok Hq) as (_ & _ & _ & Hqm). by destruct (Hqm a Hqb).
  - pose proof (sp_nodup _ _ _ Hwf) as Hnd. rewrite rm_addrs in Hnd. apply NoDup_cons in Hnd as [Hn Hnd].
    split; rewrite ?st_mem_put.
    + rewrite <- Hhead. apply load_le_ext. intros a Ha. apply Hm2'. intros Hmeta%oa_meta_own. by apply (Hown a).
    + apply (seg_out m); [|done]. intros a (q & Hq & Ha). apply Hm2', Hno. exists q. by split; [apply rm_elem|].
    + intros q Hq. apply Hlive2. split; [by apply Hlive1, (sp_live _ _ _ Hwf), rm_elem|].
      intros Heq. apply Hn. rewrite <- Heq. by apply list_elem_of_fmap_2.
    + done.
    + intros a Ha. destruct (oa_same m2 s a) as [-> _]. by apply Hown.
  - intros q. rewrite Hlive2, Hlive1, rm_addrs, elem_of_cons. split.
    + intros [? ?]. destruct (decide (q ∈ addrs (l1 ++ l2))); [by right|left; tauto].
    + intros [[? Hq]|(q' & -> & Hq')%list_elem_of_fmap]; [tauto|].
      split; [by apply (sp_live _ _ _ Hwf), rm_elem|]. intros Heq.
      pose proof (sp_nodup _ _ _ Hwf) as Hnd. rewrite rm_addrs in Hnd. apply NoDup_cons in Hnd as [Hn _].
      apply Hn. rewrite <- Heq. by apply list_elem_of_fmap_2.
  - intros q Hq. left. rewrite rm_addrs. by right.
Qed.
End removed.

(** *** A region changed in place *)
Lemma space_update {S : Type} {MS : MemState S} {OA : ObjectAllocator S} n s space l1 r r' l2 o v
    (m := write_le 8 (st_mem s) (vr_addr r + o) v) :
  oa_ok n s → space_wf s space (l1 ++ r :: l2) → vr_addr r' = vr_addr r → 0 ≤ o ≤ 32 →
  (∀ p x, node (st_mem s) r p x → node m r' p x) →
  oa_ok n (st_put m s) ∧ list_step s (st_put m s) space (l1 ++ r :: l2) (l1 ++ r' :: l2) ∧
  ∀ p, oa_freeable (st_put m s) p ↔ oa_freeable s p.
Proof.
  intros Hok Hwf Haddr Ho Hnode. pose proof Hwf as [Hhead Hseg Hlive Hnd Hown].
  assert (r ∈ l1 ++ r :: l2) as Hr by (apply elem_of_app; right; by left).
  destruct (oa_live_mem _ _ _ Hok (Hlive r Hr)) as (Hr0 & Hr1 & Hrm & Hro). unfold REGION_SIZE in *.
  assert (∀ a, ¬ (vr_addr r ≤ a < vr_addr r + 40) → m !! a = st_mem s !! a) as Hm.
  { intros a Ha. apply write_le_lookup_out. lia. }
  assert (∀ i, is_Some (m !! i) ↔ is_Some (st_mem s !! i)) as Hdom.
  { intros i. apply write_le_dom, load_le_is_Some. eapply mapped_sub; [exact Hrm|lia..]. }
  destruct (oa_ext _ _ m Hok Hdom) as (Hok' & Hlive' & Hfree').
  { intros a Ha. apply Hm. intros Hin. by destruct (Hro a Hin). }
  assert (addrs (l1 ++ r' :: l2) = addrs (l1 ++ r :: l2)) as Haddrs.
  { rewrite !fmap_app, !fmap_cons. by rewrite Haddr. }
  pose proof (space_apart _ _ _ _ Hok Hwf) as Hap.
  assert (∀ q, q ∈ l1 ∨ q ∈ l2 → separate (vr_addr r) (vr_addr q)) as Hsep.
  { apply StronglySorted_app in Hap as (Hap & _ & [Hap2 _]%StronglySorted_cons). intros q [Hq|Hq].
    - apply separate_sym, Hap; [done|by left].
    - by apply (proj1 (Forall_forall _ _) Hap2). }
  split; [done|]. split; [|done]. exists m. split; [done|]. split; [done|]. rewrite Haddrs.
  split; [|split; [|split]].
  - intros a Ha. apply Hm. intros Hin. apply (in_nodes_quiet _ _ _ _ _ Hok Hwf Ha). by exists r.
  - split; rewrite ?st_mem_put.
    + rewrite (load_le_ext 8 (st_mem s)); [rewrite Hhead; by destruct l1; simpl; rewrite ?Haddr|].
      intros a Ha. apply Hm. intros Hin. apply (Hown a); [done|]. by apply Hro.
    + apply seg_app in Hseg as (H1 & H2 & H3). apply seg_app. simpl in *. rewrite Haddr.
      split_and!; [|by apply Hnode|]; apply seg_write; try done; unfold REGION_SIZE; try lia; intros q Hq; apply Hsep; tauto.
    + intros q Hq. apply Hlive'. apply elem_of_app in Hq as [Hq|[->|Hq]%elem_of_cons].
      * apply Hlive, elem_of_app. by left.
      * rewrite Haddr. by apply Hlive.
      * apply Hlive, elem_of_app. by right; right.
    + by rewrite Haddrs.
    + intros a Ha. destruct (oa_same m s a) as [-> _]. by apply Hown.
  - intros p. rewrite Hlive'. split; [|intros [[? _]|(q & -> & Hq)%list_elem_of_fmap]; [done|by apply Hlive]].
    intros Hp. destruct (decide (p ∈ addrs (l1 ++ r :: l2))); [by right|by left].
  - intros p Hp. by left.
Qed.

Section operations.
Context {CS : CSem} {S : Type} {MS : MemState S} {PS : PmmState S} {OA : ObjectAllocator S}.
Implicit Types s : S.

(** The rest of [vmm_create_region] after the allocation and the write of
    [space->region]: [m2] is the memory then. *)
Lemma wp_link_region n s space l1 l2 r m1 m2 :
  oa_ok (Datatypes.S n) s → space_wf s space (l1 ++ l2) → oa_ok n (st_put m1 s) →
  (∀ a, ¬ oa_meta s a → m1 !! a = st_mem s !! a) → ¬ oa_live s (vr_addr r) →
  (∀ q, oa_live (st_put m1 s) q ↔ oa_live s q ∨ q = vr_addr r) →
  0 ≤ vr_start r < 2 ^ 64 → 0 ≤ vr_stop r < 2 ^ 64 → 0 ≤ vr_flags r < 2 ^ 64 →
  (∀ a, ¬ s_region space ≤ a < s_region space + 8 → m2 !! a = m1 !! a) →
  (∀ i, is_Some (m2 !! i) ↔ is_Some (m1 !! i)) →
  let prev := last_addr NULL l1 in let next := hd_addr l2 NULL in
  wp (wr64 (g_va_start (vr_addr r)) (vr_start r) ;; wr64 (g_va_stop (vr_addr r)) (vr_stop r) ;;
      wr64 (g_flags (vr_addr r)) (vr_flags r) ;; wr64 (g_next (vr_addr r)) next ;; wr64 (g_prev (vr_addr r)) prev ;;
      p ← rd64 (g_prev (vr_addr r));
      (if negb (p =? NULL) then wr64 (g_next p) (vr_addr r) else mret tt) ;;
      n ← rd64 (g_next (vr_addr r));
      (if negb (n =? NULL) then wr64 (g_prev n) (vr_addr r) else mret tt) ;;
      mret (vr_addr r)) (st_put m2 s) (λ p s', p = vr_addr r ∧ ∃ m, s' = st_put m s ∧
    (∀ a, ¬ in_nodes (l1 ++ r :: l2) a → m !! a = m2 !! a) ∧
    (∀ i, is_Some (m !! i) ↔ is_Some (m2 !! i)) ∧ seg m NULL (l1 ++ r :: l2) NULL).
Proof.
  intros Hok Hwf Hok1 Hm1 Hnew Hlive1 Hstart Hstop Hflags Hm2 Hdom2 prev next.
  pose proof (oa_ok_less _ _ Hok) as Hokn. destruct (cr_range s r n m1 Hok1 Hlive1) as [Hr Hrm].
  destruct (addr_range _ s l1 Hokn) as [Hlr _]; [intros q Hq; apply (sp_live _ _ _ Hwf); in_list|].
  destruct (addr_range _ s l2 Hokn) as [_ Hhr]; [intros q Hq; apply (sp_live _ _ _ Hwf); in_list|].
  assert (apart (l1 ++ r :: l2)) as Hap by (by eapply (cr_apart s space l1 l2 r n m1)).
  assert (∀ a, in_nodes (l1 ++ l2) a → ¬ in_nodes [r] a) as Hnr.
  { intros a (q & Hq & Ha) Hb%in_nodes_one. destruct (cr_separate s space l1 l2 r n m1 Hwf Hok1 Hnew Hlive1 q Hq);
      unfold REGION_SIZE in *; lia. }
  apply (wp_put_node _ r); [rewrite st_mem_put; intros i Hi; by apply Hdom2, Hrm|]. rewrite st_mem_put, st_put_put.
  set (m3 := put_node m2 r prev next).
  assert (node m3 r prev next) as Hnode by (by apply put_node_node).
  assert (seg m3 NULL (l1 ++ l2) NULL) as Hseg3.
  { apply (seg_out m2); [|by eapply (cr_seg s space l1 l2 n m1)]. intros a Ha. by apply put_node_out, Hnr. }
  pose proof Hseg3 as [Hs1 Hs2]%seg_app.
  wp_step. eapply wp_load; [rewrite st_mem_put; apply (nd_prev _ _ _ _ Hnode)|].
  wp_step. apply (wp_link_next _ NULL l1 next); [by eapply last_addr_NULL|by rewrite st_mem_put|].
  rewrite st_mem_put, st_put_put. set (m4 := link_next m3 l1 (vr_addr r)).
  assert (node m4 r prev next) as Hnode4.
  { apply (node_frame m3); [|done]. intros a Ha. apply link_next_out. intros Hb.
    apply (Hnr a); [by apply in_nodes_app; left|by apply in_nodes_one]. }
  assert (seg m4 prev l2 NULL) as Hs2'.
  { apply (seg_out m3); [|done]. intros a Ha. apply link_next_out. intros Hb.
    by apply (apart_disjoint l1 l2 a); [eapply space_apart; [exact Hok|]|..]. }
  wp_step. eapply wp_load; [rewrite st_mem_put; apply (nd_next _ _ _ _ Hnode4)|].
  wp_step. apply (wp_link_prev _ prev l2 NULL); [by eapply (hd_addr_NULL _ _ _ l1)|by rewrite st_mem_put|].
  rewrite st_mem_put, st_put_put. wp_step. split; [done|]. exists (link_prev m4 l2 (vr_addr r)).
  split_and!; [done|..|by apply linked_new].
  - intros a Ha. change (r :: l2) with ([r] ++ l2) in Ha. rewrite !in_nodes_app in Ha. unfold m4, m3.
    rewrite link_prev_out, link_next_out, put_node_out by tauto. done.
  - intros i. rewrite (link_prev_dom _ _ _ _ _ _ Hs2'). unfold m4. rewrite (link_next_dom _ _ _ _ _ _ Hs1).
    unfold m3. apply put_node_dom. intros j Hj. by apply Hdom2, Hrm.
Qed.

Lemma wp_create_region n s space l1 l2 start stop flags :
  oa_ok (Datatypes.S n) s → space_wf s space (l1 ++ l2) →
  0 ≤ start < 2 ^ 64 → 0 ≤ stop < 2 ^ 64 → 0 ≤ flags < 2 ^ 64 →
  wp (vmm_create_region space start stop flags (last_addr NULL l1) (hd_addr l2 NULL)) s (λ p s',
    oa_ok n s' ∧ list_step s s' space (l1 ++ l2) (l1 ++ mk_vr p start stop flags :: l2)).
Proof.
  intros Hok Hwf Hstart Hstop Hflags.
  unfold vmm_create_region. wp_step. eapply wp_mono; [by apply oa_alloc|].
  intros p s1 (m1 & -> & Hok1 & Hdom1 & Hm1 & Hnew & Hlive1). set (r := mk_vr p start stop flags).
  pose proof (cr_head s space l1 l2 m1 Hwf Hm1) as Hhead1.
  destruct (cr_range s r n m1 Hok1 Hlive1) as [Hr _].
  set (m2 := match l1 with [] => write_le 8 m1 (s_region space) p | _ => m1 end).
  assert (∀ a, ¬ s_region space ≤ a < s_region space + 8 → m2 !! a = m1 !! a) as Hm2.
  { intros a Ha. unfold m2. destruct l1; [|done]. by apply write_le_lookup_out. }
  assert (∀ i, is_Some (m2 !! i) ↔ is_Some (m1 !! i)) as Hdom2.
  { intros i. unfold m2. destruct l1; [|done]. apply write_le_dom. by rewrite Hhead1. }
  assert (load_le 8 m2 (s_region space) = Some (hd_addr (l1 ++ r :: l2) NULL)) as Hhead2.
  { unfold m2. destruct l1 as [|r1 l1]; [|done]. rewrite load_write_same, Z.mod_small; [done|].
    change (256 ^ Z.of_nat 8) with (2 ^ 64). simpl in Hr. lia. }
  wp_step. apply wp_mono with (P := λ _ s2, s2 = st_put m2 s).
  { unfold m2. rewrite (last_addr_NULL n s space l1 l2); [|by apply oa_ok_less|done].
    destruct l1; [|by apply wp_ret]. apply wp_store; [by rewrite st_mem_put, Hhead1|]. by rewrite st_mem_put, st_put_put. }
  intros _ s2 ->. eapply wp_mono; [by eapply (wp_link_region n s space l1 l2 r m1 m2)|].
  intros p' s' (-> & m & -> & Hout & Hdom & Hseg). simpl.
  apply (cr_step s space l1 l2 r n m1); try done.
  - intros i. by rewrite Hdom.
  - intros a Ha Hs. rewrite Hout by done. by apply Hm2.
  - rewrite <- Hhead2. apply load_le_ext. intros a Ha. apply Hout. intros Hin.
    apply (sp_own _ _ _ Hwf a Ha). by eapply (cr_own s space l1 l2 r n m1).
Qed.

Lemma wp_if_load (c : bool) a v (f : Z → M S unit) s (Q : unit → S → Prop) :
  load_le 8 (st_mem s) a = Some v → wp (if c then f v else mret tt) s Q →
  wp (if c then x ← rd64 a; f x else mret tt) s Q.
Proof. intros Hl HQ. destruct c; [|done]. wp_step. by eapply wp_load. Qed.

(** The links of [vmm_remove_region], before the structure is given back. *)
Definition unlink_region (space region prev next : Z) : M S unit :=
  if (prev =? NULL) && (next =? NULL) then wr64 (s_region space) NULL
  else
    first ← rd64 (s_region space);
    (if first =? region then next ← rd64 (g_next region); wr64 (s_region space) next else mret tt) ;;
    prev ← rd64 (g_prev region);
    (if negb (prev =? NULL) then next ← rd64 (g_next region); wr64 (g_next prev) next else mret tt) ;;
    next ← rd64 (g_next region);
    (if negb (next =? NULL) then prev ← rd64 (g_prev region); wr64 (g_prev next) prev else mret tt).

Lemma wp_unlink_region n s space l1 r l2 (prev := last_addr NULL l1) (next := hd_addr l2 NULL) :
  oa_ok n s → space_wf s space (l1 ++ r :: l2) →
  wp (unlink_region space (vr_addr r) prev next) s (λ _ s', ∃ m, s' = st_put m s ∧
    (∀ i, is_Some (m !! i) ↔ is_Some (st_mem s !! i)) ∧
    (∀ a, ¬ in_nodes (l1 ++ r :: l2) a → ¬ s_region space ≤ a < s_region space + 8 → m !! a = st_mem s !! a) ∧
    load_le 8 m (s_region space) = Some (hd_addr (l1 ++ l2) NULL) ∧ seg m NULL (l1 ++ l2) NULL).
Proof.
  intros Hok Hwf. destruct (rm_ranges s space l1 l2 r n Hok Hwf) as (Hlr & Hhr & Hr & _).
  pose proof (sp_head _ _ _ Hwf) as Hhead. pose proof (sp_seg _ _ _ Hwf) as Hseg.
  pose proof (space_apart _ _ _ _ Hok Hwf) as Hap.
  set (m1 := match l1 with [] => write_le 8 (st_mem s) (s_region space) next | _ => st_mem s end).
  assert (∀ a, ¬ s_region space ≤ a < s_region space + 8 → m1 !! a = st_mem s !! a) as Hm1.
  { intros a Ha. unfold m1. destruct l1; [|done]. by apply write_le_lookup_out. }
  assert (∀ i, is_Some (m1 !! i) ↔ is_Some (st_mem s !! i)) as Hdom1.
  { intros i. unfold m1. destruct l1; [|done]. apply write_le_dom. by rewrite Hhead. }
  assert (load_le 8 m1 (s_region space) = Some (hd_addr (l1 ++ l2) NULL)) as Hhead1.
  { unfold m1. destruct l1 as [|r1 l0]; [|done]. rewrite load_write_same, Z.mod_small; [done|exact Hhr]. }
  assert (∀ a, in_nodes (l1 ++ r :: l2) a → ¬ s_region space ≤ a < s_region space + 8) as Hns.
  { intros a Ha Hin. apply (sp_own _ _ _ Hwf a Hin). by eapply in_nodes_own. }
  assert (seg m1 NULL (l1 ++ r :: l2) NULL) as Hseg1 by (eapply seg_out; [|done]; intros a Ha; by apply Hm1, Hns).
  pose proof Hseg1 as (Hs1 & Hnode1 & Hs2)%seg_app. simpl in Hs1.
  set (m2 := link_next m1 l1 next). set (m3 := link_prev m2 l2 prev).
  assert (∀ q a, q ∈ r :: l2 → vr_addr q ≤ a < vr_addr q + REGION_SIZE → m2 !! a = m1 !! a) as Hm2.
  { intros q a Hq Ha. apply link_next_out. intros Hb. apply (apart_disjoint _ _ a Hap Hb). by exists q. }
  assert (node m2 r prev next) as Hnode2 by (eapply node_frame; [|done]; intros a; apply Hm2; by left).
  assert (seg m2 (vr_addr r) l2 NULL) as Hs22.
  { eapply seg_frame; [|done]. intros q a Hq. apply Hm2. by right. }
  assert (seg m3 NULL (l1 ++ l2) NULL) as Hseg3 by (by eapply seg_cut).
  apply (wp_mono _ _ (λ _ s', s' = st_put m3 s)).
  2: { intros _ s' ->. exists m3. split_and!; [done|..|done].
    - intros i. unfold m3. rewrite (link_prev_dom _ _ _ _ _ _ Hs22). unfold m2. by rewrite (link_next_dom _ _ _ _ _ _ Hs1).
    - intros a Ha Hs. change (r :: l2) with ([r] ++ l2) in Ha. rewrite !in_nodes_app in Ha.
      unfold m3, m2. rewrite link_prev_out, link_next_out by tauto. by apply Hm1.
    - rewrite <- Hhead1. apply load_le_ext. intros a Ha. unfold m3, m2. rewrite link_prev_out, link_next_out; [done|..];
        intros Hin; (apply (Hns a); [|done]); change (r :: l2) with ([r] ++ l2); rewrite !in_nodes_app; tauto. }
  assert ((prev =? NULL) = match l1 with [] => true | _ => false end) as E1 by (by eapply last_addr_NULL).
  assert ((next =? NULL) = match l2 with [] => true | _ => false end) as E2.
  { eapply (hd_addr_NULL _ _ _ (l1 ++ [r])); [done|]. by rewrite <- app_assoc. }
  pose proof (nd_next _ _ _ _ Hnode1) as Hnx1. pose proof (nd_prev _ _ _ _ Hnode2) as Hpv2.
  unfold unlink_region. destruct ((prev =? NULL) && (next =? NULL)) eqn:Eboth.
  { rewrite E1, E2 in Eboth. destruct l1; [|done]. destruct l2; [|done]. apply wp_store; [by rewrite Hhead|done]. }
  wp_step. eapply wp_load; [exact Hhead|].
  wp_step. apply wp_if_load with (v := next).
  { pose proof (sp_seg _ _ _ Hwf) as (_ & Hnode & _)%seg_app. apply Hnode. }
  apply (wp_mono _ _ (λ _ s', s' = st_put m1 s)).
  { unfold m1. destruct l1 as [|r1 l0] eqn:El1.
    - simpl. rewrite Z.eqb_refl. by apply wp_store; [rewrite Hhead|].
    - simpl. rewrite (proj2 (Z.eqb_neq _ _)); [by apply wp_ret; rewrite st_put_mem|].
      by eapply (rm_first s space (r1 :: l0) l2 r). }
  intros _ s' ->. wp_step. eapply wp_load; [rewrite st_mem_put; apply (nd_prev _ _ _ _ Hnode1)|].
  wp_step. eapply wp_if_load; [by rewrite st_mem_put|].
  eapply (wp_link_next _ NULL l1); [exact E1|by rewrite st_mem_put|]. rewrite st_mem_put, st_put_put. fold m2.
  wp_step. eapply wp_load; [rewrite st_mem_put; apply (nd_next _ _ _ _ Hnode2)|].
  eapply wp_if_load; [by rewrite st_mem_put|].
  eapply (wp_link_prev _ (vr_addr r) l2); [exact E2|by rewrite st_mem_put|]. by rewrite st_mem_put, st_put_put.
Qed.

Lemma wp_remove_region n s space l1 r l2 :
  oa_ok n s → space_wf s space (l1 ++ r :: l2) → oa_freeable s (vr_addr r) →
  wp (vmm_remove_region space (vr_addr r)) s (λ _ s',
    oa_ok n s' ∧ list_step s s' space (l1 ++ r :: l2) (l1 ++ l2)).
Proof.
  intros Hok Hwf Hfree. pose proof (sp_seg _ _ _ Hwf) as (_ & Hnode & _)%seg_app.
  unfold vmm_remove_region. wp_step. eapply wp_load; [apply (nd_prev _ _ _ _ Hnode)|].
  wp_step. eapply wp_load; [apply (nd_next _ _ _ _ Hnode)|].
  wp_step. eapply wp_mono; [by eapply (wp_unlink_region n s space l1 r l2)|].
  intros _ s' (m & -> & Hdom & Hm & Hhead & Hseg). by apply rm_step.
Qed.

Lemma list_step_refl s space l : space_wf s space l → list_step s s space l l.
Proof.
  intros Hwf. exists (st_mem s). rewrite st_put_mem. split_and!; try done.
  - intros p. split; [|intros [[? _]|(q & -> & Hq)%list_elem_of_fmap]; [done|by apply (sp_live _ _ _ Hwf)]].
    intros Hp. destruct (decide (p ∈ addrs l)); [by right|by left].
  - intros p Hp. by left.
Qed.

Lemma wp_set_start n s space l1 r l2 v :
  oa_ok n s → space_wf s space (l1 ++ r :: l2) → 0 ≤ v < 2 ^ 64 →
  wp (wr64 (g_va_start (vr_addr r)) v) s (λ _ s', oa_ok n s' ∧
    list_step s s' space (l1 ++ r :: l2) (l1 ++ mk_vr (vr_addr r) v (vr_stop r) (vr_flags r) :: l2)).
Proof.
  intros Hok Hwf Hv. pose proof (sp_seg _ _ _ Hwf) as (_ & [Hnode _])%seg_app.
  replace (g_va_start (vr_addr r)) with (vr_addr r + 0) by (unfold g_va_start; lia).
  apply wp_store; [eapply node_mapped; [exact Hnode|tauto]|].
  destruct (space_update n s space l1 r (mk_vr (vr_addr r) v (vr_stop r) (vr_flags r)) l2 0 v) as (? & ? & _); [done|done|done|lia| |done].
  intros p x Hn. rewrite Z.add_0_r. by apply node_set_start.
Qed.

Lemma wp_set_stop n s space l1 r l2 v :
  oa_ok n s → space_wf s space (l1 ++ r :: l2) → 0 ≤ v < 2 ^ 64 →
  wp (wr64 (g_va_stop (vr_addr r)) v) s (λ _ s', oa_ok n s' ∧
    list_step s s' space (l1 ++ r :: l2) (l1 ++ mk_vr (vr_addr r) (vr_start r) v (vr_flags r) :: l2) ∧
    ∀ p, oa_freeable s' p ↔ oa_freeable s p).
Proof.
  intros Hok Hwf Hv. pose proof (sp_seg _ _ _ Hwf) as (_ & [Hnode _])%seg_app.
  apply wp_store; [eapply node_mapped; [exact Hnode|tauto]|].
  destruct (space_update n s space l1 r (mk_vr (vr_addr r) (vr_start r) v (vr_flags r)) l2 8 v) as (? & ? & ?); [done|done|done|lia| |done].
  intros p x Hn. by apply node_set_stop.
Qed.

Lemma wp_connected region field v va flags f s (Q : bool → S → Prop) :
  (region =? NULL) = false → load_le 8 (st_mem s) field = Some v →
  load_le 8 (st_mem s) (g_flags region) = Some f →
  Q ((va =? v) && (flags =? f)) s → wp (connected region field va flags) s Q.
Proof.
  intros Hr Hv Hf HQ. unfold connected. rewrite Hr. wp_step. eapply wp_load; [exact Hv|].
  destruct (va =? v); simpl; [|by apply wp_ret]. wp_step. eapply wp_load; [exact Hf|]. by apply wp_ret.
Qed.

Lemma node_ranges m r p n : node m r p n → 0 ≤ vr_start r < 2 ^ 64 ∧ 0 ≤ vr_stop r < 2 ^ 64 ∧ 0 ≤ vr_flags r < 2 ^ 64.
Proof. intros [H1 H2 _ _ H5]. apply load_le_range in H1, H2, H5. done. Qed.

Lemma space_node s space l1 r l2 :
  space_wf s space (l1 ++ r :: l2) → node (st_mem s) r (last_addr NULL l1) (hd_addr l2 NULL).
Proof. intros Hwf. by pose proof (sp_seg _ _ _ Hwf) as (_ & ? & _)%seg_app. Qed.

Lemma space_addr n s space l1 r l2 : oa_ok n s → space_wf s space (l1 ++ r :: l2) → (vr_addr r =? NULL) = false.
Proof.
  intros Hok Hwf. destruct (rm_ranges s space l1 l2 r n Hok Hwf) as (_ & _ & Hr & _).
  apply Z.eqb_neq. unfold NULL. lia.
Qed.

(** The two checks of [vmm_insert_range]. *)
Definition check_next (next va_stop : Z) : M S unit :=
  if negb (next =? NULL) then
    start ← rd64 (g_va_start next);
    if start <? va_stop then panic "vmm_insert_range: overlap" else mret tt
  else mret tt.
Definition check_prev (prev va_start : Z) : M S unit :=
  if negb (prev =? NULL) then
    stop ← rd64 (g_va_stop prev);
    if va_start <? stop then panic "vmm_insert_range: overlap" else mret tt
  else mret tt.

Lemma check_next_run n s space l1 l2 va_stop :
  oa_ok n s → space_wf s space (l1 ++ l2) →
  check_next (hd_addr l2 NULL) va_stop s =
    if match l2 with [] => true | r :: _ => va_stop <=? vr_start r end then Done (tt, s)
    else Faulted (Panicked "vmm_insert_range: overlap").
Proof.
  intros Hok Hwf. unfold check_next. rewrite (hd_addr_NULL n s space l1 l2) by done.
  destruct l2 as [|r l2]; [done|]. simpl.
  rewrite (bind_Done _ _ _ (vr_start r) s) by (apply load_Done, (nd_start _ _ _ _ (space_node _ _ _ _ _ Hwf))).
  rewrite Z.ltb_antisym. by destruct (va_stop <=? vr_start r).
Qed.

Lemma check_prev_run n s space l1 l2 va_start :
  oa_ok n s → space_wf s space (l1 ++ l2) →
  check_prev (last_addr NULL l1) va_start s =
    if forallb (λ r, vr_stop r <=? va_start) (match last l1 with Some r => [r] | None => [] end) then Done (tt, s)
    else Faulted (Panicked "vmm_insert_range: overlap").
Proof.
  intros Hok Hwf. unfold check_prev. rewrite (last_addr_NULL n s space l1 l2) by done.
  destruct (list_snoc l1) as [->|(l0 & r & ->)]; [done|]. rewrite last_snoc, last_addr_snoc.
  replace (match l0 ++ [r] with [] => true | _ => false end) with false by (by destruct l0). simpl.
  rewrite <- app_assoc in Hwf. simpl in Hwf.
  rewrite (bind_Done _ _ _ (vr_stop r) s) by (apply load_Done, (nd_stop _ _ _ _ (space_node _ _ _ _ _ Hwf))).
  rewrite Z.ltb_antisym. by destruct (vr_stop r <=? va_start).
Qed.

(** What the operations that add a range guarantee. *)
Definition added_post (n : nat) (s : S) (space : Z) (l : list region) (start stop flags p : Z) (s' : S) : Prop :=
  p ≠ NULL ∧ oa_ok n s' ∧ ∃ l', list_step s s' space l l' ∧ range_added l l' start stop flags p.

Lemma range_added_addr n s s' space l l' start stop flags p :
  oa_ok n s' → list_step s s' space l l' → range_added l l' start stop flags p → p ≠ NULL.
Proof.
  intros Hok (m & -> & _ & _ & Hwf & _) (_ & _ & r & Hr & <- & _).
  pose proof (live_pos _ _ _ Hok (sp_live _ _ _ Hwf r Hr)). unfold NULL. lia.
Qed.

Section insert.
Context (n : nat) (s : S) (space : Z) (l1 l2 : list region) (start stop flags : Z).
Hypothesis Hok : oa_ok (Datatypes.S n) s.
Hypothesis Hwf : space_wf s space (l1 ++ l2).
Hypothesis Hord : in_order (l1 ++ l2).
Hypothesis Hrange : 0 ≤ start < stop ∧ stop < 2 ^ 64.
Hypothesis Hflags : 0 ≤ flags < 2 ^ 64.
Hypothesis Hbefore : ∀ r, r ∈ l1 → vr_stop r ≤ start.
Hypothesis Hafter : ∀ r, r ∈ l2 → stop ≤ vr_start r.
Hypothesis Hfree : ∀ q w, q ∈ l1 → w ∈ l2 → vr_stop q = start → vr_start w = stop → oa_freeable s (vr_addr w).

Lemma added_post_intro l' p s' :
  oa_ok n s' → list_step s s' space (l1 ++ l2) l' → range_added (l1 ++ l2) l' start stop flags p →
  added_post n s space (l1 ++ l2) start stop flags p s'.
Proof. intros Hok' Hstep Hadd. split; [by eapply range_added_addr|]. split; [done|]. by exists l'. Qed.

(** The end of [vmm_insert_range], after the checks. *)
Definition insert_at (prev next : Z) : M S Z :=
  connected_with_prev ← connected prev (g_va_stop prev) start flags;
  connected_with_next ← connected next (g_va_start next) stop flags;
  if connected_with_prev && connected_with_next then
    stop ← rd64 (g_va_stop next);
    wr64 (g_va_stop prev) stop ;;
    vmm_remove_region space next ;;
    mret prev
  else if (connected_with_prev : bool) then
    wr64 (g_va_stop prev) stop ;; mret prev
  else if (connected_with_next : bool) then
    wr64 (g_va_start next) start ;; mret next
  else vmm_create_region space start stop flags prev next.

Lemma wp_insert_new :
  (∀ w, hd_error l2 = Some w → vr_start w = stop → vr_flags w ≠ flags) →
  wp (vmm_create_region space start stop flags (last_addr NULL l1) (hd_addr l2 NULL)) s
    (added_post n s space (l1 ++ l2) start stop flags).
Proof.
  intros Hhd. eapply wp_mono; [apply wp_create_region; [exact Hok|exact Hwf|lia..]|]. intros p s' [Hok' Hstep].
  eapply added_post_intro; [done|exact Hstep|]. apply added_new; try done. lia.
Qed.

Lemma wp_insert_prev l0 q :
  (∀ w, hd_error l2 = Some w → vr_start w = stop → vr_flags w ≠ flags) →
  l1 = l0 ++ [q] → vr_stop q = start → vr_flags q = flags →
  wp (wr64 (g_va_stop (vr_addr q)) stop ;; mret (vr_addr q)) s (added_post n s space (l1 ++ l2) start stop flags).
Proof.
  intros Hhd El Hq Hf. assert (l1 ++ l2 = l0 ++ q :: l2) as E by (by rewrite El, <- app_assoc).
  pose proof Hwf as Hwf'. rewrite E in Hwf'. wp_step.
  eapply wp_mono; [eapply (wp_set_stop _ s space l0 q l2); [by apply oa_ok_less|done|lia]|].
  intros _ s' (Hok' & Hstep & _). wp_step. rewrite <- E in Hstep.
  eapply added_post_intro; [done|exact Hstep|]. eapply added_prev; try done. lia.
Qed.

Lemma wp_insert_next q l3 :
  l2 = q :: l3 → vr_start q = stop → vr_flags q = flags →
  wp (wr64 (g_va_start (vr_addr q)) start ;; mret (vr_addr q)) s (added_post n s space (l1 ++ l2) start stop flags).
Proof.
  intros El Hq Hf. pose proof Hwf as Hwf'. rewrite El in Hwf'. wp_step.
  eapply wp_mono; [eapply (wp_set_start _ s space l1 q l3); [by apply oa_ok_less|done|lia]|].
  intros _ s' (Hok' & Hstep). wp_step. rewrite <- El in Hstep.
  eapply added_post_intro; [done|exact Hstep|]. eapply added_next; try done. lia.
Qed.

Lemma wp_insert_both l0 q w l3 :
  l1 = l0 ++ [q] → l2 = w :: l3 → vr_stop q = start → vr_flags q = flags → vr_start w = stop → vr_flags w = flags →
  wp (stop ← rd64 (g_va_stop (vr_addr w)); wr64 (g_va_stop (vr_addr q)) stop ;;
      vmm_remove_region space (vr_addr w) ;; mret (vr_addr q)) s (added_post n s space (l1 ++ l2) start stop flags).
Proof.
  intros E1 E2 Hq Hf Hw Hfw. assert (l1 ++ l2 = l0 ++ q :: w :: l3) as E by (by rewrite E1, E2, <- app_assoc).
  pose proof Hwf as Hwf1. rewrite E2 in Hwf1. pose proof (space_node _ _ _ _ _ Hwf1) as Hnode.
  pose proof (node_ranges _ _ _ _ Hnode) as (_ & Hws & _).
  pose proof Hwf as Hwf'. rewrite E in Hwf'. wp_step. eapply wp_load; [apply (nd_stop _ _ _ _ Hnode)|].
  wp_step. eapply wp_mono; [eapply (wp_set_stop _ s space l0 q (w :: l3)); [by apply oa_ok_less|done|done]|].
  intros _ s1 (Hok1 & Hstep1 & Hfree1). set (q' := mk_vr _ _ _ _) in *.
  assert (space_wf s1 space ((l0 ++ [q']) ++ w :: l3)) as Hwf2.
  { rewrite <- app_assoc. by destruct Hstep1 as (m & -> & _ & _ & ? & _). }
  wp_step. eapply wp_mono; [apply (wp_remove_region n s1 space (l0 ++ [q']) w l3); [done|done|]|].
  { apply Hfree1, (Hfree q); try done; [rewrite E1; apply elem_of_app; right|rewrite E2]; by left. }
  intros _ s2 (Hok2 & Hstep2). wp_step. rewrite <- !app_assoc in Hstep2. simpl in Hstep2. rewrite <- E in Hstep1.
  eapply added_post_intro; [done|by eapply list_step_trans|]. eapply added_both; try done. lia.
Qed.

Lemma wp_insert_at :
  wp (insert_at (last_addr NULL l1) (hd_addr l2 NULL)) s (added_post n s space (l1 ++ l2) start stop flags).
Proof.
  assert (oa_ok n s) as Hokn by (by apply oa_ok_less).
  pose proof (last_addr_NULL n s space l1 l2 Hokn Hwf) as Hn1. pose proof (hd_addr_NULL n s space l1 l2 Hokn Hwf) as Hn2.
  unfold insert_at. wp_step.
  apply (wp_mono _ _ (λ b s', s' = s ∧ (b = true →
    ∃ l0 q, l1 = l0 ++ [q] ∧ vr_stop q = start ∧ vr_flags q = flags))).
  { destruct (list_snoc l1) as [El|(l0 & q & El)].
    - rewrite El. by apply wp_ret.
    - pose proof Hwf as Hwf'. rewrite El, <- app_assoc in Hwf'. pose proof (space_node _ _ _ _ _ Hwf') as Hnode.
      rewrite El, last_addr_snoc. eapply wp_connected; [by eapply space_addr|apply Hnode|apply Hnode|].
      split; [done|]. intros [?%Z.eqb_eq ?%Z.eqb_eq]%andb_true_iff. by exists l0, q. }
  intros cp s' [-> Hcp]. wp_step.
  apply (wp_mono _ _ (λ b s', s' = s ∧ if (b : bool)
    then ∃ w l3, l2 = w :: l3 ∧ vr_start w = stop ∧ vr_flags w = flags
    else ∀ w, hd_error l2 = Some w → vr_start w = stop → vr_flags w ≠ flags)).
  { destruct l2 as [|w l3] eqn:El; [by apply wp_ret|]. pose proof (space_node _ _ _ _ _ Hwf) as Hnode.
    eapply wp_connected; [by eapply space_addr|apply Hnode|apply Hnode|].
    split; [done|]. destruct ((stop =? vr_start w) && (flags =? vr_flags w)) eqn:E.
    - apply andb_true_iff in E as [?%Z.eqb_eq ?%Z.eqb_eq]. by exists w, l3.
    - intros w' [= <-] Hs Hf. rewrite Hs, Hf, !Z.eqb_refl in E. done. }
  intros cn s' [-> Hcn]. destruct cp, cn; simpl; try specialize (Hcp eq_refl) as (l0 & q & E1 & Hq & Hf);
    try destruct Hcn as (w & l3 & E2 & Hw & Hfw).
  - replace (last_addr NULL l1) with (vr_addr q) by (by rewrite E1, last_addr_snoc).
    replace (hd_addr l2 NULL) with (vr_addr w) by (by rewrite E2). by eapply wp_insert_both.
  - replace (last_addr NULL l1) with (vr_addr q) by (by rewrite E1, last_addr_snoc). by eapply wp_insert_prev.
  - replace (hd_addr l2 NULL) with (vr_addr w) by (by rewrite E2). by eapply wp_insert_next.
  - by apply wp_insert_new.
Qed.
End insert.

Lemma insert_range_split space prev next start stop flags :
  vmm_insert_range space prev next start stop flags =
    (check_next next stop ;; check_prev prev start ;; insert_at space start stop flags prev next).
Proof. done. Qed.

(** The range has no address in common with the regions. *)
Definition free_range (l : list region) (start stop : Z) : Prop :=
  ∀ r, r ∈ l → vr_stop r ≤ start ∨ stop ≤ vr_start r.

Lemma space_length n s space l : oa_ok n s → space_wf s space l → (length l ≤ size (st_mem s))%nat.
Proof.
  intros Hok Hwf. rewrite <- (length_fmap vr_addr). apply nodup_mapped_size; [apply Hwf|].
  intros x (r & -> & Hr)%list_elem_of_fmap.
  destruct (oa_live_mem _ _ _ Hok (sp_live _ _ _ Hwf r Hr)) as (_ & _ & Hm & _). apply Hm.
  unfold REGION_SIZE. lia.
Qed.

Lemma find_neighbours_run n s space l start stop :
  oa_ok n s → space_wf s space l → in_order l → start < stop →
  ∃ l1 l2, l = l1 ++ l2 ∧ find_neighbours space start stop s = Done ((last_addr NULL l1, hd_addr l2 NULL), s) ∧
    (free_range l start stop → (∀ r, r ∈ l1 → vr_stop r ≤ start) ∧ ∀ r, r ∈ l2 → stop ≤ vr_start r).
Proof.
  intros Hok Hwf Hord Hlt.
  cut (wp (find_neighbours space start stop) s (λ r s', s' = s ∧ ∃ l1 l2, l = l1 ++ l2 ∧
    r = (last_addr NULL l1, hd_addr l2 NULL) ∧
    (free_range l start stop → (∀ r, r ∈ l1 → vr_stop r ≤ start) ∧ ∀ r, r ∈ l2 → stop ≤ vr_start r))).
  { intros (r & s' & Hrun & -> & l1 & l2 & ? & -> & ?)%wp_Done. by exists l1, l2. }
  unfold find_neighbours. wp_step. eapply wp_load; [apply Hwf|]. unfold mem_fuel. wp_steps.
  apply (wp_loop_rounds (λ k '(prev, cur) s', s' = s ∧ ∃ l1 l2, l = l1 ++ l2 ∧ k = length l2 ∧
    prev = last_addr NULL l1 ∧ cur = hd_addr l2 NULL ∧ (free_range l start stop → ∀ r, r ∈ l1 → vr_stop r ≤ start)))
    with (n := length l).
  { split; [done|]. exists [], l. split_and!; try done. intros _ r Hr. by apply elem_of_nil in Hr. }
  { pose proof (space_length n s space l Hok Hwf). lia. }
  intros k [prev cur] s' (-> & l1 & l2 & -> & -> & -> & -> & Hinv).
  rewrite (hd_addr_NULL n s space l1 l2) by done. destruct l2 as [|r l2]; simpl.
  { apply wp_ret. split; [done|]. exists l1, []. split_and!; try done. intros Hfr. split; [by apply Hinv|].
    intros r Hr. by apply elem_of_nil in Hr. }
  pose proof (space_node _ _ _ _ _ Hwf) as Hnode. pose proof Hord as (Hord1 & Hord2 & _)%in_order_app.
  apply in_order_cons in Hord2 as (Hr & Hord2 & Hr2). wp_step.
  apply (wp_mono _ _ (λ b s', s' = s ∧ (free_range (l1 ++ r :: l2) start stop → b = true))).
  { rewrite (last_addr_NULL n s space l1 (r :: l2)) by done.
    destruct (list_snoc l1) as [->|(l0 & q & ->)]; [by apply wp_ret|].
    replace (match l0 ++ [q] with [] => true | _ => false end) with false by (by destruct l0).
    pose proof Hwf as Hwf'. rewrite <- app_assoc in Hwf'. rewrite last_addr_snoc.
    wp_step. eapply wp_load; [apply (nd_start _ _ _ _ (space_node _ _ _ _ _ Hwf'))|]. apply wp_ret.
    split; [done|]. intros Hfr. apply Z.ltb_lt. pose proof (Hinv Hfr q ltac:(apply elem_of_app; right; by left)).
    pose proof (in_order_elem _ q Hord1 ltac:(apply elem_of_app; right; by left)). lia. }
  intros b s' [-> Hb]. wp_step. eapply wp_load; [apply (nd_stop _ _ _ _ Hnode)|].
  assert (r ∈ l1 ++ r :: l2) as Hin by (apply elem_of_app; right; by left).
  destruct (b && (stop <? vr_stop r)) eqn:Hbrk.
  - apply wp_ret. apply andb_true_iff in Hbrk as [_ Hbrk%Z.ltb_lt]. split; [done|]. exists l1, (r :: l2).
    split_and!; try done. intros Hfr. split; [by apply Hinv|].
    assert (stop ≤ vr_start r) by (destruct (Hfr r Hin); lia).
    intros q [->|Hq]%elem_of_cons; [done|]. specialize (Hr2 q Hq). lia.
  - wp_step. eapply wp_load; [apply (nd_next _ _ _ _ Hnode)|]. apply wp_ret. exists (length l2). split; [lia|].
    split; [done|]. exists (l1 ++ [r]), l2. rewrite <- app_assoc, last_addr_snoc. split_and!; try done.
    intros Hfr q [Hq| ->%list_elem_of_singleton]%elem_of_app; [by apply Hinv|].
    rewrite (Hb Hfr) in Hbrk. simpl in Hbrk. apply Z.ltb_ge in Hbrk. destruct (Hfr r Hin); lia.
Qed.

Lemma wp_add_range n s space l start stop flags :
  oa_ok (Datatypes.S n) s → space_wf s space l → in_order l → 0 ≤ start < stop → stop < 2 ^ 64 →
  0 ≤ flags < 2 ^ 64 → free_range l start stop →
  (∀ q w, q ∈ l → w ∈ l → vr_stop q = start → vr_start w = stop → oa_freeable s (vr_addr w)) →
  wp (vmm_add_range space start stop flags) s (added_post n s space l start stop flags).
Proof.
  intros Hok Hwf Hord Hrange Hstop Hflags Hfr Hfree. pose proof (oa_ok_less _ _ Hok) as Hokn.
  unfold vmm_add_range. wp_step. eapply wp_load; [apply Hwf|]. rewrite (hd_addr_NULL n s space [] l) by done.
  destruct (find_neighbours_run n s space l start stop Hokn Hwf Hord) as (l1 & l2 & El & Hrun & Hpos); [lia|].
  destruct (Hpos Hfr) as [Hb Ha]. destruct l as [|r l].
  { apply (wp_insert_new n s space [] [] start stop flags); try done; intros r Hr; by apply elem_of_nil in Hr. }
  wp_step. eapply wp_eq; [exact Hrun|]. cbn beta iota. rewrite El in *. rewrite insert_range_split.
  wp_step. eapply wp_eq; [rewrite (check_next_run n s space l1 l2) by done|].
  { replace (match l2 with [] => true | _ => _ end) with true; [done|].
    destruct l2 as [|q l2]; [done|]. symmetry. apply Z.leb_le, Ha. by left. }
  wp_step. eapply wp_eq; [rewrite (check_prev_run n s space l1 l2) by done|].
  { destruct (list_snoc l1) as [->|(l0 & q & ->)]; [done|]. rewrite last_snoc. simpl.
    rewrite (proj2 (Z.leb_le _ _)); [done|]. apply Hb, elem_of_app. right. by left. }
  apply wp_insert_at; try done. intros q w Hq Hw. apply Hfree; apply elem_of_app; [by left|by right].
Qed.

Lemma add_range_overlap n s space l r start stop flags :
  oa_ok n s → space_wf s space l → in_order l → start < stop →
  r ∈ l → start < vr_stop r → vr_start r < stop →
  ∃ msg, vmm_add_range space start stop flags s = Faulted (Panicked msg).
Proof.
  intros Hok Hwf Hord Hlt Hr Hr1 Hr2.
  destruct (find_neighbours_run n s space l start stop Hok Hwf Hord Hlt) as (l1 & l2 & El & Hrun & _).
  unfold vmm_add_range. rewrite (bind_Done _ _ _ (hd_addr l NULL) s) by (apply load_Done, Hwf).
  rewrite (hd_addr_NULL n s space [] l) by done. destruct l as [|r0 l]; [by apply elem_of_nil in Hr|].
  rewrite (bind_Done _ _ _ _ _ Hrun). cbn beta iota. rewrite El in *. rewrite insert_range_split.
  pose proof Hord as (Hord1 & Hord2 & _)%in_order_app. apply elem_of_app in Hr as [Hr|Hr].
  - assert (check_prev (last_addr NULL l1) start s = Faulted (Panicked "vmm_insert_range: overlap")) as Hcp.
    { rewrite (check_prev_run n s space l1 l2) by done. destruct (list_snoc l1) as [->|(l0 & q & ->)]; [by apply elem_of_nil in Hr|].
      rewrite last_snoc. simpl. rewrite (proj2 (Z.leb_gt _ _)); [done|].
      apply elem_of_app in Hr as [Hr| ->%list_elem_of_singleton]; [|done].
      apply in_order_app in Hord1 as (_ & Hq%in_order_cons & H0).
      specialize (H0 r q Hr ltac:(by left)). destruct Hq as [? _]. lia. }
    destruct (check_next (hd_addr l2 NULL) stop s) as [[[] s1]|f] eqn:Hcn.
    + assert (s1 = s) as ->.
      { rewrite (check_next_run n s space l1 l2) in Hcn by done. by case_match; simplify_eq. }
      eexists. rewrite (bind_Done _ _ _ _ _ Hcn). by apply bind_Faulted.
    + eexists. apply bind_Faulted. rewrite (check_next_run n s space l1 l2) in * by done. by case_match.
  - eexists. apply bind_Faulted. rewrite (check_next_run n s space l1 l2) by done.
    destruct l2 as [|q l2]; [by apply elem_of_nil in Hr|]. rewrite (proj2 (Z.leb_gt _ _)); [done|].
    apply elem_of_cons in Hr as [->|Hr]; [done|]. apply in_order_cons in Hord2 as (? & _ & Hq).
    specialize (Hq r Hr). lia.
Qed.

Lemma find_containing_run n s space l start :
  oa_ok n s → space_wf s space l → in_order l →
  find_containing space start s = Done (match List.find (λ r, (vr_start r <=? start) && (start <? vr_stop r)) l with
                                        | Some r => vr_addr r | None => NULL end, s).
Proof.
  intros Hok Hwf Hord. set (p := λ r, _).
  cut (wp (find_containing space start) s (λ a s', s' = s ∧
    a = match List.find p l with Some r => vr_addr r | None => NULL end)).
  { intros (a & s' & Hrun & -> & ->)%wp_Done. done. }
  unfold find_containing. wp_step. eapply wp_load; [apply Hwf|]. unfold mem_fuel. wp_steps.
  apply (wp_loop_rounds (λ k cur s', s' = s ∧ ∃ l1 l2, l = l1 ++ l2 ∧ k = length l2 ∧
    cur = hd_addr l2 NULL ∧ List.find p l = List.find p l2)) with (n := length l).
  { split; [done|]. by exists [], l. }
  { pose proof (space_length n s space l Hok Hwf). lia. }
  intros k cur s' (-> & l1 & l2 & -> & -> & -> & Hfind).
  rewrite (hd_addr_NULL n s space l1 l2) by done. rewrite Hfind. destruct l2 as [|r l2]; simpl; [by apply wp_ret|].
  pose proof (space_node _ _ _ _ _ Hwf) as Hnode.
  wp_step. eapply wp_load; [apply Hnode|]. wp_step. eapply wp_load; [apply Hnode|].
  fold (p r). simpl in Hfind. destruct (p r) eqn:Hpr; [by apply wp_ret|].
  wp_step. eapply wp_load; [apply (nd_next _ _ _ _ Hnode)|]. apply wp_ret. exists (length l2). split; [lia|].
  split; [done|]. exists (l1 ++ [r]), l2. by rewrite <- app_assoc.
Qed.

Lemma find_containing_at n s space l1 r l2 start :
  oa_ok n s → space_wf s space (l1 ++ r :: l2) → in_order (l1 ++ r :: l2) → vr_start r ≤ start < vr_stop r →
  find_containing space start s = Done (vr_addr r, s).
Proof.
  intros Hok Hwf Hord Hr. rewrite (find_containing_run n s space _ start Hok Hwf Hord), find_app. simpl.
  rewrite (proj2 (Z.leb_le (vr_start r) start)), (proj2 (Z.ltb_lt start (vr_stop r))) by lia. simpl.
  destruct (List.find _ l1) as [q|] eqn:Hq; [|done].
  apply List.find_some in Hq as [Hq [_ Hqs%Z.ltb_lt]%andb_true_iff]. apply list_elem_of_In in Hq.
  apply in_order_app in Hord as (_ & _ & Hord). specialize (Hord q r Hq ltac:(by left)). lia.
Qed.

(** [l'] is [l] without the range [start, stop). *)
Definition range_removed (l l' : list region) (start stop : Z) : Prop :=
  in_order l' ∧ ∀ a f, covers l' a f ↔ covers l a f ∧ ¬ start ≤ a < stop.

(** The four shapes: the region goes, shrinks at either end, or is split. *)
Section removal.
Context (l1 l2 : list region) (r : region) (start stop : Z).
Hypothesis Hord : in_order (l1 ++ r :: l2).
Hypothesis Hlo : vr_start r ≤ start.
Hypothesis Hlt : start < stop.
Hypothesis Hhi : stop ≤ vr_stop r.

Lemma removal_others a f :
  covers (l1 ++ r :: l2) a f ∧ ¬ start ≤ a < stop ↔
    covers l1 a f ∨ ((vr_start r ≤ a < vr_stop r ∧ ¬ start ≤ a < stop) ∧ f = vr_flags r) ∨ covers l2 a f.
Proof.
  apply in_order_app in Hord as (_ & (_ & _ & H2)%in_order_cons & H12). rewrite covers_app, covers_cons.
  split; [tauto|]. intros [Hc|[?|Hc]]; [|tauto|].
  - split; [by left|]. destruct Hc as (q & Hq & ? & _). specialize (H12 q r Hq ltac:(by left)). lia.
  - split; [by right; right|]. destruct Hc as (q & Hq & ? & _). specialize (H2 q Hq). lia.
Qed.

Lemma removal_order (l : list region) :
  in_order l → (∀ q, q ∈ l → vr_start r ≤ vr_start q ∧ vr_stop q ≤ vr_stop r) → in_order (l1 ++ l ++ l2).
Proof.
  intros Hl Hin. apply in_order_app in Hord as (H1 & (_ & H2 & H2')%in_order_cons & H12).
  rewrite !in_order_app. split_and!; try done.
  - intros q w Hq Hw. specialize (H2' w Hw). apply Hin in Hq. lia.
  - intros q w Hq [Hw|Hw]%elem_of_app.
    + specialize (H12 q r Hq ltac:(by left)). apply Hin in Hw. lia.
    + apply H12; [done|by right].
Qed.

Lemma removed_all : vr_start r = start → vr_stop r = stop → range_removed (l1 ++ r :: l2) (l1 ++ l2) start stop.
Proof.
  intros E1 E2. split.
  - apply (removal_order []); [apply in_order_nil|]. intros q Hq. by apply elem_of_nil in Hq.
  - intros a f. rewrite removal_others, covers_app. split; [tauto|]. intros [?|[[? ?]|?]]; [tauto|lia|tauto].
Qed.

Lemma removed_one p lo hi :
  vr_start r ≤ lo < hi → hi ≤ vr_stop r →
  (∀ a, lo ≤ a < hi ↔ vr_start r ≤ a < vr_stop r ∧ ¬ start ≤ a < stop) →
  range_removed (l1 ++ r :: l2) (l1 ++ mk_vr p lo hi (vr_flags r) :: l2) start stop.
Proof.
  intros Hl Hh Hiff. pose proof (in_order_elem _ r Hord ltac:(apply elem_of_app; right; by left)). split.
  - apply (removal_order [mk_vr p lo hi (vr_flags r)]).
    + apply in_order_cons. split; [simpl; lia|]. split; [apply in_order_nil|]. intros q Hq. by apply elem_of_nil in Hq.
    + intros q ->%list_elem_of_singleton. simpl. lia.
  - intros a f. rewrite removal_others, covers_app, covers_cons. simpl. by rewrite Hiff.
Qed.
End removal.

Definition removed_post (s : S) (space : Z) (l : list region) (start stop : Z) (s' : S) : Prop :=
  ∃ l', list_step s s' space l l' ∧ range_removed l l' start stop.

Lemma removed_post_intro s space l l' start stop s' :
  list_step s s' space l l' → range_removed l l' start stop → removed_post s space l start stop s'.
Proof. intros. by exists l'. Qed.

(** The split: the region is removed and its two ends added again. *)
Lemma wp_split_range n s space l1 r l2 start stop :
  oa_ok (2 + n) s → space_wf s space (l1 ++ r :: l2) → in_order (l1 ++ r :: l2) →
  vr_start r < start → start < stop → stop < vr_stop r → oa_freeable s (vr_addr r) →
  wp (vmm_remove_region space (vr_addr r) ;;
      vmm_add_range space (vr_start r) start (vr_flags r) ;;
      vmm_add_range space stop (vr_stop r) (vr_flags r) ;; mret tt) s (λ _ s',
    oa_ok n s' ∧ removed_post s space (l1 ++ r :: l2) start stop s').
Proof.
  intros Hok Hwf Hord Hlo Hlt Hhi Hfree. pose proof (node_ranges _ _ _ _ (space_node _ _ _ _ _ Hwf)) as (Hr1 & Hr2 & Hr3).
  wp_step. eapply wp_mono; [by apply (wp_remove_region (2 + n))|]. intros _ s1 (Hok1 & Hstep1).
  assert (space_wf s1 space (l1 ++ l2)) as Hwf1 by (by destruct Hstep1 as (m & -> & _ & _ & ? & _)).
  assert (in_order (l1 ++ l2) ∧ ∀ q, q ∈ l1 ++ l2 → vr_stop q ≤ vr_start r ∨ vr_stop r ≤ vr_start q) as [Hord1 Hout].
  { apply in_order_app in Hord as (H1 & (_ & H2 & H2')%in_order_cons & H12). split.
    - apply in_order_app. split_and!; try done. intros q w Hq Hw. apply H12; [done|by right].
    - intros q [Hq|Hq]%elem_of_app; [left; apply H12; [done|by left]|right; by apply H2']. }
  wp_step. eapply wp_mono; [apply (wp_add_range (Datatypes.S n)); [done|done|done|lia|lia|done|..]|].
  { intros q Hq. destruct (Hout q Hq); [by left|right; lia]. }
  { intros q w Hq Hw ? Hw'. destruct (Hout w Hw); [|lia].
    pose proof (in_order_elem _ w Hord1 Hw). lia. }
  intros p s2 (_ & Hok2 & l3 & Hstep2 & Hord3 & Hcov3 & _).
  assert (space_wf s2 space l3) as Hwf2 by (by destruct Hstep2 as (m & -> & _ & _ & ? & _)).
  assert (∀ q a, q ∈ l3 → vr_start q ≤ a < vr_stop q → a < start ∨ vr_stop r ≤ a) as Hout3.
  { intros q a Hq Ha. destruct (proj1 (Hcov3 a (vr_flags q))) as [(w & Hw & Haw & _)|[? _]]; [by exists q| |lia].
    destruct (Hout w Hw); lia. }
  wp_step. eapply wp_mono; [apply (wp_add_range n); [done|done|done|lia|lia|done|..]|].
  { intros q Hq. pose proof (in_order_elem _ q Hord3 Hq).
    destruct (decide (vr_start q < start)); [left|right].
    - destruct (decide (vr_stop q ≤ stop)) as [|Hn]; [done|]. destruct (Hout3 q start Hq); lia.
    - destruct (Hout3 q (vr_start q) Hq); lia. }
  { intros q w Hq Hw Hqs _. pose proof (in_order_elem _ q Hord3 Hq). destruct (Hout3 q (stop - 1) Hq); lia. }
  intros p' s3 (_ & Hok3 & l4 & Hstep3 & Hord4 & Hcov4 & _). wp_step. split; [done|].
  exists l4. split; [by eapply list_step_trans; [exact Hstep1|]; eapply list_step_trans|]. split; [done|].
  intros a f. rewrite Hcov4, Hcov3, (removal_others l1 l2 r start stop) by (done || lia). rewrite covers_app.
  split.
  - intros [[[?|?]|[? ->]]|[? ->]]; auto; right; left; split; auto; lia.
  - intros [?|[[[? ?] ->]|?]]; auto. destruct (decide (a < start)); [left; right|right]; split; auto; lia.
Qed.

Lemma wp_remove_range n s space l1 r l2 start stop :
  oa_ok (2 + n) s → space_wf s space (l1 ++ r :: l2) → in_order (l1 ++ r :: l2) →
  vr_start r ≤ start → start < stop → stop ≤ vr_stop r → oa_freeable s (vr_addr r) →
  wp (vmm_remove_range space start stop) s (λ _ s',
    oa_ok n s' ∧ removed_post s space (l1 ++ r :: l2) start stop s').
Proof.
  intros Hok Hwf Hord Hlo Hlt Hhi Hfree. pose proof (space_node _ _ _ _ _ Hwf) as Hnode.
  pose proof (node_ranges _ _ _ _ Hnode) as (Hr1 & Hr2 & _).
  assert (∀ k s', oa_ok (2 + k) s' → oa_ok k s') as Hless by (intros; by do 2 apply oa_ok_less).
  unfold vmm_remove_range. wp_step. eapply wp_eq; [apply (find_containing_at (2 + n) s space l1 r l2); [done|done|done|lia]|].
  rewrite (space_addr _ _ _ _ _ _ Hok Hwf). wp_step. eapply wp_load; [apply (nd_stop _ _ _ _ Hnode)|].
  rewrite (proj2 (Z.ltb_ge _ _)) by done. wp_step. eapply wp_load; [apply (nd_start _ _ _ _ Hnode)|].
  destruct (vr_start r =? start) eqn:Es, (vr_stop r =? stop) eqn:Et; bool_facts; simpl.
  - eapply wp_mono; [by apply (wp_remove_region (2 + n))|]. intros _ s' [Hok' Hstep].
    split; [by apply Hless|]. eapply removed_post_intro; [exact Hstep|by apply (removed_all l1 l2 r start stop)].
  - eapply wp_mono; [apply (wp_set_start (2 + n)); [done|done|lia]|]. intros _ s' [Hok' Hstep].
    split; [by apply Hless|]. eapply removed_post_intro; [exact Hstep|]. apply (removed_one l1 l2 r start stop); try lia; done.
  - eapply wp_mono; [apply (wp_set_stop (2 + n)); [done|done|lia]|]. intros _ s' (Hok' & Hstep & _).
    split; [by apply Hless|]. eapply removed_post_intro; [exact Hstep|]. apply (removed_one l1 l2 r start stop); try lia; done.
  - wp_step. eapply wp_load; [apply (nd_flags _ _ _ _ Hnode)|]. wp_step. eapply wp_load; [apply (nd_start _ _ _ _ Hnode)|].
    wp_step. eapply wp_load; [apply (nd_stop _ _ _ _ Hnode)|]. apply wp_split_range; try done; lia.
Qed.

Lemma remove_range_panics n s space l start stop :
  oa_ok n s → space_wf s space l → in_order l →
  (∀ r, r ∈ l → vr_start r ≤ start < vr_stop r → vr_stop r < stop) →
  ∃ msg, vmm_remove_range space start stop s = Faulted (Panicked msg).
Proof.
  intros Hok Hwf Hord Hout. unfold vmm_remove_range.
  rewrite (bind_Done _ _ _ _ _ (find_containing_run n s space l start Hok Hwf Hord)).
  destruct (List.find _ l) as [r|] eqn:Hf; [|by eexists].
  apply List.find_some in Hf as [Hr%list_elem_of_In [Hr1%Z.leb_le Hr2%Z.ltb_lt]%andb_true_iff].
  pose proof (Hout r Hr ltac:(lia)) as Hst. apply list_elem_of_split in Hr as (l1 & l2 & ->).
  rewrite (space_addr _ _ _ _ _ _ Hok Hwf). pose proof (space_node _ _ _ _ _ Hwf) as Hnode.
  rewrite (bind_Done _ _ _ (vr_stop r) s) by (apply load_Done, Hnode).
  rewrite (proj2 (Z.ltb_lt _ _)) by done. by eexists.
Qed.
End operations.
