(* ===== verification/VmmMap.v ===== *)
(** * kernel/mm/vmm (third part): regions and page tables together

    [mmu_map_page] does not disturb the region lists, and the region lists do
    not disturb the page tables; the mapping loop of [vmm_alloc_between] and
    [vmm_alloc_at]. *)
From stdpp Require Import sorting.
From S2P Require Import Prelude CInt Mem CString Bitmap Pmm Mmu VmmSlab Vmm.

Section map.
Context {CS : CSem} {S : Type} {MS : MemState S} {PS : PmmState S} {OA : ObjectAllocator S}.
Implicit Types s : S.

(** The region list, the object allocator and the page tables of [space] are
    in order and apart from each other. *)
Record vspace_ok (n : nat) (s : S) (space root : Z) (T : tables) (l : list region) : Prop := {
  vs_oa : oa_ok n s;
  vs_list : space_wf s space l;
  vs_order : in_order l;
  vs_mm : mm_ok s T root;
  vs_root : load_le 8 (st_mem s) (s_page_directory space) = Some root;
  vs_own : ∀ a, oa_own s a → not_paging s T a;
  vs_space : ∀ a, space ≤ a < space + 16 → not_paging s T a ∧ ¬ oa_own s a;
}.

(** *** The region list does not disturb the page tables *)
Lemma step_frame n s s' space root T l l' :
  vspace_ok n s space root T l → list_step s s' space l l' →
  ∃ m, s' = st_put m s ∧ (∀ i, is_Some (m !! i) ↔ is_Some (st_mem s !! i)) ∧
    (∀ a, ¬ oa_own s a → ¬ s_region space ≤ a < s_region space + 8 → m !! a = st_mem s !! a) ∧
    (∀ a, in_tables T a → m !! a = st_mem s !! a) ∧ bitmap_same (pmm_g s) (st_mem s) m.
Proof.
  intros [Hoa Hl Hord Hmm Hroot Hown Hspace] (m & -> & Hdom & Hq & Hwf & Hlive & Hnew).
  assert (∀ a, ¬ oa_own s a → ¬ s_region space ≤ a < s_region space + 8 → m !! a = st_mem s !! a) as Hout.
  { intros a Ha Hs. apply Hq. split; [done|by left]. }
  assert (∀ a, oa_own s a ∨ s_region space ≤ a < s_region space + 8 → not_paging s T a) as Hnp.
  { intros a [Ha|Ha]; [by apply Hown|]. apply Hspace. unfold s_region in Ha. lia. }
  exists m. split_and!; try done.
  - intros a Ha. apply Hout; intros Hb; destruct (Hnp a ltac:(tauto)) as [? _]; done.
  - intros i r Hr Hav a Ha. apply Hout; intros Hb; destruct (Hnp a ltac:(tauto)) as (_ & _ & Hn); by eapply Hn.
Qed.

Lemma vspace_step n n' s s' space root T l l' :
  vspace_ok n s space root T l → list_step s s' space l l' → oa_ok n' s' → in_order l' →
  vspace_ok n' s' space root T l' ∧ (∀ k, pages_left k s → pages_left k s') ∧
  (∀ x, page_free s' x ↔ page_free s x) ∧ (∀ va, leaf (st_mem s') T va = leaf (st_mem s) T va).
Proof.
  intros Hvs Hstep Hoa' Hord'. destruct (step_frame _ _ _ _ _ _ _ _ Hvs Hstep) as (m & -> & Hdom & Hout & Hta & Hbm).
  destruct (mm_ok_frame s m T root (vs_mm _ _ _ _ _ _ Hvs) Hdom Hta Hbm) as (Hmm & Hleft & Hfree & Hleaf & Hnp).
  rewrite st_mem_put. split; [|done]. destruct Hstep as (m' & Heq & _ & _ & Hwf' & _).
  pose proof Hvs as [_ _ _ _ Hroot Hown Hspace]. split; try done.
  - rewrite st_mem_put, <- Hroot. apply load_le_ext. intros a Ha. unfold s_page_directory, s_region in *.
    apply Hout; [apply Hspace|]; lia.
  - intros a Ha%oa_same. by apply Hnp, Hown.
  - intros a Ha. destruct (oa_same m s a) as [-> _]. rewrite Hnp. by apply Hspace.
Qed.

(** *** The page tables do not disturb the region list *)
Lemma space_frame n s m space l :
  oa_ok n s → space_wf s space l → (∀ i, is_Some (m !! i) ↔ is_Some (st_mem s !! i)) →
  (∀ a, oa_own s a ∨ s_region space ≤ a < s_region space + 8 → m !! a = st_mem s !! a) →
  oa_ok n (st_put m s) ∧ space_wf (st_put m s) space l.
Proof.
  intros Hoa Hwf Hdom Hm. destruct (oa_ext _ _ m Hoa Hdom) as (Hoa' & Hlive & _).
  { intros a Ha. apply Hm. left. by apply oa_meta_own. }
  split; [done|]. pose proof Hwf as [Hhead Hseg Hlv Hnd Hown]. split; rewrite ?st_mem_put; try done.
  - rewrite <- Hhead. apply load_le_ext. intros a Ha. apply Hm. by right.
  - eapply seg_out; [|done]. intros a Ha. apply Hm. left. by eapply in_nodes_own.
  - intros r Hr. by apply Hlive, Hlv.
  - intros a Ha. destruct (oa_same m s a) as [-> _]. by apply Hown.
Qed.

Lemma vspace_paging n s m space root T T' l :
  vspace_ok n s space root T l → mm_ok (st_put m s) T' root →
  (∀ i, is_Some (m !! i) ↔ is_Some (st_mem s !! i)) →
  (∀ a, not_paging s T a → m !! a = st_mem s !! a ∧ not_paging (st_put m s) T' a) →
  vspace_ok n (st_put m s) space root T' l.
Proof.
  intros [Hoa Hl Hord Hmm Hroot Hown Hspace] Hmm' Hdom Hnp.
  destruct (space_frame n s m space l Hoa Hl Hdom) as [Hoa' Hl'].
  { intros a [Ha|Ha]; apply Hnp; [by apply Hown|]. apply Hspace. unfold s_region in Ha. lia. }
  split; try done.
  - rewrite st_mem_put, <- Hroot. apply load_le_ext. intros a Ha. apply Hnp, Hspace. unfold s_page_directory in Ha. lia.
  - intros a Ha%oa_same. by apply Hnp, Hown.
  - intros a Ha. destruct (oa_same m s a) as [-> _]. split; [apply Hnp|]; by apply Hspace.
Qed.

(** The allocation of a physical page. *)
Lemma vspace_xalloc n s space root T l k :
  vspace_ok n s space root T l → pages_left (Datatypes.S k) s →
  wp pmm_xalloc s (λ q s', ∃ m, s' = st_put m s ∧ vspace_ok n s' space root T l ∧ pages_left k s' ∧
    (∀ i, is_Some (m !! i) ↔ is_Some (st_mem s !! i)) ∧ page_free s q ∧ 0 < q < 2 ^ 47 ∧ q mod 4096 = 0 ∧
    (∀ x, page_free s' x ↔ page_free s x ∧ x ≠ q) ∧
    (∀ va, leaf m T va = leaf (st_mem s) T va) ∧
    ∀ a, not_paging s T a → m !! a = st_mem s !! a ∧ not_paging s' T a).
Proof.
  intros Hvs Hleft. pose proof (vs_mm _ _ _ _ _ _ Hvs) as Hmm.
  eapply wp_pmm_xalloc; [apply Hmm|exact Hleft|]. intros q m Hwf Honly Hq0 Hq Hpf Hleft'.
  assert (mm_ok (st_put m s) T root) as Hmm'.
  { apply mm_ok_bitmaps; [done|done|done|]. intros p [Hp _]%Hpf. by left. }
  assert (∀ a, not_paging s T a → m !! a = st_mem s !! a ∧ not_paging (st_put m s) T a) as Hnp.
  { intros a (H1 & H2 & H3). split; [apply Honly; intros i r Hr Hav; by eapply H3|]. split_and!; [done| |by rewrite pmm_g_mem].
    intros x [Hx _]%Hpf. by apply H2. }
  destruct (mo_free _ _ _ Hmm q Hq) as (? & ? & ? & _).
  exists m. split; [done|]. split; [by eapply vspace_paging; [done|done|apply Honly|]|].
  split_and!; try done; try lia; [apply Honly|]. intros va. by eapply leaf_bitmaps.
Qed.

(** What a change of the page tables that takes free pages leaves alone. *)
Definition paging_frame (s : S) (T T' : tables) (m : mem) : Prop :=
  (∀ i, is_Some (m !! i) ↔ is_Some (st_mem s !! i)) ∧ (∀ x, page_free (st_put m s) x → page_free s x) ∧
  ∀ a, not_paging s T a → m !! a = st_mem s !! a ∧ not_paging (st_put m s) T' a.

Lemma paging_frame_refl s T : paging_frame s T T (st_mem s).
Proof. unfold paging_frame. by rewrite st_put_mem. Qed.

Lemma paging_frame_trans s T T1 T2 m1 m2 :
  paging_frame s T T1 m1 → paging_frame (st_put m1 s) T1 T2 m2 → paging_frame s T T2 m2.
Proof.
  unfold paging_frame. rewrite st_mem_put, st_put_put. intros (D1 & P1 & N1) (D2 & P2 & N2). split_and!.
  - intros i. by rewrite D2, D1.
  - intros x Hx. by apply P1, P2.
  - intros a Ha. destruct (N1 a Ha) as [E1 Ha1]. destruct (N2 a Ha1) as [E2 Ha2]. split; [congruence|done].
Qed.

(** Mapping a page, seen from the region list. *)
Lemma vspace_map_page n s space root T l va pa perm k :
  vspace_ok n s space root T l → pages_left (3 + k) s → 0 ≤ perm < 4096 → 0 ≤ pa < 2 ^ 64 →
  wp (mmu_map_page space va pa perm) s (λ old s', ∃ m T', s' = st_put m s ∧ old = leaf (st_mem s) T va ∧
    vspace_ok n s' space root T' l ∧ pages_left k s' ∧
    (∀ va', leaf m T' va' = if same_page va va' then Z.lor pa perm else leaf (st_mem s) T va') ∧
    paging_frame s T T' m).
Proof.
  intros Hvs Hleft Hperm Hpa.
  eapply wp_mono; [apply (wp_mmu_map_page s T root space va pa perm k); [apply Hvs|apply Hvs|done..]|].
  intros old s' (m & T' & -> & -> & Hmm & _ & _ & Hleft' & Hfree & Hdom & Hleaf & Hnp).
  exists m, T'. split; [done|]. split; [done|]. split; [by eapply vspace_paging|]. done.
Qed.
End map.

(** ** The mapping loop *)

(** The number of the page of [va'], counted from the one of [va] on. *)
Definition page_index (va va' : Z) : Z := (u64 va' / 4096 - va / 4096) mod 2 ^ 36.

(** The entries after the pages [ps] have been mapped from [va] on. *)
Definition leaf_after (old : Z → Z) (va flags : Z) (ps : list Z) (va' : Z) : Z :=
  match ps !! Z.to_nat (page_index va va') with Some q => Z.lor q flags | None => old va' end.

Lemma page_index_range va va' : 0 ≤ page_index va va' < 2 ^ 36.
Proof. apply Z.mod_pos_bound. lia. Qed.

Lemma same_page_index va j va' :
  0 ≤ va → va mod 4096 = 0 → 0 ≤ j < 2 ^ 36 → va + 4096 * j < 2 ^ 64 →
  same_page (va + 4096 * j) va' = (page_index va va' =? j).
Proof.
  intros Hva Hal Hj Hlt. unfold same_page, page_index. rewrite (u64_small (va + _)) by lia.
  replace ((va + 4096 * j) / 4096) with (va / 4096 + j) by zlia.
  generalize (u64 va' / 4096) (va / 4096). intros x y. apply eq_bool_prop_intro. rewrite !Is_true_true, !Z.eqb_eq.
  split; intros H.
  - rewrite Zminus_mod, <- H, <- Zminus_mod. replace (y + j - y) with j by lia. by apply Z.mod_small.
  - rewrite <- H, Zplus_mod_idemp_r. f_equal. lia.
Qed.

Lemma page_index_self va j :
  0 ≤ va → va mod 4096 = 0 → 0 ≤ j < 2 ^ 36 → va + 4096 * j < 2 ^ 64 → page_index va (va + 4096 * j) = j.
Proof.
  intros. apply Z.eqb_eq. rewrite <- same_page_index by done. apply same_page_refl.
Qed.

Lemma leaf_after_snoc old va flags ps q va' :
  0 ≤ va → va mod 4096 = 0 → Z.of_nat (length ps) < 2 ^ 36 → va + 4096 * Z.of_nat (length ps) < 2 ^ 64 →
  leaf_after old va flags (ps ++ [q]) va' =
    if same_page (va + 4096 * Z.of_nat (length ps)) va' then Z.lor q flags else leaf_after old va flags ps va'.
Proof.
  intros. rewrite same_page_index by lia. pose proof (page_index_range va va'). unfold leaf_after.
  destruct (page_index va va' =? Z.of_nat (length ps)) eqn:E; bool_facts.
  - rewrite E, Nat2Z.id, lookup_app_r, Nat.sub_diag by lia. done.
  - destruct (decide (Z.to_nat (page_index va va') < length ps)%nat).
    + by rewrite lookup_app_l by done.
    + rewrite !lookup_ge_None_2; [done|lia|rewrite length_app; simpl; lia].
Qed.

Section loop.
Context {CS : CSem} {S : Type} {MS : MemState S} {PS : PmmState S} {OA : ObjectAllocator S}.
Implicit Types s : S.
Context (n : nat) (s0 : S) (space root : Z) (T0 : tables) (l : list region) (region va stop flags : Z).
Hypothesis Hvs0 : vspace_ok n s0 space root T0 l.
Hypothesis Hva : 0 ≤ va ∧ va mod 4096 = 0 ∧ stop < 2 ^ 64.
Hypothesis Hflags : 0 ≤ flags < 4096.
(** The structure of the region, where the loop reads [va_stop]. *)
Hypothesis Hstop : load_le 8 (st_mem s0) (g_va_stop region) = Some stop.
Hypothesis Hnode : ∀ a, g_va_stop region ≤ a < g_va_stop region + 8 → not_paging s0 T0 a.

(** The state after the pages [ps] have been mapped. *)
Definition fresh_inv (ps : list Z) (s : S) : Prop :=
  ∃ m T, s = st_put m s0 ∧ vspace_ok n s space root T l ∧ NoDup ps ∧
    (∀ q, q ∈ ps → page_free s0 q) ∧ (∀ q, page_free s q → page_free s0 q ∧ q ∉ ps) ∧
    (∀ va', leaf m T va' = leaf_after (leaf (st_mem s0) T0) va flags ps va') ∧ paging_frame s0 T0 T m.

Definition map_fresh_body (_va : Z) : M S unit :=
  pa ← pmm_xalloc;
  old ← mmu_map_page space _va pa flags;
  if negb (old =? 0) then panic "vmm_alloc: overwrite of an already used virtual address" else mret tt.

Lemma fresh_inv_nil : fresh_inv [] s0.
Proof.
  exists (st_mem s0), T0. rewrite st_put_mem. split_and!; try done; [constructor|..].
  - intros q Hq. by apply elem_of_nil in Hq.
  - intros q Hq. split; [done|]. apply not_elem_of_nil.
  - apply paging_frame_refl.
Qed.

Lemma fresh_stop ps s : fresh_inv ps s → load_le 8 (st_mem s) (g_va_stop region) = Some stop.
Proof.
  intros (m & T & -> & _ & _ & _ & _ & _ & _ & _ & Hnp). rewrite st_mem_put, <- Hstop. apply load_le_ext.
  intros a Ha. apply Hnp, Hnode. lia.
Qed.

Lemma fresh_body ps s k (a := va + 4096 * Z.of_nat (length ps)) :
  fresh_inv ps s → pages_left (4 + k) s → Z.of_nat (length ps) < 2 ^ 36 → a < stop →
  if leaf (st_mem s0) T0 a =? 0 then
    ∃ q s', map_fresh_body a s = Done (tt, s') ∧ fresh_inv (ps ++ [q]) s' ∧ pages_left k s'
  else ∃ msg, map_fresh_body a s = Faulted (Panicked msg).
Proof.
  intros (m & T & -> & Hvs & Hnd & Hps & Hfr & Hleaf & Hframe) Hleft Hlen Ha.
  destruct (proj1 (wp_Done _ _ _) (vspace_xalloc n _ space root T l (3 + k) Hvs Hleft))
    as (q & s1 & Hrun1 & m1 & -> & Hvs1 & Hleft1 & Hdom1 & Hq & Hq1 & Hq2 & Hpf1 & Hleaf1 & Hnp1).
  rewrite st_mem_put, st_put_put in *.
  destruct (proj1 (wp_Done _ _ _) (vspace_map_page n _ space root T l a q flags k Hvs1 Hleft1 Hflags ltac:(lia)))
    as (old & s2 & Hrun2 & m2 & T2 & -> & -> & Hvs2 & Hleft2 & Hleaf2 & Hframe2).
  assert (paging_frame (st_put m s0) T T m1) as Hframe1.
  { unfold paging_frame. rewrite st_put_put, st_mem_put. split; [done|]. split; [|done]. intros x [Hx _]%Hpf1. done. }
  pose proof (proj1 (proj2 Hframe2)) as Hpf2. rewrite st_mem_put, st_put_put in *.
  assert (leaf m1 T a = leaf (st_mem s0) T0 a) as Hold.
  { rewrite Hleaf1, Hleaf. unfold leaf_after, a. rewrite page_index_self by lia.
    by rewrite Nat2Z.id, lookup_ge_None_2 by done. }
  rewrite Hold in Hrun2. unfold map_fresh_body. rewrite (bind_Done _ _ _ _ _ Hrun1), (bind_Done _ _ _ _ _ Hrun2).
  destruct (leaf (st_mem s0) T0 a =? 0); simpl; [|by eexists]. exists q, (st_put m2 s0). split; [done|]. split; [|done].
  destruct (Hfr q Hq) as [Hq0 Hqps]. exists m2, T2. split; [done|]. split; [done|]. split; [|split; [|split; [|split]]].
  - apply NoDup_app. split; [done|]. split; [|apply NoDup_singleton]. by intros x Hx ->%list_elem_of_singleton.
  - intros x [Hx| ->%list_elem_of_singleton]%elem_of_app; [by apply Hps|done].
  - intros x [Hx1 Hne]%Hpf2%Hpf1. destruct (Hfr x Hx1) as [? ?]. split; [done|].
    rewrite elem_of_app, list_elem_of_singleton. tauto.
  - intros va'. rewrite Hleaf2, leaf_after_snoc by lia. fold a. by rewrite Hleaf1, Hleaf.
  - eapply paging_frame_trans; [exact Hframe|]. eapply paging_frame_trans; [exact Hframe1|]. by rewrite st_put_put.
Qed.

(** The loop of [map_fresh_pages], from its [j]-th round on. *)
Definition fresh_loop (fuel : nat) (a : Z) : M S unit :=
  loop fuel (λ va, hi ← rd64 (g_va_stop region);
    if va <? hi then map_fresh_body va ;; mret (inl (u64 (va + PAGE_SIZE_IN_BYTES))) else mret (inr tt)) a.

Lemma fresh_loop_done k fuel ps s r :
  fresh_inv ps s → (k < fuel)%nat → pages_left (4 * k + r) s →
  Z.of_nat (length ps + k) < 2 ^ 36 → va + 4096 * Z.of_nat (length ps + k) = stop →
  (∀ j, (length ps ≤ j < length ps + k)%nat → leaf (st_mem s0) T0 (va + 4096 * Z.of_nat j) = 0) →
  ∃ ps' s', length ps' = (length ps + k)%nat ∧
    fresh_loop fuel (va + 4096 * Z.of_nat (length ps)) s = Done (tt, s') ∧ fresh_inv ps' s'.
Proof.
  revert fuel ps s. induction k as [|k IH]; intros fuel ps s Hinv Hfuel Hleft Hlen Hend Hfresh;
    (destruct fuel as [|fuel]; [lia|]); unfold fresh_loop; cbn [loop]; fold (fresh_loop fuel).
  - exists ps, s. split; [lia|]. split; [|done]. unfold mbind at 1, M_bind.
    rewrite (bind_Done _ _ _ _ _ (load_Done _ _ _ _ (fresh_stop _ _ Hinv))).
    rewrite (proj2 (Z.ltb_ge _ _)) by lia. done.
  - destruct (decide (va + 4096 * Z.of_nat (length ps) < stop)) as [Hlt|]; [|lia].
    replace (4 * Datatypes.S k + r)%nat with (4 + (4 * k + r))%nat in Hleft by lia.
    pose proof (fresh_body ps s _ Hinv Hleft ltac:(lia) Hlt) as Hbody. cbv zeta in Hbody.
    rewrite Hfresh, Z.eqb_refl in Hbody by lia. destruct Hbody as (q & s1 & Hrun & Hinv1 & Hleft1).
    destruct (IH fuel (ps ++ [q]) s1) as (ps' & s' & Hps' & Hrun' & Hinv'); rewrite ?length_app; simpl; try done; try lia.
    { intros j Hj. apply Hfresh. lia. }
    exists ps', s'. rewrite length_app in Hps'. simpl in Hps'. split; [lia|]. split; [|done].
    unfold mbind at 1, M_bind. rewrite (bind_Done _ _ _ _ _ (load_Done _ _ _ _ (fresh_stop _ _ Hinv))).
    rewrite (proj2 (Z.ltb_lt _ _)) by done. rewrite (bind_Done _ _ _ _ _ Hrun). simpl.
    rewrite length_app in Hrun'. simpl in Hrun'. unfold PAGE_SIZE_IN_BYTES. rewrite u64_small by lia.
    rewrite <- Hrun'. unfold fresh_loop. f_equal. lia.
Qed.

Lemma fresh_loop_panics k fuel ps s :
  fresh_inv ps s → (k < fuel)%nat → pages_left (4 * k + 4) s →
  Z.of_nat (length ps + k) < 2 ^ 36 → va + 4096 * Z.of_nat (length ps + k) < stop →
  leaf (st_mem s0) T0 (va + 4096 * Z.of_nat (length ps + k)) ≠ 0 →
  ∃ msg, fresh_loop fuel (va + 4096 * Z.of_nat (length ps)) s = Faulted (Panicked msg).
Proof.
  revert fuel ps s. induction k as [|k IH]; intros fuel ps s Hinv Hfuel Hleft Hlen Hend Hused;
    (destruct fuel as [|fuel]; [lia|]); unfold fresh_loop; cbn [loop]; fold (fresh_loop fuel);
    unfold mbind at 1, M_bind; rewrite (bind_Done _ _ _ _ _ (load_Done _ _ _ _ (fresh_stop _ _ Hinv)));
    rewrite (proj2 (Z.ltb_lt _ _)) by lia.
  - pose proof (fresh_body ps s 0 Hinv Hleft ltac:(lia) ltac:(lia)) as Hbody. cbv zeta in Hbody.
    rewrite Nat.add_0_r in Hused. rewrite (proj2 (Z.eqb_neq _ _) Hused) in Hbody. destruct Hbody as [msg Hmsg].
    exists msg. by rewrite (bind_Faulted _ _ _ _ Hmsg).
  - replace (4 * Datatypes.S k + 4)%nat with (4 + (4 * k + 4))%nat in Hleft by lia.
    pose proof (fresh_body ps s _ Hinv Hleft ltac:(lia) ltac:(lia)) as Hbody. cbv zeta in Hbody.
    destruct (leaf (st_mem s0) T0 _ =? 0).
    + destruct Hbody as (q & s1 & Hrun & Hinv1 & Hleft1). rewrite (bind_Done _ _ _ _ _ Hrun). simpl.
      destruct (IH fuel (ps ++ [q]) s1) as [msg Hmsg]; rewrite ?length_app; simpl; try done; try lia.
      { by replace (length ps + 1 + k)%nat with (length ps + Datatypes.S k)%nat by lia. }
      exists msg. rewrite length_app in Hmsg. simpl in Hmsg. unfold PAGE_SIZE_IN_BYTES. rewrite u64_small by lia.
      rewrite <- Hmsg. unfold fresh_loop. f_equal. lia.
    + destruct Hbody as [msg Hmsg]. exists msg. by rewrite (bind_Faulted _ _ _ _ Hmsg).
Qed.
End loop.

(** ** Allocation at an address *)
Section alloc_at.
Context {CS : CSem} {S : Type} {MS : MemState S} {PS : PmmState S} {OA : ObjectAllocator S}.
Implicit Types s : S.

(** What [vmm_alloc_at] is asked for: [size] free pages at [va]. *)
Record alloc_request (n : nat) (s : S) (space root : Z) (T : tables) (l : list region) (va size flags : Z) : Prop := {
  ar_vs : vspace_ok (Datatypes.S n) s space root T l;
  ar_va : 0 < va ∧ va mod 4096 = 0;
  ar_size : 0 < size < 2 ^ 36 ∧ va + size * 4096 < 2 ^ 64;
  ar_flags : 0 ≤ flags < 4096;
  ar_free : free_range l va (va + size * 4096);
  ar_merge : ∀ q w, q ∈ l → w ∈ l → vr_stop q = va → vr_start w = va + size * 4096 → oa_freeable s (vr_addr w);
}.

(** The region [p] that a range has been added to, with its structure apart from
    the page tables. *)
Record region_added (n : nat) (s s1 : S) (space root : Z) (T : tables) (l l' : list region) (start stop flags p : Z) (r : region) : Prop := {
  rg_vs : vspace_ok n s1 space root T l';
  rg_step : list_step s s1 space l l';
  rg_added : range_added l l' start stop flags p;
  rg_left : ∀ k, pages_left k s → pages_left k s1;
  rg_free : ∀ x, page_free s1 x ↔ page_free s x;
  rg_leaf : ∀ a, leaf (st_mem s1) T a = leaf (st_mem s) T a;
  rg_in : r ∈ l';
  rg_flags : vr_flags r = flags;
  rg_range : vr_start r ≤ start ∧ stop ≤ vr_stop r ∧ vr_stop r < 2 ^ 64;
  rg_end : vr_stop r = stop → ∀ w, w ∈ l → vr_start w = stop → vr_flags w ≠ flags;
  rg_load : load_le 8 (st_mem s1) (g_va_stop p) = Some (vr_stop r);
  rg_node : ∀ a, g_va_stop p ≤ a < g_va_stop p + 8 → not_paging s1 T a;
}.

Lemma added_region n s space root T l start stop flags p s1 :
  vspace_ok (Datatypes.S n) s space root T l → added_post n s space l start stop flags p s1 →
  ∃ l' r, region_added n s s1 space root T l l' start stop flags p r.
Proof.
  intros Hvs (Hp & Hok1 & l' & Hstep & Hadd). pose proof Hadd as (Hord' & _ & r & Hr & Hrp & Hrf & Hr1 & Hr2 & Hr3).
  destruct (vspace_step _ _ _ _ _ _ _ _ _ Hvs Hstep Hok1 Hord') as (Hvs1 & Hleft1 & Hpf1 & Hleaf1).
  pose proof (vs_list _ _ _ _ _ _ Hvs1) as Hwf1.
  destruct (oa_live_mem _ _ _ Hok1 (sp_live _ _ _ Hwf1 r Hr)) as (_ & _ & _ & Hown).
  pose proof Hr as Hsplit. apply list_elem_of_split in Hsplit as (l1 & l2 & El).
  pose proof Hwf1 as Hwf2. rewrite El in Hwf2. pose proof (space_node _ _ _ _ _ Hwf2) as Hnode. rewrite Hrp in *.
  destruct (node_ranges _ _ _ _ Hnode) as (_ & Hstop & _). exists l', r. split; try done; [lia|rewrite <- Hrp; apply (nd_stop _ _ _ _ Hnode)|].
  intros a Ha. apply (vs_own _ _ _ _ _ _ Hvs1), Hown. unfold g_va_stop, REGION_SIZE in *. lia.
Qed.

Lemma alloc_at_region n s space root T l va size flags :
  alloc_request n s space root T l va size flags →
  ∃ p s1 l' r, vmm_add_range space va (va + size * 4096) flags s = Done (p, s1) ∧ p ≠ NULL ∧
    region_added n s s1 space root T l l' va (va + size * 4096) flags p r.
Proof.
  intros [Hvs [Hva Hal] [Hsz Hhi] Hf Hfr Hmerge].
  destruct (proj1 (wp_Done _ _ _) (wp_add_range n s space l va (va + size * 4096) flags (vs_oa _ _ _ _ _ _ Hvs)
    (vs_list _ _ _ _ _ _ Hvs) (vs_order _ _ _ _ _ _ Hvs) ltac:(lia) Hhi ltac:(lia) Hfr Hmerge)) as (p & s1 & Hrun & Hpost).
  destruct (added_region _ _ _ _ _ _ _ _ _ _ _ Hvs Hpost) as (l' & r & Hadd). exists p, s1, l', r.
  split; [done|]. split; [apply Hpost|done].
Qed.

Lemma map_fresh_pages_loop space p va flags stop s :
  load_le 8 (st_mem s) (g_va_stop p) = Some stop →
  map_fresh_pages space p va flags s =
    fresh_loop space p flags (Datatypes.S (Z.to_nat ((stop - va) / 4096 + 1))) va s.
Proof. intros Hl. unfold map_fresh_pages, for_pages. by rewrite (bind_Done _ _ _ stop s) by (by apply load_Done). Qed.

(** The regions of [space] change, then its page tables. *)
Definition space_step (n : nat) (s s' : S) (space root : Z) (T T' : tables) (l l' : list region) : Prop :=
  ∃ s1 m, list_step s s1 space l l' ∧ vspace_ok n s1 space root T l' ∧ s' = st_put m s1 ∧ paging_frame s1 T T' m.

(** What a successful allocation guarantees. *)
Definition allocated_at (n : nat) (s s' : S) (space root : Z) (T : tables) (l : list region) (va size flags : Z) : Prop :=
  ∃ T' l' ps, vspace_ok n s' space root T' l' ∧ space_step n s s' space root T T' l l' ∧
    (∀ a f, covers l' a f ↔ covers l a f ∨ (va ≤ a < va + size * 4096 ∧ f = flags)) ∧
    length ps = Z.to_nat size ∧ NoDup ps ∧ (∀ q, q ∈ ps → page_free s q ∧ ¬ page_free s' q) ∧
    ∀ va', leaf (st_mem s') T' va' = leaf_after (leaf (st_mem s) T) va flags ps va'.

(** When the range is not extended by the region after it, the loop maps all its
    pages, and only they. *)
Lemma map_added_run n s s1 space root T l l' va size flags p r :
  region_added n s s1 space root T l l' va (va + size * 4096) flags p r →
  0 < va → va mod 4096 = 0 → 0 < size < 2 ^ 36 → va + size * 4096 < 2 ^ 64 → 0 ≤ flags < 4096 →
  ¬ covers l (va + size * 4096) flags →
  (∀ j, 0 ≤ j < size → leaf (st_mem s) T (va + 4096 * j) = 0) → pages_left (4 * Z.to_nat size) s →
  ∃ s', map_fresh_pages space p va flags s1 = Done (tt, s') ∧ allocated_at n s s' space root T l va size flags.
Proof.
  intros [Hvs1 Hlist Hadd Hleft1 Hpf1 Hleaf1 Hr Hrf [Hr1 [Hr2 Hstop]] _ Hload Hnp] Hva Hal Hsz Hhi Hf Hnc Hfresh Hleft.
  assert (vr_stop r = va + size * 4096) as Hend.
  { destruct (decide (vr_stop r = va + size * 4096)) as [|Hne]; [done|]. destruct Hadd as (_ & Hcov & _).
    destruct (proj1 (Hcov (va + size * 4096) flags)) as [?|[? _]]; [|done|lia]. exists r. split; [done|]. split; [lia|done]. }
  rewrite Hend in *.
  destruct (fresh_loop_done n s1 space root T l' p va (va + size * 4096) flags ltac:(lia) Hf Hload Hnp
    (Z.to_nat size) (Datatypes.S (Z.to_nat ((va + size * 4096 - va) / 4096 + 1))) [] s1 0)
    as (ps & s2 & Hlen & Hrun2 & Hinv); simpl; try lia.
  { apply fresh_inv_nil; done. }
  { replace (va + size * 4096 - va) with (size * 4096) by lia. rewrite Z.div_mul by lia. lia. }
  { rewrite Nat.add_0_r. by apply Hleft1. }
  { intros j Hj. rewrite Hleaf1. apply Hfresh. lia. }
  destruct Hinv as (m & T' & -> & Hvs2 & Hnd & Hps & Hpf & Hleaf & Hframe).
  exists (st_put m s1). split; [|exists T', l', ps; split; [done|split; [by exists s1, m|split; [apply Hadd|split; [done|split; [done|split]]]]]].
  - rewrite (map_fresh_pages_loop _ _ _ _ _ _ Hload). simpl in Hrun2. by rewrite Z.add_0_r in Hrun2.
  - intros q Hq. split; [by apply Hpf1, Hps|]. intros Hq'. by destruct (Hpf q Hq').
  - intros va'. rewrite st_mem_put, Hleaf. unfold leaf_after. destruct (ps !! _); [done|]. apply Hleaf1.
Qed.

Lemma alloc_at_run n s space root T l va size flags :
  alloc_request n s space root T l va size flags → ¬ covers l (va + size * 4096) flags →
  (∀ j, 0 ≤ j < size → leaf (st_mem s) T (va + 4096 * j) = 0) → pages_left (4 * Z.to_nat size) s →
  ∃ s', vmm_alloc_at space va size flags s = Done (va, s') ∧ allocated_at n s s' space root T l va size flags.
Proof.
  intros Hreq Hnc Hfresh Hleft. pose proof Hreq as [Hvs [Hva Hal] [Hsz Hhi] Hf Hfr Hmerge].
  destruct (alloc_at_region _ _ _ _ _ _ _ _ _ Hreq) as (p & s1 & l1 & r & Hrun & Hp & Hadd).
  destruct (map_added_run _ _ _ _ _ _ _ _ _ _ _ _ _ Hadd Hva Hal Hsz Hhi Hf Hnc Hfresh Hleft)
    as (s' & Hmap & Hpost).
  exists s'. split; [|exact Hpost].
  unfold vmm_alloc_at, PAGE_SIZE_IN_BYTES. rewrite (proj2 (Z.eqb_neq va NULL)) by (unfold NULL; lia).
  rewrite (u64_small (size * 4096)), (u64_small (va + size * 4096)) by lia.
  rewrite (bind_Done _ _ _ _ _ Hrun), (proj2 (Z.eqb_neq _ _) Hp). by rewrite (bind_Done _ _ _ _ _ Hmap).
Qed.

(** When a region with the same flags starts where the range stops, the loop
    goes on into it. *)
Lemma alloc_at_merge_panics n s space root T l va size flags w :
  alloc_request n s space root T l va size flags →
  w ∈ l → vr_start w = va + size * 4096 → vr_flags w = flags →
  leaf (st_mem s) T (va + size * 4096) ≠ 0 → size + 1 < 2 ^ 36 → pages_left (4 * Z.to_nat size + 4) s →
  ∃ msg, vmm_alloc_at space va size flags s = Faulted (Panicked msg).
Proof.
  intros Hreq Hw Hws Hwf Hused Hsz' Hleft. pose proof Hreq as [Hvs [Hva Hal] [Hsz Hhi] Hf Hfr Hmerge].
  destruct (alloc_at_region _ _ _ _ _ _ _ _ _ Hreq) as (p & s1 & l' & r & Hrun & Hp & Hadd).
  destruct Hadd as [Hvs1 _ Hadd Hleft1 Hpf1 Hleaf1 Hr Hrf [Hr1 [Hr2 Hstop]] Hnc Hload Hnp].
  assert (va + size * 4096 < vr_stop r) as Hlt.
  { destruct (decide (vr_stop r = va + size * 4096)) as [He|]; [|lia]. by destruct (Hnc He w Hw Hws). }
  destruct (fresh_loop_panics n s1 space root T l' p va (vr_stop r) flags ltac:(lia) Hf Hload Hnp
    (Z.to_nat size) (Datatypes.S (Z.to_nat ((vr_stop r - va) / 4096 + 1))) [] s1) as [msg Hmsg]; try (simpl; lia).
  { apply fresh_inv_nil; done. }
  { clear - Hsz Hlt. zlia. }
  { by apply Hleft1. }
  { rewrite Hleaf1. simpl. by replace (va + 4096 * Z.of_nat (Z.to_nat size)) with (va + size * 4096) by lia. }
  exists msg. unfold vmm_alloc_at, PAGE_SIZE_IN_BYTES. rewrite (proj2 (Z.eqb_neq va NULL)) by (unfold NULL; lia).
  rewrite (u64_small (size * 4096)), (u64_small (va + size * 4096)) by lia.
  rewrite (bind_Done _ _ _ _ _ Hrun), (proj2 (Z.eqb_neq _ _) Hp). apply bind_Faulted.
  rewrite (map_fresh_pages_loop _ _ _ _ _ _ Hload). simpl in Hmsg. by rewrite Z.add_0_r in Hmsg.
Qed.
End alloc_at.

(** ** Allocation between two addresses *)

(** The loop of [vmm_alloc_between] on the list of regions: the start of the gap,
    and the regions before and after it. *)
Fixpoint search_gap (lower need va : Z) (prev l : list region) : Z * list region * list region :=
  match l with
  | [] => (va, prev, [])
  | r :: l' =>
      if vr_stop r <? lower then search_gap lower need (vr_stop r) (prev ++ [r]) l'
      else if need <=? u64 (vr_start r - Z.max va lower) then (Z.max va lower, prev, r :: l')
      else search_gap lower need (vr_stop r) (prev ++ [r]) l'
  end.

Section alloc_between.
Context {CS : CSem} {S : Type} {MS : MemState S} {PS : PmmState S} {OA : ObjectAllocator S}.
Implicit Types s : S.

Lemma find_gap_run n s space l lower bytes :
  oa_ok n s → space_wf s space l → in_order l → 0 ≤ lower < 2 ^ 64 → 0 ≤ bytes → bytes + 2 * PAGE_SIZE_IN_BYTES < 2 ^ 64 →
  find_gap space lower bytes (2 * PAGE_SIZE_IN_BYTES) s =
    Done (let '(va, l1, l2) := search_gap lower (bytes + 2 * PAGE_SIZE_IN_BYTES) lower [] l in
          (hd_addr l2 NULL, last_addr NULL l1, va), s).
Proof.
  unfold PAGE_SIZE_IN_BYTES. intros Hoa Hwf Hord Hlow Hb Hb2. set (need := bytes + 2 * 4096) in *.
  set (res := let '(va, l1, l2) := search_gap lower need lower [] l in (hd_addr l2 NULL, last_addr NULL l1, va)).
  cut (wp (find_gap space lower bytes (2 * 4096)) s (λ x s', s' = s ∧ x = res)).
  { intros (x & s' & Hrun & -> & ->)%wp_Done. done. }
  unfold find_gap. wp_step. eapply wp_load; [apply Hwf|]. unfold mem_fuel. wp_steps.
  apply (wp_loop_rounds (λ k '(cur, prev, va) s', s' = s ∧ 0 ≤ va < 2 ^ 64 ∧ ∃ la lb, l = la ++ lb ∧
    k = length lb ∧ cur = hd_addr lb NULL ∧ prev = last_addr NULL la ∧
    search_gap lower need lower [] l = search_gap lower need va la lb)) with (n := length l).
  { split; [done|]. split; [done|]. by exists [], l. }
  { pose proof (space_length n s space _ Hoa Hwf). lia. }
  intros k [[cur prev] va] s' (-> & Hva & la & lb & El & -> & -> & -> & Hsearch). unfold res. rewrite Hsearch.
  pose proof Hwf as Hwf'. rewrite El in Hwf'. rewrite (hd_addr_NULL n s space la lb) by done.
  destruct lb as [|r lb]; cbn [search_gap]; [by apply wp_ret|].
  pose proof (space_node _ _ _ _ _ Hwf') as Hnode. destruct (node_ranges _ _ _ _ Hnode) as (Hr1 & Hr2 & _). cbn [hd_addr].
  wp_step. eapply wp_load; [apply (nd_stop _ _ _ _ Hnode)|]. destruct (vr_stop r <? lower) eqn:Es.
  - wp_step. apply wp_ret. cbn beta iota. wp_step. eapply wp_load; [apply (nd_stop _ _ _ _ Hnode)|].
    wp_step. eapply wp_load; [apply (nd_next _ _ _ _ Hnode)|]. apply wp_ret.
    exists (length lb). split; [simpl; lia|]. split; [done|]. split; [lia|].
    exists (la ++ [r]), lb. rewrite <- app_assoc, last_addr_snoc. done.
  - wp_step. wp_step. eapply wp_load; [apply (nd_start _ _ _ _ Hnode)|]. wp_step.
    rewrite MAX_u64 by lia. rewrite (u64_small (bytes + _)) by lia. fold need.
    destruct (need <=? u64 (vr_start r - Z.max va lower)); [by apply wp_ret|].
    wp_step. eapply wp_load; [apply (nd_stop _ _ _ _ Hnode)|].
    wp_step. eapply wp_load; [apply (nd_next _ _ _ _ Hnode)|]. apply wp_ret.
    exists (length lb). split; [simpl; lia|]. split; [done|]. split; [lia|].
    exists (la ++ [r]), lb. rewrite <- app_assoc, last_addr_snoc. done.
Qed.

(** [lower] inside the region [r]: [cur->va_start - va] wraps around, and
    the search stops in front of [r]. *)
Lemma search_gap_inside l1 r l2 lower need : ∀ va prev,
  in_order (l1 ++ r :: l2) → vr_start r < lower ≤ vr_stop r → lower < 2 ^ 64 → 0 ≤ va ≤ lower →
  need ≤ 2 ^ 64 - (lower - vr_start r) →
  search_gap lower need va prev (l1 ++ r :: l2) = (lower, prev ++ l1, r :: l2).
Proof.
  induction l1 as [|q l1 IH]; intros va prev Hord Hr Hlow Hva Hneed; cbn [search_gap app];
    apply in_order_cons in Hord as (Hq & Hord & Hrest).
  - rewrite (proj2 (Z.ltb_ge _ _)), Z.max_r by lia. rewrite app_nil_r.
    replace (u64 (vr_start r - lower)) with (2 ^ 64 - (lower - vr_start r)).
    2: { unfold u64. rewrite <- (Z_mod_plus_full (vr_start r - lower) 1), Z.mod_small; lia. }
    by rewrite (proj2 (Z.leb_le _ _)) by lia.
  - specialize (Hrest r ltac:(apply elem_of_app; right; by left)). rewrite (proj2 (Z.ltb_lt _ _)) by lia.
    rewrite IH by (done || lia). by rewrite <- app_assoc.
Qed.

Lemma find_gap_inside n s space l1 r l2 lower bytes :
  oa_ok n s → space_wf s space (l1 ++ r :: l2) → in_order (l1 ++ r :: l2) →
  vr_start r < lower ≤ vr_stop r → lower < 2 ^ 64 → 0 ≤ bytes → bytes + 2 * PAGE_SIZE_IN_BYTES ≤ 2 ^ 64 - (lower - vr_start r) →
  find_gap space lower bytes (2 * PAGE_SIZE_IN_BYTES) s = Done ((vr_addr r, last_addr NULL l1, lower), s).
Proof.
  intros Hoa Hwf Hord Hr Hlow Hb Hb2.
  pose proof (in_order_elem _ r Hord ltac:(apply elem_of_app; right; by left)) as Hr0.
  rewrite (find_gap_run n s space (l1 ++ r :: l2)) by (done || lia). by rewrite search_gap_inside by (done || lia).
Qed.

Lemma alloc_between_inside n s space l r lower upper size flags :
  oa_ok n s → space_wf s space l → in_order l → r ∈ l → vr_start r < lower ≤ vr_stop r →
  0 < size → lower + size * 4096 + 8192 < upper → upper ≤ 2 ^ 64 → size * 4096 + 8192 ≤ 2 ^ 64 - (lower - vr_start r) →
  ∃ msg, vmm_alloc_between space lower upper size flags s = Faulted (Panicked msg).
Proof.
  intros Hoa Hwf Hord Hr Hlow Hsz Hup Hup2 Hwrap. apply list_elem_of_split in Hr as (l1 & l2 & ->).
  pose proof (in_order_elem _ r Hord ltac:(apply elem_of_app; right; by left)) as Hr0.
  unfold vmm_alloc_between. replace (u64 (size * PAGE_SIZE_IN_BYTES)) with (size * 4096)
    by (unfold PAGE_SIZE_IN_BYTES; rewrite u64_small; lia).
  rewrite (bind_Done _ _ _ _ _ (find_gap_inside n s space l1 r l2 lower (size * 4096) Hoa Hwf Hord Hlow
    ltac:(lia) ltac:(lia) ltac:(unfold PAGE_SIZE_IN_BYTES; lia))).
  unfold PAGE_SIZE_IN_BYTES. rewrite !u64_small by lia. rewrite (proj2 (Z.leb_gt _ _)) by lia.
  eexists. apply bind_Faulted. rewrite insert_range_split. apply bind_Faulted.
  rewrite (check_next_run n s space l1 (r :: l2)) by done. by rewrite (proj2 (Z.leb_gt _ _)) by lia.
Qed.
End alloc_between.
