(* ===== verification/VmmProps.v ===== *)
(** * kernel/mm/vmm (fourth part): the properties

    The contracts of the operations on address spaces, against the interface
    [ObjectAllocator]; the witnesses run on the object allocator of vmm.c. *)
From stdpp Require Import sorting.
From S2P Require Import Prelude CInt Mem CString Bitmap Pmm Mmu VmmSlab Vmm VmmMap.

Section properties.
Context {CS : CSem} {S : Type} {MS : MemState S} {PS : PmmState S} {OA : ObjectAllocator S}.
Implicit Types s : S.

Lemma not_free_range l start stop :
  ¬ free_range l start stop → ∃ r, r ∈ l ∧ start < vr_stop r ∧ vr_start r < stop.
Proof.
  intros Hn. destruct (decide (Exists (λ r, start < vr_stop r ∧ vr_start r < stop) l)) as [H|H].
  - by apply Exists_exists in H as (r & ? & ? & ?); exists r.
  - exfalso. apply Hn. intros r Hr. rewrite <- Forall_Exists_neg, Forall_forall in H.
    specialize (H r Hr). lia.
Qed.

(** Adding a range that is free keeps the list in order and adds exactly
    the range, merged with its neighbours of the same flags; it returns the
    region that contains the range. *)
Theorem vmm_add_range_adds n s space l start stop flags :
  oa_ok (Datatypes.S n) s → space_wf s space l → in_order l → 0 ≤ start < stop → stop < 2 ^ 64 →
  0 ≤ flags < 2 ^ 64 → free_range l start stop →
  (∀ q w, q ∈ l → w ∈ l → vr_stop q = start → vr_start w = stop → oa_freeable s (vr_addr w)) →
  ∃ p s' l', vmm_add_range space start stop flags s = Done (p, s') ∧
    list_step s s' space l l' ∧ range_added l l' start stop flags p.
Proof.
  intros Hok Hwf Hord Hr Hst Hf Hfr Hfree.
  destruct (proj1 (wp_Done _ _ _) (wp_add_range n s space l start stop flags Hok Hwf Hord Hr Hst Hf Hfr Hfree))
    as (p & s' & Hrun & _ & _ & l' & Hstep & Hadd). by exists p, s', l'.
Qed.

(** Adding a range that has an address in common with a region panics. *)
Theorem vmm_add_range_overlap_panics n s space l r start stop flags :
  oa_ok n s → space_wf s space l → in_order l → start < stop →
  r ∈ l → start < vr_stop r → vr_start r < stop →
  ∃ msg, vmm_add_range space start stop flags s = Faulted (Panicked msg).
Proof. apply add_range_overlap. Qed.

(** Removing a range inside a region removes exactly its addresses; the
    region goes, shrinks or is split. *)
Theorem vmm_remove_range_removes n s space l r start stop :
  oa_ok (2 + n) s → space_wf s space l → in_order l → r ∈ l →
  vr_start r ≤ start → start < stop → stop ≤ vr_stop r → oa_freeable s (vr_addr r) →
  ∃ s' l', vmm_remove_range space start stop s = Done (tt, s') ∧
    list_step s s' space l l' ∧ range_removed l l' start stop.
Proof.
  intros Hok Hwf Hord Hr Hlo Hlt Hhi Hfree. apply list_elem_of_split in Hr as (l1 & l2 & ->).
  destruct (proj1 (wp_Done _ _ _) (wp_remove_range n s space l1 r l2 start stop Hok Hwf Hord Hlo Hlt Hhi Hfree))
    as ([] & s' & Hrun & _ & l' & Hstep & Hrem). by exists s', l'.
Qed.

(** Removing a range that starts outside the regions, or that goes beyond
    the end of the region it starts in, panics. *)
Theorem vmm_remove_range_panics n s space l start stop :
  oa_ok n s → space_wf s space l → in_order l →
  (∀ r, r ∈ l → vr_start r ≤ start < vr_stop r → vr_stop r < stop) →
  ∃ msg, vmm_remove_range space start stop s = Faulted (Panicked msg).
Proof. apply remove_range_panics. Qed.

(** C4: [vmm_add_range] of a free range keeps the list in order and adds
    exactly the range, merged with its neighbours of the same flags, and returns
    the region that contains it; of a range that is not free, it panics. *)
Theorem vmm_add_range_contract n s space l start stop flags :
  oa_ok (Datatypes.S n) s → space_wf s space l → in_order l → 0 ≤ start < stop → stop < 2 ^ 64 → 0 ≤ flags < 2 ^ 64 →
  (free_range l start stop →
     (∀ q w, q ∈ l → w ∈ l → vr_stop q = start → vr_start w = stop → oa_freeable s (vr_addr w)) →
     ∃ p s' l', vmm_add_range space start stop flags s = Done (p, s') ∧
       list_step s s' space l l' ∧ range_added l l' start stop flags p) ∧
  (¬ free_range l start stop → ∃ msg, vmm_add_range space start stop flags s = Faulted (Panicked msg)).
Proof.
  intros Hok Hwf Hord Hr Hst Hf. split; [by eapply vmm_add_range_adds|]. intros Hn.
  destruct (not_free_range _ _ _ Hn) as (r & Hin & H1 & H2).
  eapply vmm_add_range_overlap_panics; [by apply oa_ok_less|done|done|lia|done|done|done].
Qed.


(** [vmm_map] of a free page: the region list gets the page, and the
    tables get its entry and nothing else. *)
Theorem vmm_map_maps n s space root T l va pa flags :
  vspace_ok (Datatypes.S n) s space root T l → 0 < va → va + 4096 < 2 ^ 64 →
  0 ≤ flags < 4096 → 0 ≤ pa < 2 ^ 64 → free_range l va (va + 4096) →
  (∀ q w, q ∈ l → w ∈ l → vr_stop q = va → vr_start w = va + 4096 → oa_freeable s (vr_addr w)) →
  leaf (st_mem s) T va = 0 → pages_left 3 s →
  ∃ s' T' l', vmm_map space va pa flags s = Done (va, s') ∧ vspace_ok n s' space root T' l' ∧
    (∀ a f, covers l' a f ↔ covers l a f ∨ (va ≤ a < va + 4096 ∧ f = flags)) ∧
    ∀ va', leaf (st_mem s') T' va' = if same_page va va' then Z.lor pa flags else leaf (st_mem s) T va'.
Proof.
  intros Hvs Hva Hhi Hf Hpa Hfr Hfree Hleaf Hleft.
  destruct (proj1 (wp_Done _ _ _) (wp_add_range n s space l va (va + 4096) flags (vs_oa _ _ _ _ _ _ Hvs)
    (vs_list _ _ _ _ _ _ Hvs) (vs_order _ _ _ _ _ _ Hvs) ltac:(lia) Hhi ltac:(lia) Hfr Hfree))
    as (p & s1 & Hrun & Hp & Hok1 & l' & Hstep & Hord' & Hcov & _).
  destruct (vspace_step _ _ _ _ _ _ _ _ _ Hvs Hstep Hok1 Hord') as (Hvs1 & Hleft1 & _ & Hleaf1).
  destruct (proj1 (wp_Done _ _ _) (vspace_map_page n s1 space root T l' va pa flags 0 Hvs1 (Hleft1 3%nat Hleft) Hf Hpa))
    as (old & s2 & Hrun2 & m & T' & -> & -> & Hvs2 & _ & Hleaf2 & _).
  exists (st_put m s1), T', l'. split; [|split; [done|split; [done|]]].
  - unfold vmm_map, PAGE_SIZE_IN_BYTES. rewrite u64_small by lia.
    rewrite (bind_Done _ _ _ _ _ Hrun), (proj2 (Z.eqb_neq _ _) Hp), (bind_Done _ _ _ _ _ Hrun2).
    by rewrite Hleaf1, Hleaf.
  - intros va'. by rewrite st_mem_put, Hleaf2, Hleaf1.
Qed.

(** C8: [vmm_alloc_at] of free pages, with physical pages enough.  When no region of the
    same flags begins right after them, the region list gets the range, and each page of
    it its own physical page, taken from the free ones; no other entry changes.  When
    one does and its first page is mapped, [vmm_alloc_at] panics: it goes on to map the
    pages of the region that the range is merged with. *)
Theorem vmm_alloc_at_maps n s space root T l va size flags :
  alloc_request n s space root T l va size flags →
  (¬ covers l (va + size * 4096) flags →
   (∀ j, 0 ≤ j < size → leaf (st_mem s) T (va + 4096 * j) = 0) → pages_left (4 * Z.to_nat size) s →
   ∃ s' T' l' ps, vmm_alloc_at space va size flags s = Done (va, s') ∧ vspace_ok n s' space root T' l' ∧
     (∀ a f, covers l' a f ↔ covers l a f ∨ (va ≤ a < va + size * 4096 ∧ f = flags)) ∧
     length ps = Z.to_nat size ∧ NoDup ps ∧ (∀ q, q ∈ ps → page_free s q ∧ ¬ page_free s' q) ∧
     ∀ va', leaf (st_mem s') T' va' = leaf_after (leaf (st_mem s) T) va flags ps va') ∧
  (∀ w, w ∈ l → vr_start w = va + size * 4096 → vr_flags w = flags →
   leaf (st_mem s) T (va + size * 4096) ≠ 0 → size + 1 < 2 ^ 36 → pages_left (4 * Z.to_nat size + 4) s →
   ∃ msg, vmm_alloc_at space va size flags s = Faulted (Panicked msg)).
Proof.
  intros Hreq. split; [intros Hnc Hfresh Hleft|intros w; by eapply alloc_at_merge_panics].
  destruct (alloc_at_run _ _ _ _ _ _ _ _ _ Hreq Hnc Hfresh Hleft) as (s' & Hrun & T' & l' & ps & Hvs & _ & Hpost).
  by exists s', T', l', ps.
Qed.

(** [vmm_alloc_at] of a free range right below a mapped region with the
    same flags panics: the ranges are merged, and the mapping loop runs on to
    the end of the merged region. *)
Theorem vmm_alloc_at_below_region_panics n s space root T l va size flags w :
  alloc_request n s space root T l va size flags →
  w ∈ l → vr_start w = va + size * 4096 → vr_flags w = flags →
  leaf (st_mem s) T (va + size * 4096) ≠ 0 → size + 1 < 2 ^ 36 → pages_left (4 * Z.to_nat size + 4) s →
  ∃ msg, vmm_alloc_at space va size flags s = Faulted (Panicked msg).
Proof. apply alloc_at_merge_panics. Qed.

(** [vmm_alloc_between] with a lower bound inside a region, or at its end,
    panics instead of searching behind it: the distance to the region wraps
    around and is taken for a gap. *)
Theorem vmm_alloc_between_inside_panics n s space l r lower upper size flags :
  oa_ok n s → space_wf s space l → in_order l → r ∈ l → vr_start r < lower ≤ vr_stop r →
  0 < size → lower + size * 4096 + 8192 < upper → upper ≤ 2 ^ 64 →
  size * 4096 + 8192 ≤ 2 ^ 64 - (lower - vr_start r) →
  ∃ msg, vmm_alloc_between space lower upper size flags s = Faulted (Panicked msg).
Proof. apply alloc_between_inside. Qed.
End properties.

(** ** Witnesses *)

#[local] Opaque ex_mm_mem.

(** The memory of the example of Mmu.v with, in its last page, a block of regions whose objects 0 to 40 are handed out, and the region of
    that page as object 40, the only one of the space. *)
Definition ex_block : Z := ex_base + 0x12000.
Definition ex_region_addr : Z := ex_block + 1672.
Definition ex_vmm_mem : mem :=
  let m := write_le 8 ex_mm_mem (k_objects ex_block) (ex_block + BLOCK_SIZE) in
  let m := write_le 8 m (k_nb_used ex_block) 41 in
  let m := write_le 8 m (k_object_size ex_block) REGION_SIZE in
  let m := write_le 8 m (k_max_objects ex_block) REGIONS_PER_BLOCK in
  let m := write_le 8 m (k_bm ex_block) REGIONS_PER_BLOCK in
  let m := write_le 8 m (k_bm ex_block + 8) 2 in
  let m := write_le 8 m (k_bm ex_block + 16) (ex_block + 3992) in
  let m := write_le 8 m (ex_block + 3992) (Z.ones 23) in
  let m := write_le 8 m (ex_block + 4000) (Z.ones 64) in
  let m := put_node m (mk_vr ex_region_addr 0x5000 0x6000 3) NULL NULL in
  write_le 8 m (s_region ex_space) ex_region_addr.
Definition ex_vmm_globals : vmm_globals := mk_vmm ex_block NULL ex_space NULL.
Definition ex_vmm : vmm_state := mk_vmm_state ex_vmm_mem ex_mm_globals ex_vmm_globals.
Definition ex_region : region := mk_vr ex_region_addr 0x5000 0x6000 3.

(** The changed addresses. *)
Definition ex_changed (a : Z) : Prop := ex_base + 0x4048 ≤ a < ex_base + 0x4050 ∨ ex_block ≤ a < ex_block + 4096.

Lemma ex_vmm_out a : ¬ ex_changed a → ex_vmm_mem !! a = ex_mm_mem !! a.
Proof.
  unfold ex_changed. intros Ha. unfold ex_vmm_mem, put_node, ex_region_addr, k_objects, k_nb_used, k_object_size, k_max_objects, k_bm, s_region,
    ex_space, ex_block, g_va_start, g_va_stop, g_flags, g_next, g_prev in *. simpl vr_addr.
  by rewrite !write_le_lookup_out by lia.
Qed.

Lemma ex_vmm_dom i : is_Some (ex_vmm_mem !! i) ↔ is_Some (ex_mm_mem !! i).
Proof.
  destruct (decide (ex_base + 0x4048 ≤ i < ex_base + 0x13000)) as [Hi|Hi].
  2: { rewrite ex_vmm_out; [done|]. unfold ex_changed, ex_block. lia. }
  assert (is_Some (ex_mm_mem !! i)) as Hm.
  { apply (ex_mm_mapped ex_base (19 * 4096)); [lia|lia|]. lia. }
  split; intros _; [done|]. unfold ex_vmm_mem, put_node. revert Hm. generalize ex_mm_mem. intros m Hm. repeat (apply write_le_is_Some; left). done.
Qed.

Lemma ex_vmm_loads :
  slab_wf ex_vmm_mem ex_block ∧ node ex_vmm_mem ex_region NULL NULL ∧
  load_le 8 ex_vmm_mem (s_region ex_space) = Some ex_region_addr ∧
  load_le 8 ex_vmm_mem (k_nb_used ex_block) = Some 41 ∧
  load_le 8 ex_vmm_mem (ex_block + 3992) = Some (Z.ones 23) ∧
  load_le 8 ex_vmm_mem (ex_block + 4000) = Some (Z.ones 64).
Proof.
  assert (0 < ex_base ∧ ex_base + 0x20000 < 2 ^ 64) as Hb by done.
  assert (mapped ex_vmm_mem ex_block 4096) as Hmap.
  { intros i Hi. apply ex_vmm_dom. apply (ex_mm_mapped ex_block 4096); [unfold ex_block; lia..|done]. }
  revert Hmap. unfold ex_vmm_mem. generalize ex_mm_mem. intros m Hmap. pose proof Hb as Hb'. revert Hmap.
  unfold put_node, ex_region, ex_region_addr, ex_space, ex_block. revert Hb'. generalize ex_base. intros b Hb' Hmap.
  change (256 ^ Z.of_nat 8) with (2 ^ 64) in *.
  split; [split; [lia|exact Hmap|..]|split; [split|split; [|split; [|split]]]];
    unfold k_objects, k_nb_used, k_object_size, k_max_objects, k_bm, s_region, g_va_start, g_va_stop, g_flags, g_next, g_prev;
    simpl vr_addr; simpl vr_start; simpl vr_stop; simpl vr_flags;
    rewrite ?load_write_ne by lia; rewrite load_write_same, Z.mod_small; try done;
    change (256 ^ Z.of_nat 8) with (2 ^ 64); unfold BLOCK_SIZE; lia.
Qed.

#[local] Opaque ex_vmm_mem.

Lemma ex_vmm_is_free k :
  0 ≤ k < 64 → is_free ex_vmm_mem (slab_bm ex_block) k = (41 <=? k).
Proof.
  intros Hk. destruct ex_vmm_loads as (_ & _ & _ & _ & Hb & _). unfold is_free, block_addr.
  change (bm_bitmap (slab_bm ex_block)) with (ex_block + 3992).
  assert (k / 64 = 0) as -> by (clear - Hk; zlia). rewrite Z.mul_0_r, Z.add_0_r, Hb.
  apply Bool.eqb_prop.
  exact (range_forall (λ k, Bool.eqb (Z.testbit (Z.ones 23) (63 - k mod 64)) (41 <=? k)) 0 64 eq_refl k Hk).
Qed.

Lemma ex_vmm_rest_free k : 64 ≤ k < 128 → is_free ex_vmm_mem (slab_bm ex_block) k = true.
Proof.
  intros Hk. destruct ex_vmm_loads as (_ & _ & _ & _ & _ & Hb). unfold is_free, block_addr.
  change (bm_bitmap (slab_bm ex_block)) with (ex_block + 3992).
  assert (k / 64 = 1) as -> by (clear - Hk; zlia). rewrite <- Z.add_assoc. change (3992 + 8 * 1) with 4000. rewrite Hb.
  rewrite Z.ones_spec_low; [done|]. clear - Hk. zlia.
Qed.

Lemma ex_region_object : ex_region_addr = slab_object ex_block 40.
Proof. unfold ex_region_addr, slab_object, BLOCK_SIZE, REGION_SIZE. lia. Qed.

Lemma ex_vmm_oa : oa_ok (ObjectAllocator := region_allocator (CS := strict_c)) 2 ex_vmm.
Proof.
  destruct ex_vmm_loads as (Hwf & _). split; [exact Hwf|]. exists [41; 42].
  split; [by apply (bool_decide_unpack _)|]. split; [done|].
  intros k Hk. assert (41 ≤ k < 43) by (rewrite !elem_of_cons, elem_of_nil in Hk; lia).
  split; [unfold REGIONS_PER_BLOCK; lia|]. change (st_mem ex_vmm) with ex_vmm_mem. change (region_slab ex_vmm) with ex_block.
  rewrite ex_vmm_is_free by lia. apply Z.leb_le. lia.
Qed.

Lemma ex_vmm_space : space_wf (OA := region_allocator (CS := strict_c)) ex_vmm ex_space [ex_region].
Proof.
  destruct ex_vmm_loads as (_ & Hnode & Hhead & _). split.
  - exact Hhead.
  - by split.
  - intros r ->%list_elem_of_singleton. clear Hnode Hhead. change (slab_live ex_vmm_mem ex_block ex_region_addr).
    exists 40. split; [unfold REGIONS_PER_BLOCK; lia|]. split; [exact ex_region_object|]. by rewrite ex_vmm_is_free.
  - apply NoDup_singleton.
  - intros a Ha Hin. change (ex_block ≤ a < ex_block + 4096) in Hin. unfold s_region, ex_space, ex_block in *. lia.
Qed.

Lemma ex_vmm_freeable : oa_freeable (ObjectAllocator := region_allocator (CS := strict_c)) ex_vmm ex_region_addr.
Proof.
  change (slab_freeable ex_vmm_mem ex_block ex_region_addr).
  exists 40, 41. split; [unfold REGIONS_PER_BLOCK; lia|]. split; [exact ex_region_object|]. split; [done|].
  split; [apply ex_vmm_loads|done].
Qed.

Lemma ex_vmm_order : in_order [ex_region].
Proof. apply in_order_cons. split; [simpl; lia|]. split; [apply in_order_nil|]. intros q Hq. by apply elem_of_nil in Hq. Qed.

(** The pages of the example that the paging structures do not use. *)
Definition ex_unused (a : Z) : Prop := ex_base + 0x4008 ≤ a < ex_base + 0x6000 ∨ ex_base + 0x12000 ≤ a.

Lemma ex_vmm_paging :
  mm_ok ex_vmm ex_tables ex_pml4 ∧ pages_left 8 ex_vmm ∧
  (∀ va, leaf (st_mem ex_vmm) ex_tables va = leaf ex_mm_mem ex_tables va) ∧
  ∀ a, ex_unused a → not_paging ex_vmm ex_tables a.
Proof.
  set (s := mk_vmm_state ex_mm_mem ex_mm_globals ex_vmm_globals).
  destruct (mm_ok_frame s ex_vmm_mem ex_tables ex_pml4) as (Hmm & Hleft & _ & Hleaf & Hnp).
  { by apply ex_state_ok. }
  { intros i. apply ex_vmm_dom. }
  { intros a (p & t & Ht%ex_tables_range & Hin). apply ex_vmm_out. unfold ex_changed, ex_block, ex_bits in *. lia. }
  { intros i r [-> ->]%ex_mm_region_at _ a Ha. apply ex_vmm_out. simpl in Ha. unfold ex_changed, ex_block, ex_bits in *. lia. }
  split; [exact Hmm|]. split; [by apply Hleft, ex_state_left|]. split; [exact Hleaf|].
  intros a Ha. apply Hnp. by apply ex_not_paging.
Qed.

Lemma ex_vmm_vspace :
  vspace_ok (OA := region_allocator (CS := strict_c)) 2 ex_vmm ex_space ex_pml4 ex_tables [ex_region] ∧
  pages_left 8 ex_vmm ∧ ∀ va, leaf (st_mem ex_vmm) ex_tables va = leaf ex_mm_mem ex_tables va.
Proof.
  destruct ex_vmm_paging as (Hmm & Hleft & Hleaf & Hnp). unfold ex_unused in Hnp.
  split; [|split; [exact Hleft|exact Hleaf]]. split.
  - apply ex_vmm_oa.
  - apply ex_vmm_space.
  - apply ex_vmm_order.
  - exact Hmm.
  - change (st_mem ex_vmm) with ex_vmm_mem. rewrite <- ex_mm_root. apply load_le_ext. intros a Ha. apply ex_vmm_out.
    unfold ex_changed, ex_block, s_page_directory, ex_space in *. lia.
  - intros a Ha. apply Hnp. change (ex_block ≤ a < ex_block + 4096) in Ha. unfold ex_block in Ha. lia.
  - intros a Ha. split; [apply Hnp; unfold ex_space in Ha; lia|].
    intros Hin. change (ex_block ≤ a < ex_block + 4096) in Hin. unfold ex_space, ex_block in *. lia.
Qed.

(** The example's region, alone. *)
Lemma ex_region_only r : r ∈ [ex_region] → r = ex_region.
Proof. apply list_elem_of_singleton. Qed.

#[local] Instance ex_allocator : ObjectAllocator vmm_state := region_allocator (CS := strict_c).

Lemma vmm_add_range_adds_witness :
  ∃ p s' l', vmm_add_range (OA := ex_allocator) ex_space 0x6000 0x8000 3 ex_vmm = Done (p, s') ∧
    list_step ex_vmm s' ex_space [ex_region] l' ∧ range_added [ex_region] l' 0x6000 0x8000 3 p.
Proof.
  apply (vmm_add_range_adds (OA := ex_allocator) 1 ex_vmm ex_space [ex_region] 0x6000 0x8000 3
    ex_vmm_oa ex_vmm_space ex_vmm_order ltac:(lia) ltac:(lia) ltac:(lia)).
  - intros r ->%ex_region_only. left. simpl. lia.
  - intros q w _ ->%ex_region_only _. simpl. lia.
Defined.

Lemma vmm_add_range_overlap_panics_witness :
  ∃ msg, vmm_add_range (OA := ex_allocator) ex_space 0x4000 0x5001 3 ex_vmm = Faulted (Panicked msg).
Proof.
  apply (vmm_add_range_overlap_panics (OA := ex_allocator) 2 ex_vmm ex_space [ex_region] ex_region 0x4000 0x5001 3
    ex_vmm_oa ex_vmm_space ex_vmm_order ltac:(lia)); [by left|simpl; lia|simpl; lia].
Defined.

Lemma vmm_add_range_contract_witness :
  (∃ p s' l', vmm_add_range (OA := ex_allocator) ex_space 0x6000 0x8000 3 ex_vmm = Done (p, s') ∧
    list_step ex_vmm s' ex_space [ex_region] l' ∧ range_added [ex_region] l' 0x6000 0x8000 3 p) ∧
  ∃ msg, vmm_add_range (OA := ex_allocator) ex_space 0x4000 0x5001 3 ex_vmm = Faulted (Panicked msg).
Proof.
  split.
  - apply (vmm_add_range_contract (OA := ex_allocator) 1 ex_vmm ex_space [ex_region] 0x6000 0x8000 3
      ex_vmm_oa ex_vmm_space ex_vmm_order ltac:(lia) ltac:(lia) ltac:(lia)).
    + intros r ->%ex_region_only. left. simpl. lia.
    + intros q w _ ->%ex_region_only _. simpl. lia.
  - apply (vmm_add_range_contract (OA := ex_allocator) 1 ex_vmm ex_space [ex_region] 0x4000 0x5001 3
      ex_vmm_oa ex_vmm_space ex_vmm_order ltac:(lia) ltac:(lia) ltac:(lia)).
    intros H. destruct (H ex_region ltac:(by left)); simpl in *; lia.
Defined.


(** A hole in the middle of the region. *)
Lemma vmm_remove_range_removes_witness :
  ∃ s' l', vmm_remove_range (OA := ex_allocator) ex_space 0x5400 0x5800 ex_vmm = Done (tt, s') ∧
    list_step ex_vmm s' ex_space [ex_region] l' ∧ range_removed [ex_region] l' 0x5400 0x5800.
Proof.
  apply (vmm_remove_range_removes (OA := ex_allocator) 0 ex_vmm ex_space [ex_region] ex_region 0x5400 0x5800
    ex_vmm_oa ex_vmm_space ex_vmm_order); [by left|simpl; lia|lia|simpl; lia|exact ex_vmm_freeable].
Defined.

Lemma vmm_remove_range_panics_witness :
  ∃ msg, vmm_remove_range (OA := ex_allocator) ex_space 0x5000 0x7000 ex_vmm = Faulted (Panicked msg).
Proof.
  apply (vmm_remove_range_panics (OA := ex_allocator) 2 ex_vmm ex_space [ex_region] 0x5000 0x7000
    ex_vmm_oa ex_vmm_space ex_vmm_order). intros r ->%ex_region_only _. simpl. lia.
Defined.

Lemma ex_leaf_zero va : va_path va = [0; 0; 0] → PT_INDEX va ≠ 5 → leaf (st_mem ex_vmm) ex_tables va = 0.
Proof.
  intros Hp Hi. destruct ex_vmm_vspace as (_ & _ & Hl). rewrite Hl, ex_mm_leaf by done. by rewrite decide_False.
Qed.

Lemma vmm_map_maps_witness :
  ∃ s' T' l', vmm_map (CS := strict_c) (OA := ex_allocator) ex_space 0x7000 0x12345000 3 ex_vmm = Done (0x7000, s') ∧
    vspace_ok (OA := ex_allocator) 1 s' ex_space ex_pml4 T' l' ∧
    (∀ a f, covers l' a f ↔ covers [ex_region] a f ∨ (0x7000 ≤ a < 0x7000 + 4096 ∧ f = 3)) ∧
    ∀ va', leaf (st_mem s') T' va' =
      if same_page 0x7000 va' then Z.lor 0x12345000 3 else leaf (st_mem ex_vmm) ex_tables va'.
Proof.
  destruct ex_vmm_vspace as (Hvs & Hleft & _).
  apply (vmm_map_maps (CS := strict_c) (OA := ex_allocator) 1 ex_vmm ex_space ex_pml4 ex_tables [ex_region] 0x7000 0x12345000 3
    Hvs ltac:(lia) ltac:(lia) ltac:(lia) ltac:(lia)).
  - intros r ->%ex_region_only. left. simpl. lia.
  - intros q w _ ->%ex_region_only _. simpl. lia.
  - apply ex_leaf_zero; [reflexivity|]. by change (PT_INDEX 0x7000) with 7.
  - by do 5 apply pages_left_less.
Defined.

Lemma ex_request va :
  0 < va → va mod 4096 = 0 → va < 2 ^ 32 → va + 4096 ≤ 0x5000 ∨ 0x6000 < va →
  alloc_request (OA := ex_allocator) 1 ex_vmm ex_space ex_pml4 ex_tables [ex_region] va 1 3.
Proof.
  intros H0 Hal Hlt Hout. destruct ex_vmm_vspace as (Hvs & _). split; try done; try lia.
  - intros r ->%ex_region_only. simpl. lia.
  - intros q w ->%ex_region_only ->%ex_region_only. simpl. lia.
Qed.

Lemma vmm_alloc_at_maps_witness :
  (∃ s' T' l' ps, vmm_alloc_at (CS := strict_c) (OA := ex_allocator) ex_space 0x8000 1 3 ex_vmm = Done (0x8000, s') ∧
    vspace_ok (OA := ex_allocator) 1 s' ex_space ex_pml4 T' l' ∧
    (∀ a f, covers l' a f ↔ covers [ex_region] a f ∨ (0x8000 ≤ a < 0x8000 + 1 * 4096 ∧ f = 3)) ∧
    length ps = Z.to_nat 1 ∧ NoDup ps ∧ (∀ q, q ∈ ps → page_free ex_vmm q ∧ ¬ page_free s' q) ∧
    ∀ va', leaf (st_mem s') T' va' = leaf_after (leaf (st_mem ex_vmm) ex_tables) 0x8000 3 ps va') ∧
  ∃ msg, vmm_alloc_at (CS := strict_c) (OA := ex_allocator) ex_space 0x4000 1 3 ex_vmm = Faulted (Panicked msg).
Proof.
  destruct ex_vmm_vspace as (_ & Hleft & Hl). split.
  - apply (vmm_alloc_at_maps (CS := strict_c) (OA := ex_allocator) 1 ex_vmm ex_space ex_pml4 ex_tables [ex_region] 0x8000 1 3
      (ex_request 0x8000 ltac:(lia) eq_refl ltac:(lia) ltac:(lia))).
    + intros (r & ->%ex_region_only & Hr & _). simpl in Hr. lia.
    + intros j Hj. assert (j = 0) as -> by lia. apply ex_leaf_zero; [reflexivity|].
      by change (PT_INDEX (0x8000 + 4096 * 0)) with 8.
    + by do 4 apply pages_left_less.
  - destruct (vmm_alloc_at_maps (CS := strict_c) (OA := ex_allocator) 1 ex_vmm ex_space ex_pml4 ex_tables
      [ex_region] 0x4000 1 3 (ex_request 0x4000 ltac:(lia) eq_refl ltac:(lia) ltac:(lia))) as [_ H].
    apply (H ex_region); [by left|reflexivity|reflexivity| |lia|exact Hleft].
    change (0x4000 + 1 * 4096) with 0x5000. rewrite Hl, ex_mm_leaf by reflexivity. by rewrite decide_True.
Defined.

Lemma vmm_alloc_at_below_region_panics_witness :
  ∃ msg, vmm_alloc_at (CS := strict_c) (OA := ex_allocator) ex_space 0x4000 1 3 ex_vmm = Faulted (Panicked msg).
Proof.
  destruct ex_vmm_vspace as (_ & Hleft & Hl).
  apply (vmm_alloc_at_below_region_panics (CS := strict_c) (OA := ex_allocator) 1 ex_vmm ex_space ex_pml4 ex_tables
    [ex_region] 0x4000 1 3 ex_region (ex_request 0x4000 ltac:(lia) eq_refl ltac:(lia) ltac:(lia)));
    [by left|reflexivity|reflexivity| |lia|exact Hleft].
  change (0x4000 + 1 * 4096) with 0x5000. rewrite Hl, ex_mm_leaf by reflexivity. by rewrite decide_True.
Defined.

Lemma vmm_alloc_between_inside_panics_witness :
  ∃ msg, vmm_alloc_between (CS := strict_c) (OA := ex_allocator) ex_space 0x5800 0x100000 1 3 ex_vmm = Faulted (Panicked msg).
Proof.
  apply (vmm_alloc_between_inside_panics (CS := strict_c) (OA := ex_allocator) 2 ex_vmm ex_space [ex_region] ex_region
    0x5800 0x100000 1 3 ex_vmm_oa ex_vmm_space ex_vmm_order); [by left|simpl; lia..].
Defined.
