(* ===== verification/VmmFree.v ===== *)
(** * kernel/mm/vmm.c (fifth part): vmm_free

    [vmm_free] takes a range out of the regions of a space, unmaps its pages and
    gives the physical pages back: the inverse of [vmm_alloc_at]. *)
From S2P Require Import Prelude CInt Mem CString Bitmap Pmm PmmRuns Mmu VmmSlab Vmm VmmMap VmmProps.

(** ** Mapping where the tables exist *)
Section present.
Context {CS : CSem} {S : Type} {MS : MemState S} {PS : PmmState S}.
Implicit Types s : S.

Lemma next_table_present s T root p t t' i f :
  mm_ok s T root → T !! p = Some t → (length p < 3)%nat → 0 ≤ i < 512 → T !! (p ++ [i]) = Some t' →
  next_table t i f s = Done (t', s).
Proof.
  intros Hok Ht Hl Hi Hc. destruct (pt_entry _ _ _ (mo_pt _ _ _ Hok) p t i Ht Hl Hi) as (e & He & Hcase).
  rewrite Hc in Hcase. destruct Hcase as [Hp Ha]. unfold next_table.
  rewrite (bind_Done _ _ _ e s) by (by apply load_Done). rewrite Hp. simpl.
  rewrite (bind_Done _ _ _ tt s) by done. rewrite (bind_Done _ _ _ e s) by (by apply load_Done). by rewrite Ha.
Qed.

(** [mmu_map_page] then only writes the entry. *)
Lemma map_page_present s T root space va pa perm t :
  mm_ok s T root → load_le 8 (st_mem s) (s_page_directory space) = Some root → T !! va_path va = Some t →
  mmu_map_page space va pa perm s =
    Done (leaf (st_mem s) T va, st_put (write_le 8 (st_mem s) (t + 8 * PT_INDEX va) (Z.lor pa perm)) s).
Proof.
  intros Hok Hroot Ht. pose proof (mo_pt _ _ _ Hok) as Hpt. unfold va_path in Ht.
  destruct (pt_prefix _ _ _ Hpt [PML4E_INDEX va; PDPT_INDEX va] (PDT_INDEX va) t Ht) as [t2 Ht2].
  destruct (pt_prefix _ _ _ Hpt [PML4E_INDEX va] (PDPT_INDEX va) t2 Ht2) as [t3 Ht3].
  unfold mmu_map_page. rewrite (bind_Done _ _ _ root s) by (by apply load_Done).
  rewrite (bind_Done _ _ _ t3 s) by (by apply (next_table_present s T root []); [|apply Hpt|simpl; lia|apply index_range|]).
  rewrite (bind_Done _ _ _ t2 s) by (by eapply (next_table_present s T root _ t3); [|exact Ht3|simpl; lia|apply index_range|]).
  rewrite (bind_Done _ _ _ t s) by (by eapply (next_table_present s T root _ t2); [|exact Ht2|simpl; lia|apply index_range|]).
  destruct (table_load _ T root _ _ (PT_INDEX va) Hok Ht (PT_INDEX_range va)) as [old Hold].
  rewrite (bind_Done _ _ _ old s) by (by apply load_Done).
  rewrite (bind_Done _ _ _ tt (st_put (write_le 8 (st_mem s) (t + 8 * PT_INDEX va) (Z.lor pa perm)) s))
    by (by apply store_Done; eexists).
  unfold leaf, leaf_at, va_path. by rewrite Ht, Hold.
Qed.
End present.

(** ** Unmapping a page, seen from the region list *)
Section unmap.
Context {CS : CSem} {S : Type} {MS : MemState S} {PS : PmmState S} {OA : ObjectAllocator S}.
Context (invlpg : Z → M S unit).
Hypothesis invlpg_spec : ∀ va s, invlpg va s = Done (tt, s).
Implicit Types s : S.

(** [va] is mapped to [q], a page that the page allocator takes back and that
    nothing else uses. *)
Record backed (s : S) (space : Z) (T : tables) (va q : Z) : Prop := {
  bk_entry : leaf (st_mem s) T va - leaf (st_mem s) T va mod 4096 = q;
  bk_freeable : freeable s q;
  bk_low : q + 4096 ≤ 2 ^ 47;
  bk_aligned : q mod 4096 = 0;
  bk_mapped : mapped (st_mem s) (HIGHER_HALF_START + q) 4096;
  bk_private : ∀ a, HIGHER_HALF_START + q ≤ a < HIGHER_HALF_START + q + 4096 →
    not_paging s T a ∧ ¬ oa_own s a ∧ ¬ space ≤ a < space + 16;
}.

Lemma freeable_pos s q : freeable s q → 0 < q.
Proof. intros [Hq _]. pose proof (u64_range (g_pmm_vma_stop (pmm_g s) - KERNEL_VMA)). unfold V2P in Hq. lia. Qed.

Lemma backed_entry s space T va q : backed s space T va q → leaf (st_mem s) T va ≠ 0 ∧ is_Some (T !! va_path va).
Proof.
  intros Hb. pose proof (freeable_pos _ _ (bk_freeable _ _ _ _ _ Hb)). pose proof (bk_entry _ _ _ _ _ Hb) as He.
  assert (leaf (st_mem s) T va ≠ 0) as Hne by (intros E; rewrite E, Z.mod_0_l in He by lia; lia).
  split; [done|]. unfold leaf, leaf_at in Hne. by destruct (T !! va_path va).
Qed.

(** Nothing else changes, outside the page that becomes free. *)
Definition unmapped (s s' : S) (n : nat) (space root : Z) (T : tables) (l : list region) (va q : Z) : Prop :=
  vspace_ok n s' space root T l ∧ pmm_g s' = pmm_g s ∧
  (∀ va', leaf (st_mem s') T va' = if same_page va va' then 0 else leaf (st_mem s) T va') ∧
  (∀ x, page_free s' x ↔ page_free s x ∨ x = q) ∧
  (∀ i, is_Some (st_mem s' !! i) ↔ is_Some (st_mem s !! i)) ∧
  (∀ a, oa_own s' a ↔ oa_own s a) ∧
  ∀ a, not_paging s T a → ¬ HIGHER_HALF_START + q ≤ a < HIGHER_HALF_START + q + 4096 → not_paging s' T a.

Lemma unmap_page_run n s space root T l va q :
  vspace_ok n s space root T l → backed s space T va q →
  ∃ s', mmu_unmap_page invlpg space va s = Done (leaf (st_mem s) T va, s') ∧ unmapped s s' n space root T l va q.
Proof.
  intros Hvs Hb. pose proof Hvs as [Hoa Hl Hord Hmm Hroot Hown Hspace]. destruct (backed_entry _ _ _ _ _ Hb) as [_ [t Ht]].
  pose proof Hb as [He Hfr Hlow Hal Hmap Hpriv].
  pose proof (map_page_present s T root space va 0 0 t Hmm Hroot Ht) as Hrun. change (Z.lor 0 0) with 0 in Hrun.
  destruct (leaf_store s T root _ t (PT_INDEX va) 0 Hmm Ht eq_refl (PT_INDEX_range va) ltac:(lia))
    as (Hmm1 & _ & Hfree1 & Hleaf1 & Hnp1).
  pose proof (table_load _ T root _ _ (PT_INDEX va) Hmm Ht (PT_INDEX_range va)) as Hold.
  set (m1 := write_le 8 (st_mem s) (t + 8 * PT_INDEX va) 0) in *.
  pose proof Hfr as (Hstop & i & r & k & Hr & Hav & Hpg & H33).
  destruct (free_page (st_put m1 s) i r k q) as (m2 & Hrun2 & Honly & Hwf2 & Hpf);
    [apply Hmm1|by rewrite pmm_g_mem|done|done|by rewrite pmm_g_mem|done|].
  rewrite st_put_put in *. rewrite pmm_g_mem in Honly.
  assert (∀ x, page_free (st_put m2 s) x ↔ page_free s x ∨ x = q) as Hpages by (intros x; by rewrite Hpf, Hfree1).
  assert (∀ a, is_Some (m2 !! a) ↔ is_Some (st_mem s !! a)) as Hdom.
  { intros a. destruct Honly as [-> _]. rewrite st_mem_put. unfold m1. by rewrite write_le_dom. }
  assert (mm_ok (st_put m2 s) T root) as Hmm2.
  { rewrite <- (st_put_put m2 m1). apply mm_ok_bitmaps; [done|by rewrite st_put_put|by rewrite pmm_g_mem|].
    intros x. rewrite st_put_put, Hpf. intros [?| ->]; [by left|]. right. pose proof (freeable_pos _ _ Hfr).
    split_and!; [done|done|done| |].
    - intros a Ha. rewrite st_mem_put. unfold m1. apply write_le_dom; [done|]. by apply Hmap.
    - intros a Ha. destruct (Hpriv a Ha) as [(Hp1 & _ & Hp3) _]. by rewrite pmm_g_mem. }
  assert (∀ a, not_paging s T a → m2 !! a = st_mem s !! a) as Hsame.
  { intros a Ha. destruct (Hnp1 a Ha) as [<- _]. destruct Honly as [_ Ho]. rewrite st_mem_put in Ho. apply Ho.
    intros j r' Hr' Hav'. destruct Ha as (_ & _ & Ha). by eapply Ha. }
  assert (∀ a, not_paging s T a → ¬ HIGHER_HALF_START + q ≤ a < HIGHER_HALF_START + q + 4096 → not_paging (st_put m2 s) T a) as Hnp.
  { intros a (Hp1 & Hp2 & Hp3) Hout. split; [done|]. split; [|by rewrite pmm_g_mem].
    intros x [Hx| ->]%Hpages; [by apply Hp2|done]. }
  exists (st_put m2 s). split; [|split; [|rewrite st_mem_put, pmm_g_mem; split_and!; try done]].
  - unfold mmu_unmap_page. rewrite (bind_Done _ _ _ _ _ Hrun), PAGE_ADDR_page, He by apply leaf_range.
    rewrite (bind_Done _ _ _ _ _ Hrun2). by rewrite (bind_Done _ _ _ _ _ (invlpg_spec _ _)).
  - destruct (space_frame n s m2 space l Hoa Hl Hdom) as [Hoa' Hl'].
    { intros a [Ha|Ha]; apply Hsame; [by apply Hown|]. apply Hspace. unfold s_region in Ha. lia. }
    split; try done.
    + rewrite st_mem_put, <- Hroot. apply load_le_ext. intros a Ha. apply Hsame, Hspace. unfold s_page_directory in Ha. lia.
    + intros a Ha%oa_same. apply Hnp; [by apply Hown|]. intros Hin. destruct (Hpriv a Hin) as (_ & ? & ?). done.
    + intros a Ha. destruct (oa_same m2 s a) as [-> _]. destruct (Hspace a Ha) as [? ?]. split; [|done].
      apply Hnp; [done|]. intros Hin. destruct (Hpriv a Hin) as (_ & ? & ?). done.
  - intros va'. pose proof (leaf_bitmaps (st_put m1 s) m2 T root va' Hmm1) as Hlb. rewrite pmm_g_mem, st_mem_put in Hlb.
    rewrite st_mem_put in Honly. rewrite Hlb by done. unfold leaf. rewrite Hleaf1 by (done || apply PT_INDEX_range).
    destruct (same_page va va') eqn:Hsp.
    + apply same_page_spec in Hsp as [-> ->]. by rewrite decide_True.
    + rewrite decide_False; [done|]. intros [??]. apply not_true_iff_false in Hsp. by apply Hsp, same_page_spec.
  - intros a. apply oa_same.
Qed.

(** A page that is backed stays so when another one is unmapped. *)
Lemma backed_frame s s' n space root T l va q va' q' :
  unmapped s s' n space root T l va q → backed s space T va q → backed s space T va' q' → q' ≠ q →
  same_page va va' = false → backed s' space T va' q'.
Proof.
  intros (Hvs & Hg & Hleaf & _ & Hdom & Hown & Hnp) Hq Hb Hne Hpage. pose proof (bk_aligned _ _ _ _ _ Hq) as Hal.
  destruct Hb as [He Hfr Hlow Hal' Hmap Hpriv]. split; [|by unfold freeable; rewrite Hg|done|done|..].
  - by rewrite Hleaf, Hpage.
  - intros a Ha. by apply Hdom, Hmap.
  - intros a Ha. destruct (Hpriv a Ha) as (? & ? & ?). rewrite Hown. split_and!; [|done|done].
    apply Hnp; [done|]. unfold HIGHER_HALF_START in *. zlia.
Qed.

Definition unmap_loop (space stop : Z) (fuel : nat) (va : Z) : M S unit :=
  loop fuel (λ va, hi ← mret stop;
    if va <? hi then
      (old ← mmu_unmap_page invlpg space va;
       if old =? 0 then panic "vmm_free: trying to unmap a non mapped va" else mret tt) ;;
      mret (inl (u64 (va + PAGE_SIZE_IN_BYTES)))
    else mret (inr tt)) va.

Lemma page_index_next va va' :
  0 ≤ va → va mod 4096 = 0 → va + 4096 < 2 ^ 64 →
  page_index va va' = if page_index va va' =? 0 then 0 else page_index (va + 4096) va' + 1.
Proof.
  intros H0 Hal Hlt. case_if; bool_facts; [done|]. unfold page_index in *.
  replace ((va + 4096) / 4096) with (va / 4096 + 1) by (clear -Hal; zlia).
  revert E. generalize (u64 va' / 4096) (va / 4096). intros x y E. change (2 ^ 36) with 68719476736 in *. clear - E. zlia.
Qed.

Lemma unmap_loop_run n space root T l ps : ∀ fuel s va,
  vspace_ok n s space root T l → 0 ≤ va → va mod 4096 = 0 → va + 4096 * Z.of_nat (length ps) < 2 ^ 64 →
  Z.of_nat (length ps) < 2 ^ 36 → NoDup ps → (length ps < fuel)%nat →
  (∀ j q, ps !! j = Some q → backed s space T (va + 4096 * Z.of_nat j) q) →
  ∃ s', unmap_loop space (va + 4096 * Z.of_nat (length ps)) fuel va s = Done (tt, s') ∧
    vspace_ok n s' space root T l ∧ (∀ x, page_free s' x ↔ page_free s x ∨ x ∈ ps) ∧
    ∀ va', leaf (st_mem s') T va' =
      if page_index va va' <? Z.of_nat (length ps) then 0 else leaf (st_mem s) T va'.
Proof.
  induction ps as [|q ps IH]; intros fuel s va Hvs H0 Hal Hhi Hlen Hnd Hfuel Hback;
    (destruct fuel as [|fuel]; [lia|]); unfold unmap_loop; cbn [loop]; fold (unmap_loop space).
  - exists s. simpl. rewrite Z.mul_0_r, Z.add_0_r. split_and!; [|done|..].
    + unfold mbind, M_bind. cbn. by rewrite Z.ltb_irrefl.
    + intros x. rewrite elem_of_nil. tauto.
    + intros va'. pose proof (page_index_range va va'). by rewrite (proj2 (Z.ltb_ge _ _)) by lia.
  - rewrite length_cons, Nat2Z.inj_succ in *. apply NoDup_cons in Hnd as [Hq Hnd].
    pose proof (Hback O q eq_refl) as Hb. rewrite Z.mul_0_r, Z.add_0_r in Hb.
    destruct (unmap_page_run n s space root T l va q Hvs Hb) as (s1 & Hrun1 & Hun).
    destruct (backed_entry _ _ _ _ _ Hb) as [Hne _].
    destruct (IH fuel s1 (va + 4096)) as (s' & Hrun & Hvs' & Hfree & Hleaf); try done; try lia; [apply Hun|zlia|..].
    { intros j q' Hj. pose proof (Hback (Datatypes.S j) q' Hj) as Hb'. rewrite Nat2Z.inj_succ in Hb'.
      replace (va + 4096 + 4096 * Z.of_nat j) with (va + 4096 * Z.succ (Z.of_nat j)) by lia.
      pose proof (lookup_lt_Some _ _ _ Hj). eapply backed_frame; [exact Hun|done|done|..].
      - intros ->. apply Hq. by eapply list_elem_of_lookup_2.
      - rewrite <- (Z.add_0_r va) at 1. rewrite <- (Z.mul_0_r 4096), same_page_index by lia.
        rewrite page_index_self by lia. apply Z.eqb_neq. lia. }
    destruct Hun as (_ & _ & Hleaf1 & Hfree1 & _).
    exists s'. split; [|split; [done|split]].
    + replace (va + 4096 * Z.succ (Z.of_nat (length ps))) with (va + 4096 + 4096 * Z.of_nat (length ps)) by lia.
      unfold mbind at 1, M_bind. rewrite (bind_Done (mret _) _ s _ s) by done.
      rewrite (proj2 (Z.ltb_lt _ _)) by lia.
      rewrite (bind_Done _ _ _ tt s1).
      2: { rewrite (bind_Done _ _ _ _ _ Hrun1). by rewrite (proj2 (Z.eqb_neq _ _) Hne). }
      unfold mret, M_ret. unfold PAGE_SIZE_IN_BYTES. rewrite u64_small by lia. exact Hrun.
    + intros x. rewrite Hfree, Hfree1, elem_of_cons. tauto.
    + intros va'. rewrite Hleaf, Hleaf1.
      assert (same_page va va' = (page_index va va' =? 0)) as -> by (rewrite <- same_page_index, Z.mul_0_r, Z.add_0_r by lia; done).
      rewrite (page_index_next va va') by lia.
      pose proof (page_index_range (va + 4096) va'). destruct (page_index va va' =? 0) eqn:E.
      * rewrite (proj2 (Z.ltb_lt _ (Z.succ _))) by lia. by case_if.
      * destruct (page_index (va + 4096) va' <? _) eqn:E1; bool_facts; repeat (case_if; bool_facts); try done; lia.
Qed.

(** *** The whole operation *)
Lemma backed_step n s s' space root T l l' va q :
  vspace_ok n s space root T l → list_step s s' space l l' → backed s space T va q → backed s' space T va q.
Proof.
  intros Hvs Hstep [He Hfr Hlow Hal Hmap Hpriv].
  destruct (step_frame _ _ _ _ _ _ _ _ Hvs Hstep) as (m & -> & Hdom & _ & Hta & Hbm).
  destruct (mm_ok_frame s m T root (vs_mm _ _ _ _ _ _ Hvs) Hdom Hta Hbm) as (_ & _ & _ & Hleaf & Hnp).
  split; [by rewrite st_mem_put, Hleaf|by unfold freeable; rewrite pmm_g_mem|done|done|..].
  - intros a Ha. rewrite st_mem_put. by apply Hdom, Hmap.
  - intros a Ha. destruct (oa_same m s a) as [-> _]. rewrite Hnp. by apply Hpriv.
Qed.

Lemma vmm_free_run n s space root T l r va size ps :
  vspace_ok (2 + n) s space root T l → r ∈ l → vr_start r ≤ va → va + size * 4096 ≤ vr_stop r →
  va mod 4096 = 0 → 0 < size < 2 ^ 36 → oa_freeable s (vr_addr r) →
  length ps = Z.to_nat size → NoDup ps →
  (∀ j q, ps !! j = Some q → backed s space T (va + 4096 * Z.of_nat j) q) →
  ∃ s' l', vmm_free invlpg space va size s = Done (tt, s') ∧ vspace_ok n s' space root T l' ∧
    (∀ a f, covers l' a f ↔ covers l a f ∧ ¬ va ≤ a < va + size * 4096) ∧
    (∀ x, page_free s' x ↔ page_free s x ∨ x ∈ ps) ∧
    ∀ va', leaf (st_mem s') T va' = if page_index va va' <? size then 0 else leaf (st_mem s) T va'.
Proof.
  intros Hvs Hr Hlo Hhi Hal Hsz Hof Hlen Hnd Hback.
  pose proof (in_order_elem _ r (vs_order _ _ _ _ _ _ Hvs) Hr) as Hr0.
  pose proof Hr as (l1 & l2 & El)%list_elem_of_split. pose proof (vs_list _ _ _ _ _ _ Hvs) as Hwf. rewrite El in Hwf.
  pose proof (node_ranges _ _ _ _ (space_node _ _ _ _ _ Hwf)) as (_ & Hr2 & _). rewrite <- El in Hwf.
  destruct (proj1 (wp_Done (vmm_remove_range space va (va + size * 4096)) s (λ _ s', oa_ok n s' ∧ removed_post s space l va (va + size * 4096) s')))
    as ([] & s1 & Hrun1 & Hoa1 & l' & Hstep & Hord' & Hcov).
  { rewrite El in *. apply wp_remove_range; try done; [apply Hvs|apply Hvs|lia]. }
  destruct (vspace_step _ _ _ _ _ _ _ _ _ Hvs Hstep Hoa1 Hord') as (Hvs1 & _ & Hpf1 & Hleaf1).
  destruct (unmap_loop_run n space root T l' ps (Datatypes.S (Z.to_nat (size + 1))) s1 va Hvs1) as (s' & Hrun & Hvs' & Hfree & Hleaf);
    [lia|done|lia|lia|done|lia|..].
  { intros j q Hj. eapply backed_step; [exact Hvs|exact Hstep|by apply Hback]. }
  exists s', l'. split; [|split; [done|split; [done|split]]].
  - unfold vmm_free, PAGE_SIZE_IN_BYTES. rewrite (u64_small (size * 4096)), (u64_small (va + size * 4096)) by lia.
    rewrite (bind_Done _ _ _ _ _ Hrun1). unfold for_pages. rewrite (bind_Done (mret _) _ s1 _ s1) by done.
    unfold PAGE_SIZE_IN_BYTES. replace ((va + size * 4096 - va) / 4096) with size by (clear - Hsz; zlia).
    rewrite Hlen, Z2Nat.id in Hrun by lia. rewrite (Z.mul_comm 4096) in Hrun. exact Hrun.
  - intros x. by rewrite Hfree, Hpf1.
  - intros va'. rewrite Hleaf, Hleaf1, Hlen, Z2Nat.id by lia. done.
Qed.

(** C14: [vmm_free] of a range inside a region takes exactly that range out of the
    regions, clears exactly the entries of its pages and gives back exactly their
    physical pages, provided that each of them is one that [pmm_free] frees alone (above
    the first allocatable page, numbered at least 33 modulo 64 in its region), belongs to
    this range only ([backed]), and that the object of the region can be given back
    ([oa_freeable]).  A range that leaves the region it starts in, or starts in
    none, is refused with a panic, whatever its pages. *)
Theorem vmm_free_contract n s space root T l va size ps :
  vspace_ok (2 + n) s space root T l → va mod 4096 = 0 → 0 ≤ va → 0 < size < 2 ^ 36 → va + size * 4096 < 2 ^ 64 →
  (∀ r, r ∈ l → vr_start r ≤ va → va + size * 4096 ≤ vr_stop r → oa_freeable s (vr_addr r) →
     length ps = Z.to_nat size → NoDup ps →
     (∀ j q, ps !! j = Some q → backed s space T (va + 4096 * Z.of_nat j) q) →
     ∃ s' l', vmm_free invlpg space va size s = Done (tt, s') ∧ vspace_ok n s' space root T l' ∧
       (∀ a f, covers l' a f ↔ covers l a f ∧ ¬ va ≤ a < va + size * 4096) ∧
       (∀ x, page_free s' x ↔ page_free s x ∨ x ∈ ps) ∧
       ∀ va', leaf (st_mem s') T va' = if page_index va va' <? size then 0 else leaf (st_mem s) T va') ∧
  ((∀ r, r ∈ l → vr_start r ≤ va < vr_stop r → vr_stop r < va + size * 4096) →
   ∃ msg, vmm_free invlpg space va size s = Faulted (Panicked msg)).
Proof.
  intros Hvs Hal H0 Hsz Hhi. split.
  - intros r Hr Hlo Hst Hof Hlen Hnd Hb. by apply (vmm_free_run n s space root T l r va size ps).
  - intros Hout. destruct (remove_range_panics (2 + n) s space l va (va + size * 4096)) as [msg Hmsg]; try apply Hvs; try done.
    exists msg. unfold vmm_free, PAGE_SIZE_IN_BYTES. rewrite (u64_small (size * 4096)), (u64_small (va + size * 4096)) by lia.
    by rewrite (bind_Faulted _ _ _ _ Hmsg).
Qed.
End unmap.

(** ** Witness *)
#[local] Instance ex_allocator : ObjectAllocator vmm_state := region_allocator (CS := strict_c).

Lemma ex_backed : backed ex_vmm ex_space ex_tables 0x5000 0x323000.
Proof.
  destruct ex_vmm_vspace as (_ & _ & Hl). split.
  - by rewrite Hl, ex_mm_leaf.
  - split; [done|]. exists 0, ex_mm_region, 35. done.
  - done.
  - done.
  - intros a Ha. apply ex_vmm_dom. apply (ex_mm_mapped (HIGHER_HALF_START + 0x323000) 4096); [done|done|exact Ha].
  - intros a Ha. split_and!.
    + apply ex_vmm_paging. unfold ex_unused, ex_base. lia.
    + intros Hin. change (ex_block ≤ a < ex_block + 4096) in Hin. unfold ex_block, ex_base in Hin. lia.
    + unfold ex_space, ex_base. lia.
Qed.

Lemma vmm_free_contract_witness :
  (∃ s' l', vmm_free (CS := strict_c) (OA := ex_allocator) (λ _, mret tt) ex_space 0x5000 1 ex_vmm = Done (tt, s') ∧
     vspace_ok 0 s' ex_space ex_pml4 ex_tables l' ∧
     (∀ a f, covers l' a f ↔ covers [ex_region] a f ∧ ¬ 0x5000 ≤ a < 0x5000 + 1 * 4096) ∧
     (∀ x, page_free s' x ↔ page_free ex_vmm x ∨ x ∈ [0x323000]) ∧
     ∀ va', leaf (st_mem s') ex_tables va' =
       if page_index 0x5000 va' <? 1 then 0 else leaf (st_mem ex_vmm) ex_tables va') ∧
  ∃ msg, vmm_free (CS := strict_c) (OA := ex_allocator) (λ _, mret tt) ex_space 0x5000 2 ex_vmm = Faulted (Panicked msg).
Proof.
  destruct ex_vmm_vspace as (Hvs & _). split.
  - apply (vmm_free_contract (CS := strict_c) (OA := ex_allocator) (λ _, mret tt) (λ _ _, eq_refl) 0 ex_vmm ex_space ex_pml4
      ex_tables [ex_region] 0x5000 1 [0x323000] Hvs eq_refl ltac:(lia) ltac:(lia) ltac:(lia)) with (r := ex_region);
      [by left|simpl; lia|simpl; lia|exact ex_vmm_freeable|done|apply NoDup_singleton|].
    intros j q [-> <-]%list_lookup_singleton_Some. exact ex_backed.
  - apply (vmm_free_contract (CS := strict_c) (OA := ex_allocator) (λ _, mret tt) (λ _ _, eq_refl) 0 ex_vmm ex_space ex_pml4
      ex_tables [ex_region] 0x5000 2 [] Hvs eq_refl ltac:(lia) ltac:(lia) ltac:(lia)).
    intros r ->%ex_region_only _. simpl. lia.
Defined.
