(* ===== verification/VmmBetween.v ===== *)
(** * kernel/mm/vmm.c (seventh part): vmm_alloc_between

    The search for a gap is first fit; an allocation keeps a free page on either
    side of it. *)
From S2P Require Import Prelude CInt Mem CString Bitmap Pmm Mmu VmmSlab Vmm VmmMap VmmProps.

(** ** The search *)

(** No region contains [lower]. *)
Definition not_inside (lower : Z) (l : list region) : Prop := ∀ r, r ∈ l → lower ≤ vr_start r ∨ vr_stop r < lower.

Record gap_at (lower need : Z) (l : list region) (va : Z) (l1 l2 : list region) : Prop := {
  ga_split : l = l1 ++ l2;
  ga_before : ∀ r, r ∈ l1 → vr_stop r ≤ va;
  ga_after : ∀ r, r ∈ l2 → va + need ≤ vr_start r;
  ga_where : va = lower ∨ ∃ r, r ∈ l ∧ va = vr_stop r;
  ga_lower : l = [] ∨ (∃ r, r ∈ l ∧ lower ≤ vr_start r) → lower ≤ va;
  ga_below : l ≠ [] → (∀ r, r ∈ l → vr_stop r < lower) → ∃ r, r ∈ l ∧ va = vr_stop r;
  ga_least : ∀ x, lower ≤ x → free_range l x (x + need) → va ≤ x;
}.

Section search.
Context (lower need : Z).
Hypothesis Hlower : 0 ≤ lower.
Hypothesis Hneed : 0 < need.

Lemma search_gap_spec l : ∀ va prev,
  in_order (prev ++ l) → (∀ r, r ∈ l → vr_start r < 2 ^ 64) → not_inside lower l → 0 ≤ va →
  (∀ r, r ∈ prev → vr_stop r ≤ va) → (∀ r, r ∈ l → lower ≤ vr_start r → va ≤ vr_start r) →
  ∃ va' l1 l2, search_gap lower need va prev l = (va', l1, l2) ∧
    prev ++ l = l1 ++ l2 ∧ (∀ r, r ∈ l1 → vr_stop r ≤ va') ∧ (∀ r, r ∈ l2 → va' + need ≤ vr_start r) ∧
    (va' = va ∨ va' = lower ∨ ∃ r, r ∈ l ∧ va' = vr_stop r) ∧
    ((l = [] ∧ lower ≤ va) ∨ (∃ r, r ∈ l ∧ lower ≤ vr_start r) → lower ≤ va') ∧
    (l ≠ [] → (∀ r, r ∈ l → vr_stop r < lower) → ∃ r, r ∈ l ∧ va' = vr_stop r) ∧
    ∀ x, lower ≤ x → va ≤ x → free_range l x (x + need) → va' ≤ x.
Proof.
  induction l as [|r l IH]; intros va prev Hord H64 Hin Hva Hprev Hnext.
  { exists va, prev, []. cbn [search_gap]. split_and!; try done; [intros r Hr; by apply elem_of_nil in Hr|by left|].
    intros [[_ ?]|(r & Hr & _)]; [done|by apply elem_of_nil in Hr]. }
  pose proof Hord as (_ & (Hr & _ & Hrl)%in_order_cons & Hpr)%in_order_app.
  assert (∀ va', vr_stop r ≤ va' → ∀ q, q ∈ prev ++ [r] → vr_stop q ≤ va') as Hprev'.
  { intros va' Hv q [Hq| ->%list_elem_of_singleton]%elem_of_app; [|done]. specialize (Hpr q r Hq ltac:(by left)). lia. }
  destruct (IH (vr_stop r) (prev ++ [r])) as (va' & l1 & l2 & Hrun & Hsp & Hb & Ha & Hw & Hlo & Hbe & Hle).
  { by rewrite <- app_assoc. } { intros q Hq. apply H64. by right. } { intros q Hq. apply Hin. by right. } { lia. }
  { by apply Hprev'. } { intros q Hq _. by apply Hrl. }
  cbn [search_gap]. destruct (vr_stop r <? lower) eqn:Es; bool_facts.
  - exists va', l1, l2. rewrite Hrun. split_and!; try done; [by rewrite <- Hsp, <- app_assoc|..].
    + destruct Hw as [->|[->|(q & Hq & ->)]]; [|by right; left|]; right; right; [exists r|exists q]; (split; [|done]); [by left|by right].
    + intros [[? _]|(q & [->|Hq]%elem_of_cons & Hql)]; [done|lia|]. apply Hlo. right. by exists q.
    + intros _ Hall. destruct l as [|q l]; [|].
      * cbn in Hrun. injection Hrun as <- _ _. exists r. split; [by left|done].
      * destruct Hbe as (w & Hw' & ->); [done|intros w Hw'; apply Hall; by right|]. exists w. split; [by right|done].
    + intros x Hx _ Hfr. apply Hle; [done|lia|]. intros q Hq. apply Hfr. by right.
  - destruct (Hin r ltac:(by left)) as [Hrs|]; [|lia]. specialize (Hnext r ltac:(by left) Hrs) as Hvr.
    rewrite u64_small by (specialize (H64 r ltac:(by left)); lia).
    destruct (need <=? vr_start r - Z.max va lower) eqn:Ef; bool_facts.
    + exists (Z.max va lower), prev, (r :: l). split_and!; try done.
      * intros q Hq. specialize (Hprev q Hq). lia.
      * intros q [->|Hq]%elem_of_cons; [lia|]. specialize (Hrl q Hq). lia.
      * destruct (Z.max_spec va lower) as [[_ ->]|[_ ->]]; auto.
      * lia.
      * intros _ Hall. specialize (Hall r ltac:(by left)). lia.
      * intros x ??. lia.
    + exists va', l1, l2. rewrite Hrun. split_and!; try done; [by rewrite <- Hsp, <- app_assoc|..].
      * destruct Hw as [->|[->|(q & Hq & ->)]]; [|by right; left|]; right; right; [exists r|exists q]; (split; [|done]); [by left|by right].
      * intros _. apply Hlo. destruct l as [|q l]; [by left|]. right. exists q. split; [by left|].
        specialize (Hrl q ltac:(by left)). lia.
      * intros _ Hall. specialize (Hall r ltac:(by left)). lia.
      * intros x Hx Hvx Hfr. apply Hle; [done| |intros q Hq; apply Hfr; by right].
        destruct (Hfr r ltac:(by left)); lia.
Qed.

Lemma search_gap_at l : in_order l → (∀ r, r ∈ l → vr_start r < 2 ^ 64) → not_inside lower l →
  ∃ va l1 l2, search_gap lower need lower [] l = (va, l1, l2) ∧ gap_at lower need l va l1 l2.
Proof.
  intros Hord H64 Hin. destruct (search_gap_spec l lower []) as (va & l1 & l2 & Hrun & Hsp & Hb & Ha & Hw & Hlo & Hbe & Hle); try done.
  { intros r Hr. by apply elem_of_nil in Hr. }
  exists va, l1, l2. split; [done|]. split; try done.
  - destruct Hw as [?|[?|?]]; auto.
  - intros [->|?]; apply Hlo; [by left|by right].
  - intros x Hx. by apply Hle.
Qed.
End search.

Section between.
Context {CS : CSem} {S : Type} {MS : MemState S} {PS : PmmState S} {OA : ObjectAllocator S}.
Implicit Types s : S.

(** ** The allocation *)

(** What [vmm_alloc_between] is asked for: [lower] in no region, regions of whole
    pages, no overflow, and entries only for the pages of regions. *)
Record between_request (n : nat) (s : S) (space root : Z) (T : tables) (l : list region) (lower upper size flags : Z) : Prop := {
  br_vs : vspace_ok (Datatypes.S n) s space root T l;
  br_lower : 0 ≤ lower ∧ lower mod 4096 = 0 ∧ not_inside lower l;
  br_upper : upper ≤ 2 ^ 64;
  br_size : 0 < size < 2 ^ 36;
  br_flags : 0 ≤ flags < 4096;
  br_pages : ∀ r, r ∈ l → vr_stop r mod 4096 = 0;
  br_lower_fits : lower + size * 4096 + 8192 < 2 ^ 64;
  br_stop_fits : ∀ r, r ∈ l → vr_stop r + size * 4096 + 8192 < 2 ^ 64;
  br_unmapped : ∀ a, 0 ≤ a < upper → a mod 4096 = 0 → (∀ f, ¬ covers l a f) → leaf (st_mem s) T a = 0;
  br_left : pages_left (4 * Z.to_nat size) s;
}.

(** A range inside a gap belongs to no region. *)
Lemma gap_uncovered lower need l va l1 l2 a f :
  gap_at lower need l va l1 l2 → va ≤ a < va + need → ¬ covers l a f.
Proof.
  intros Hgap Ha (r & Hr & Hra & _). rewrite (ga_split _ _ _ _ _ _ Hgap) in Hr.
  apply elem_of_app in Hr as [Hr|Hr]; [specialize (ga_before _ _ _ _ _ _ Hgap r Hr)|specialize (ga_after _ _ _ _ _ _ Hgap r Hr)]; lia.
Qed.

(** [vmm_insert_range] into a gap, with a free page on either side. *)
Lemma insert_in_gap n s space l1 l2 start stop flags :
  oa_ok (Datatypes.S n) s → space_wf s space (l1 ++ l2) → in_order (l1 ++ l2) →
  0 ≤ start < stop → stop < 2 ^ 64 → 0 ≤ flags < 2 ^ 64 →
  (∀ r, r ∈ l1 → vr_stop r < start) → (∀ r, r ∈ l2 → stop < vr_start r) →
  ∃ p s', vmm_insert_range space (last_addr NULL l1) (hd_addr l2 NULL) start stop flags s = Done (p, s') ∧
    added_post n s space (l1 ++ l2) start stop flags p s'.
Proof.
  intros Hoa Hwf Hord Hr Hst Hf Hb Ha. pose proof (oa_ok_less _ _ Hoa) as Hoan.
  apply wp_Done. rewrite insert_range_split.
  wp_step. eapply wp_eq; [rewrite (check_next_run n s space l1 l2) by done|].
  { destruct l2 as [|q l2]; [done|]. rewrite (proj2 (Z.leb_le _ _)); [done|]. specialize (Ha q ltac:(by left)). lia. }
  wp_step. eapply wp_eq; [rewrite (check_prev_run n s space l1 l2) by done|].
  { destruct (list_snoc l1) as [->|(l0 & q & ->)]; [done|]. rewrite last_snoc. cbn [forallb].
    specialize (Hb q ltac:(apply elem_of_app; right; by left)). by rewrite (proj2 (Z.leb_le _ _)) by lia. }
  apply wp_insert_at; try done.
  - intros r Hr'. specialize (Hb r Hr'). lia.
  - intros r Hr'. specialize (Ha r Hr'). lia.
  - intros q w Hq _ E. specialize (Hb q Hq). lia.
Qed.

Lemma alloc_between_run n s space root T l lower upper size flags :
  between_request n s space root T l lower upper size flags →
  ∃ va l1 l2, gap_at lower (size * 4096 + 8192) l va l1 l2 ∧
    if upper <=? va + (size * 4096 + 8192)
    then vmm_alloc_between space lower upper size flags s = Done (NULL, s)
    else ∃ s', vmm_alloc_between space lower upper size flags s = Done (va + 4096, s') ∧
      allocated_at n s s' space root T l (va + 4096) size flags.
Proof.
  intros [Hvs (Hl0 & Hlal & Hin) Hup Hsz Hf Hpg Hlf Hsf Hun Hleft]. pose proof Hvs as [Hoa Hwf Hord _ _ _ _].
  set (need := size * 4096 + 8192) in *.
  destruct (search_gap_at lower need ltac:(lia) l Hord) as (va & l1 & l2 & Hrun & Hgap); [|done|].
  { intros r Hr. specialize (Hsf r Hr). pose proof (in_order_elem _ r Hord Hr). lia. }
  assert (0 ≤ va ∧ va mod 4096 = 0 ∧ va + need < 2 ^ 64) as (Hva & Hal & Hfit).
  { destruct (ga_where _ _ _ _ _ _ Hgap) as [->|(r & Hr & ->)]; [lia|].
    pose proof (in_order_elem _ r Hord Hr). specialize (Hpg r Hr). specialize (Hsf r Hr). lia. }
  exists va, l1, l2. split; [done|]. unfold vmm_alloc_between, PAGE_SIZE_IN_BYTES.
  rewrite (u64_small (size * 4096)) by lia.
  rewrite (bind_Done _ _ _ _ _ (find_gap_run (Datatypes.S n) s space l lower (size * 4096) Hoa Hwf Hord ltac:(lia) ltac:(lia)
    ltac:(unfold PAGE_SIZE_IN_BYTES; lia))).
  unfold PAGE_SIZE_IN_BYTES. change (size * 4096 + 2 * 4096) with need. rewrite Hrun. cbn beta iota.
  replace (va + size * 4096 + 2 * 4096) with (va + need) by lia. rewrite (u64_small (va + need)) by lia.
  destruct (upper <=? va + need) eqn:Eu; [done|]. bool_facts.
  rewrite (u64_small (va + 4096)), (u64_small (va + 4096 + _)) by lia.
  destruct (insert_in_gap n s space l1 l2 (va + 4096) (va + 4096 + size * 4096) flags) as (p & s1 & Hins & Hpost);
    rewrite <- ?(ga_split _ _ _ _ _ _ Hgap); try done; try lia.
  { intros r Hr. pose proof (ga_before _ _ _ _ _ _ Hgap r Hr). lia. }
  { intros r Hr. pose proof (ga_after _ _ _ _ _ _ Hgap r Hr). lia. }
  rewrite <- (ga_split _ _ _ _ _ _ Hgap) in Hpost. pose proof Hpost as (Hp & _).
  destruct (added_region _ _ _ _ _ _ _ _ _ _ _ Hvs Hpost) as (l' & r & Hadd).
  destruct (map_added_run n s s1 space root T l l' (va + 4096) size flags p r Hadd) as (s' & Hmap & Hall); try done; try lia.
  { by rewrite Z.add_mod, Hal. }
  { apply (gap_uncovered _ _ _ _ _ _ _ _ Hgap). lia. }
  { intros j Hj. apply Hun; [lia| |intros f; apply (gap_uncovered _ _ _ _ _ _ _ _ Hgap); lia].
    replace (va + 4096 + 4096 * j) with (va + (1 + j) * 4096) by lia. by rewrite Z_mod_plus_full. }
  exists s'. split; [|done]. rewrite (bind_Done _ _ _ _ _ Hins), (proj2 (Z.eqb_neq _ _) Hp). by rewrite (bind_Done _ _ _ _ _ Hmap).
Qed.

(** C9: [vmm_alloc_between], with physical pages enough, nothing mapped outside the
    regions, and a lower bound outside every region, and not at the end of one, is first
    fit. It returns [NULL], with nothing changed,
    only when no gap of the size and two more pages ends below [upper]. Otherwise
    the range it returns is mapped to [size] distinct pages that were free, with
    the requested flags, and a free page is left on either side of it. The range
    is the lowest possible and above [lower] when there is no region or one that
    starts above [lower]; when all regions lie below [lower], the range starts a
    page after one of them, wherever [lower] is.  With a lower bound inside a region, or
    at its end, and room below [upper] it panics instead of searching behind the region:
    the distance to the region wraps around and is taken for a gap. *)
Theorem vmm_alloc_between_first_fit n s space root T l lower upper size flags :
  (between_request n s space root T l lower upper size flags →
   (vmm_alloc_between space lower upper size flags s = Done (NULL, s) ∧
     ∀ x, lower ≤ x → x + size * 4096 + 8192 < upper → ¬ free_range l x (x + size * 4096 + 8192)) ∨
   ∃ va s', vmm_alloc_between space lower upper size flags s = Done (va, s') ∧
     allocated_at n s s' space root T l va size flags ∧
     va + size * 4096 + 4096 < upper ∧ free_range l (va - 4096) (va + size * 4096 + 4096) ∧
     (l = [] ∨ (∃ r, r ∈ l ∧ lower ≤ vr_start r) → lower + 4096 ≤ va) ∧
     (∀ x, lower ≤ x → free_range l x (x + size * 4096 + 8192) → va ≤ x + 4096) ∧
     (l ≠ [] → (∀ r, r ∈ l → vr_stop r < lower) → ∃ r, r ∈ l ∧ va = vr_stop r + 4096)) ∧
  (∀ r, oa_ok n s → space_wf s space l → in_order l → r ∈ l → vr_start r < lower ≤ vr_stop r →
     0 < size → lower + size * 4096 + 8192 < upper → upper ≤ 2 ^ 64 →
     size * 4096 + 8192 ≤ 2 ^ 64 - (lower - vr_start r) →
     ∃ msg, vmm_alloc_between space lower upper size flags s = Faulted (Panicked msg)).
Proof.
  split; [intros Hreq|intros r; by apply alloc_between_inside].
  destruct (alloc_between_run _ _ _ _ _ _ _ _ _ _ Hreq) as (va & l1 & l2 & [-> Hb Ha _ Hlow Hbelow Hleast] & Hrun).
  destruct (upper <=? _) eqn:Eu; bool_facts.
  - left. split; [done|]. intros x Hx Hxu Hfr. rewrite <- Z.add_assoc in Hfr. specialize (Hleast x Hx Hfr). lia.
  - right. destruct Hrun as (s' & Hrun & Hall). exists (va + 4096), s'. split; [done|]. split; [done|].
    split; [lia|]. split; [|split; [|split]].
    + intros r [Hr|Hr]%elem_of_app; [left; specialize (Hb r Hr)|right; specialize (Ha r Hr)]; lia.
    + intros H. specialize (Hlow H). lia.
    + intros x Hx Hfr. rewrite <- Z.add_assoc in Hfr. specialize (Hleast x Hx Hfr). lia.
    + intros Hne H. destruct (Hbelow Hne H) as (r & Hr & ->). by exists r.
Qed.
End between.

(** ** The example: a request below the region *)
Lemma ex_between_request :
  between_request (OA := ex_allocator) 1 ex_vmm ex_space ex_pml4 ex_tables [ex_region] 0x1000 0x100000 1 3.
Proof.
  destruct ex_vmm_vspace as (Hvs & Hleft & _). split; try done; try lia.
  - split; [lia|]. split; [done|]. intros r ->%ex_region_only. left. simpl. lia.
  - intros r ->%ex_region_only. done.
  - intros r ->%ex_region_only. simpl. lia.
  - intros a Ha Hal Hnc. assert (∃ k, a = k * 4096 ∧ 0 ≤ k < 0 + 256) as (k & -> & Hk)
      by (exists (a / 4096); clear - Ha Hal; zlia).
    pose proof (range_forall (λ k, bool_decide (va_path (k * 4096) = [0; 0; 0]) && (PT_INDEX (k * 4096) =? k))
      0 256 eq_refl k Hk) as [Hpath%bool_decide_eq_true Hidx%Z.eqb_eq]%andb_true_iff.
    apply ex_leaf_zero; [done|]. rewrite Hidx. intros E. apply (Hnc 3). exists ex_region. rewrite E.
    split; [by left|]. simpl. lia.
  - by do 4 apply pages_left_less.
Qed.

Lemma vmm_alloc_between_first_fit_witness :
  ((vmm_alloc_between (CS := strict_c) (OA := ex_allocator) ex_space 0x1000 0x100000 1 3 ex_vmm = Done (NULL, ex_vmm) ∧
    ∀ x, 0x1000 ≤ x → x + 1 * 4096 + 8192 < 0x100000 → ¬ free_range [ex_region] x (x + 1 * 4096 + 8192)) ∨
  ∃ va s', vmm_alloc_between (CS := strict_c) (OA := ex_allocator) ex_space 0x1000 0x100000 1 3 ex_vmm = Done (va, s') ∧
    allocated_at (OA := ex_allocator) 1 ex_vmm s' ex_space ex_pml4 ex_tables [ex_region] va 1 3 ∧
    va + 1 * 4096 + 4096 < 0x100000 ∧ free_range [ex_region] (va - 4096) (va + 1 * 4096 + 4096) ∧
    ([ex_region] = [] ∨ (∃ r, r ∈ [ex_region] ∧ 0x1000 ≤ vr_start r) → 0x1000 + 4096 ≤ va) ∧
    (∀ x, 0x1000 ≤ x → free_range [ex_region] x (x + 1 * 4096 + 8192) → va ≤ x + 4096) ∧
    ([ex_region] ≠ [] → (∀ r, r ∈ [ex_region] → vr_stop r < 0x1000) → ∃ r, r ∈ [ex_region] ∧ va = vr_stop r + 4096)) ∧
  ∃ msg, vmm_alloc_between (CS := strict_c) (OA := ex_allocator) ex_space 0x5800 0x100000 1 3 ex_vmm = Faulted (Panicked msg).
Proof.
  split.
  - exact (proj1 (vmm_alloc_between_first_fit (CS := strict_c) (OA := ex_allocator) 1 ex_vmm ex_space ex_pml4 ex_tables
      [ex_region] 0x1000 0x100000 1 3) ex_between_request).
  - apply (proj2 (vmm_alloc_between_first_fit (CS := strict_c) (OA := ex_allocator) 2 ex_vmm ex_space ex_pml4 ex_tables
      [ex_region] 0x5800 0x100000 1 3) ex_region ex_vmm_oa ex_vmm_space ex_vmm_order); [by left|simpl; lia..].
Defined.
