(* ===== verification/VmmInit.v ===== *)
(** * kernel/mm/vmm.c (eighth part): contiguous regions

    [vmm_init_phys_contiguous_region], with which [vmm_init] maps the image of the
    kernel: consecutive pages of a region to consecutive physical pages. *)
From S2P Require Import Prelude CInt Mem CString Bitmap Pmm Mmu VmmSlab Vmm VmmMap VmmProps.

Lemma pages_left_le {CS : CSem} {S : Type} {MS : MemState S} {PS : PmmState S} (s : S) k n :
  (k ≤ n)%nat → pages_left n s → pages_left k s.
Proof. induction 1 as [|n Hle IH]; [done|]. intros Hleft. by apply IH, pages_left_less. Qed.

(** The entries after the first [k] pages from [start] on have been mapped to the
    physical pages from [pa] on. *)
Definition contiguous_leaf (old : Z → Z) (start pa flags k : Z) (va : Z) : Z :=
  if page_index start va <? k then Z.lor (u64 (pa + 4096 * page_index start va)) flags else old va.

Section contiguous.
Context {CS : CSem} {S : Type} {MS : MemState S} {PS : PmmState S} {VS : VmmState S} {OA : ObjectAllocator S}.
Implicit Types s : S.
Context (n : nat) (s0 : S) (root : Z) (T0 : tables) (l : list region) (r : region) (pa pages : Z).

(** A region of [pages] whole pages of the kernel's space, to be mapped from [pa] on. *)
Record contiguous_request : Prop := {
  cr_vs : vspace_ok n s0 (g_kspace (vmm_g s0)) root T0 l;
  cr_in : r ∈ l;
  cr_start : 0 ≤ vr_start r ∧ vr_start r mod 4096 = 0;
  cr_stop : vr_stop r = vr_start r + 4096 * pages ∧ 0 ≤ pages < 2 ^ 36 ∧ vr_stop r < 2 ^ 64;
  cr_flags : 0 ≤ vr_flags r < 4096;
}.
Hypothesis Hreq : contiguous_request.

(** The state after [k] pages. *)
Definition mapped_upto (k : Z) s : Prop :=
  ∃ m T, s = st_put m s0 ∧ vspace_ok n s (g_kspace (vmm_g s0)) root T l ∧
    ∀ va, leaf m T va = contiguous_leaf (leaf (st_mem s0) T0) (vr_start r) pa (vr_flags r) k va.

(** The body of the loop. *)
Definition contiguous_body (offset : Z) : M S (Z + unit) :=
  start ← rd64 (g_va_start (vr_addr r));
  stop ← rd64 (g_va_stop (vr_addr r));
  if u64 (start + offset) <? stop then
    start ← rd64 (g_va_start (vr_addr r));
    let _va := u64 (start + offset) in
    let _pa := u64 (pa + offset) in
    space ← kspace;
    flags ← rd64 (g_flags (vr_addr r));
    old ← mmu_map_page space _va _pa flags;
    (if negb (old =? 0) then panic "vmm_init: mapping an already mapped entry" else mret tt) ;;
    mret (inl (u64 (offset + PAGE_SIZE_IN_BYTES)))
  else mret (inr tt).

Lemma mapped_upto_0 : mapped_upto 0 s0.
Proof using Hreq.
  exists (st_mem s0), T0. rewrite st_put_mem. split; [done|]. split; [apply Hreq|]. intros va.
  unfold contiguous_leaf. pose proof (page_index_range (vr_start r) va). by rewrite (proj2 (Z.ltb_ge _ _)) by lia.
Qed.

(** The fields of the region stay. *)
Lemma contiguous_fields k s : mapped_upto k s →
  load_le 8 (st_mem s) (g_va_start (vr_addr r)) = Some (vr_start r) ∧
  load_le 8 (st_mem s) (g_va_stop (vr_addr r)) = Some (vr_stop r) ∧
  load_le 8 (st_mem s) (g_flags (vr_addr r)) = Some (vr_flags r) ∧ g_kspace (vmm_g s) = g_kspace (vmm_g s0).
Proof using Hreq.
  intros (m & T & -> & Hvs & _). pose proof (cr_in Hreq) as Hin. apply list_elem_of_split in Hin as (l1 & l2 & El).
  pose proof (vs_list _ _ _ _ _ _ Hvs) as Hwf. rewrite El in Hwf. pose proof (space_node _ _ _ _ _ Hwf) as [? ? ? ? ?].
  by rewrite vmm_g_mem.
Qed.

(** A round maps a page, or panics when it is mapped already. *)
Lemma contiguous_round k s q :
  mapped_upto k s → 0 ≤ k < pages → pages_left (3 + q) s →
  wp (mmu_map_page (g_kspace (vmm_g s0)) (vr_start r + 4096 * k) (u64 (pa + 4096 * k)) (vr_flags r)) s
    (λ old s', old = leaf (st_mem s0) T0 (vr_start r + 4096 * k) ∧ mapped_upto (k + 1) s' ∧ pages_left q s').
Proof using Hreq.
  intros Hup Hk Hleft. destruct Hreq as [_ _ [Hs0 Hs1] (Hst & Hpg & Hst2) Hf]. destruct Hup as (m & T & -> & Hvs & Hleaf).
  eapply wp_mono; [apply (vspace_map_page n _ _ root T l (vr_start r + 4096 * k) (u64 (pa + 4096 * k)) (vr_flags r) q Hvs Hleft Hf)|].
  { unfold u64. apply Z.mod_pos_bound. lia. }
  intros old s' (m' & T' & -> & -> & Hvs' & Hleft' & Hleaf' & _). rewrite st_mem_put in *. rewrite st_put_put in *.
  split; [|split; [|done]].
  - rewrite Hleaf. unfold contiguous_leaf. rewrite page_index_self by lia. by rewrite Z.ltb_irrefl.
  - exists m', T'. split; [done|]. split; [done|]. intros va. rewrite Hleaf', same_page_index by lia. rewrite Hleaf.
    unfold contiguous_leaf. destruct (page_index _ va =? k) eqn:E; bool_facts.
    + by rewrite E, (proj2 (Z.ltb_lt k (k + 1))) by lia.
    + destruct (page_index _ va <? k) eqn:E1, (page_index _ va <? k + 1) eqn:E2; bool_facts; (done || lia).
Qed.

Lemma contiguous_step k s q :
  mapped_upto k s → 0 ≤ k < pages → pages_left (3 + q) s →
  if leaf (st_mem s0) T0 (vr_start r + 4096 * k) =? 0 then
    ∃ s', contiguous_body (4096 * k) s = Done (inl (4096 * (k + 1)), s') ∧ mapped_upto (k + 1) s' ∧ pages_left q s'
  else ∃ msg, contiguous_body (4096 * k) s = Faulted (Panicked msg).
Proof using Hreq.
  intros Hup Hk Hleft. destruct (contiguous_fields k s Hup) as (H1 & H2 & H3 & Hks).
  pose proof Hreq as [_ _ [Hs0 Hs1] (Hst & Hpg & Hst2) Hf].
  destruct (proj1 (wp_Done _ _ _) (contiguous_round k s q Hup Hk Hleft)) as (old & s' & Hrun & -> & Hup' & Hleft').
  assert (contiguous_body (4096 * k) s =
    (if negb (leaf (st_mem s0) T0 (vr_start r + 4096 * k) =? 0)
     then panic "vmm_init: mapping an already mapped entry" else mret (inl (4096 * (k + 1)))) s') as ->.
  { unfold contiguous_body. rewrite (bind_Done _ _ _ _ _ (load_Done _ _ _ _ H1)), (bind_Done _ _ _ _ _ (load_Done _ _ _ _ H2)).
    rewrite (u64_small (vr_start r + _)), (proj2 (Z.ltb_lt _ _)) by lia.
    rewrite (bind_Done _ _ _ _ _ (load_Done _ _ _ _ H1)). cbv zeta.
    rewrite (bind_Done kspace _ s (g_kspace (vmm_g s0)) s) by (by rewrite <- Hks).
    rewrite (bind_Done _ _ _ _ _ (load_Done _ _ _ _ H3)), (u64_small (vr_start r + _)), (bind_Done _ _ _ _ _ Hrun) by lia. unfold PAGE_SIZE_IN_BYTES. destruct (_ =? 0); simpl; [|done].
    rewrite u64_small by lia. by replace (4096 * k + 4096) with (4096 * (k + 1)) by lia. }
  destruct (_ =? 0); [by exists s'|by eexists].
Qed.

(** The loop goes on to the first page that is mapped already. *)
Lemma contiguous_run d : ∀ fuel k s,
  mapped_upto k s → 0 ≤ k → k + Z.of_nat d ≤ pages → (d < fuel)%nat → pages_left (3 * d + 3) s →
  (∀ j, k ≤ j < k + Z.of_nat d → leaf (st_mem s0) T0 (vr_start r + 4096 * j) = 0) →
  (k + Z.of_nat d = pages → ∃ s', loop fuel contiguous_body (4096 * k) s = Done (tt, s') ∧ mapped_upto pages s') ∧
  (k + Z.of_nat d < pages → leaf (st_mem s0) T0 (vr_start r + 4096 * (k + Z.of_nat d)) ≠ 0 →
    ∃ msg, loop fuel contiguous_body (4096 * k) s = Faulted (Panicked msg)).
Proof using Hreq.
  pose proof Hreq as [_ _ [Hs0 Hs1] (Hst & Hpg & Hst2) Hf].
  induction d as [|d IH]; intros fuel k s Hup Hk Hle Hfuel Hleft Hzero; (destruct fuel as [|fuel]; [lia|]); cbn [loop].
  - rewrite Z.add_0_r. split.
    + intros ->. exists s. split; [|done]. destruct (contiguous_fields pages s Hup) as (H1 & H2 & _).
      unfold contiguous_body, mbind at 1, M_bind.
      rewrite (bind_Done _ _ _ _ _ (load_Done _ _ _ _ H1)), (bind_Done _ _ _ _ _ (load_Done _ _ _ _ H2)).
      by rewrite u64_small, (proj2 (Z.ltb_ge _ _)) by lia.
    + intros Hlt Hne. pose proof (contiguous_step k s 0 Hup ltac:(lia) Hleft) as Hstep.
      rewrite (proj2 (Z.eqb_neq _ _) Hne) in Hstep. destruct Hstep as [msg Hmsg]. exists msg. by apply bind_Faulted.
  - replace (3 * Datatypes.S d + 3)%nat with (3 + (3 * d + 3))%nat in Hleft by lia.
    pose proof (contiguous_step k s _ Hup ltac:(lia) Hleft) as Hstep. rewrite Hzero, Z.eqb_refl in Hstep by lia.
    destruct Hstep as (s1 & Hrun & Hup1 & Hleft1). rewrite (bind_Done _ _ _ _ _ Hrun).
    destruct (IH fuel (k + 1) s1) as [H1 H2]; try done; try lia. { intros j Hj. apply Hzero. lia. }
    replace (k + 1 + Z.of_nat d) with (k + Z.of_nat (Datatypes.S d)) in * by lia. done.
Qed.

Lemma contiguous_loop :
  vmm_init_phys_contiguous_region (vr_addr r) pa s0 = loop (Datatypes.S (Z.to_nat (pages + 1))) contiguous_body 0 s0.
Proof using Hreq.
  destruct (contiguous_fields 0 s0 mapped_upto_0) as (H1 & H2 & _). destruct Hreq as [_ _ _ (Hst & _) _].
  unfold vmm_init_phys_contiguous_region.
  rewrite (bind_Done _ _ _ _ _ (load_Done _ _ _ _ H1)), (bind_Done _ _ _ _ _ (load_Done _ _ _ _ H2)).
  rewrite Hst. unfold PAGE_SIZE_IN_BYTES. replace (vr_start r + 4096 * pages - vr_start r) with (pages * 4096) by lia.
  by rewrite Z.div_mul by lia.
Qed.
End contiguous.

(** C10: When no page of the region is mapped, [vmm_init_phys_contiguous_region]
    returns, has mapped page [k] of the region to the physical page [k] after [pa]
    with the flags of the region, and nothing else; the regions stay as they were.
    Otherwise it panics at the first page that is mapped already. *)
Theorem vmm_init_phys_contiguous_region_contract {CS : CSem} {S : Type} {MS : MemState S} {PS : PmmState S} {VS : VmmState S}
    {OA : ObjectAllocator S} n (s : S) root T l r pa pages :
  contiguous_request n s root T l r pages →
  pages_left (3 * Z.to_nat pages + 3) s →
  ((∀ j, 0 ≤ j < pages → leaf (st_mem s) T (vr_start r + 4096 * j) = 0) →
    ∃ s' T', vmm_init_phys_contiguous_region (vr_addr r) pa s = Done (tt, s') ∧
      vspace_ok n s' (g_kspace (vmm_g s)) root T' l ∧
      ∀ va, leaf (st_mem s') T' va =
        if page_index (vr_start r) va <? pages then Z.lor (u64 (pa + 4096 * page_index (vr_start r) va)) (vr_flags r)
        else leaf (st_mem s) T va) ∧
  (∀ j, 0 ≤ j < pages → leaf (st_mem s) T (vr_start r + 4096 * j) ≠ 0 →
    (∀ i, 0 ≤ i < j → leaf (st_mem s) T (vr_start r + 4096 * i) = 0) →
    ∃ msg, vmm_init_phys_contiguous_region (vr_addr r) pa s = Faulted (Panicked msg)).
Proof.
  intros Hreq Hleft. pose proof (mapped_upto_0 _ _ _ _ _ _ pa _ Hreq) as H0. pose proof (cr_stop _ _ _ _ _ _ _ Hreq) as (_ & Hpg & _).
  rewrite (contiguous_loop n s root T l r pa pages Hreq). split.
  - intros Hzero.
    destruct (contiguous_run n s root T l r pa pages Hreq (Z.to_nat pages) (Datatypes.S (Z.to_nat (pages + 1))) 0 s H0) as [Hrun _];
      try done; try lia; [intros j Hj; apply Hzero; lia|].
    destruct Hrun as (s' & Hrun & m & T' & -> & Hvs & Hleaf); [lia|]. exists (st_put m s), T'.
    split; [exact Hrun|]. split; [exact Hvs|]. by rewrite st_mem_put.
  - intros j Hj Hne Hzero.
    destruct (contiguous_run n s root T l r pa pages Hreq (Z.to_nat j) (Datatypes.S (Z.to_nat (pages + 1))) 0 s H0) as [_ Hrun];
      try done; try lia; [eapply pages_left_le; [|exact Hleft]; lia|intros i Hi; apply Hzero; lia|].
    apply Hrun; [lia|]. by rewrite Z.add_0_l, Z2Nat.id by lia.
Qed.

(** ** The example: a region of a page is added and mapped; the region that is
    mapped already is refused *)
#[local] Opaque ex_mm_mem ex_vmm_mem.

Lemma ex_added_page :
  ∃ p s l' r, vmm_add_range (OA := ex_allocator) ex_space 0x8000 0x9000 5 ex_vmm = Done (p, s) ∧
    contiguous_request (OA := ex_allocator) 1 s ex_pml4 ex_tables l' r 1 ∧ pages_left 6 s ∧
    g_kspace (vmm_g s) = ex_space ∧ vr_addr r = p ∧ vr_start r = 0x8000 ∧ vr_flags r = 5 ∧
    leaf (st_mem s) ex_tables 0x8000 = 0.
Proof.
  destruct ex_vmm_vspace as (Hvs & Hleft & Hl).
  destruct (proj1 (wp_Done _ _ _) (wp_add_range (OA := ex_allocator) 1 ex_vmm ex_space [ex_region] 0x8000 0x9000 5
    ex_vmm_oa ex_vmm_space ex_vmm_order ltac:(lia) ltac:(lia) ltac:(lia)
    ltac:(intros r ->%ex_region_only; simpl; lia) ltac:(intros q w _ ->%ex_region_only _; simpl; lia)))
    as (p & s & Hrun & _ & Hok & l' & Hstep & Hord & Hcov & r & Hr & Hrp & Hrf & Hr1 & Hr2 & _).
  destruct (vspace_step (OA := ex_allocator) _ _ _ _ _ _ _ _ _ Hvs Hstep Hok Hord) as (Hvs1 & Hleft1 & _ & Hleaf1).
  assert (vr_start r = 0x8000 ∧ vr_stop r = 0x9000) as [Es Ee].
  { clear - Hcov Hr Hrf Hr1 Hr2. assert (∀ a, vr_start r ≤ a < vr_stop r → 0x8000 ≤ a < 0x9000) as Hin.
    { intros a Ha. destruct (proj1 (Hcov a 5)) as [(w & ->%ex_region_only & _ & Hw)|[? _]]; [by exists r|discriminate Hw|lia]. }
    pose proof (Hin (vr_start r) ltac:(lia)). pose proof (Hin (vr_stop r - 1) ltac:(lia)). lia. }
  assert (g_kspace (vmm_g s) = ex_space) as Hks.
  { clear - Hstep. destruct Hstep as (m & -> & _). rewrite vmm_g_mem. reflexivity. }
  exists p, s, l', r. split; [exact Hrun|]. split; [|split; [|split; [|split; [|split; [|split]]]]]; [|apply Hleft1|exact Hks|exact Hrp|exact Es|exact Hrf|].
  - split; [rewrite Hks; exact Hvs1|exact Hr|rewrite Es; split; [lia|reflexivity]|rewrite Es, Ee; lia|rewrite Hrf; lia].
  - do 2 apply pages_left_less. exact Hleft.
  - rewrite Hleaf1. clear. apply ex_leaf_zero; [reflexivity|]. by change (PT_INDEX 0x8000) with 8.
Qed.

Lemma ex_mapped_request : contiguous_request (OA := ex_allocator) 2 ex_vmm ex_pml4 ex_tables [ex_region] ex_region 1.
Proof. split; [apply ex_vmm_vspace|by left|split; [simpl; lia|reflexivity]|simpl; lia|simpl; lia]. Qed.

Lemma vmm_init_phys_contiguous_region_contract_witness :
  (∃ p s s' T' l', vmm_add_range (OA := ex_allocator) ex_space 0x8000 0x9000 5 ex_vmm = Done (p, s) ∧
    vmm_init_phys_contiguous_region (CS := strict_c) p 0x12345000 s = Done (tt, s') ∧
    vspace_ok (OA := ex_allocator) 1 s' ex_space ex_pml4 T' l' ∧
    leaf (st_mem s') T' 0x8000 = 0x12345005) ∧
  ∃ msg, vmm_init_phys_contiguous_region (CS := strict_c) ex_region_addr 0x12345000 ex_vmm = Faulted (Panicked msg).
Proof.
  split.
  - destruct ex_added_page as (p & s & l' & r & Hrun & Hreq & Hleft & Hks & Hrp & Hrs & Hrf & Hzero).
    destruct (vmm_init_phys_contiguous_region_contract (CS := strict_c) (OA := ex_allocator) 1 s ex_pml4 ex_tables l' r 0x12345000 1
      Hreq Hleft) as [Hmap _].
    destruct Hmap as (s' & T' & Hmap & Hvs' & Hleaf').
    { intros j Hj. assert (j = 0) as -> by lia. rewrite Hrs. exact Hzero. }
    exists p, s, s', T', l'. rewrite Hrp in Hmap. rewrite Hks in Hvs'.
    split; [exact Hrun|]. split; [exact Hmap|]. split; [exact Hvs'|]. rewrite Hleaf', Hrs, Hrf. reflexivity.
  - destruct ex_vmm_vspace as (_ & Hleft & Hl).
    destruct (vmm_init_phys_contiguous_region_contract (CS := strict_c) (OA := ex_allocator) 2 ex_vmm ex_pml4 ex_tables [ex_region]
      ex_region 0x12345000 1 ex_mapped_request) as [_ Hused].
    + do 2 apply pages_left_less. exact Hleft.
    + apply (Hused 0 ltac:(lia)); [|intros i Hi; lia].
      rewrite Hl. simpl vr_start. rewrite ex_mm_leaf by reflexivity. by rewrite decide_True.
Defined.
