(* ===== verification/VmmCopy.v ===== *)
(** * kernel/mm/vmm.c (ninth part): copying the regions of a space

    Two address spaces in one memory: what changes one leaves the other alone, and
    [vmm_copy_regions], with which a new process gets the mappings of the kernel,
    makes a space that translates every address of the regions as the source does. *)
From S2P Require Import Prelude CInt Mem CString Bitmap Pmm Mmu MmuInit VmmSlab Vmm VmmMap VmmProps VmmInit.

(** ** The frame: a space that is not operated on *)
Section frame.
Context {CS : CSem} {S : Type} {MS : MemState S} {PS : PmmState S} {OA : ObjectAllocator S}.
Implicit Types s : S.

(** A change that takes free pages and does not touch the tables [T]. *)
Lemma mm_ok_other s m T root :
  mm_ok s T root → pmm_wf (st_put m s) → (∀ i, is_Some (m !! i) ↔ is_Some (st_mem s !! i)) →
  (∀ x, page_free (st_put m s) x → page_free s x) → (∀ a, in_tables T a → m !! a = st_mem s !! a) →
  mm_ok (st_put m s) T root ∧ ∀ va, leaf m T va = leaf (st_mem s) T va.
Proof.
  intros [Hp Hpt Hbm Hfr] Hwf Hdom Hpf Hta. split.
  - split; rewrite ?pmm_g_mem, ?st_mem_put; [done|..].
    + destruct Hpt as [H1 H2 H0 H3 H4]. split; [done| |done|done|].
      * intros p t Ht. destruct (H2 p t Ht) as (? & ? & ? & ? & Hm). split_and!; try done. intros a Ha. by apply Hdom, Hm.
      * intros p t i Ht Hl Hi. destruct (H4 p t i Ht Hl Hi) as (e & He & Hc). exists e. split; [|done].
        rewrite <- He. apply load_le_ext. intros a Ha. apply Hta. exists p, t. split; [done|lia].
    + intros i r Hr Hav a Ha. destruct (Hbm i r Hr Hav a Ha) as [? Hf]. split; [done|]. intros x Hx%Hpf. by apply Hf.
    + intros x Hx%Hpf. destruct (Hfr x Hx) as (? & ? & ? & Hm & ?). split_and!; try done. intros a Ha. by apply Hdom, Hm.
  - intros va. unfold leaf, leaf_at. destruct (T !! va_path va) as [t|] eqn:Ht; [|done]. f_equal.
    apply load_le_ext. intros a Ha. apply Hta. exists (va_path va), t. split; [done|]. pose proof (PT_INDEX_range va). lia.
Qed.

Lemma not_paging_less s m T a :
  (∀ x, page_free (st_put m s) x → page_free s x) → not_paging s T a → not_paging (st_put m s) T a.
Proof.
  intros Hpf (H1 & H2 & H3). split_and!; [done| |by rewrite pmm_g_mem]. intros x Hx. by apply H2, Hpf.
Qed.

(** The bytes of a space. *)
Definition space_bytes (space : Z) (T : tables) (l : list region) (a : Z) : Prop :=
  in_tables T a ∨ in_nodes l a ∨ space ≤ a < space + 16.

Lemma vspace_other n n' s m space root T l :
  vspace_ok n s space root T l → oa_ok n' (st_put m s) → (∀ r, r ∈ l → oa_live (st_put m s) (vr_addr r)) →
  pmm_wf (st_put m s) → (∀ i, is_Some (m !! i) ↔ is_Some (st_mem s !! i)) →
  (∀ x, page_free (st_put m s) x → page_free s x) → (∀ a, space_bytes space T l a → m !! a = st_mem s !! a) →
  vspace_ok n' (st_put m s) space root T l ∧ ∀ va, leaf m T va = leaf (st_mem s) T va.
Proof.
  intros [Hoa [Hhead Hseg Hlv Hnd Hso] Hord Hmm Hroot Hown Hspace] Hoa' Hlive Hwf Hdom Hpf Hm.
  assert (∀ a, space ≤ a < space + 16 → m !! a = st_mem s !! a) as Hf by (intros a Ha; apply Hm; right; by right).
  destruct (mm_ok_other s m T root Hmm Hwf Hdom Hpf) as [Hmm' Hleaf]; [intros a Ha; apply Hm; by left|].
  split; [|done]. split; rewrite ?st_mem_put; try done.
  - split; rewrite ?st_mem_put; try done.
    + rewrite <- Hhead. apply load_le_ext. intros a Ha. apply Hf. unfold s_region in Ha. lia.
    + eapply seg_out; [|done]. intros a Ha. apply Hm. right. by left.
    + intros a Ha. destruct (oa_same m s a) as [-> _]. by apply Hso.
  - rewrite <- Hroot. apply load_le_ext. intros a Ha. apply Hf. unfold s_page_directory in Ha. lia.
  - intros a Ha%oa_same. by apply not_paging_less, Hown.
  - intros a Ha. destruct (oa_same m s a) as [-> _]. split; [|by apply Hspace]. by apply not_paging_less, Hspace.
Qed.

(** ** Two spaces *)
(** [dst], with the tables [D] and the regions [dl], and [src], with [T] and [sl],
    apart from each other. *)
Record two_spaces (n : nat) (s : S) (dst droot : Z) (D : tables) (dl : list region)
    (src sroot : Z) (T : tables) (sl : list region) : Prop := {
  ts_dst : vspace_ok n s dst droot D dl;
  ts_src : vspace_ok n s src sroot T sl;
  ts_tables : ∀ a, in_tables T a → not_paging s D a;
  ts_nodes : ∀ p, p ∈ addrs dl → p ∉ addrs sl;
  ts_src_fields : ∀ a, src ≤ a < src + 16 → not_paging s D a ∧ ¬ dst ≤ a < dst + 16;
  ts_dst_fields : ∀ a, dst ≤ a < dst + 16 → ¬ in_tables T a;
}.

(** A change of the regions of [dst]. *)
Lemma two_list_step n n' s s' dst droot D dl dl' src sroot T sl :
  two_spaces n s dst droot D dl src sroot T sl → list_step s s' dst dl dl' → oa_ok n' s' → in_order dl' →
  two_spaces n' s' dst droot D dl' src sroot T sl ∧ (∀ k, pages_left k s → pages_left k s') ∧
  (∀ x, page_free s' x ↔ page_free s x) ∧
  (∀ va, leaf (st_mem s') D va = leaf (st_mem s) D va) ∧ ∀ va, leaf (st_mem s') T va = leaf (st_mem s) T va.
Proof.
  intros [Hd Hs Ht Hn Hsf Hdf] Hstep Hoa Hord.
  destruct (vspace_step _ _ _ _ _ _ _ _ _ Hd Hstep Hoa Hord) as (Hd' & Hleft & Hpf & Hleaf).
  destruct Hstep as (m & -> & Hdom & Hq & _ & Hlive & Hnew). rewrite st_mem_put in *.
  assert (∀ r, r ∈ sl → oa_live s (vr_addr r) ∧ vr_addr r ∉ addrs dl) as Hsl.
  { intros r Hr. split; [apply (vs_list _ _ _ _ _ _ Hs), Hr|]. intros Hin. by apply (Hn _ Hin), list_elem_of_fmap_2. }
  destruct (vspace_other n n' s m src sroot T sl Hs Hoa) as [Hs' HleafT]; try done.
  { intros r Hr. apply Hlive. left. by apply Hsl. }
  { apply (mo_pmm _ _ _ (vs_mm _ _ _ _ _ _ Hd')). }
  { intros x. by apply Hpf. }
  { intros a Ha. apply Hq. unfold quiet, s_region. destruct Ha as [Ha|[(r & Hr & Ha)|Ha]].
    - split; [intros Hin; apply (Hdf a); [lia|done]|]. left. intros Ho. by destruct (vs_own _ _ _ _ _ _ Hs a Ho).
    - destruct (Hsl r Hr) as [Hlv Hni].
      destruct (oa_live_mem _ _ _ (vs_oa _ _ _ _ _ _ Hs) Hlv) as (_ & _ & _ & Ho). split.
      + intros Hin. destruct (vs_space _ _ _ _ _ _ Hd a) as [_ Hno]; [lia|]. apply Hno. by apply Ho.
      + right. by exists (vr_addr r).
    - split; [intros Hin; destruct (Hsf a Ha) as [_ Hno]; lia|]. left. by apply (vs_space _ _ _ _ _ _ Hs). }
  split; [|done]. split; try done.
  - intros a Ha. apply not_paging_less; [intros x; by apply Hpf|by apply Ht].
  - intros p Hp (r & -> & Hr)%list_elem_of_fmap. destruct (Hsl r Hr) as [Hlv Hni]. by destruct (Hnew _ Hp).
  - intros a Ha. destruct (Hsf a Ha). split; [|done]. by apply not_paging_less; [intros x; apply Hpf|].
Qed.

(** A change of the page tables of [dst]. *)
Lemma two_paging n s m dst droot D D' dl src sroot T sl :
  two_spaces n s dst droot D dl src sroot T sl → paging_frame s D D' m → vspace_ok n (st_put m s) dst droot D' dl →
  two_spaces n (st_put m s) dst droot D' dl src sroot T sl ∧ ∀ va, leaf m T va = leaf (st_mem s) T va.
Proof.
  intros [Hd Hs Ht Hn Hsf Hdf] (Hdom & Hpf & Hnp) Hd'.
  destruct (vspace_other n n s m src sroot T sl Hs (vs_oa _ _ _ _ _ _ Hd')) as [Hs' HleafT]; try done.
  { intros r Hr. destruct (oa_ext _ _ m (vs_oa _ _ _ _ _ _ Hs) Hdom) as (_ & Hlive & _).
    { intros a Ha. apply Hnp, (vs_own _ _ _ _ _ _ Hd). by apply oa_meta_own. }
    apply Hlive, (vs_list _ _ _ _ _ _ Hs), Hr. }
  { apply (vs_mm _ _ _ _ _ _ Hd'). }
  { intros a [Ha|[Ha|Ha]]; apply Hnp; [by apply Ht| |by apply Hsf]. apply (vs_own _ _ _ _ _ _ Hd).
    by eapply in_nodes_own; [apply Hs|apply Hs|]. }
  split; [|done]. split; try done.
  - intros a Ha. by apply Hnp, Ht.
  - intros a Ha. destruct (Hsf a Ha). split; [by apply Hnp|done].
Qed.

(** A page mapped in [dst]. *)
Lemma two_map_page n s dst droot D dl src sroot T sl va pa perm k :
  two_spaces n s dst droot D dl src sroot T sl → pages_left (3 + k) s → 0 ≤ perm < 4096 → 0 ≤ pa < 2 ^ 64 →
  wp (mmu_map_page dst va pa perm) s (λ old s', ∃ D', old = leaf (st_mem s) D va ∧
    two_spaces n s' dst droot D' dl src sroot T sl ∧ pages_left k s' ∧ (∃ m, s' = st_put m s) ∧
    (∀ x, page_free s' x → page_free s x) ∧ is_Some (D' !! va_path va) ∧ D ⊆ D' ∧
    (∀ va', leaf (st_mem s') D' va' = if same_page va va' then Z.lor pa perm else leaf (st_mem s) D va') ∧
    ∀ va', leaf (st_mem s') T va' = leaf (st_mem s) T va').
Proof.
  intros Hts Hleft Hperm Hpa. pose proof (ts_dst _ _ _ _ _ _ _ _ _ _ Hts) as Hd.
  eapply wp_mono; [apply (wp_mmu_map_page s D droot dst va pa perm k); [apply Hd|apply Hd|done..]|].
  intros old s' (m & D' & -> & -> & Hmm & Hpath & Hsub & Hleft' & Hpf & Hdom & Hleaf & Hnp). rewrite st_mem_put.
  destruct (two_paging n s m dst droot D D' dl src sroot T sl Hts) as [Hts' HleafT]; [done|by eapply vspace_paging|].
  exists D'. split; [done|]. split; [done|]. split; [done|]. split; [by exists m|]. done.
Qed.

(** An operation on [dst] that changes its regions, then its page tables. *)
Lemma two_space_step n s s' dst droot D D' dl dl' src sroot T sl :
  two_spaces (Datatypes.S n) s dst droot D dl src sroot T sl → space_step n s s' dst droot D D' dl dl' →
  vspace_ok n s' dst droot D' dl' →
  two_spaces n s' dst droot D' dl' src sroot T sl ∧ ∀ va, leaf (st_mem s') T va = leaf (st_mem s) T va.
Proof.
  intros Hts (s1 & m & Hlist & Hvs1 & -> & Hframe) Hvs.
  destruct (two_list_step _ _ _ _ _ _ _ _ _ _ _ _ _ Hts Hlist (vs_oa _ _ _ _ _ _ Hvs1) (vs_order _ _ _ _ _ _ Hvs1))
    as (Hts1 & _ & _ & _ & HT1).
  destruct (two_paging _ _ _ _ _ _ _ _ _ _ _ _ Hts1 Hframe Hvs) as [Hts2 HT2].
  split; [done|]. intros va. by rewrite st_mem_put, HT2, HT1.
Qed.
End frame.

(** ** Copying *)

(** The entry made for an entry [e] of the source: its page, with the flags of
    the region. *)
Definition copied_entry (e flags : Z) : Z := Z.lor (e - e mod 4096) flags.

Definition region_pages (r : region) : nat := Z.to_nat ((vr_stop r - vr_start r) / 4096).
Definition pages_of (l : list region) : nat := foldr (λ r k, (region_pages r + k)%nat) 0%nat l.

(** [lo] is the start of a window of 48 bits, in which no two pages share an entry. *)
Definition in_window (lo a : Z) : Prop := lo ≤ a < lo + 2 ^ 48.

Lemma window_page lo va a :
  0 ≤ lo → lo + 2 ^ 48 ≤ 2 ^ 64 → lo mod 4096 = 0 → in_window lo va → in_window lo a → va mod 4096 = 0 →
  same_page va a = (va <=? a) && (a <? va + 4096).
Proof.
  unfold in_window, same_page. intros Hlo Hhi Hal Hva Ha Hvaal. rewrite !u64_small by lia.
  assert (lo / 4096 ≤ va / 4096 < lo / 4096 + 2 ^ 36 ∧ lo / 4096 ≤ a / 4096 < lo / 4096 + 2 ^ 36) as [H1 H2] by zlia.
  assert ((va / 4096) mod 2 ^ 36 = (a / 4096) mod 2 ^ 36 ↔ va / 4096 = a / 4096) as Hmod.
  { revert H1 H2. generalize (lo / 4096) (va / 4096) (a / 4096). clear. intros l x y ??. split; [|by intros ->].
    intros He. assert ((x - l) mod 2 ^ 36 = (y - l) mod 2 ^ 36) as E by (by rewrite (Zminus_mod x), (Zminus_mod y), He).
    rewrite !Z.mod_small in E by lia. lia. }
  apply eq_bool_prop_intro. rewrite !Is_true_true, andb_true_iff, Z.eqb_eq, Z.leb_le, Z.ltb_lt, Hmod. clear - Hvaal. zlia.
Qed.

Lemma same_page_leaf m T va a : same_page va a = true → leaf m T a = leaf m T va.
Proof. intros [Hp Hi]%same_page_spec. unfold leaf. by rewrite Hp, Hi. Qed.

Section copy.
Context {CS : CSem} {S : Type} {MS : MemState S} {PS : PmmState S} {OA : ObjectAllocator S}.
Implicit Types s : S.
Context (s0 : S) (dst droot : Z) (D0 : tables) (src sroot : Z) (T : tables) (sl : list region) (lo : Z).

(** The regions of the source are whole mapped pages, at addresses that are free
    in the destination. *)
Record copy_request : Prop := {
  cq_window : 0 ≤ lo ∧ lo + 2 ^ 48 ≤ 2 ^ 64 ∧ lo mod 4096 = 0;
  cq_pages : ∀ r, r ∈ sl → vr_start r mod 4096 = 0 ∧ vr_stop r mod 4096 = 0 ∧
    lo ≤ vr_start r ∧ vr_stop r ≤ lo + 2 ^ 48 ∧ 0 ≤ vr_flags r < 4096;
  cq_src : ∀ a f, covers sl a f → leaf (st_mem s0) T a ≠ 0;
  cq_dst : ∀ a f, covers sl a f → leaf (st_mem s0) D0 a = 0;
}.
Hypothesis Hreq : copy_request.

(** The state in which the addresses [K], with their flags, have been copied. *)
Definition copy_inv (n : nat) (dl : list region) (K : Z → Z → Prop) s : Prop :=
  ∃ D, two_spaces n s dst droot D dl src sroot T sl ∧ (∃ m, s = st_put m s0) ∧ (∀ x, page_free s x → page_free s0 x) ∧
    (∀ a, in_window lo a →
      (∀ f, K a f → is_Some (D !! va_path a) ∧ leaf (st_mem s) D a = copied_entry (leaf (st_mem s0) T a) f) ∧
      ((∀ f, ¬ K a f) → leaf (st_mem s) D a = leaf (st_mem s0) D0 a)) ∧
    ∀ va, leaf (st_mem s) T va = leaf (st_mem s0) T va.

Lemma copy_inv_ext n dl K K' s : (∀ a f, K a f ↔ K' a f) → copy_inv n dl K s → copy_inv n dl K' s.
Proof.
  intros HK (D & Hts & Hm & Hpf & Hleaf & HT). exists D. split; [done|]. split; [done|]. split; [done|]. split; [|done].
  intros a Ha. destruct (Hleaf a Ha) as [H1 H2]. split; [intros f Hf; by apply H1, HK|].
  intros Hf. apply H2. intros f Hk. by apply (Hf f), HK.
Qed.

Lemma copy_inv_start n : two_spaces n s0 dst droot D0 [] src sroot T sl → copy_inv n [] (covers []) s0.
Proof.
  intros Hts. exists D0. split; [done|]. split; [exists (st_mem s0); by rewrite st_put_mem|]. split; [done|]. split; [|done].
  intros a _. split; [|done]. intros f (r & Hr & _). by apply elem_of_nil in Hr.
Qed.

(** The fields of the source and of its region [r]. *)
Lemma copy_fields n dl K s la r lb :
  copy_inv n dl K s → sl = la ++ r :: lb →
  load_le 8 (st_mem s) (s_page_directory src) = Some sroot ∧ node (st_mem s) r (last_addr NULL la) (hd_addr lb NULL) ∧
  0 ≤ vr_start r < vr_stop r ∧ vr_stop r < 2 ^ 64.
Proof.
  intros (D & [_ [_ Hwf Hord _ Hroot _ _] _ _ _ _] & _) El. rewrite El in Hwf, Hord.
  pose proof (space_node _ _ _ _ _ Hwf) as Hnode. destruct (node_ranges _ _ _ _ Hnode) as (_ & ? & _).
  split; [done|]. split; [done|]. split; [|lia]. apply (in_order_elem _ _ Hord), elem_of_app. right. by left.
Qed.

Lemma covers_in r a : r ∈ sl → vr_start r ≤ a < vr_stop r → covers sl a (vr_flags r).
Proof. intros Hr Ha. by exists r. Qed.

(** A page. *)
Lemma copy_page n dl K s r va k :
  copy_inv n dl K s → r ∈ sl → vr_start r ≤ va → va + 4096 ≤ vr_stop r → va mod 4096 = 0 →
  (∀ a f, va ≤ a < va + 4096 → ¬ K a f) → pages_left (3 + k) s →
  wp (pml4e ← rd64 (s_page_directory src);
      pa ← mmu_translate_4k pml4e va;
      flags ← rd64 (g_flags (vr_addr r));
      old ← mmu_map_page dst va pa flags;
      if negb (old =? 0) then panic "mmu_copy_pages: overwrite preexisting mapping" else mret tt) s
    (λ _ s', copy_inv n dl (λ a f, K a f ∨ (va ≤ a < va + 4096 ∧ f = vr_flags r)) s' ∧ pages_left k s').
Proof using Hreq.
  intros Hinv Hr Hlo Hhi Hal HK Hleft. pose proof Hreq as [(Hw1 & Hw2 & Hw3) Hpages Hsrc Hdst].
  destruct (Hpages r Hr) as (_ & _ & Hrlo & Hrhi & Hf). pose proof Hr as (la & lb & El)%list_elem_of_split.
  destruct (copy_fields _ _ _ _ _ _ _ Hinv El) as (Hroot & Hnode & Hr0 & Hr1).
  pose proof Hinv as (D & Hts & (m & ->) & Hpf & Hleaf & HT). assert (in_window lo va) as Hwva by (unfold in_window; lia).
  assert (covers sl va (vr_flags r)) as Hcov by (apply covers_in; [done|lia]).
  wp_step. eapply wp_load; [exact Hroot|].
  wp_step. eapply wp_eq; [apply (translate_run _ T sroot); apply (vs_mm _ _ _ _ _ _ (ts_src _ _ _ _ _ _ _ _ _ _ Hts))|].
  pose proof (Hsrc va _ Hcov) as Hne. rewrite HT.
  destruct (T !! va_path va) as [t|] eqn:Ht; [|by unfold leaf, leaf_at in Hne; rewrite Ht in Hne].
  rewrite (u64_small va), Hal, Z.add_0_r by lia. set (e := leaf (st_mem s0) T va) in *.
  assert (0 ≤ e < 2 ^ 64) as He by apply leaf_range.
  wp_step. eapply wp_load; [apply (nd_flags _ _ _ _ Hnode)|].
  wp_step. eapply wp_mono; [apply (two_map_page n _ dst droot D dl src sroot T sl va (e - e mod 4096) (vr_flags r) k Hts Hleft Hf)|].
  { clear - He. zlia. }
  intros old s' (D' & -> & Hts' & Hleft' & (m' & ->) & Hpf' & Hpath & Hsub & Hleaf' & HT').
  destruct (Hleaf va Hwva) as [_ Hold]. rewrite Hold by (intros f; apply HK; lia). rewrite (Hdst va _ Hcov). simpl.
  apply wp_ret. split; [|done]. exists D'. split; [done|]. split; [exists m'; by rewrite st_put_put|].
  split; [intros x Hx; by apply Hpf, Hpf'|]. split.
  2: { intros va'. by rewrite HT'. }
  intros a Ha. rewrite Hleaf', (window_page lo) by done. destruct (Hleaf a Ha) as [Hl1 Hl2]. split.
  - intros f [Hk|[Hin ->]].
    + destruct (Hl1 f Hk) as [[t' Ht'] Hlf]. split; [eapply lookup_weaken_is_Some; [by eexists|exact Hsub]|].
      destruct ((va <=? a) && (a <? va + 4096)) eqn:E; [|exact Hlf]. apply andb_true_iff in E as [??]. bool_facts.
      by destruct (HK a f).
    + assert (same_page va a = true) as Hsp.
      { rewrite (window_page lo) by done. by rewrite (proj2 (Z.leb_le va a)), (proj2 (Z.ltb_lt a _)) by lia. }
      rewrite (proj2 (Z.leb_le va a)), (proj2 (Z.ltb_lt a _)) by lia. simpl. split.
      * apply same_page_spec in Hsp as [<- _]. done.
      * unfold copied_entry. by rewrite (same_page_leaf _ _ va a).
  - intros Hn. destruct ((va <=? a) && (a <? va + 4096)) eqn:E.
    + apply andb_true_iff in E as [??]. bool_facts. exfalso. apply (Hn (vr_flags r)). right. split; [lia|done].
    + apply Hl2. intros f Hk. apply (Hn f). by left.
Qed.

(** A region. *)
Lemma wp_copy_pages n dl K s r k :
  copy_inv n dl K s → r ∈ sl → (∀ a f, vr_start r ≤ a < vr_stop r → ¬ K a f) → pages_left (3 * region_pages r + k) s →
  wp (mmu_copy_pages dst src (vr_addr r)) s
    (λ _ s', copy_inv n dl (λ a f, K a f ∨ (vr_start r ≤ a < vr_stop r ∧ f = vr_flags r)) s' ∧ pages_left k s').
Proof using Hreq.
  intros Hinv Hr HK Hleft. pose proof Hreq as [(Hw1 & Hw2 & Hw3) Hpages _ _].
  destruct (Hpages r Hr) as (Hal1 & Hal2 & Hrlo & Hrhi & Hf). pose proof Hr as (la & lb & El)%list_elem_of_split.
  destruct (copy_fields _ _ _ _ _ _ _ Hinv El) as (_ & Hnode & Hr0 & Hr1).
  unfold mmu_copy_pages, for_pages, PAGE_SIZE_IN_BYTES. wp_step. eapply wp_load; [apply (nd_start _ _ _ _ Hnode)|].
  wp_step. eapply wp_load; [apply (nd_stop _ _ _ _ Hnode)|].
  assert (vr_stop r = vr_start r + 4096 * Z.of_nat (region_pages r)) as Hstop by (unfold region_pages; zlia).
  apply (wp_loop_rounds (λ j va s, va = vr_stop r - 4096 * Z.of_nat j ∧ vr_start r ≤ va ∧
    copy_inv n dl (λ a f, K a f ∨ (vr_start r ≤ a < va ∧ f = vr_flags r)) s ∧ pages_left (3 * j + k) s))
    with (n := region_pages r).
  { split; [lia|]. split; [lia|]. split; [|done]. eapply copy_inv_ext; [|exact Hinv]. intros a f. split; [by left|].
    intros [?|[? _]]; [done|lia]. }
  { unfold region_pages. lia. }
  intros j va s1 (Eva & Hge & Hinv1 & Hleft1). destruct (copy_fields _ _ _ _ _ _ _ Hinv1 El) as (_ & Hnode1 & _).
  wp_step. eapply wp_load; [apply (nd_stop _ _ _ _ Hnode1)|]. destruct j as [|j].
  - rewrite (proj2 (Z.ltb_ge _ _)) by lia. apply wp_ret. split; [|done]. replace va with (vr_stop r) in Hinv1 by lia. done.
  - rewrite (proj2 (Z.ltb_lt _ _)) by lia.
    assert (va mod 4096 = 0) as Hal by (clear - Hal2 Eva; zlia).
    wp_step. eapply wp_mono.
    { apply (copy_page n dl _ s1 r va (3 * j + k) Hinv1 Hr Hge ltac:(lia) Hal).
      - intros a f Ha [Hk|[? _]]; [by apply (HK a f ltac:(lia))|lia].
      - by replace (3 + (3 * j + k))%nat with (3 * Datatypes.S j + k)%nat by lia. }
    intros _ s2 [Hinv2 Hleft2]. apply wp_ret. exists j. split; [lia|]. rewrite u64_small by lia.
    split; [lia|]. split; [lia|]. split; [|done]. eapply copy_inv_ext; [|exact Hinv2]. intros a f. simpl. split.
    + intros [[?|[??]]|[??]]; [by left|right; split; [lia|done]..].
    + intros [?|[??]]; [by left; left|]. destruct (decide (a < va)); [left; right|right]; (split; [lia|done]).
Qed.

(** The regions copied so far and the next one. *)
Lemma next_range_free la r lb dl :
  in_order (la ++ r :: lb) → in_order dl → (∀ a f, covers dl a f ↔ covers la a f) →
  free_range dl (vr_start r) (vr_stop r) ∧
  ∀ w, w ∈ dl → vr_start w < vr_stop r.
Proof.
  intros Hord Hdl Hcov. pose proof Hord as (_ & (Hr & _ & _)%in_order_cons & Hb)%in_order_app.
  assert (∀ w a, w ∈ dl → vr_start w ≤ a < vr_stop w → a < vr_start r) as Hin.
  { intros w a Hw Ha. destruct (proj1 (Hcov a (vr_flags w))) as (q & Hq & Hqa & _); [by exists w|].
    specialize (Hb q r Hq ltac:(by left)). lia. }
  split; intros w Hw; pose proof (in_order_elem _ _ Hdl Hw).
  - left. specialize (Hin w (vr_stop w - 1) Hw ltac:(lia)). lia.
  - specialize (Hin w (vr_start w) Hw ltac:(lia)). lia.
Qed.

(** The range of the next region is added to the destination. *)
Lemma copy_range n dl la r lb s :
  copy_inv (Datatypes.S n) dl (covers la) s → sl = la ++ r :: lb → (∀ a f, covers dl a f ↔ covers la a f) →
  wp (vmm_add_range dst (vr_start r) (vr_stop r) (vr_flags r)) s (λ p s', p ≠ NULL ∧ ∃ dl',
    copy_inv n dl' (covers la) s' ∧ (∀ a f, covers dl' a f ↔ covers la a f ∨ (vr_start r ≤ a < vr_stop r ∧ f = vr_flags r)) ∧
    ∀ k, pages_left k s → pages_left k s').
Proof using Hreq.
  intros Hinv El Hcov. destruct (copy_fields _ _ _ _ _ _ _ Hinv El) as (_ & _ & Hr0 & Hr1).
  destruct (cq_pages Hreq r) as (_ & _ & _ & _ & Hf). { rewrite El. apply elem_of_app. right. by left. }
  destruct Hinv as (D & Hts & (m & ->) & Hpf & Hleaf & HT). pose proof (ts_dst _ _ _ _ _ _ _ _ _ _ Hts) as [Hoa Hwf Hord _ _ _ _].
  pose proof (vs_order _ _ _ _ _ _ (ts_src _ _ _ _ _ _ _ _ _ _ Hts)) as Hsord. rewrite El in Hsord.
  destruct (next_range_free la r lb dl Hsord Hord Hcov) as [Hfree Hnext].
  eapply wp_mono; [apply (wp_add_range n _ dst dl (vr_start r) (vr_stop r) (vr_flags r) Hoa Hwf Hord Hr0 Hr1 ltac:(lia) Hfree)|].
  { intros q w _ Hw _ Heq. specialize (Hnext w Hw). lia. }
  intros p s' (Hp & Hoa' & dl' & Hstep & Hadd). split; [done|]. pose proof Hadd as (Hord' & Hcov' & _).
  destruct (two_list_step _ _ _ _ _ _ _ _ _ _ _ _ _ Hts Hstep Hoa' Hord') as (Hts' & Hleft & Hpf' & HleafD & HleafT).
  destruct Hstep as (m' & -> & _). exists dl'. split; [|split; [|done]].
  - exists D. split; [done|]. split; [exists m'; by rewrite st_put_put|].
    split; [intros x Hx; by apply Hpf, Hpf'|]. split; [|intros va; by rewrite HleafT].
    intros a Ha. rewrite HleafD. by apply Hleaf.
  - intros a f. by rewrite Hcov', Hcov.
Qed.

Lemma wp_copy_regions n s k :
  copy_inv (length sl + n) [] (covers []) s → pages_left (3 * pages_of sl + k) s →
  wp (vmm_copy_regions dst src) s (λ _ s', ∃ dl, copy_inv n dl (covers sl) s' ∧
    (∀ a f, covers dl a f ↔ covers sl a f) ∧ pages_left k s').
Proof using Hreq.
  intros Hinv Hleft. pose proof Hinv as (D & Hts & _). pose proof (ts_src _ _ _ _ _ _ _ _ _ _ Hts) as [Hoa Hwf Hord _ _ _ _].
  unfold vmm_copy_regions. wp_step. eapply wp_load; [apply Hwf|]. unfold mem_fuel. wp_steps.
  apply (wp_loop_rounds (λ j cur s, ∃ la lb dl, sl = la ++ lb ∧ j = length lb ∧ cur = hd_addr lb NULL ∧
    copy_inv (j + n) dl (covers la) s ∧ (∀ a f, covers dl a f ↔ covers la a f) ∧ pages_left (3 * pages_of lb + k) s))
    with (n := length sl).
  { by exists [], sl, []. }
  { pose proof (space_length _ _ _ _ Hoa Hwf). lia. }
  intros j cur s1 (la & lb & dl & El & -> & -> & Hinv1 & Hcov & Hleft1).
  pose proof Hinv1 as (D1 & Hts1 & _). pose proof (ts_src _ _ _ _ _ _ _ _ _ _ Hts1) as [Hoa1 Hwf1 _ _ _ _ _].
  rewrite El in Hwf1. rewrite (hd_addr_NULL _ _ _ _ _ Hoa1 Hwf1). destruct lb as [|r lb].
  - apply wp_ret. rewrite app_nil_r in El. subst la. by exists dl.
  - assert (r ∈ sl) as Hr by (rewrite El; apply elem_of_app; right; by left).
    destruct (copy_fields _ _ _ _ _ _ _ Hinv1 El) as (_ & Hnode & _). cbn [hd_addr].
    wp_step. eapply wp_load; [apply (nd_start _ _ _ _ Hnode)|]. wp_step. eapply wp_load; [apply (nd_stop _ _ _ _ Hnode)|].
    wp_step. eapply wp_load; [apply (nd_flags _ _ _ _ Hnode)|].
    wp_step. eapply wp_mono; [by apply (copy_range (length lb + n) dl la r lb)|].
    intros p s2 (Hp & dl' & Hinv2 & Hcov2 & Hleft2). rewrite (proj2 (Z.eqb_neq _ _) Hp). wp_step. wp_step.
    wp_step. eapply wp_mono; [apply (wp_copy_pages (length lb + n) dl' (covers la) s2 r (3 * pages_of lb + k) Hinv2 Hr)|].
    { intros a f Ha (q & Hq & Hqa & _). pose proof Hord as Hord'. rewrite El in Hord'.
      apply in_order_app in Hord' as (_ & _ & Hb). specialize (Hb q r Hq ltac:(by left)). lia. }
    { apply Hleft2. simpl in Hleft1. by replace (3 * region_pages r + (3 * pages_of lb + k))%nat
        with (3 * (region_pages r + pages_of lb) + k)%nat by lia. }
    intros _ s3 [Hinv3 Hleft3]. destruct (copy_fields _ _ _ _ _ _ _ Hinv3 El) as (_ & Hnode3 & _).
    wp_step. eapply wp_load; [apply (nd_next _ _ _ _ Hnode3)|]. apply wp_ret.
    assert (∀ a f, covers la a f ∨ (vr_start r ≤ a < vr_stop r ∧ f = vr_flags r) ↔ covers (la ++ [r]) a f) as Hsnoc.
    { intros a f. rewrite covers_app, covers_cons. pose proof (covers_nil a f). naive_solver. }
    exists (length lb). split; [simpl; lia|]. exists (la ++ [r]), lb, dl'. split; [by rewrite <- app_assoc|].
    split; [done|]. split; [done|]. split; [eapply copy_inv_ext; [exact Hsnoc|exact Hinv3]|]. split; [|done]. intros a f. by rewrite Hcov2, Hsnoc.
Qed.
End copy.

(** C11: [vmm_copy_regions] from [src] to a space without regions: it returns,
    the destination has the ranges of the source with their flags, every address
    of them translates in the destination to what it translates to in the source,
    the entries of the other addresses of the window stay, and the source, regions
    and entries, is what it was. *)
Theorem vmm_copy_regions_copies {CS : CSem} {S : Type} {MS : MemState S} {PS : PmmState S} {OA : ObjectAllocator S}
    n (s : S) dst droot D src sroot T sl lo :
  two_spaces (length sl + n) s dst droot D [] src sroot T sl → copy_request s D T sl lo →
  pages_left (3 * pages_of sl) s →
  ∃ s' D' dl, vmm_copy_regions dst src s = Done (tt, s') ∧ two_spaces n s' dst droot D' dl src sroot T sl ∧
    (∀ a f, covers dl a f ↔ covers sl a f) ∧
    (∀ a f, covers sl a f → ∃ pa, mmu_translate_4k sroot a s = Done (pa, s) ∧
       mmu_translate_4k sroot a s' = Done (pa, s') ∧ mmu_translate_4k droot a s' = Done (pa, s')) ∧
    (∀ a f, covers sl a f → leaf (st_mem s') D' a = copied_entry (leaf (st_mem s) T a) f) ∧
    (∀ a, in_window lo a → (∀ f, ¬ covers sl a f) → leaf (st_mem s') D' a = leaf (st_mem s) D a) ∧
    ∀ va, leaf (st_mem s') T va = leaf (st_mem s) T va.
Proof.
  intros Hts Hreq Hleft.
  assert (copy_inv s dst droot D src sroot T sl lo (length sl + n) [] (covers []) s) as Hinv0.
  { by apply copy_inv_start. }
  rewrite <- (Nat.add_0_r (3 * _)) in Hleft.
  destruct (proj1 (wp_Done _ _ _) (wp_copy_regions s dst droot D src sroot T sl lo Hreq n s 0 Hinv0 Hleft))
    as ([] & s' & Hrun & dl & Hinv & Hcov & _).
  destruct Hinv as (D' & Hts' & _ & _ & Hleaf & HT).
  assert (∀ a f, covers sl a f → in_window lo a ∧ 0 ≤ f < 4096) as Hwin.
  { intros a f (r & Hr & Ha & <-). destruct (cq_pages _ _ _ _ _ Hreq r Hr) as (_ & _ & ? & ? & ?). split; [unfold in_window; lia|done]. }
  assert (∀ a f, covers sl a f → is_Some (D' !! va_path a) ∧ leaf (st_mem s') D' a = copied_entry (leaf (st_mem s) T a) f) as Hcopied.
  { intros a f Hc. destruct (Hwin a f Hc) as [Ha _]. by apply Hleaf. }
  exists s', D', dl. split; [done|]. split; [done|]. split; [done|].
  split; [|split; [intros a f Hc; by apply (Hcopied a f)|split; [intros a Ha Hn; by apply Hleaf|done]]].
  intros a f Hc. pose proof (cq_src _ _ _ _ _ Hreq a f Hc) as Hne. destruct (Hwin a f Hc) as [_ Hf].
  rewrite !(translate_run s' _ _ a (mo_pt _ _ _ (vs_mm _ _ _ _ _ _ (ts_src _ _ _ _ _ _ _ _ _ _ Hts')))).
  rewrite !(translate_run s _ _ a (mo_pt _ _ _ (vs_mm _ _ _ _ _ _ (ts_src _ _ _ _ _ _ _ _ _ _ Hts)))).
  rewrite !(translate_run s' _ _ a (mo_pt _ _ _ (vs_mm _ _ _ _ _ _ (ts_dst _ _ _ _ _ _ _ _ _ _ Hts')))).
  destruct (Hcopied a f Hc) as [[t' ->] ->]. rewrite HT. pose proof (leaf_range (st_mem s) T a) as He.
  assert (is_Some (T !! va_path a)) as [t ->].
  { unfold leaf, leaf_at in Hne. destruct (T !! va_path a); [by eexists|done]. }
  eexists. split; [done|]. split; [done|]. unfold copied_entry. rewrite lor_page; [done| | |done]; clear - He; zlia.
Qed.

(** ** A new space *)
Section fresh.
Context {CS : CSem} {S : Type} {MS : MemState S} {PS : PmmState S} {OA : ObjectAllocator S}.
Implicit Types s : S.

(** After [mmu_init], a structure outside everything else is a space without
    regions and mappings, apart from the spaces there are. *)
Lemma two_spaces_fresh n s s' dst q src sroot T sl (droot := HIGHER_HALF_START + q) :
  vspace_ok n s src sroot T sl → init_post s dst q s' → load_le 8 (st_mem s) (s_region dst) = Some NULL →
  (∀ a, dst ≤ a < dst + 16 → not_paging s T a ∧ ¬ oa_own s a ∧ ¬ src ≤ a < src + 16) →
  two_spaces n s' dst droot (empty_tables droot) [] src sroot T sl ∧
  (∀ va, leaf (st_mem s') T va = leaf (st_mem s) T va) ∧ ∀ va, leaf (st_mem s') (empty_tables droot) va = 0.
Proof.
  intros Hs (Hq & Hpf & Hmm & Hroot & Hleaf & (m & -> & Hdom) & Hout) Hnull Hdst. rewrite st_mem_put in *.
  pose proof Hs as [Hoa Hwf Hord Hmms _ Hown Hspace].
  assert (∀ a, not_paging s T a → ¬ dst ≤ a < dst + 8 → m !! a = st_mem s !! a) as Hsame.
  { intros a (_ & Hf & Hb) Ha. apply Hout; [intros (i & r & Hr & Hav & Hin); by apply (Hb i r)|intros (x & Hx & Hin); by apply (Hf x)|done]. }
  assert (∀ a, not_paging s T a → not_paging (st_put m s) (empty_tables droot) a) as Hnp.
  { intros a (_ & Hf & Hb). split_and!; [|intros x [Hx _]%Hpf; by apply Hf|by rewrite pmm_g_mem].
    intros (p & t & [<- <-]%empty_tables_Some & Hin). by apply (Hf q Hq). }
  destruct (oa_ext _ _ m Hoa Hdom) as (Hoa' & Hlive & _).
  { intros a Ha%oa_meta_own. apply Hsame; [by apply Hown|]. intros Hin. by destruct (Hdst a) as (_ & ? & _); [lia|]. }
  assert (∀ a, in_tables T a → m !! a = st_mem s !! a ∧ not_paging (st_put m s) (empty_tables droot) a) as HT.
  { intros a Ha. assert (∀ x, page_free s x → ¬ HIGHER_HALF_START + x ≤ a < HIGHER_HALF_START + x + 4096) as Hf.
    { intros x Hx Hin. destruct (mo_free _ _ _ Hmms x Hx) as (_ & _ & _ & _ & Hno). by apply (Hno a). }
    assert (∀ i r, region_at (pmm_g s) i r → available r = true →
      ¬ bm_bitmap (r_bitmap r) ≤ a < bm_bitmap (r_bitmap r) + 8 * bm_size_in_block (r_bitmap r)) as Hb.
    { intros i r Hr Hav Hin. by destruct (mo_bitmaps _ _ _ Hmms i r Hr Hav a Hin). }
    split.
    - apply Hout; [intros (i & r & Hr & Hav & Hin); by apply (Hb i r)|intros (x & Hx & Hin); by apply (Hf x)|].
      intros Hin. by destruct (Hdst a) as ((? & _) & _); [lia|].
    - split_and!; [|intros x [Hx _]%Hpf; by apply Hf|by rewrite pmm_g_mem].
      intros (p & t & [<- <-]%empty_tables_Some & Hin). by apply (Hf q Hq). }
  destruct (vspace_other n n s m src sroot T sl Hs Hoa') as [Hs' HleafT]; try done.
  { intros r Hr. by apply Hlive, Hwf. }
  { apply Hmm. }
  { intros x [Hx _]%Hpf. done. }
  { intros a [Ha|[Ha|Ha]]; [by apply HT|apply Hsame|apply Hsame].
    - destruct (in_nodes_own _ _ _ _ _ Hoa Hwf Ha). by apply Hown.
    - destruct (in_nodes_own _ _ _ _ _ Hoa Hwf Ha). intros Hin. by destruct (Hdst a) as (_ & ? & _); [lia|].
    - by apply Hspace.
    - intros Hin. by destruct (Hdst a) as (_ & _ & ?); [lia|]. }
  split; [|done]. split; [|done|intros a Ha; by apply HT|intros p Hp; by apply elem_of_nil in Hp| |].
  - split; rewrite ?st_mem_put; try done.
    + split; rewrite ?st_mem_put; try done; [|intros r Hr; by apply elem_of_nil in Hr|apply NoDup_nil_2|].
      * etrans; [apply load_le_ext|exact Hnull]. intros a Ha. unfold s_region in Ha. apply Hsame; [apply Hdst; lia|lia].
      * intros a Ha. destruct (oa_same m s a) as [-> _]. unfold s_region in Ha. apply Hdst. lia.
    + apply in_order_nil.
    + intros a Ha%oa_same. by apply Hnp, Hown.
    + intros a Ha. destruct (oa_same m s a) as [-> _]. destruct (Hdst a Ha) as (? & ? & _). split; [by apply Hnp|done].
  - intros a Ha. split; [by apply Hnp, Hspace|]. intros Hin. by destruct (Hdst a Hin) as (_ & _ & ?).
  - intros a Ha. by destruct (Hdst a Ha) as ((? & _) & _).
Qed.
End fresh.

(** ** Isolation *)
Section isolation.
Context {CS : CSem} {S : Type} {MS : MemState S} {PS : PmmState S} {OA : ObjectAllocator S}.
Implicit Types s : S.

(** Every address translates in the space of [T] to what it did. *)
Definition same_translation (s s' : S) (sroot : Z) : Prop :=
  ∀ va, ∃ pa, mmu_translate_4k sroot va s = Done (pa, s) ∧ mmu_translate_4k sroot va s' = Done (pa, s').

Lemma leaf_translation s s' T sroot :
  pt_wf (st_mem s) T sroot → pt_wf (st_mem s') T sroot → (∀ va, leaf (st_mem s') T va = leaf (st_mem s) T va) →
  same_translation s s' sroot.
Proof. intros Hs Hs' Hleaf va. eexists. rewrite !(translate_run _ T) by done. by rewrite Hleaf. Qed.

Lemma two_translation n n' s s' dst droot D D' dl dl' src sroot T sl :
  two_spaces n s dst droot D dl src sroot T sl → two_spaces n' s' dst droot D' dl' src sroot T sl →
  (∀ va, leaf (st_mem s') T va = leaf (st_mem s) T va) → same_translation s s' sroot.
Proof.
  intros Hts Hts'. apply leaf_translation; [apply (vs_mm _ _ _ _ _ _ (ts_src _ _ _ _ _ _ _ _ _ _ Hts))|].
  apply (vs_mm _ _ _ _ _ _ (ts_src _ _ _ _ _ _ _ _ _ _ Hts')).
Qed.

(** An allocation in [dst]. *)
Lemma two_alloc n s s' dst droot D dl src sroot T sl va size flags :
  two_spaces (Datatypes.S n) s dst droot D dl src sroot T sl → allocated_at n s s' dst droot D dl va size flags →
  ∃ D' dl' ps, two_spaces n s' dst droot D' dl' src sroot T sl ∧
    (∀ a f, covers dl' a f ↔ covers dl a f ∨ (va ≤ a < va + size * 4096 ∧ f = flags)) ∧
    (length ps = Z.to_nat size ∧ NoDup ps ∧ ∀ q, q ∈ ps → page_free s q ∧ ¬ page_free s' q) ∧
    (∀ a, leaf (st_mem s') D' a = leaf_after (leaf (st_mem s) D) va flags ps a) ∧
    (∀ a, leaf (st_mem s') T a = leaf (st_mem s) T a) ∧ same_translation s s' sroot.
Proof.
  intros Hts (D' & dl' & ps & Hvs & Hstep & Hcov & Hlen & Hnd & Hps & Hleaf).
  destruct (two_space_step _ _ _ _ _ _ _ _ _ _ _ _ _ Hts Hstep Hvs) as [Hts' HT].
  exists D', dl', ps. split; [done|]. split; [done|]. split; [done|]. split; [done|]. split; [done|]. by eapply two_translation.
Qed.
End isolation.

(** ** The example: a second space, and the region of the first copied to it *)
Lemma ex_mm_unused a : ex_base + 0x4048 ≤ a → a + 8 ≤ ex_base + 0x13000 → load_le 8 ex_mm_mem a = Some 0.
Proof.
  intros Ha Hhi. unfold ex_mm_mem. rewrite !load_write_ne by (unfold ex_pml4, ex_pdpt, ex_pdt, ex_pt, ex_bits, ex_space; lia).
  apply zero_mem_load; lia.
Qed.

#[local] Opaque ex_mm_mem ex_vmm_mem.

Lemma ex_new_space_null : load_le 8 (st_mem ex_vmm) (s_region ex_new_space) = Some NULL.
Proof.
  change (st_mem ex_vmm) with ex_vmm_mem. rewrite (load_le_ext 8 ex_mm_mem).
  - apply ex_mm_unused; unfold s_region, ex_new_space; lia.
  - intros i Hi. apply ex_vmm_out. unfold ex_changed, s_region, ex_new_space, ex_block in *. lia.
Qed.

Lemma ex_new_space_apart a :
  ex_new_space ≤ a < ex_new_space + 16 →
  not_paging ex_vmm ex_tables a ∧ ¬ oa_own (ObjectAllocator := ex_allocator) ex_vmm a ∧ ¬ ex_space ≤ a < ex_space + 16.
Proof.
  intros Ha. destruct ex_vmm_paging as (_ & _ & _ & Hnp). unfold ex_new_space, ex_space in *. split; [|split; [|lia]].
  - apply Hnp. unfold ex_unused. lia.
  - intros Hin. change (ex_block ≤ a < ex_block + 4096) in Hin. unfold ex_block in Hin. lia.
Qed.

(** A second space has been made. *)
Lemma ex_two_spaces :
  ∃ q s, mmu_init (CS := strict_c) ex_new_space ex_vmm = Done (tt, s) ∧ pages_left 7 s ∧
    two_spaces (OA := ex_allocator) 2 s ex_new_space (HIGHER_HALF_START + q) (empty_tables (HIGHER_HALF_START + q)) []
      ex_space ex_pml4 ex_tables [ex_region] ∧
    copy_request s (empty_tables (HIGHER_HALF_START + q)) ex_tables [ex_region] 0 ∧
    (∀ a, leaf (st_mem s) (empty_tables (HIGHER_HALF_START + q)) a = 0) ∧ mmu_translate_4k ex_pml4 0x5123 s = Done (0x323123, s).
Proof.
  destruct ex_vmm_vspace as (Hvs & Hleft & Hl). pose proof (vs_mm _ _ _ _ _ _ Hvs) as Hmm.
  destruct (proj1 (wp_Done _ _ _) (wp_mmu_init (CS := strict_c) ex_vmm ex_new_space 7 (mm_ok_ready _ _ _ Hmm) Hleft
    ltac:(intros a Ha; apply ex_vmm_dom, (ex_mm_mapped ex_new_space 8); unfold ex_new_space in *; lia)
    ltac:(intros a Ha; destruct (ex_new_space_apart a ltac:(lia)) as ((_ & Hf & Hb) & _); split;
      [intros (i & r & Hr & Hav & Hin); exact (Hb i r Hr Hav Hin)|intros (x & Hx & Hin); exact (Hf x Hx Hin)])))
    as ([] & s & Hrun & (q & Hpost) & Hleft').
  destruct (two_spaces_fresh (OA := ex_allocator) 2 ex_vmm s ex_new_space q ex_space ex_pml4 ex_tables [ex_region]
    Hvs Hpost ex_new_space_null ex_new_space_apart) as (Hts & HT & HD).
  exists q, s. split; [exact Hrun|]. clear Hrun. split; [exact Hleft'|]. split; [exact Hts|].
  assert (∀ a, 0x5000 ≤ a < 0x6000 → leaf (st_mem s) ex_tables a = 0x323003) as Hleaf5.
  { intros a Ha. rewrite HT, (same_page_leaf _ _ 0x5000 a), Hl, ex_mm_leaf; [by rewrite decide_True|done|].
    rewrite (window_page 0); unfold in_window; [|lia|lia|done|lia|lia|done].
    by rewrite (proj2 (Z.leb_le _ a)), (proj2 (Z.ltb_lt a _)) by lia. }
  split.
  - split; [split_and!; [lia|lia|done]|..].
    + intros r ->%ex_region_only. simpl. split_and!; try done; lia.
    + intros a f (r & ->%ex_region_only & Ha & _). simpl in Ha. rewrite Hleaf5 by lia. done.
    + intros a f _. apply HD.
  - split; [exact HD|]. rewrite (translate_run s ex_tables ex_pml4) by apply (vs_mm _ _ _ _ _ _ (ts_src _ _ _ _ _ _ _ _ _ _ Hts)).
    rewrite Hleaf5 by lia. reflexivity.
Qed.

Lemma vmm_copy_regions_copies_witness :
  ∃ q s s' D dl, mmu_init (CS := strict_c) ex_new_space ex_vmm = Done (tt, s) ∧
    vmm_copy_regions (CS := strict_c) (OA := ex_allocator) ex_new_space ex_space s = Done (tt, s') ∧
    two_spaces (OA := ex_allocator) 1 s' ex_new_space (HIGHER_HALF_START + q) D dl ex_space ex_pml4 ex_tables [ex_region] ∧
    mmu_translate_4k (HIGHER_HALF_START + q) 0x5123 s' = Done (0x323123, s').
Proof.
  destruct ex_two_spaces as (q & s & Hinit & Hleft & Hts & Hreq & _ & Htr).
  destruct (vmm_copy_regions_copies (CS := strict_c) (OA := ex_allocator) 1 s ex_new_space (HIGHER_HALF_START + q)
    (empty_tables (HIGHER_HALF_START + q)) ex_space ex_pml4 ex_tables [ex_region] 0 Hts Hreq (pages_left_le (CS := strict_c) _ 3 7 ltac:(lia) Hleft))
    as (s' & D & dl & Hrun & Hts' & _ & Htr' & _).
  exists q, s, s', D, dl. split; [exact Hinit|]. split; [exact Hrun|]. split; [exact Hts'|]. clear Hinit Hrun.
  destruct (Htr' 0x5123 3) as (pa & H1 & _ & H3).
  - exists ex_region. split; [left|simpl; lia].
  - rewrite Htr in H1. injection H1 as <-. exact H3.
Defined.
