(* ===== verification/VmmProcess.v ===== *)
(** * The address space of a process

    What [process_create] (kernel/multitasking/process.c) does with the space it
    makes: the regions of the kernel are copied to it, and the user's stack is
    allocated in it.  Allocations in a space do not change what other spaces
    translate. *)
From S2P Require Import Prelude CInt Mem CString Bitmap Pmm Mmu MmuInit VmmSlab Vmm VmmMap VmmProps VmmBetween VmmInit VmmCopy.

Section isolation.
Context {CS : CSem} {S : Type} {MS : MemState S} {PS : PmmState S} {OA : ObjectAllocator S}.
Implicit Types s : S.

(** C13: Allocations in a space leave every other space alone: [vmm_alloc_at] and
    [vmm_alloc_between] in [dst] succeed as they do without [src], [dst] and [src]
    stay apart and in order, and every address translates in [src] to what it did. *)
Theorem vmm_alloc_isolated n s dst droot D dl src sroot T sl :
  two_spaces (Datatypes.S n) s dst droot D dl src sroot T sl →
  (∀ va size flags, alloc_request n s dst droot D dl va size flags → ¬ covers dl (va + size * 4096) flags →
     (∀ j, 0 ≤ j < size → leaf (st_mem s) D (va + 4096 * j) = 0) → pages_left (4 * Z.to_nat size) s →
     ∃ s' D' dl', vmm_alloc_at dst va size flags s = Done (va, s') ∧
       two_spaces n s' dst droot D' dl' src sroot T sl ∧ same_translation s s' sroot) ∧
  (∀ lower upper size flags, between_request n s dst droot D dl lower upper size flags →
     vmm_alloc_between dst lower upper size flags s = Done (NULL, s) ∨
     ∃ va s' D' dl', vmm_alloc_between dst lower upper size flags s = Done (va, s') ∧
       two_spaces n s' dst droot D' dl' src sroot T sl ∧ same_translation s s' sroot).
Proof.
  intros Hts. split.
  - intros va size flags Hreq Hnc Hzero Hleft.
    destruct (alloc_at_run _ _ _ _ _ _ _ _ _ Hreq Hnc Hzero Hleft) as (s' & Hrun & Hall).
    destruct (two_alloc _ _ _ _ _ _ _ _ _ _ _ _ _ _ Hts Hall) as (D' & dl' & _ & Hts' & _ & _ & _ & _ & Hsame). by exists s', D', dl'.
  - intros lower upper size flags Hreq.
    destruct (alloc_between_run _ _ _ _ _ _ _ _ _ _ Hreq) as (va & l1 & l2 & _ & Hrun).
    destruct (upper <=? _); [by left|right]. destruct Hrun as (s' & Hrun & Hall).
    destruct (two_alloc _ _ _ _ _ _ _ _ _ _ _ _ _ _ Hts Hall) as (D' & dl' & _ & Hts' & _ & _ & _ & _ & Hsame). by exists (va + 4096), s', D', dl'.
Qed.
End isolation.

(** ** The space of a new process *)

(** The stack of the user, [size] pages at [va], does not share an entry with the
    regions of the kernel, which are in the window that starts at [lo]. *)
Record stack_request (sl : list region) (lo va size flags : Z) : Prop := {
  sr_lo : lo mod 2 ^ 48 = 0;
  sr_va : 0 < va ∧ va mod 4096 = 0;
  sr_size : 0 < size < 2 ^ 36 ∧ va + size * 4096 ≤ 2 ^ 48;
  sr_flags : 0 < flags < 4096;
  sr_apart : ∀ a f, va ≤ a ≤ va + size * 4096 → ¬ covers sl a f;
  sr_entries : ∀ a f, va ≤ a < va + size * 4096 → ¬ covers sl (lo + a) f;
  sr_kernel : ∀ r, r ∈ sl → vr_flags r ≠ 0;
}.

Lemma window_same_page lo a :
  0 ≤ lo → lo + 2 ^ 48 ≤ 2 ^ 64 → lo mod 2 ^ 48 = 0 → 0 ≤ a < 2 ^ 48 → same_page (lo + a) a = true.
Proof.
  intros Hlo Hhi Hal Ha. unfold same_page. rewrite !u64_small by lia. apply Z.eqb_eq.
  assert (lo = lo / 2 ^ 48 * 2 ^ 48) as -> by zlia. generalize (lo / 2 ^ 48). intros k.
  replace (k * 2 ^ 48 + a) with (a + k * 2 ^ 36 * 4096) by lia. rewrite Z.div_add by lia. apply Z_mod_plus_full.
Qed.

(** An address of the window whose entry is one of the stack's lies above [lo] as
    the stack lies above 0. *)
Lemma page_index_window lo va size a :
  0 ≤ lo → lo + 2 ^ 48 ≤ 2 ^ 64 → lo mod 2 ^ 48 = 0 → in_window lo a → 0 < va → va mod 4096 = 0 →
  0 < size → va + size * 4096 ≤ 2 ^ 48 → page_index va a < size → va ≤ a - lo < va + size * 4096.
Proof.
  unfold in_window, page_index. intros Hlo Hhi Hal Ha Hva Hvaal Hsz Hend Hidx. rewrite u64_small in Hidx by lia.
  assert (∃ b, a = lo + b ∧ 0 ≤ b < 2 ^ 48) as (b & -> & Hb) by (exists (a - lo); lia).
  replace (lo + b - lo) with b by lia. assert (lo = lo / 2 ^ 48 * 2 ^ 48) as E by zlia. rewrite E in Hidx.
  replace (lo / 2 ^ 48 * 2 ^ 48 + b) with (b + lo / 2 ^ 48 * 2 ^ 36 * 4096) in Hidx by lia. rewrite Z.div_add in Hidx by lia.
  replace (b / 4096 + lo / 2 ^ 48 * 2 ^ 36 - va / 4096) with (b / 4096 - va / 4096 + lo / 2 ^ 48 * 2 ^ 36) in Hidx by lia.
  rewrite Z_mod_plus_full in Hidx. clear E Hal Hhi Hlo Ha lo.
  assert (va = va / 4096 * 4096 ∧ 0 ≤ b / 4096 < 2 ^ 36 ∧ b / 4096 * 4096 ≤ b < b / 4096 * 4096 + 4096) as (Ev & Hb1 & Hb2) by zlia.
  revert Hidx Ev Hb1 Hb2. generalize (va / 4096) (b / 4096). intros v x Hidx Ev Hb1 Hb2.
  destruct (decide (v ≤ x)) as [Hle|Hgt].
  - rewrite Z.mod_small in Hidx by lia. lia.
  - assert ((x - v) mod 2 ^ 36 = x - v + 2 ^ 36) as Em.
    { rewrite <- (Z_mod_plus_full _ 1), Z.mod_small; lia. }
    lia.
Qed.

Section process.
Context {CS : CSem} {S : Type} {MS : MemState S} {PS : PmmState S} {OA : ObjectAllocator S}.
Implicit Types s : S.

(** After the copy, the stack can be allocated. *)
Lemma stack_alloc_request n s D0 s' dst droot D dl src sroot T sl lo va size flags :
  two_spaces (Datatypes.S n) s' dst droot D dl src sroot T sl → copy_request s D0 T sl lo → stack_request sl lo va size flags →
  (∀ a f, covers dl a f ↔ covers sl a f) →
  (∀ a, in_window lo a → (∀ f, ¬ covers sl a f) → leaf (st_mem s') D a = 0) →
  alloc_request n s' dst droot D dl va size flags ∧ ¬ covers dl (va + size * 4096) flags ∧
  ∀ a, va ≤ a < va + size * 4096 → leaf (st_mem s') D a = 0.
Proof.
  intros Hts [(Hw1 & Hw2 & _) _ _ _] [Hlo Hva [Hsz Hend] Hf Hap Hen _] Hcov Hleaf.
  pose proof (vs_order _ _ _ _ _ _ (ts_dst _ _ _ _ _ _ _ _ _ _ Hts)) as Hord.
  assert (∀ w, w ∈ dl → ∀ a, vr_start w ≤ a < vr_stop w → ¬ va ≤ a ≤ va + size * 4096) as Hno.
  { intros w Hw a Ha Hin. apply (Hap a (vr_flags w) Hin), Hcov. by exists w. }
  split; [|split].
  - split; try done; try lia.
    + apply Hts.
    + intros w Hw. pose proof (in_order_elem _ _ Hord Hw).
      destruct (decide (vr_stop w ≤ va)) as [|H1]; [by left|]. destruct (decide (va + size * 4096 ≤ vr_start w)) as [|H2]; [by right|].
      exfalso. apply (Hno w Hw (Z.max va (vr_start w))); lia.
    + intros q w _ Hw _ Heq. pose proof (in_order_elem _ _ Hord Hw). exfalso. apply (Hno w Hw (vr_start w)); lia.
  - rewrite Hcov. apply Hap. lia.
  - intros a Ha. rewrite (same_page_leaf _ _ (lo + a) a) by (apply window_same_page; (done || lia)).
    apply Hleaf; [unfold in_window; lia|]. intros f. by apply Hen.
Qed.

(** The translation of an address whose entry is not 0. *)
Lemma translate_entry s T root a e :
  mm_ok s T root → leaf (st_mem s) T a = e → e ≠ 0 → mmu_translate_4k root a s = Done (e - e mod 4096 + u64 a mod 4096, s).
Proof.
  intros Hmm He Hne. rewrite (translate_run s T root a (mo_pt _ _ _ Hmm)), He.
  destruct (T !! va_path a) eqn:Hp; [done|]. unfold leaf, leaf_at in He. rewrite Hp in He. congruence.
Qed.

Lemma page_index_offset va k o :
  0 ≤ va → va mod 4096 = 0 → 0 ≤ k < 2 ^ 36 → va + 4096 * k + 4096 ≤ 2 ^ 64 → 0 ≤ o < 4096 →
  page_index va (va + 4096 * k + o) = k.
Proof.
  intros Hva Hal Hk Hhi Ho. unfold page_index. rewrite u64_small by lia.
  replace ((va + 4096 * k + o) / 4096 - va / 4096) with k by (clear - Hal Ho; zlia). by apply Z.mod_small.
Qed.

(** C12: The space that [process_create] sets up: the regions of the kernel are
    copied to a fresh space [dst], then the user's stack is allocated in it.  Both
    calls return; the space has the regions of the kernel and the stack; every
    address of the kernel translates in it to what it translates to in the kernel's
    space; the pages of the stack translate to distinct physical pages that were
    free; and the kernel's space translates every address as before. *)
Theorem process_space_ready n s dst droot D src sroot T sl lo va size flags :
  two_spaces (length sl + Datatypes.S n) s dst droot D [] src sroot T sl →
  copy_request s D T sl lo → stack_request sl lo va size flags → (∀ a, leaf (st_mem s) D a = 0) →
  pages_left (3 * pages_of sl + 4 * Z.to_nat size) s →
  ∃ s' D' dl ps, (vmm_copy_regions dst src ;; vmm_alloc_at dst va size flags) s = Done (va, s') ∧
    two_spaces n s' dst droot D' dl src sroot T sl ∧
    (∀ a f, covers dl a f ↔ covers sl a f ∨ (va ≤ a < va + size * 4096 ∧ f = flags)) ∧
    (∀ a f, covers sl a f → ∃ pa, mmu_translate_4k sroot a s = Done (pa, s) ∧ mmu_translate_4k droot a s' = Done (pa, s')) ∧
    (length ps = Z.to_nat size ∧ NoDup ps ∧ ∀ q, q ∈ ps → page_free s q ∧ ¬ page_free s' q) ∧
    (∀ k q o, ps !! k = Some q → 0 ≤ o < 4096 →
       mmu_translate_4k droot (va + 4096 * Z.of_nat k + o) s' = Done (q + o, s')) ∧
    same_translation s s' sroot.
Proof.
  intros Hts Hreq Hst Hfresh Hleft. pose proof Hreq as [Hw Hpages _ _]. pose proof Hst as [Hlo [Hva Hal] [Hsz Hend] Hf Hap Hen Hker].
  destruct (proj1 (wp_Done _ _ _) (wp_copy_regions s dst droot D src sroot T sl lo Hreq (Datatypes.S n) s (4 * Z.to_nat size)
    (copy_inv_start _ _ _ _ _ _ _ _ _ _ Hts) Hleft)) as ([] & s1 & Hrun1 & dl & (D1 & Hts1 & _ & Hpf1 & Hleaf1 & HT1) & Hcov & Hleft1).
  destruct (stack_alloc_request n s D s1 dst droot D1 dl src sroot T sl lo va size flags Hts1 Hreq Hst Hcov) as (Hareq & Hnc & Hzero).
  { intros a Ha Hn. rewrite <- (Hfresh a). by apply Hleaf1. }
  destruct (alloc_at_run _ _ _ _ _ _ _ _ _ Hareq Hnc ltac:(intros j Hj; apply Hzero; lia) Hleft1) as (s' & Hrun & Hall).
  destruct (two_alloc _ _ _ _ _ _ _ _ _ _ _ _ _ _ Hts1 Hall) as (D' & dl' & ps & Hts' & Hcov' & (Hlen & Hnd & Hps) & Hleaf' & HT' & _).
  pose proof (vs_mm _ _ _ _ _ _ (ts_src _ _ _ _ _ _ _ _ _ _ Hts)) as HmmT.
  pose proof (vs_mm _ _ _ _ _ _ (ts_dst _ _ _ _ _ _ _ _ _ _ Hts')) as HmmD.
  exists s', D', dl', ps. split; [by rewrite (bind_Done _ _ _ _ _ Hrun1)|]. split; [done|].
  split; [intros a f; by rewrite Hcov', Hcov|]. split; [|split; [|split]].
  - intros a f Hc. pose proof Hc as (r & Hr & Ha & <-). destruct (Hpages r Hr) as (_ & _ & Hr1 & Hr2 & Hrf). specialize (Hker r Hr).
    assert (in_window lo a) as Hwa by (unfold in_window; lia).
    set (e := leaf (st_mem s) T a). pose proof (leaf_range (st_mem s) T a) as He. fold e in He.
    assert (Z.lor (e - e mod 4096) (vr_flags r) ≠ 0) as Hne by (intros [_ ?]%Z.lor_eq_0_iff; lia).
    assert (leaf (st_mem s') D' a = Z.lor (e - e mod 4096) (vr_flags r)) as Hentry.
    { rewrite Hleaf'. unfold leaf_after. rewrite lookup_ge_None_2; [by apply (Hleaf1 a Hwa)|]. rewrite Hlen. apply Z2Nat.inj_le; [lia| |].
      { apply page_index_range. }
      destruct (decide (size ≤ page_index va a)) as [|Hlt]; [done|]. exfalso.
      pose proof (page_index_window lo va size a ltac:(lia) ltac:(lia) Hlo Hwa Hva Hal ltac:(lia) Hend ltac:(lia)) as Hin.
      apply (Hen (a - lo) (vr_flags r) Hin). by replace (lo + (a - lo)) with a by lia. }
    eexists. split; [apply (translate_entry s T sroot a e HmmT eq_refl), (cq_src _ _ _ _ _ Hreq a _ Hc)|].
    rewrite (translate_entry s' D' droot a _ HmmD Hentry Hne). rewrite lor_page; [done| | |done]; clear - He; zlia.
  - split; [done|]. split; [done|]. intros q Hq. destruct (Hps q Hq) as [Hq1 Hq2]. split; [by apply Hpf1|done].
  - intros k q o Hk Ho. pose proof (lookup_lt_Some _ _ _ Hk) as Hklen. rewrite Hlen in Hklen.
    destruct (Hps q (list_elem_of_lookup_2 _ _ _ Hk)) as [Hq%Hpf1 _]. destruct (mo_free _ _ _ HmmT q Hq) as (Hq1 & _ & Hq3 & _).
    assert (leaf (st_mem s') D' (va + 4096 * Z.of_nat k + o) = Z.lor q flags) as Hentry.
    { rewrite Hleaf'. unfold leaf_after. rewrite page_index_offset by lia. by rewrite Nat2Z.id, Hk. }
    rewrite (translate_entry s' D' droot _ _ HmmD Hentry) by (intros [_ ?]%Z.lor_eq_0_iff; lia).
    rewrite lor_page by lia. rewrite u64_small by lia. do 3 f_equal. clear - Hal Ho. zlia.
  - eapply two_translation; [exact Hts|exact Hts'|]. intros a. by rewrite HT', HT1.
Qed.
End process.

(** ** A process on the example

    The kernel's space has one region, the page at 0x5000; the user's stack is the
    page at 0xf000. *)
#[local] Opaque ex_mm_mem ex_vmm_mem.

Lemma ex_stack_request : stack_request [ex_region] 0 0xf000 1 7.
Proof.
  split; try done; try lia.
  - intros a f Ha (r & ->%ex_region_only & Hr & _). simpl in Hr. lia.
  - intros a f Ha (r & ->%ex_region_only & Hr & _). simpl in Hr. lia.
  - intros r ->%ex_region_only. done.
Qed.

Lemma process_space_ready_witness :
  ∃ q s s' pa, mmu_init (CS := strict_c) ex_new_space ex_vmm = Done (tt, s) ∧
    (vmm_copy_regions (CS := strict_c) (OA := ex_allocator) ex_new_space ex_space ;;
     vmm_alloc_at (CS := strict_c) (OA := ex_allocator) ex_new_space 0xf000 1 7) s = Done (0xf000, s') ∧
    mmu_translate_4k (HIGHER_HALF_START + q) 0x5123 s' = Done (0x323123, s') ∧
    mmu_translate_4k (HIGHER_HALF_START + q) 0xf008 s' = Done (pa + 8, s') ∧ page_free s pa ∧ ¬ page_free s' pa.
Proof.
  destruct ex_two_spaces as (q & s & Hinit & Hleft & Hts & Hreq & Hfresh & Htr).
  destruct (process_space_ready (CS := strict_c) (OA := ex_allocator) 0 s ex_new_space (HIGHER_HALF_START + q)
    (empty_tables (HIGHER_HALF_START + q)) ex_space ex_pml4 ex_tables [ex_region] 0 0xf000 1 7 Hts Hreq ex_stack_request Hfresh Hleft)
    as (s' & D' & dl & ps & Hrun & _ & _ & Hker & (Hlen & _ & Hps) & Hstack & _).
  destruct ps as [|pa ps]; [discriminate Hlen|].
  exists q, s, s', pa. split; [exact Hinit|]. split; [exact Hrun|]. clear Hinit Hrun.
  split; [|split; [exact (Hstack 0%nat pa 8 eq_refl ltac:(lia))|exact (Hps pa (list_elem_of_here _ _))]].
  destruct (Hker 0x5123 3) as (pa' & H1 & H2).
  - exists ex_region. split; [left|simpl; lia].
  - rewrite Htr in H1. injection H1 as <-. exact H2.
Defined.

(** The new space gets a page at 0x8000 while the kernel's translates as before. *)
Lemma vmm_alloc_isolated_witness :
  ∃ q s s' D' dl', mmu_init (CS := strict_c) ex_new_space ex_vmm = Done (tt, s) ∧
    vmm_alloc_at (CS := strict_c) (OA := ex_allocator) ex_new_space 0x8000 1 7 s = Done (0x8000, s') ∧
    two_spaces (OA := ex_allocator) 1 s' ex_new_space (HIGHER_HALF_START + q) D' dl' ex_space ex_pml4 ex_tables [ex_region] ∧
    mmu_translate_4k ex_pml4 0x5123 s' = Done (0x323123, s').
Proof.
  destruct ex_two_spaces as (q & s & Hinit & Hleft & Hts & Hreq & Hfresh & Htr).
  destruct (vmm_alloc_isolated (CS := strict_c) (OA := ex_allocator) 1 s ex_new_space (HIGHER_HALF_START + q)
    (empty_tables (HIGHER_HALF_START + q)) [] ex_space ex_pml4 ex_tables [ex_region] Hts) as (Hat & _).
  destruct (Hat 0x8000 1 7) as (s' & D' & dl' & Hrun & Hts' & Hsame).
  - clear Hinit. split; try done; try lia.
    + apply Hts.
    + intros w Hw. by apply not_elem_of_nil in Hw.
    + intros p w _ Hw. by apply not_elem_of_nil in Hw.
  - clear Hinit. intros (r & Hr & _). by apply not_elem_of_nil in Hr.
  - intros j _. apply Hfresh.
  - exact (pages_left_le (CS := strict_c) _ 4 7 ltac:(lia) Hleft).
  - exists q, s, s', D', dl'. split; [exact Hinit|]. split; [exact Hrun|]. split; [exact Hts'|]. clear Hinit Hrun.
    destruct (Hsame 0x5123) as (pa & H1 & H2). rewrite Htr in H1. injection H1 as <-. exact H2.
Defined.
