(* ===== verification/VmmBlocks.v ===== *)
(** * kernel/mm/vmm.c (sixth part): the blocks of the object allocator

    What [create_block] makes is a block as the class [ObjectAllocator] wants
    it, and the allocator's two operations against a set of objects. *)
From S2P Require Import Prelude CInt Mem CString Bitmap Pmm Mmu VmmSlab Vmm VmmMap VmmProps.

Section create.
Context {CS : CSem} {S : Type} {MS : MemState S} {PS : PmmState S} {VS : VmmState S}.
Implicit Types s : S.

(** The fields of a new block at [h], over the memory [m]. *)
Definition block_fields (m : mem) (h prev : Z) : mem :=
  let m := write_le 8 m (k_object_size h) REGION_SIZE in
  let m := write_le 8 m (k_max_objects h) REGIONS_PER_BLOCK in
  let m := write_le 8 m (k_objects h) (h + BLOCK_SIZE) in
  let m := write_le 8 m (k_prev h) prev in
  let m := write_le 8 m (k_next h) NULL in
  let m := write_le 8 m (k_bm h) REGIONS_PER_BLOCK in
  let m := write_le 8 m (k_bm h + 8) 2 in
  write_le 8 m (k_bm h + 16) (h + 3992).

Lemma block_fields_out m h prev a : ¬ h ≤ a < h + 72 → block_fields m h prev !! a = m !! a.
Proof.
  intros Ha. unfold block_fields, k_objects, k_object_size, k_max_objects, k_bm, k_prev, k_next.
  by rewrite !write_le_lookup_out by lia.
Qed.

Lemma block_fields_dom m h prev i : mapped m h 72 → is_Some (block_fields m h prev !! i) ↔ is_Some (m !! i).
Proof.
  intros Hm. destruct (decide (h ≤ i < h + 72)) as [Hi|Hi]; [|by rewrite block_fields_out].
  pose proof (Hm i Hi). split; [done|]. intros _. unfold block_fields. repeat (apply write_le_is_Some; left). done.
Qed.

Lemma block_fields_loads m h prev :
  0 < h → h + 4096 ≤ 2 ^ 64 → 0 ≤ prev < 2 ^ 64 →
  let m' := block_fields m h prev in
  load_le 8 m' (k_objects h) = Some (h + BLOCK_SIZE) ∧ load_le 8 m' (k_object_size h) = Some REGION_SIZE ∧
  load_le 8 m' (k_max_objects h) = Some REGIONS_PER_BLOCK ∧ load_le 8 m' (k_bm h) = Some REGIONS_PER_BLOCK ∧
  load_le 8 m' (k_bm h + 8) = Some 2 ∧ load_le 8 m' (k_bm h + 16) = Some (h + 3992) ∧
  load_le 8 m' (k_prev h) = Some prev ∧ load_le 8 m' (k_next h) = Some NULL ∧
  load_le 8 m' (k_nb_used h) = load_le 8 m (k_nb_used h).
Proof.
  intros Hh Hhi Hprev m'. unfold m', block_fields, k_objects, k_object_size, k_max_objects, k_bm, k_prev, k_next, k_nb_used.
  split_and!; rewrite ?load_write_ne by lia; rewrite ?load_write_same, ?Z.mod_small; try done;
    change (256 ^ Z.of_nat 8) with (2 ^ 64); unfold BLOCK_SIZE; lia.
Qed.

(** Accesses to a page that is mapped in the first memory. *)
Ltac page_write := apply wp_store;
  [rewrite ?st_mem_put; apply load_le_is_Some; repeat apply mapped_write_le; eapply mapped_sub; [eassumption|lia|change (Z.of_nat 8) with 8; lia]|];
  rewrite ?st_mem_put, ?st_put_put; wp_steps.
Ltac page_read v := apply (wp_load _ _ v);
  [rewrite ?st_mem_put; rewrite ?load_write_ne by lia; rewrite load_write_same, Z.mod_small; [done|];
   change (256 ^ Z.of_nat 8) with (2 ^ 64); lia|]; wp_steps.

(** What [create_block] does with the page [h] it gets. *)
Lemma wp_fill_block h prev s (Q : Z → S → Prop) :
  0 < h → h + 4096 ≤ 2 ^ 64 → 0 ≤ prev < 2 ^ 64 → mapped (st_mem s) h 4096 →
  (∀ m, only_in (h + 3992) (h + 4008) (block_fields (st_mem s) h prev) m →
     (∀ k, 0 ≤ k < 128 → is_free m (slab_bm h) k = true) → Q h (st_put m s)) →
  wp (size ← get_struct_size TYPE_VMM_REGION;
      wr64 (k_object_size h) size ;;
      size ← rd64 (k_object_size h);
      wr64 (k_max_objects h) ((PAGE_SIZE_IN_BYTES - BLOCK_SIZE) / u64 (size + 1)) ;;
      wr64 (k_objects h) (u64 (h + BLOCK_SIZE)) ;;
      wr64 (k_prev h) prev ;;
      wr64 (k_next h) NULL ;;
      max_objects ← rd64 (k_max_objects h);
      objects ← rd64 (k_objects h);
      size ← rd64 (k_object_size h);
      bitmap_init_at (k_bm h) max_objects (u64 (objects + u64 (max_objects * size))) ;;
      mret h) s Q.
Proof.
  intros Hh Hhi Hprev Hm HQ.
  unfold get_struct_size, bitmap_init_at. unfold k_object_size, k_max_objects, k_objects, k_prev, k_next, k_bm. wp_steps.
  page_write. page_read 40. change ((PAGE_SIZE_IN_BYTES - BLOCK_SIZE) / u64 (40 + 1)) with 98. page_write.
  unfold BLOCK_SIZE. rewrite (u64_small (h + 72)) by lia. page_write. page_write. page_write.
  page_read 98. page_read (h + 72). page_read 40.
  change (u64 (98 * 40)) with 3920. rewrite u64_small by lia. replace (h + 72 + 3920) with (h + 3992) by lia.
  page_write. page_write. page_write.
  match goal with |- context [st_put ?m s] => change m with (block_fields (st_mem s) h prev) end.
  set (m0 := block_fields (st_mem s) h prev) in *.
  assert (mapped m0 (h + 3992) 16) as Hm0.
  { intros i Hi. apply block_fields_dom; [by eapply mapped_sub; [exact Hm|lia|lia]|]. apply Hm. lia. }
  destruct (init_all_free 98 (h + 3992) (st_put m0 s)) as (m & Hrun & _ & Hout & Hfree); [lia|by rewrite st_mem_put|].
  eapply wp_eq; [exact Hrun|]. wp_steps. rewrite st_mem_put, st_put_put in *. apply HQ; [|exact Hfree].
  by replace (h + 4008) with (h + 3992 + 8 * BITMAP_SIZE_IN_BLOCK 98) by (change (BITMAP_SIZE_IN_BLOCK 98) with 2; lia).
Qed.

(** A new block, with the page it is made from. *)
Definition new_block (s : S) (T : tables) (root q prev : Z) (s' : S) (h := HIGHER_HALF_START + q) : Prop :=
  page_free s q ∧ (∀ x, page_free s' x ↔ page_free s x ∧ x ≠ q) ∧ mm_ok s' T root ∧
  slab_wf (st_mem s') h ∧ slab_room 98 (st_mem s') h ∧ (∀ p, ¬ slab_live (st_mem s') h p) ∧
  load_le 8 (st_mem s') (k_prev h) = Some prev ∧ load_le 8 (st_mem s') (k_next h) = Some NULL ∧
  load_le 8 (st_mem s') (k_nb_used h) = load_le 8 (st_mem s) (k_nb_used h) ∧
  ∀ a, h ≤ a < h + 4096 → not_paging s' T a.

Lemma slab_room_all m h : (∀ k, 0 ≤ k < 128 → is_free m (slab_bm h) k = true) →
  slab_room 98 m h ∧ ∀ p, ¬ slab_live m h p.
Proof.
  intros Hf. split.
  - exists (seqZ 0 98). split_and!; [apply NoDup_seqZ|done|]. intros k Hk%elem_of_seqZ. unfold REGIONS_PER_BLOCK.
    split; [lia|]. apply Hf. lia.
  - intros p (k & Hk & _ & Hkf). unfold REGIONS_PER_BLOCK in Hk. by rewrite Hf in Hkf by lia.
Qed.

Lemma wp_create_block s T root prev :
  mm_ok s T root → pages_left 1 s → 0 ≤ prev < 2 ^ 64 →
  wp (create_block TYPE_VMM_REGION prev) s (λ h s', ∃ q, h = HIGHER_HALF_START + q ∧ new_block s T root q prev s').
Proof.
  intros Hok Hleft Hprev. unfold create_block. wp_step. eapply wp_pmm_xalloc; [apply Hok|exact Hleft|].
  intros q m1 Hwf1 Honly Hq0 Hq Hpages _. destruct (mo_free _ _ _ Hok q Hq) as (Hq1 & Hq2 & Hq3 & Hqm & Hqt).
  assert (DM_P2V q = HIGHER_HALF_START + q) as ->.
  { unfold DM_P2V. rewrite Z.add_comm. apply u64_small. unfold HIGHER_HALF_START. lia. }
  set (h := HIGHER_HALF_START + q) in *. assert (0 < h ∧ h + 4096 ≤ 2 ^ 64) as [Hh Hhi] by (unfold h, HIGHER_HALF_START; lia).
  assert (mm_ok (st_put m1 s) T root) as Hok1 by (apply mm_ok_bitmaps; [done|done|done|intros x [? _]%Hpages; by left]).
  assert (∀ a, h ≤ a < h + 4096 → m1 !! a = st_mem s !! a ∧ not_paging (st_put m1 s) T a) as Hpage.
  { intros a Ha.
    assert (∀ i r, region_at (pmm_g s) i r → available r = true →
      ¬ bm_bitmap (r_bitmap r) ≤ a < bm_bitmap (r_bitmap r) + 8 * bm_size_in_block (r_bitmap r)) as Hnb.
    { intros i r Hr Hav Hin. destruct (mo_bitmaps _ _ _ Hok i r Hr Hav a Hin) as [_ Hno]. by apply (Hno q). }
    split; [by apply Honly|]. split; [by apply Hqt|]. split; [|by rewrite pmm_g_mem].
    intros x [Hx Hne]%Hpages. destruct (mo_free _ _ _ Hok x Hx) as (_ & _ & Hx3 & _).
    clear - Ha Hne Hx3 Hq3. unfold h, HIGHER_HALF_START in *. zlia. }
  apply wp_fill_block; [done|done|done| |].
  { rewrite st_mem_put. intros a Ha. by apply Honly, Hqm. }
  intros m Hout Hfree. rewrite st_mem_put, st_put_put in *. exists q. split; [done|]. fold h.
  assert (mapped m1 h 4096) as Hm1 by (intros a Ha; by apply Honly, Hqm).
  assert (∀ a, ¬ h ≤ a < h + 4096 → m !! a = m1 !! a) as Hsame.
  { intros a Ha. destruct Hout as [Ho _]. rewrite Ho by lia. apply block_fields_out. lia. }
  assert (∀ i, is_Some (m !! i) ↔ is_Some (m1 !! i)) as Hdom.
  { intros i. destruct Hout as [_ ->]. apply block_fields_dom. by eapply mapped_sub; [exact Hm1|lia|lia]. }
  destruct (mm_ok_frame (st_put m1 s) m T root Hok1) as (Hok2 & _ & Hpf2 & _ & Hnp2); rewrite ?st_mem_put, ?pmm_g_mem; [done|..].
  { intros a Ha. apply Hsame. intros Hin. by apply (Hqt a). }
  { intros i r Hr Hav a Ha. apply Hsame. intros Hin. destruct (Hpage a Hin) as [_ (_ & _ & Hno)]. rewrite pmm_g_mem in Hno. by apply (Hno i r). }
  rewrite st_put_put in *. destruct (slab_room_all m h Hfree) as [Hroom Hlive].
  destruct (block_fields_loads m1 h prev Hh Hhi Hprev) as (L1 & L2 & L3 & L4 & L5 & L6 & L7 & L8 & L9).
  assert (∀ o, 0 ≤ o → o + 8 ≤ 72 → load_le 8 m (h + o) = load_le 8 (block_fields m1 h prev) (h + o)) as Hfield.
  { intros o ??. eapply only_in_load; [exact Hout|]. change (Z.of_nat 8) with 8. lia. }
  unfold new_block. rewrite st_mem_put. fold h. split; [done|]. split; [|split; [done|]].
  { intros x. by rewrite Hpf2, Hpages. }
  split; [|split; [done|split; [done|]]].
  - split; [done| |..]. 
    + intros a Ha. by apply Hdom, Hm1.
    + rewrite <- L1. unfold k_objects. rewrite <- (Z.add_0_r h) at 1. rewrite Hfield by lia. by rewrite Z.add_0_r.
    + rewrite <- L2. by apply Hfield.
    + rewrite <- L3. by apply Hfield.
    + rewrite <- L4. by apply Hfield.
    + rewrite <- L5. unfold k_bm. rewrite <- Z.add_assoc. by apply Hfield.
    + rewrite <- L6. unfold k_bm. rewrite <- Z.add_assoc. by apply Hfield.
  - split_and!.
    + rewrite <- L7. by apply Hfield.
    + rewrite <- L8. by apply Hfield.
    + unfold k_nb_used in *. rewrite Hfield, L9 by lia. apply load_le_ext. intros a Ha. apply Hpage. lia.
    + intros a Ha. apply Hnp2. by apply Hpage.
Qed.
End create.

Section properties.
Context {CS : CSem} {S : Type} {MS : MemState S} {PS : PmmState S} {VS : VmmState S}.
Implicit Types s : S.

(** C24: [create_block] turns a free page, and no other, into a block with room for
    98 regions, none of them in use, apart from the page tables, the bitmaps and
    the free pages; but [nb_used], which decides when the block is given back,
    stays whatever the page held. *)
Theorem create_block_ready s T root prev :
  mm_ok s T root → pages_left 1 s → 0 ≤ prev < 2 ^ 64 →
  ∃ q s', create_block TYPE_VMM_REGION prev s = Done (HIGHER_HALF_START + q, s') ∧ new_block s T root q prev s'.
Proof.
  intros Hok Hleft Hprev. destruct (proj1 (wp_Done _ _ _) (wp_create_block s T root prev Hok Hleft Hprev))
    as (h & s' & Hrun & q & -> & Hnew). by exists q, s'.
Qed.

(** The block in use holds exactly the objects [objs]. *)
Definition holds (s : S) (objs : gset Z) : Prop :=
  slab_wf (st_mem s) (region_slab s) ∧ ∀ p, slab_live (st_mem s) (region_slab s) p ↔ p ∈ objs.

(** Objects do not overlap, and lie in the block outside its own data. *)
Lemma holds_apart s objs p q : holds s objs → p ∈ objs → q ∈ objs → p ≠ q →
  (p + REGION_SIZE ≤ q ∨ q + REGION_SIZE ≤ p) ∧ ∀ a, p ≤ a < p + REGION_SIZE → ¬ slab_meta (region_slab s) a.
Proof.
  intros [Hwf Hl] Hp Hq Hne. apply Hl in Hp, Hq. split.
  - destruct Hp as (k & Hk & -> & _), Hq as (i & Hi & -> & _). unfold slab_object, REGION_SIZE in *. lia.
  - pose proof (slab_live_range _ _ _ Hwf Hp). unfold slab_meta, REGION_SIZE in *. intros a Ha. lia.
Qed.

(** C23: on the block in use, [block_alloc] and [block_free] implement a set of
    objects: an allocation adds an object that was not there and overlaps no
    other; freeing an object numbered at least 33 modulo 64, when the count of the block
    is not 1, takes exactly it out; and neither writes outside the block's header and
    bitmap.  Freeing the object numbered 32 or 96 takes the 32 before it out of the set
    too.  (What the shift of the others frees is undefined, and the free that brings the
    count to 0 gives the page of the block back.) *)
Theorem block_alloc_free_contract n s objs :
  holds s objs →
  (slab_room (Datatypes.S n) (st_mem s) (region_slab s) →
   ∃ p s', block_alloc TYPE_VMM_REGION s = Done (p, s') ∧ holds s' ({[p]} ∪ objs) ∧ p ∉ objs ∧
     slab_room n (st_mem s') (region_slab s') ∧
     (∀ q, q ∈ objs → p + REGION_SIZE ≤ q ∨ q + REGION_SIZE ≤ p) ∧
     ∀ a, ¬ slab_meta (region_slab s) a → st_mem s' !! a = st_mem s !! a) ∧
  (∀ p, p ∈ objs → slab_freeable (st_mem s) (region_slab s) p →
   ∃ s', block_free p TYPE_VMM_REGION s = Done (tt, s') ∧ holds s' (objs ∖ {[p]}) ∧
     ∀ a, ¬ slab_meta (region_slab s) a → st_mem s' !! a = st_mem s !! a) ∧
  (∀ k nb, slab_object (region_slab s) k ∈ objs → k mod 64 = 32 →
   load_le 8 (st_mem s) (k_nb_used (region_slab s)) = Some nb → nb ≠ 1 →
   ∃ s', block_free (slab_object (region_slab s) k) TYPE_VMM_REGION s = Done (tt, s') ∧
     holds s' (filter (λ q, q < slab_object (region_slab s) (k - 32) ∨ slab_object (region_slab s) k < q) objs) ∧
     ∀ a, ¬ slab_meta (region_slab s) a → st_mem s' !! a = st_mem s !! a).
Proof.
  intros Hh. pose proof Hh as [Hwf Hl]. assert (∀ m, region_slab (st_put m s) = region_slab s) as Hslab.
  { intros m. unfold region_slab. by rewrite vmm_g_mem. }
  split_and!.
  - intros Hroom. destruct (proj1 (wp_Done _ _ _) (slab_alloc n s Hwf Hroom))
      as (p & s' & Hrun & m & -> & Hwf' & Hroom' & _ & Hout & Hnew & Hlive).
    assert (holds (st_put m s) ({[p]} ∪ objs)) as Hh'.
    { split; rewrite st_mem_put, Hslab; [done|]. intros q. rewrite Hlive, Hl. set_solver. }
    rewrite Hl in Hnew. exists p, (st_put m s). rewrite st_mem_put, Hslab. split_and!; try done.
    intros q Hq. by apply (holds_apart _ _ p q Hh'); set_solver.
  - intros p Hp Hfr. apply Hl in Hp as Hp'.
    destruct (proj1 (wp_Done _ _ _) (slab_free 0 s p Hwf ltac:(by exists []; split_and!; [constructor|done|intros ? ?%elem_of_nil]) Hp' Hfr))
      as ([] & s' & Hrun & m & -> & Hwf' & _ & _ & Hout & Hlive).
    exists (st_put m s). rewrite st_mem_put. split; [done|]. split; [|done].
    split; rewrite st_mem_put, Hslab; [done|]. intros q. rewrite Hlive, Hl. set_solver.
  - intros k nb Hp H32 Hnb Hnb1. apply Hl in Hp as (i & Hi & Hki & _).
    assert (k = i) as <- by (unfold slab_object, REGION_SIZE in Hki; lia).
    destruct (slab_free_32 s k nb Hwf Hi H32 Hnb Hnb1) as (m & Hrun & Hwf' & Hout & Hlive).
    exists (st_put m s). rewrite st_mem_put. split; [done|]. split; [|done].
    split; rewrite st_mem_put, Hslab; [done|]. intros q. rewrite Hlive, Hl, elem_of_filter. tauto.
Qed.
End properties.

(** ** Witnesses *)

Lemma create_block_ready_witness :
  ∃ q s', create_block (CS := strict_c) TYPE_VMM_REGION NULL ex_vmm = Done (HIGHER_HALF_START + q, s') ∧
    new_block ex_vmm ex_tables ex_pml4 q NULL s'.
Proof.
  destruct ex_vmm_paging as (Hok & Hleft & _).
  apply (create_block_ready (CS := strict_c) ex_vmm ex_tables ex_pml4 NULL Hok); [by do 7 apply pages_left_less|done].
Defined.

(** The objects of the example: 0 to 40. *)
Definition ex_objects : gset Z := list_to_set ((λ k, slab_object ex_block k) <$> seqZ 0 41).

Lemma ex_objects_elem p : p ∈ ex_objects ↔ ∃ k, 0 ≤ k < 41 ∧ p = slab_object ex_block k.
Proof.
  unfold ex_objects. rewrite elem_of_list_to_set, list_elem_of_fmap. split.
  - intros (k & -> & Hk%elem_of_seqZ). exists k. split; [lia|done].
  - intros (k & Hk & ->). exists k. split; [done|]. apply elem_of_seqZ. lia.
Qed.

Lemma ex_holds : holds ex_vmm ex_objects.
Proof.
  destruct ex_vmm_loads as (Hwf & _). split; [exact Hwf|]. intros p. rewrite ex_objects_elem.
  change (region_slab ex_vmm) with ex_block. change (st_mem ex_vmm) with ex_vmm_mem. unfold slab_live, REGIONS_PER_BLOCK. split.
  - intros (k & Hk & -> & Hf). exists k. split; [|done]. destruct (decide (k < 64)) as [Hlt|Hge].
    + rewrite ex_vmm_is_free in Hf by lia. apply Z.leb_gt in Hf. lia.
    + exfalso. rewrite ex_vmm_rest_free in Hf by lia. done.
  - intros (k & Hk & ->). exists k. split; [lia|]. split; [done|]. rewrite ex_vmm_is_free by lia. apply Z.leb_gt. lia.
Qed.

Lemma block_alloc_free_contract_witness :
  (∃ p s', block_alloc (CS := strict_c) TYPE_VMM_REGION ex_vmm = Done (p, s') ∧
    holds s' ({[p]} ∪ ex_objects) ∧ p ∉ ex_objects) ∧
  ∃ s', block_free (CS := strict_c) ex_region_addr TYPE_VMM_REGION ex_vmm = Done (tt, s') ∧
    holds s' (ex_objects ∖ {[ex_region_addr]}).
Proof.
  destruct (block_alloc_free_contract (CS := strict_c) 1 ex_vmm ex_objects ex_holds) as (Ha & Hf & _). split.
  - destruct (Ha (proj2 ex_vmm_oa)) as (p & s' & Hrun & Hh & Hp & _). exists p, s'. exact (conj Hrun (conj Hh Hp)).
  - destruct (Hf ex_region_addr) as (s' & Hrun & Hh & _).
    + apply ex_objects_elem. exists 40. split; [lia|exact ex_region_object].
    + exact ex_vmm_freeable.
    + exists s'. exact (conj Hrun Hh).
Defined.
