(* ===== verification/Debug.v ===== *)
(** * kernel/lib/debug and the dump functions

    [panic] itself: everywhere else a call of it is the fault [Panicked], here
    is what its body prints and that it never returns.  The functions that print
    the memory map (pmm.c) and the regions of a space (vmm.c).  The string
    literals are parameters: the addresses the linker gives them. *)
From S2P Require Import Prelude CInt Mem CString Vga Printk Hw Bitmap Pmm Mmu VmmSlab Vmm.

Section defs.
Context {S : Type} {MS : MemState S} {VG : VgaState S} (lit : string → Z).

Section panic.
Context {HW : Hardware S}.

Definition panic_print (fmt : Z) (args : list Z) : M S unit :=
  printk (lit "kernel panic: ") [] ;;
  _printk fmt args ;;
  printk (lit "\n") [].

(** The message and the first [n] rounds of [while (1) cpu_halt()]; [inr] would say
    that the loop, and so [panic], has been left. *)
Definition panic_body (n : nat) (fmt : Z) (args : list Z) : M S (unit + unit) :=
  panic_print fmt args ;;
  rounds n (λ _, cpu_halt ;; mret (inl tt)) tt.
End panic.

(** [type_debug] is the array of pmm.c. *)
Definition pmm_dump_pmap {PS : PmmState S} (type_debug : pmm_region_type → Z) : M S unit :=
  size ← pmap_size;
  for_up 0 size (λ i,
    r ← pmap_get i;
    printk (lit "pa_start=%p | pa_stop=%p ~%uKiB | type=%s\n")
      [r_addr r; region_stop r; BYTE2KB (u64 (r_size_in_pages r * PAGE_SIZE_IN_BYTES)); type_debug (r_type r)]).

Definition vmm_dump_space (space : Z) : M S unit :=
  printk (lit "[SPACE]\n") [] ;;
  printk (lit "---------------------------------------\n") [] ;;
  first ← rd64 (s_region space);
  fuel ← mem_fuel;
  loop fuel (λ region,
    if region =? NULL then mret (inr tt)
    else
      start ← rd64 (g_va_start region);
      stop ← rd64 (g_va_stop region);
      stop' ← rd64 (g_va_stop region);
      start' ← rd64 (g_va_start region);
      printk (lit "%p -> %p | [%uKiB]\n") [start; stop; BYTE2KB (u64 (stop' - start'))] ;;
      next ← rd64 (g_next region);
      mret (inl next)) first.
End defs.

(** ** Literals *)

(** The characters of a C literal, with its escape for the newline. *)
Fixpoint unescape (l : list Z) : list Z :=
  match l with
  | 92 :: 110 :: l' => 10 :: unescape l'
  | c :: l' => c :: unescape l'
  | [] => []
  end.
Definition chars (str : string) : list Z := unescape (codes str).

Example chars_ex : chars "a%u\n" = [97; 37; 117; 10].
Proof. reflexivity. Qed.

Section lemmas.
Context {S : Type} {MS : MemState S} {VG : VgaState S} (lit : string → Z).
Implicit Types s : S.

(** The literals used are in memory, off the screen. *)
Definition literal (s : S) (str : string) : Prop := lit str ≠ NULL ∧ text_at (st_mem s) (lit str) (chars str).

Lemma literal_same s s' str : off_screen_same s s' → literal s str → literal s' str.
Proof. intros Hs [Hn Ht]. split; [done|]. by eapply text_same. Qed.

Lemma wp__printk str fmt bs args outs rest s (Q : list Z → S → Prop) :
  screen_ok s → fmt ≠ NULL → text_at (st_mem s) fmt bs → (∀ a l, str a = Some l → text_at (st_mem s) a l) →
  render str bs args = Some (outs, rest) → (∀ s', shown s outs s' → Q rest s') → wp (_printk fmt args) s Q.
Proof.
  intros Hok Hf Ht Hstr Hr HQ. unfold _printk. rewrite (proj2 (Z.eqb_neq _ _) Hf). by eapply wp_interpret.
Qed.

Lemma wp_printk_lit l outs rest args s (Q : unit → S → Prop) str :
  screen_ok s → literal s l → (∀ a bs, str a = Some bs → text_at (st_mem s) a bs) →
  render str (chars l) args = Some (outs, rest) → (∀ s', shown s outs s' → Q tt s') → wp (printk (lit l) args) s Q.
Proof.
  intros Hok [Hn Ht] Hstr Hr HQ. unfold printk. wp_step. eapply wp__printk; [done|done|exact Ht|exact Hstr|exact Hr|].
  intros s' Hs. wp_step. by apply HQ.
Qed.

Definition no_str (a : Z) : option (list Z) := None.
Lemma no_str_ok s a bs : no_str a = Some bs → text_at (st_mem s) a bs.
Proof. done. Qed.
End lemmas.

(** ** panic *)
Section panic_properties.
Context {S : Type} {MS : MemState S} {VG : VgaState S} {HW : Hardware S} (lit : string → Z).
Implicit Types s : S.

Lemma halts n s : ∃ s', rounds n (λ _, cpu_halt ;; mret (inl (B := unit) tt)) tt s = Done (inl tt, s') ∧
  hw_log s' = replicate n Hlt ++ hw_log s ∧ st_mem s' = st_mem s.
Proof.
  revert s. induction n as [|n IH]; intros s; [by exists s|]. cbn [rounds].
  destruct (IH (hw_put (Hlt :: hw_log s) s)) as (s' & Hrun & Hlog & Hmem).
  exists s'. rewrite (bind_Done _ _ _ (inl tt) (hw_put (Hlt :: hw_log s) s)) by done. split; [exact Hrun|].
  rewrite Hlog, Hmem, hw_log_put, hw_mem_put. split; [|done]. rewrite replicate_S_end. by rewrite <- app_assoc.
Qed.

Lemma wp_panic_print str fmt bs args outs rest s (Q : unit → S → Prop) :
  screen_ok s → literal lit s "kernel panic: " → literal lit s "\n" → fmt ≠ NULL → text_at (st_mem s) fmt bs →
  (∀ a l, str a = Some l → text_at (st_mem s) a l) → render str bs args = Some (outs, rest) →
  (∀ s', shown s ((Ch <$> codes "kernel panic: ") ++ outs ++ [Newline]) s' → Q tt s') →
  wp (panic_print lit fmt args) s Q.
Proof.
  intros Hok Hpre Hnl Hf Ht Hstr Hr HQ. unfold panic_print. wp_step.
  eapply (wp_printk_lit lit "kernel panic: " _ _ _ _ _ no_str); [done|done|done|reflexivity|]. intros s1 H1.
  wp_step. eapply (wp__printk str); [apply H1|done|by eapply text_same; [apply H1|exact Ht]| |exact Hr|].
  { intros a l Ha. eapply text_same; [apply H1|by apply Hstr]. }
  intros s2 H2. pose proof (shown_app _ _ _ _ _ H1 H2) as H12.
  eapply (wp_printk_lit lit "\n" _ _ _ _ _ no_str); [apply H2|by eapply literal_same; [apply H12|]|done|reflexivity|].
  intros s3 H3. apply HQ. rewrite app_assoc. by eapply shown_app.
Qed.

(** C26: [panic] prints "kernel panic: ", its message and a new line, writes
    nothing outside the screen, and never returns: after any number [n] of rounds it
    is still in its loop, and has executed [hlt] [n] times and nothing else since
    the message. *)
Theorem panic_prints_and_halts str fmt bs args outs rest s :
  screen_ok s → literal lit s "kernel panic: " → literal lit s "\n" → fmt ≠ NULL → text_at (st_mem s) fmt bs →
  (∀ a l, str a = Some l → text_at (st_mem s) a l) → render str bs args = Some (outs, rest) →
  ∃ s1, shown s ((Ch <$> codes "kernel panic: ") ++ outs ++ [Newline]) s1 ∧
    ∀ n, ∃ s2, panic_body lit n fmt args s = Done (inl tt, s2) ∧
      hw_log s2 = replicate n Hlt ++ hw_log s1 ∧ st_mem s2 = st_mem s1.
Proof.
  intros Hok Hpre Hnl Hf Ht Hstr Hr.
  destruct (proj1 (wp_Done (panic_print lit fmt args) s
    (λ _ s1, shown s ((Ch <$> codes "kernel panic: ") ++ outs ++ [Newline]) s1))) as ([] & s1 & Hrun & Hs).
  { by eapply wp_panic_print. }
  exists s1. split; [exact Hs|]. intros n. unfold panic_body. rewrite (bind_Done _ _ _ _ _ Hrun). apply halts.
Qed.
End panic_properties.

(** ** vmm_dump_space *)
Section dump.
Context {S : Type} {MS : MemState S} {VG : VgaState S} {OA : ObjectAllocator S} (lit : string → Z).
Implicit Types s : S.

(** The line of a region. *)
Definition region_line (r : region) : list output :=
  default [] (fst <$> render no_str (chars "%p -> %p | [%uKiB]\n") [vr_start r; vr_stop r; BYTE2KB (u64 (vr_stop r - vr_start r))]).
Definition dump_header : list output :=
  (Ch <$> codes "[SPACE]") ++ [Newline] ++ (Ch <$> codes "---------------------------------------") ++ [Newline].

Example region_line_ex : region_line (mk_vr 0 0x5000 0x7000 3) =
  (Ch <$> codes "0x0000000000005000 -> 0x0000000000007000 | [8KiB]") ++ [Newline].
Proof. reflexivity. Qed.

Lemma region_line_render r : ∃ rest, render no_str (chars "%p -> %p | [%uKiB]\n")
  [vr_start r; vr_stop r; BYTE2KB (u64 (vr_stop r - vr_start r))] = Some (region_line r, rest).
Proof.
  unfold region_line. destruct (render _ _ _) as [[o rest]|] eqn:Hr; [by exists rest|exfalso].
  change (chars "%p -> %p | [%uKiB]\n") with
    [37; 112; 32; 45; 62; 32; 37; 112; 32; 124; 32; 91; 37; 117; 75; 105; 66; 93; 10] in Hr. discriminate Hr.
Qed.

Lemma shown_size s outs s' : screen_ok s → shown s outs s' → size (st_mem s') = size (st_mem s).
Proof.
  intros Hok [_ Hok' Hs]. rewrite <- !size_dom. f_equal. apply set_eq. intros a. rewrite !elem_of_dom.
  destruct (decide (VGA_BUFFER_ADDRESS ≤ a < VGA_BUFFER_ADDRESS + 4000)) as [Hon|Hoff]; [|by rewrite Hs].
  pose proof (screen_mapped _ Hok a Hon). by pose proof (screen_mapped _ Hok' a Hon).
Qed.

(** The list of the regions [l] is off the screen. *)
Definition list_off_screen (space : Z) (l : list region) : Prop :=
  ∀ a, on_screen a → ¬ s_region space ≤ a < s_region space + 8 ∧ ¬ in_nodes l a.

Lemma seg_off s s' p l n : off_screen_same s s' → (∀ a, on_screen a → ¬ in_nodes l a) →
  seg (st_mem s) p l n → seg (st_mem s') p l n.
Proof. intros Hs Hl. apply seg_out. intros a Ha. apply Hs. intros Hon. by apply (Hl a). Qed.

(** [vmm_dump_space] prints one line per region, in order. *)
Theorem vmm_dump_space_prints n s space l :
  screen_ok s → oa_ok n s → space_wf s space l → list_off_screen space l →
  literal lit s "[SPACE]\n" → literal lit s "---------------------------------------\n" → literal lit s "%p -> %p | [%uKiB]\n" →
  ∃ s', vmm_dump_space lit space s = Done (tt, s') ∧ shown s (dump_header ++ mjoin (region_line <$> l)) s'.
Proof.
  intros Hok Hoa Hwf Hoff L1 L2 L3. apply wp_unit. unfold vmm_dump_space. wp_step.
  eapply (wp_printk_lit lit "[SPACE]\n" _ _ _ _ _ no_str); [done|done|done|reflexivity|]. intros s1 H1. wp_step.
  eapply (wp_printk_lit lit _ _ _ _ _ _ no_str); [apply H1|by eapply literal_same; [apply H1|exact L2]|done|reflexivity|].
  intros s2 H2. pose proof (shown_app _ _ _ _ _ H1 H2) as H12. fold dump_header in H12.
  wp_step. eapply wp_load.
  { rewrite <- (sp_head _ _ _ Hwf). apply load_le_ext. intros a Ha. apply (sh_same _ _ _ H12). intros Hon. by destruct (Hoff a Hon). }
  unfold mem_fuel. wp_steps. apply (wp_loop_rounds (λ k cur s', ∃ l1 l2, l = l1 ++ l2 ∧ k = length l2 ∧
    cur = hd_addr l2 NULL ∧ shown s (dump_header ++ mjoin (region_line <$> l1)) s')) with (n := length l).
  { exists [], l. rewrite app_nil_r. by split_and!. }
  { pose proof (space_length n s space l Hoa Hwf). rewrite (shown_size _ _ _ Hok H12). lia. }
  intros k cur s' (l1 & l2 & -> & -> & -> & Hs). destruct l2 as [|r l2]; cbn [hd_addr].
  { wp_steps. by rewrite app_nil_r in Hwf |- *. }
  rewrite (space_addr _ _ _ _ _ _ Hoa Hwf).
  pose proof (seg_off _ _ _ _ _ (sh_same _ _ _ Hs) (λ a Ha, proj2 (Hoff a Ha)) (sp_seg _ _ _ Hwf)) as Hseg.
  apply seg_app in Hseg as [_ [Hnode _]].
  do 2 (wp_step; eapply wp_load; [apply Hnode|]). do 2 (wp_step; eapply wp_load; [apply Hnode|]).
  destruct (region_line_render r) as (rest & Hline). wp_step.
  eapply (wp_printk_lit lit _ _ _ _ _ _ no_str); [apply Hs|by eapply literal_same; [apply Hs|exact L3]|done|exact Hline|].
  intros s3 H3. pose proof (shown_app _ _ _ _ _ Hs H3) as H13.
  pose proof (seg_off _ _ _ _ _ (sh_same _ _ _ H13) (λ a Ha, proj2 (Hoff a Ha)) (sp_seg _ _ _ Hwf)) as Hseg.
  apply seg_app in Hseg as [_ [Hnode3 _]].
  wp_step. eapply wp_load; [apply (nd_next _ _ _ _ Hnode3)|]. wp_step. exists (length l2). split; [simpl; lia|].
  exists (l1 ++ [r]), l2. rewrite <- app_assoc. split; [done|]. split; [done|]. split; [done|].
  rewrite fmap_app, join_app, app_assoc. cbn [fmap list_fmap mjoin list_join]. by rewrite app_nil_r.
Qed.
End dump.

(** ** Witness *)

(** A machine with a screen. *)
Record console : Type := mk_console { cn_mem : mem; cn_cursor : cursor; cn_log : list hw_event }.

#[export] Program Instance console_mem : MemState console := {|
  st_mem := cn_mem; st_put := λ m s, mk_console m (cn_cursor s) (cn_log s);
|}.
Solve All Obligations with by intros; try match goal with s : console |- _ => destruct s end.

#[export] Program Instance console_vga : VgaState console := {|
  vga_cur := cn_cursor; vga_put := λ c s, mk_console (cn_mem s) c (cn_log s);
|}.
Solve All Obligations with by intros; try match goal with s : console |- _ => destruct s end.

#[export] Program Instance console_hw : Hardware console := {|
  hw_log := cn_log; hw_put := λ l s, mk_console (cn_mem s) (cn_cursor s) l;
  hw_msr := λ _, mret (0, 0); hw_cpuid := λ _ _, mret (0, 0, 0, 0); hw_mmio := λ _, mret 0; hw_in := λ _, mret 0;
|}.
Solve All Obligations with by intros; try match goal with s : console |- _ => destruct s end.

(** The literals at 8192 and 8256, the message of [pmm_xalloc] at 4096 and its
    argument, the name of the function, at 4160. *)
Definition ex_lit (str : string) : Z := if String.eqb str "\n" then 8256 else 8192.
Definition ex_message : list Z := codes "%s: no more memory".
Definition ex_function : list Z := codes "pmm_xalloc".
Definition ex_texts : mem :=
  put_codes (put_codes (put_codes (put_codes (zero_mem VGA_BUFFER_ADDRESS 4000) 8192 (codes "kernel panic: ")) 8256 [10])
    4096 ex_message) 4160 ex_function.
Definition ex_console : console := mk_console ex_texts (mk_cursor 0 3) [].

Lemma put_codes_same m m' a bs : text_at m a bs → (∀ i, a ≤ i ≤ a + Z.of_nat (length bs) → m' !! i = m !! i) → text_at m' a bs.
Proof.
  intros [[Hb Hnz] Hoff] Hm. split; [split; [|done]|done]. intros i b Hi. rewrite <- (Hb i b Hi).
  apply load1_lookup, Hm. apply lookup_lt_Some in Hi. rewrite length_app in Hi. simpl in Hi. lia.
Qed.

Lemma put_codes_text m a bs : Forall (λ b, 0 < b < 256) bs → 0 ≤ a → a + Z.of_nat (length bs) < 2 ^ 20 →
  text_at (put_codes m a bs) a bs.
Proof.
  intros Hbs Ha Hlen. split; [by apply put_codes_cstr|]. intros i Hi. unfold on_screen. rewrite vga_buffer_eq. lia.
Qed.

Lemma ex_console_texts :
  text_at ex_texts 8192 (codes "kernel panic: ") ∧ text_at ex_texts 8256 [10] ∧ text_at ex_texts 4096 ex_message ∧
  text_at ex_texts 4160 ex_function.
Proof.
  unfold ex_texts. split_and!.
  - eapply put_codes_same; [apply (put_codes_text (zero_mem VGA_BUFFER_ADDRESS 4000)); [by repeat constructor|done|done]|].
    intros i Hi. change (Z.of_nat (length (codes "kernel panic: "))) with 14 in Hi.
    rewrite (put_codes_out _ 4160) by (change (Z.of_nat (length ex_function)) with 10; lia).
    rewrite (put_codes_out _ 4096) by (change (Z.of_nat (length ex_message)) with 18; lia).
    rewrite (put_codes_out _ 8256) by (change (Z.of_nat (length [10])) with 1; lia). done.
  - eapply put_codes_same; [apply (put_codes_text (put_codes (zero_mem VGA_BUFFER_ADDRESS 4000) 8192 (codes "kernel panic: ")) 8256 [10]); [by repeat constructor|done|done]|].
    intros i Hi. change (Z.of_nat (length [10])) with 1 in Hi.
    rewrite (put_codes_out _ 4160) by (change (Z.of_nat (length ex_function)) with 10; lia).
    rewrite (put_codes_out _ 4096) by (change (Z.of_nat (length ex_message)) with 18; lia). done.
  - eapply put_codes_same; [eapply (put_codes_text _ 4096 ex_message); [by repeat constructor|done|done]|].
    intros i Hi. change (Z.of_nat (length ex_message)) with 18 in Hi.
    rewrite (put_codes_out _ 4160) by (change (Z.of_nat (length ex_function)) with 10; lia). reflexivity.
  - apply put_codes_text; [by repeat constructor|done|done].
Qed.

Lemma ex_console_ok : screen_ok ex_console.
Proof.
  split; [by split|by split|]. intros i Hi. cbn [st_mem console_mem cn_mem ex_console]. rewrite vga_buffer_eq in Hi. unfold ex_texts.
  rewrite (put_codes_out _ 4160) by (change (Z.of_nat (length ex_function)) with 10; lia).
  rewrite (put_codes_out _ 4096) by (change (Z.of_nat (length ex_message)) with 18; lia).
  rewrite (put_codes_out _ 8256) by (change (Z.of_nat (length [10])) with 1; lia).
  rewrite (put_codes_out _ 8192) by (change (Z.of_nat (length (codes "kernel panic: "))) with 14; lia).
  apply (zero_mem_mapped VGA_BUFFER_ADDRESS 4000 VGA_BUFFER_ADDRESS 4000); rewrite ?vga_buffer_eq; lia.
Qed.

Definition ex_strings (a : Z) : option (list Z) := if a =? 4160 then Some ex_function else None.

Lemma panic_prints_and_halts_witness :
  ∃ s1 s2, shown ex_console ((Ch <$> codes "kernel panic: pmm_xalloc: no more memory") ++ [Newline]) s1 ∧
    panic_body ex_lit 3 4096 [4160] ex_console = Done (inl tt, s2) ∧ hw_log s2 = Hlt :: Hlt :: Hlt :: hw_log s1.
Proof.
  destruct ex_console_texts as (T1 & T2 & T3 & T4).
  destruct (panic_prints_and_halts ex_lit ex_strings 4096 ex_message [4160] (Ch <$> codes "pmm_xalloc: no more memory") []
    ex_console) as (s1 & Hs & Hrun).
  - exact ex_console_ok.
  - split; [done|exact T1].
  - split; [done|exact T2].
  - done.
  - exact T3.
  - intros a l. unfold ex_strings. destruct (a =? 4160) eqn:E; [|done]. apply Z.eqb_eq in E as ->. intros [= <-]. exact T4.
  - reflexivity.
  - destruct (Hrun 3%nat) as (s2 & Hrun3 & Hlog & _). exists s1, s2. split; [exact Hs|]. split; [exact Hrun3|exact Hlog].
Defined.
