(* ===== verification/Kheap.v ===== *)
(** * kernel/mm/kheap: the kernel heap

    Containers of pages obtained from the virtual memory manager, each a list
    of blocks with a header in front of the data.  The headers are in the
    shared byte memory, next to the data of the clients; the virtual memory
    manager is the interface [KernelVmm]. *)
From S2P Require Import Prelude CInt Mem CString.

(** ** The global [heap] and the interface of vmm.c *)

(** A state that contains the memory and the global [heap] of kheap.c. *)
Class HeapState (S : Type) {MS : MemState S} : Type := {
  heap : S → Z;
  put_heap : Z → S → S;
  heap_put : ∀ h s, heap (put_heap h s) = h;
  heap_mem : ∀ m s, heap (st_put m s) = heap s;
  mem_heap : ∀ h s, st_mem (put_heap h s) = st_mem s;
}.

(** [m'] maps the addresses of [m]. *)
Definition same_domain (m m' : mem) : Prop := ∀ i, is_Some (m' !! i) ↔ is_Some (m !! i).

(** What kheap.c relies on of vmm.c: [vmm_owned s va n] says that the [n] pages
    at [va] were obtained from [vmm_alloc_between] and not given back. *)
Class KernelVmm (S : Type) {MS : MemState S} {HS : HeapState S} : Type := {
  vmm_alloc_between : Z → Z → Z → Z → M S Z;
  vmm_free : Z → Z → M S unit;
  vmm_inv : S → Prop;
  vmm_owned : S → Z → Z → Prop;
  vmm_inv_mem : ∀ m s, vmm_inv s → same_domain (st_mem s) m → vmm_inv (st_put m s);
  vmm_inv_heap : ∀ h s, vmm_inv s → vmm_inv (put_heap h s);
  vmm_owned_mem : ∀ m s va n, vmm_owned (st_put m s) va n ↔ vmm_owned s va n;
  vmm_owned_heap : ∀ h s va n, vmm_owned (put_heap h s) va n ↔ vmm_owned s va n;
  vmm_alloc_between_law : ∀ lower upper n flags s,
    vmm_inv s → 0 < n < 2 ^ 52 →
    wp (vmm_alloc_between lower upper n flags) s (λ va s',
      vmm_inv s' ∧ heap s' = heap s ∧
      (∀ i, is_Some (st_mem s !! i) → st_mem s' !! i = st_mem s !! i) ∧
      (∀ q k, vmm_owned s q k → vmm_owned s' q k) ∧
      (va ≠ NULL → 0 < va ∧ va mod 4096 = 0 ∧ va + n * 4096 ≤ upper ∧
         (∀ i, va ≤ i < va + n * 4096 → st_mem s !! i = None) ∧
         mapped (st_mem s') va (n * 4096) ∧ vmm_owned s' va n));
  vmm_free_law : ∀ va n s,
    vmm_inv s → vmm_owned s va n →
    wp (vmm_free va n) s (λ _ s',
      vmm_inv s' ∧ heap s' = heap s ∧
      (∀ i, ¬ va ≤ i < va + n * 4096 → st_mem s' !! i = st_mem s !! i) ∧
      (∀ q k, vmm_owned s q k → q ≠ va → vmm_owned s' q k));
}.

(** ** The data: offsets of [struct container] and [struct block] *)
Definition HEADER : Z := 40.
Definition KHEAP_MIN_ALLOC_IN_PAGES : Z := 5.
Definition KHEAP_ALIGN_IN_BYTES : Z := 16.
Definition FALSE : Z := 0.
Definition TRUE : Z := 1.

Definition BLOCK_DATA (x : Z) : Z := u64 (x + HEADER).
Definition DATA_BLOCK (x : Z) : Z := u64 (x - HEADER).
Definition CONTAINER_DATA (x : Z) : Z := u64 (x + HEADER).

(** ** The operations *)
Section defs.
Context {S : Type} {MS : MemState S} {HS : HeapState S} {VS : KernelVmm S}.

Definition c_size_in_bytes (c : Z) : Z := c.
Definition c_used_blocks (c : Z) : Z := c + 8.
Definition c_prev (c : Z) : Z := c + 16.
Definition c_next (c : Z) : Z := c + 24.
Definition c_block (c : Z) : Z := c + 32.
Definition b_size_in_bytes (b : Z) : Z := b.
Definition b_used (b : Z) : Z := b + 8.
Definition b_prev (b : Z) : Z := b + 16.
Definition b_next (b : Z) : Z := b + 24.
Definition b_container (b : Z) : Z := b + 32.

(** The search loop of [try_alloc_block]; [NULL] when it falls through. *)
Definition find_block (container size_in_bytes : Z) : M S Z :=
  b ← rd64 (c_block container);
  fuel ← mem_fuel;
  loop fuel (λ b,
    if b =? NULL then mret (inr NULL)
    else
      used ← rd8 (b_used b);
      found ← (if used =? FALSE then
                 size ← rd64 (b_size_in_bytes b); mret (size_in_bytes <=? size)
               else mret false);
      if (found : bool) then mret (inr b)
      else next ← rd64 (b_next b); mret (inl next)) b.

(** What follows [found_block]. *)
Definition take_block (b size_in_bytes : Z) : M S Z :=
  wr8 (b_used b) TRUE ;;
  c ← rd64 (b_container b);
  used_blocks ← rd64 (c_used_blocks c);
  wr64 (c_used_blocks c) (u64 (used_blocks + 1)) ;;
  size ← rd64 (b_size_in_bytes b);
  let block_end := u64 (BLOCK_DATA b + size) in
  let block_end_after_alloc := u64 (BLOCK_DATA b + size_in_bytes) in
  let next_block_struct_end := ROUNDUP (u64 (block_end_after_alloc + HEADER)) KHEAP_ALIGN_IN_BYTES in
  let next_block := u64 (next_block_struct_end - HEADER) in
  if block_end <=? next_block_struct_end then mret b
  else
    let new_b := next_block in
    wr64 (b_size_in_bytes new_b) (u64 (block_end - next_block_struct_end)) ;;
    wr64 (b_prev new_b) b ;;
    next ← rd64 (b_next b);
    wr64 (b_next new_b) next ;;
    wr8 (b_used new_b) FALSE ;;
    c ← rd64 (b_container b);
    wr64 (b_container new_b) c ;;
    wr64 (b_next b) new_b ;;
    next ← rd64 (b_next new_b);
    (if next =? NULL then mret tt else wr64 (b_prev next) new_b) ;;
    wr64 (b_size_in_bytes b) size_in_bytes ;;
    mret b.

Definition try_alloc_block (container size_in_bytes : Z) : M S Z :=
  b ← find_block container size_in_bytes;
  if b =? NULL then mret NULL else take_block b size_in_bytes.

Definition create_container (size_in_pages : Z) : M S Z :=
  let size_in_pages := MAX KHEAP_MIN_ALLOC_IN_PAGES size_in_pages in
  c ← vmm_alloc_between KERNEL_HEAP_START KERNEL_HEAP_STOP size_in_pages PAGE_KERNEL_RW;
  if c =? NULL then mret NULL
  else
    wr64 (c_size_in_bytes c) (u64 (u64 (size_in_pages * PAGE_SIZE_IN_BYTES) - HEADER)) ;;
    wr64 (c_used_blocks c) 0 ;;
    wr64 (c_prev c) NULL ;;
    h ← gets heap;
    wr64 (c_next c) h ;;
    next ← rd64 (c_next c);
    (if next =? NULL then mret tt else wr64 (c_prev next) c) ;;
    modify (put_heap c) ;;
    wr64 (c_block c) (CONTAINER_DATA c) ;;
    block ← rd64 (c_block c);
    size ← rd64 (c_size_in_bytes c);
    wr64 (b_size_in_bytes block) (u64 (size - HEADER)) ;;
    wr8 (b_used block) FALSE ;;
    wr64 (b_prev block) NULL ;;
    wr64 (b_next block) NULL ;;
    wr64 (b_container block) c ;;
    mret c.

Definition remove_container (container : Z) : M S unit :=
  prev ← rd64 (c_prev container);
  (if prev =? NULL then
     next ← rd64 (c_next container);
     modify (put_heap next)
   else
     prev ← rd64 (c_prev container);
     next ← rd64 (c_next container);
     wr64 (c_next prev) next) ;;
  next ← rd64 (c_next container);
  (if next =? NULL then mret tt
   else
     next ← rd64 (c_next container);
     prev ← rd64 (c_prev container);
     wr64 (c_prev next) prev) ;;
  size ← rd64 (c_size_in_bytes container);
  vmm_free container (u64 (size + HEADER) / PAGE_SIZE_IN_BYTES).

Definition kheap_init (size_in_pages : Z) : M S unit :=
  c ← create_container size_in_pages;
  if c =? NULL then panic "kheap_init: failed to init kheap" else mret tt.

Definition kmalloc (size_in_bytes : Z) : M S Z :=
  c ← gets heap;
  fuel ← mem_fuel;
  b ← loop fuel (λ c,
    if c =? NULL then mret (inr NULL)
    else
      b ← try_alloc_block c size_in_bytes;
      if b =? NULL then next ← rd64 (c_next c); mret (inl next)
      else mret (inr b)) c;
  if b =? NULL then
    c ← create_container (u64 (u64 (size_in_bytes + HEADER) / PAGE_SIZE_IN_BYTES + 2));
    if c =? NULL then mret NULL
    else
      b ← try_alloc_block c size_in_bytes;
      if b =? NULL then panic "kmalloc: the impossible is possible"
      else mret (BLOCK_DATA b)
  else mret (BLOCK_DATA b).

(** [p != NULL && p->used == FALSE] *)
Definition is_unused (p : Z) : M S bool :=
  if p =? NULL then mret false else used ← rd8 (b_used p); mret (used =? FALSE).

(** "try to merge with prev one": the new value of [b]. *)
Definition merge_with_prev (b total_size : Z) : M S Z :=
  prev ← rd64 (b_prev b);
  merge ← is_unused prev;
  if (merge : bool) then
    prev ← rd64 (b_prev b);
    next ← rd64 (b_next b);
    wr64 (b_next prev) next ;;
    prev ← rd64 (b_prev b);
    psize ← rd64 (b_size_in_bytes prev);
    wr64 (b_size_in_bytes prev) (u64 (psize + total_size)) ;;
    prev ← rd64 (b_prev b);
    next ← rd64 (b_next b);
    wr64 (b_next prev) next ;;
    rd64 (b_prev b)
  else mret b.

(** "try to merge with next one" *)
Definition merge_with_next (b : Z) : M S unit :=
  next ← rd64 (b_next b);
  merge ← is_unused next;
  if (merge : bool) then
    size ← rd64 (b_size_in_bytes b);
    next ← rd64 (b_next b);
    nsize ← rd64 (b_size_in_bytes next);
    wr64 (b_size_in_bytes b) (u64 (size + u64 (nsize + HEADER))) ;;
    next ← rd64 (b_next b);
    nnext ← rd64 (b_next next);
    wr64 (b_next b) nnext ;;
    next ← rd64 (b_next b);
    if next =? NULL then mret tt else wr64 (b_prev next) b
  else mret tt.

(** [b->used = FALSE; b->container->used_blocks--] *)
Definition mark_unused (b : Z) : M S unit :=
  wr8 (b_used b) FALSE ;;
  c ← rd64 (b_container b);
  used_blocks ← rd64 (c_used_blocks c);
  wr64 (c_used_blocks c) (u64 (used_blocks - 1)).

Definition kfree (ptr : Z) : M S unit :=
  let b := DATA_BLOCK ptr in
  size ← rd64 (b_size_in_bytes b);
  let total_size := u64 (size + HEADER) in
  mark_unused b ;;
  c ← rd64 (b_container b);
  used_blocks ← rd64 (c_used_blocks c);
  if used_blocks =? 0 then
    c ← rd64 (b_container b);
    remove_container c
  else
    b ← merge_with_prev b total_size;
    merge_with_next b.
End defs.

(** ** The abstract view of the heap *)

(** A block: its address, its fields. *)
Record bk : Type := mk_bk { k_at : Z; k_size : Z; k_used : bool; k_prev : Z }.

(** A container: its address, its fields and its blocks. *)
Record ct : Type := mk_ct {
  t_at : Z; t_size : Z; t_count : Z; t_prev : Z; t_blocks : list bk;
}.

Definition head_at (l : list bk) : Z := match l with [] => NULL | b :: _ => k_at b end.
Definition head_ct (l : list ct) : Z := match l with [] => NULL | c :: _ => t_at c end.

(** The header of block [b] of container [c], followed by block [next]. *)
Record block_in (m : mem) (c : Z) (b : bk) (next : Z) : Prop := {
  bi_size : load_le 8 m (k_at b) = Some (k_size b);
  bi_used : load_le 1 m (k_at b + 8) = Some (Z.b2z (k_used b));
  bi_prev : load_le 8 m (k_at b + 16) = Some (k_prev b);
  bi_next : load_le 8 m (k_at b + 24) = Some next;
  bi_cont : load_le 8 m (k_at b + 32) = Some c;
}.

(** The blocks [l] are chained; the last one is followed by [next]. *)
Fixpoint chained (m : mem) (c : Z) (l : list bk) (next : Z) : Prop :=
  match l with
  | [] => True
  | b :: l' => block_in m c b (match l' with [] => next | b' :: _ => k_at b' end) ∧ chained m c l' next
  end.

(** The blocks follow each other between [lo] and [hi], data aligned. *)
Fixpoint laid (lo : Z) (l : list bk) (hi : Z) : Prop :=
  match l with
  | [] => lo ≤ hi
  | b :: l' => lo ≤ k_at b ∧ (k_at b + HEADER) mod KHEAP_ALIGN_IN_BYTES = 0 ∧ 0 ≤ k_size b ∧
               laid (k_at b + HEADER + k_size b) l' hi
  end.

(** The [prev] fields are right. *)
Fixpoint prevs_ok (prev : Z) (l : list bk) : Prop :=
  match l with
  | [] => True
  | b :: l' => k_prev b = prev ∧ prevs_ok (k_at b) l'
  end.

Definition count_used (l : list bk) : Z := Z.of_nat (length (filter (λ b, k_used b = true) l)).

Record container_in (m : mem) (c : ct) (next : Z) : Prop := {
  ci_size : load_le 8 m (t_at c) = Some (t_size c);
  ci_count : load_le 8 m (t_at c + 8) = Some (t_count c);
  ci_prev : load_le 8 m (t_at c + 16) = Some (t_prev c);
  ci_next : load_le 8 m (t_at c + 24) = Some next;
  ci_block : load_le 8 m (t_at c + 32) = Some (head_at (t_blocks c));
  ci_chain : chained m (t_at c) (t_blocks c) NULL;
  ci_mapped : mapped m (t_at c) (HEADER + t_size c);
}.

(** What holds of a container whatever the memory. *)
Record container_ok (c : ct) : Prop := {
  co_at : 0 < t_at c;
  co_hi : t_at c + HEADER + t_size c ≤ KERNEL_HEAP_STOP;
  co_pages : (t_size c + HEADER) mod 4096 = 0;
  co_count : t_count c = count_used (t_blocks c);
  co_laid : laid (t_at c + HEADER) (t_blocks c) (t_at c + HEADER + t_size c);
}.

Fixpoint containers (m : mem) (prev : Z) (l : list ct) : Prop :=
  match l with
  | [] => True
  | c :: l' => container_in m c (head_ct l') ∧ container_ok c ∧ t_prev c = prev ∧
               containers m (t_at c) l'
  end.

Definition t_stop (c : ct) : Z := t_at c + HEADER + t_size c.
Definition cts_apart (c c' : ct) : Prop := t_stop c ≤ t_at c' ∨ t_stop c' ≤ t_at c.

Fixpoint cts_disjoint (l : list ct) : Prop :=
  match l with
  | [] => True
  | c :: l' => Forall (cts_apart c) l' ∧ cts_disjoint l'
  end.

(** The heap of state [s] is the list of containers [l]. *)
Record heap_is {S} {MS : MemState S} {HS : HeapState S} {VS : KernelVmm S} (s : S) (l : list ct) : Prop := {
  hi_head : heap s = head_ct l;
  hi_cts : containers (st_mem s) NULL l;
  hi_apart : cts_disjoint l;
  hi_owned : ∀ c, c ∈ l → vmm_owned s (t_at c) ((t_size c + HEADER) / 4096);
  hi_vmm : vmm_inv s;
}.

(** The blocks in use: where their data is, and how large. *)
Definition live_blocks (l : list bk) : list (Z * Z) :=
  (λ b, (k_at b + HEADER, k_size b)) <$> filter (λ b, k_used b = true) l.
Definition live (l : list ct) : list (Z * Z) := l ≫= (λ c, live_blocks (t_blocks c)).

(** The new list of blocks when [b], followed by [l], gives [size] bytes. *)
Definition split_end (b : bk) (size : Z) : Z :=
  let e := k_at b + HEADER + size + HEADER in e + 16 - e mod 16.
Definition reprev (prev : Z) (l : list bk) : list bk :=
  match l with [] => [] | b :: l => mk_bk (k_at b) (k_size b) (k_used b) prev :: l end.
Definition carve (b : bk) (size : Z) (l : list bk) : list bk :=
  let stop := k_at b + HEADER + k_size b in
  let e := split_end b size in
  if stop <=? e then mk_bk (k_at b) (k_size b) true (k_prev b) :: l
  else mk_bk (k_at b) size true (k_prev b)
       :: mk_bk (e - HEADER) (stop - e) false (k_at b)
       :: reprev (e - HEADER) l.

(** ** Lemmas on the view *)
Definition end_of (lo : Z) (l : list bk) : Z :=
  match last l with Some b => k_at b + HEADER + k_size b | None => lo end.

Lemma laid_le lo l hi : laid lo l hi → lo ≤ hi.
Proof.
  revert lo. induction l as [|b l IH]; intros lo; simpl; [done|].
  intros (? & _ & ? & Hl). apply IH in Hl. unfold HEADER in *. lia.
Qed.

Lemma laid_app lo l1 l2 hi :
  laid lo (l1 ++ l2) hi ↔ laid lo l1 (end_of lo l1) ∧ laid (end_of lo l1) l2 hi.
Proof.
  revert lo. induction l1 as [|b l1 IH]; intros lo; simpl.
  - unfold end_of. simpl. intuition lia.
  - rewrite IH. replace (end_of lo (b :: l1)) with (end_of (k_at b + HEADER + k_size b) l1); [tauto|].
    unfold end_of. rewrite last_cons. by destruct (last l1).
Qed.

Lemma laid_elem lo l hi x :
  laid lo l hi → x ∈ l → lo ≤ k_at x ∧ 0 ≤ k_size x ∧ k_at x + HEADER + k_size x ≤ hi.
Proof.
  revert lo. induction l as [|b l IH]; intros lo; simpl; [set_solver|].
  intros (? & _ & ? & Hl) [->|Hx]%elem_of_cons.
  - apply laid_le in Hl. lia.
  - destruct (IH _ Hl Hx). unfold HEADER in *. lia.
Qed.

(** Where the blocks around [b] are. *)
Lemma laid_around lo l1 b l2 hi :
  laid lo (l1 ++ b :: l2) hi →
  (∀ x, x ∈ l1 → lo ≤ k_at x ∧ k_at x + HEADER + k_size x ≤ k_at b ∧ 0 ≤ k_size x) ∧
  (lo ≤ k_at b ∧ (k_at b + HEADER) mod KHEAP_ALIGN_IN_BYTES = 0 ∧ 0 ≤ k_size b ∧
   k_at b + HEADER + k_size b ≤ hi) ∧
  (∀ x, x ∈ l2 → k_at b + HEADER + k_size b ≤ k_at x ∧ k_at x + HEADER + k_size x ≤ hi ∧ 0 ≤ k_size x).
Proof.
  intros [H1 (H2 & H3 & H4 & H5)]%laid_app. pose proof (laid_le _ _ _ H1). pose proof (laid_le _ _ _ H5).
  split_and!; try done; try lia.
  - intros x Hx. destruct (laid_elem _ _ _ _ H1 Hx) as (? & ? & ?). lia.
  - intros x Hx. destruct (laid_elem _ _ _ _ H5 Hx) as (? & ? & ?). lia.
Qed.

Lemma chained_app m c l1 b l2 next :
  chained m c (l1 ++ b :: l2) next ↔ chained m c l1 (k_at b) ∧ chained m c (b :: l2) next.
Proof.
  induction l1 as [|x l1 IH]; [simpl; tauto|].
  change ((x :: l1) ++ b :: l2) with (x :: (l1 ++ b :: l2)).
  change (chained m c (x :: (l1 ++ b :: l2)) next) with
    (block_in m c x (match l1 ++ b :: l2 with [] => next | b' :: _ => k_at b' end) ∧ chained m c (l1 ++ b :: l2) next).
  rewrite IH. simpl. destruct l1; simpl; tauto.
Qed.

Lemma block_in_frame m m' c b next :
  block_in m c b next → (∀ i, k_at b ≤ i < k_at b + HEADER → m' !! i = m !! i) → block_in m' c b next.
Proof.
  unfold HEADER. intros [H1 H2 H3 H4 H5] Hm. split; (erewrite load_le_ext; [eassumption|]); intros i Hi; apply Hm; lia.
Qed.

Lemma chained_frame m m' c l next :
  chained m c l next → (∀ b i, b ∈ l → k_at b ≤ i < k_at b + HEADER → m' !! i = m !! i) →
  chained m' c l next.
Proof.
  induction l as [|b l IH]; simpl; [done|]. intros [Hb Hl] Hm. split.
  - eapply block_in_frame; [done|]. intros i. apply Hm. set_solver.
  - apply IH; [done|]. intros b' i Hb'. apply Hm. set_solver.
Qed.

(** A container is not affected by changes outside its pages. *)
Lemma container_frame m m' c next :
  container_in m c next → container_ok c → (∀ i, t_at c ≤ i < t_stop c → m' !! i = m !! i) →
  container_in m' c next.
Proof.
  intros [] [] Hm. pose proof (laid_le _ _ _ co_laid0) as Hle. unfold t_stop, HEADER in *.
  split; try (erewrite load_le_ext; [eassumption|]; intros i Hi; apply Hm; lia).
  - eapply chained_frame; [done|]. intros b i Hb Hi. apply Hm.
    destruct (laid_elem _ _ _ _ co_laid0 Hb) as (? & ? & ?). unfold HEADER in *. lia.
  - intros i Hi. unfold HEADER in *. rewrite Hm by lia. apply ci_mapped0. done.
Qed.

Lemma head_at_app l1 b l2 l2' b' :
  k_at b = k_at b' → head_at (l1 ++ b :: l2) = head_at (l1 ++ b' :: l2').
Proof. by destruct l1. Qed.

Lemma count_used_app l1 l2 : count_used (l1 ++ l2) = count_used l1 + count_used l2.
Proof. unfold count_used. rewrite filter_app, length_app. lia. Qed.
Lemma count_used_cons b l : count_used (b :: l) = Z.b2z (k_used b) + count_used l.
Proof.
  unfold count_used. destruct (k_used b) eqn:Hb.
  - rewrite filter_cons_True by done. simpl. lia.
  - rewrite filter_cons_False by (by rewrite Hb). simpl. lia.
Qed.
Lemma count_used_reprev a l : count_used (reprev a l) = count_used l.
Proof. destruct l; [done|]. simpl. by rewrite !count_used_cons. Qed.
Lemma count_used_nonneg l : 0 ≤ count_used l.
Proof. unfold count_used. lia. Qed.

Lemma live_blocks_app l1 l2 : live_blocks (l1 ++ l2) = live_blocks l1 ++ live_blocks l2.
Proof. unfold live_blocks. by rewrite filter_app, fmap_app. Qed.
Lemma live_blocks_cons b l :
  live_blocks (b :: l) = (if k_used b then [(k_at b + HEADER, k_size b)] else []) ++ live_blocks l.
Proof.
  unfold live_blocks. destruct (k_used b) eqn:Hb.
  - by rewrite filter_cons_True.
  - by rewrite filter_cons_False by (by rewrite Hb).
Qed.
Lemma live_blocks_reprev a l : live_blocks (reprev a l) = live_blocks l.
Proof. destruct l; [done|]. simpl. by rewrite !live_blocks_cons. Qed.

Lemma laid_reprev lo a l hi : laid lo (reprev a l) hi ↔ laid lo l hi.
Proof. destruct l; done. Qed.

(** The end of the header of the remainder: aligned, past the data given out. *)
Lemma split_end_spec b size :
  (k_at b + HEADER) mod KHEAP_ALIGN_IN_BYTES = 0 →
  split_end b size mod KHEAP_ALIGN_IN_BYTES = 0 ∧
  k_at b + HEADER + size < split_end b size - HEADER ≤ k_at b + HEADER + size + 16.
Proof. unfold split_end, HEADER, KHEAP_ALIGN_IN_BYTES. intros H. zlia. Qed.

Lemma carve_laid lo b size l hi :
  laid lo (b :: l) hi → 0 ≤ size ≤ k_size b → laid lo (carve b size l) hi.
Proof.
  simpl. intros (H1 & H2 & H3 & H4) Hsz. unfold carve. destruct (split_end_spec b size H2) as [Ha He].
  case_if; bool_facts; simpl; [done|]. unfold HEADER in *. split_and!; try done; try lia.
  - by replace (split_end b size - 40 + 40) with (split_end b size) by lia.
  - apply laid_reprev. by replace (_ + 40 + (_ - _)) with (k_at b + 40 + k_size b) by lia.
Qed.

Lemma carve_count b size l : count_used (carve b size l) = 1 + count_used l.
Proof.
  unfold carve. case_if; rewrite !count_used_cons; simpl; [lia|]. rewrite count_used_reprev. lia.
Qed.

Lemma prevs_ok_app prev l1 b l2 :
  prevs_ok prev (l1 ++ b :: l2) → k_prev b = match last l1 with Some x => k_at x | None => prev end.
Proof.
  revert prev. induction l1 as [|x l1 IH]; intros prev; simpl; [tauto|].
  intros [_ H]. rewrite (IH _ H), last_cons. by destruct (last l1).
Qed.

Lemma same_domain_refl m : same_domain m m.
Proof. done. Qed.

Lemma same_domain_write m m1 n a v :
  same_domain m m1 → mapped m a (Z.of_nat n) → same_domain m (write_le n m1 a v).
Proof.
  intros Hd Hm i. rewrite write_le_is_Some, (Hd i). split; [|by auto]. intros [?|Hi]; [done|by apply Hm].
Qed.

Ltac dom_tac :=
  first [ assumption | apply same_domain_refl
        | apply same_domain_write; [dom_tac|first [by eapply load_le_mapped|eapply mapped_sub; [eassumption|lia|lia]]] ].

(** ** Specifications of the operations on a container *)
Definition fits (size : Z) (b : bk) : bool := negb (k_used b) && (size <=? k_size b).

Lemma laid_NoDup lo l hi : laid lo l hi → NoDup (k_at <$> l).
Proof.
  revert lo. induction l as [|b l IH]; intros lo; simpl; [constructor|].
  intros (? & _ & ? & Hl). constructor; [|by eapply IH].
  rewrite list_elem_of_fmap. intros (x & Hx & Hin). pose proof (laid_elem _ _ _ _ Hl Hin).
  unfold HEADER in *. lia.
Qed.

Lemma laid_length lo l hi : laid lo l hi → lo + HEADER * Z.of_nat (length l) ≤ hi.
Proof.
  revert lo. induction l as [|b l IH]; intros lo; simpl; [lia|].
  intros (? & _ & ? & Hl). apply IH in Hl. unfold HEADER in *. lia.
Qed.

Lemma count_used_le l : count_used l ≤ Z.of_nat (length l).
Proof. unfold count_used. pose proof (length_filter (λ b, k_used b = true) l). lia. Qed.

Lemma container_count c : container_ok c → 0 ≤ t_count c ∧ t_count c + 1 < 2 ^ 64.
Proof.
  intros []. rewrite co_count0. pose proof (laid_length _ _ _ co_laid0).
  pose proof (count_used_le (t_blocks c)). pose proof (count_used_nonneg (t_blocks c)).
  unfold HEADER, KERNEL_HEAP_STOP, KERNEL_VMA in *. lia.
Qed.

Definition prev_of_head (l : list bk) : Z := match l with [] => 0 | x :: _ => k_prev x end.

Lemma reprev_prev_of_head l : reprev (prev_of_head l) l = l.
Proof. by destruct l as [|[]]. Qed.

Lemma chained_tail m c l1 l2 next : chained m c (l1 ++ l2) next → chained m c l2 next.
Proof. induction l1 as [|x l1 IH]; [done|]. simpl. intros [_ ?]. auto. Qed.

(** What the view says of block [b] in the middle. *)
Record block_facts (m : mem) (c : ct) (l1 : list bk) (b : bk) (l2 : list bk) : Prop := {
  bf_block : block_in m (t_at c) b (head_at l2);
  bf_c : 0 < t_at c;
  bf_lo : t_at c + HEADER ≤ k_at b;
  bf_size : 0 ≤ k_size b;
  bf_hi : k_at b + HEADER + k_size b ≤ t_stop c;
  bf_stop : t_stop c ≤ KERNEL_HEAP_STOP;
  bf_mapped : mapped m (k_at b) (HEADER + k_size b);
  bf_next : ∀ x, head l2 = Some x →
    block_in m (t_at c) x (head_at (tail l2)) ∧ k_at b + HEADER + k_size b ≤ k_at x ∧
    0 ≤ k_size x ∧ k_at x + HEADER + k_size x ≤ t_stop c;
  bf_prev : ∀ x, last l1 = Some x →
    block_in m (t_at c) x (k_at b) ∧ t_at c + HEADER ≤ k_at x ∧ 0 ≤ k_size x ∧
    k_at x + HEADER + k_size x ≤ k_at b;
}.

Lemma block_facts_ok m c next l1 b l2 :
  container_in m c next → container_ok c → t_blocks c = l1 ++ b :: l2 → block_facts m c l1 b l2.
Proof.
  intros Hc Hok Hl. pose proof (ci_chain _ _ _ Hc) as Hch. pose proof (co_laid _ Hok) as Hlaid.
  pose proof (ci_mapped _ _ _ Hc) as Hmap. rewrite Hl in *. destruct (laid_around _ _ _ _ _ Hlaid) as (Ha1 & (? & _ & ? & ?) & Ha2).
  pose proof (co_hi _ Hok). pose proof (co_at _ Hok). pose proof (chained_tail _ _ _ _ _ Hch) as [Hb Hch2].
  unfold t_stop in *. split; unfold t_stop; try done.
  - eapply mapped_sub; [exact Hmap|unfold HEADER in *; lia|lia].
  - intros x Hx. destruct l2 as [|y l2]; [done|]. injection Hx as ->. destruct Hch2 as [Hx _].
    split; [exact Hx|]. destruct (Ha2 x) as (? & ? & ?); [set_solver|]. lia.
  - intros x Hx. apply last_Some in Hx as [l1' ->].
    rewrite <- app_assoc in Hch. apply chained_tail in Hch as [Hx _]. split; [exact Hx|].
    destruct (Ha1 x) as (? & ? & ?); [set_solver|]. lia.
Qed.

Section block_ops.
Context {S : Type} {MS : MemState S} {HS : HeapState S} {VS : KernelVmm S}.
Implicit Types s : S.

Lemma blocks_fuel m c next :
  container_in m c next → container_ok c → (length (t_blocks c) ≤ size m)%nat.
Proof.
  intros Hc Hok. rewrite <- (length_fmap k_at). apply nodup_mapped_size.
  - eapply laid_NoDup, Hok.
  - intros a (b & -> & Hb)%list_elem_of_fmap. apply (ci_mapped _ _ _ Hc).
    destruct (laid_elem _ _ _ _ (co_laid _ Hok) Hb). unfold HEADER in *. lia.
Qed.

Lemma wp_find_block c next size s (Q : Z → S → Prop) :
  container_in (st_mem s) c next → container_ok c →
  ((∀ b, b ∈ t_blocks c → fits size b = false) → Q NULL s) →
  (∀ l1 b l2, t_blocks c = l1 ++ b :: l2 → fits size b = true →
     (∀ b', b' ∈ l1 → fits size b' = false) → Q (k_at b) s) →
  wp (find_block (t_at c) size) s Q.
Proof.
  intros Hc Hok Hnone Hsome. unfold find_block, mem_fuel, c_block.
  wp_step. eapply wp_load; [apply Hc|]. wp_step. wp_step.
  pose proof (blocks_fuel _ _ _ Hc Hok) as Hfuel.
  assert (∀ l fuel l1, t_blocks c = l1 ++ l → (length l < fuel)%nat →
    (∀ b', b' ∈ l1 → fits size b' = false) →
    wp (loop fuel (λ b,
      if b =? NULL then mret (inr NULL)
      else
        used ← rd8 (b_used b);
        found ← (if used =? FALSE then
                   sz ← rd64 (b_size_in_bytes b); mret (size <=? sz)
                 else mret false);
        if (found : bool) then mret (inr b)
        else next ← rd64 (b_next b); mret (inl next)) (head_at l)) s Q) as Hloop.
  { intros l. induction l as [|b l IH]; intros fuel l1 Hl Hlt Hl1.
    - destruct fuel as [|fuel]; [simpl in Hlt; lia|]. simpl. wp_step. wp_step. apply wp_ret.
      apply Hnone. rewrite Hl, app_nil_r. done.
    - destruct fuel as [|fuel]; [simpl in Hlt; lia|]. simpl.
      pose proof (ci_chain _ _ _ Hc) as Hch. rewrite Hl in Hch.
      apply chained_app in Hch as [_ [Hb _]].
      destruct (laid_elem _ _ _ b (co_laid _ Hok)) as (Hat & _ & _); [rewrite Hl; set_solver|].
      pose proof (co_at _ Hok).
      rewrite (proj2 (Z.eqb_neq (k_at b) NULL)) by (unfold HEADER, NULL in *; lia).
      wp_step. wp_step. eapply wp_load; [apply Hb|]. wp_step.
      assert (wp (if Z.b2z (k_used b) =? FALSE then sz ← rd64 (b_size_in_bytes (k_at b)); mret (size <=? sz)
                  else mret false) s (λ r s', r = fits size b ∧ s' = s)) as Hcond.
      { unfold fits, FALSE. destruct (k_used b); simpl; [by apply wp_ret|].
        wp_step. eapply wp_load; [apply Hb|]. by apply wp_ret. }
      eapply wp_mono; [exact Hcond|]. intros r s' [-> ->].
      destruct (fits size b) eqn:Hf.
      + wp_step. wp_step. by eapply Hsome.
      + wp_step. eapply wp_load; [apply Hb|]. wp_step.
        replace (match l with [] => 0 | b' :: _ => k_at b' end) with (head_at l) by (by destruct l).
        apply (IH fuel (l1 ++ [b])); [by rewrite <- app_assoc|simpl in Hlt; lia|].
        intros b' [?| ->%list_elem_of_singleton]%elem_of_app; auto. }
  apply (Hloop _ _ []); [done|lia|set_solver].
Qed.

(** The container after [b], at [l1 ++ b :: l2], gives [size] bytes. *)
Definition taken (c : ct) (l1 : list bk) (b : bk) (size : Z) (l2 : list bk) : ct :=
  mk_ct (t_at c) (t_size c) (t_count c + 1) (t_prev c) (l1 ++ carve b size l2).

Lemma taken_ok c l1 b size l2 :
  container_ok c → t_blocks c = l1 ++ b :: l2 → k_used b = false → 0 ≤ size ≤ k_size b →
  container_ok (taken c l1 b size l2).
Proof.
  intros [] Hl Hu Hsz. rewrite Hl in *. split; try done; simpl.
  - rewrite co_count0, !count_used_app, carve_count, count_used_cons, Hu. simpl. lia.
  - apply laid_app in co_laid0 as [? ?]. apply laid_app. split; [done|]. by apply carve_laid.
Qed.

(** Bytes that are neither headers nor in the block given out. *)
Definition client_byte (c : ct) (l1 : list bk) (b : bk) (l2 : list bk) (i : Z) : Prop :=
  ¬ t_at c ≤ i < t_at c + HEADER ∧ ¬ k_at b ≤ i < k_at b + HEADER + k_size b ∧
  ∀ x, x ∈ l1 ++ l2 → ¬ k_at x ≤ i < k_at x + HEADER.

(** Facts on addresses that every step of [take_block] uses. *)
Record take_bounds (c : ct) (b : bk) (size : Z) : Prop := {
  tb_c : 0 < t_at c;
  tb_b : t_at c + HEADER ≤ k_at b;
  tb_size : 0 ≤ size ≤ k_size b;
  tb_hi : k_at b + HEADER + k_size b ≤ KERNEL_HEAP_STOP;
  tb_stop : k_at b + HEADER + k_size b ≤ t_stop c;
  tb_data : BLOCK_DATA (k_at b) = k_at b + HEADER;
  tb_end : u64 (BLOCK_DATA (k_at b) + k_size b) = k_at b + HEADER + k_size b;
  tb_round : ROUNDUP (u64 (u64 (BLOCK_DATA (k_at b) + size) + HEADER)) KHEAP_ALIGN_IN_BYTES = split_end b size;
  tb_new : u64 (split_end b size - HEADER) = split_end b size - HEADER;
  tb_after : k_at b + HEADER + size < split_end b size - HEADER;
}.

Lemma take_bounds_ok c l1 b l2 size :
  container_ok c → t_blocks c = l1 ++ b :: l2 → 0 ≤ size ≤ k_size b → take_bounds c b size.
Proof.
  intros [] Hl Hsz. rewrite Hl in *. destruct (laid_around _ _ _ _ _ co_laid0) as (_ & (Hb & Hal & Hs & Hst) & _).
  destruct (split_end_spec b size Hal) as [_ He].
  assert (BLOCK_DATA (k_at b) = k_at b + HEADER) as Hd.
  { unfold BLOCK_DATA. unfold HEADER, KERNEL_HEAP_STOP, KERNEL_VMA in *. rewrite u64_small; lia. }
  unfold t_stop, HEADER, KERNEL_HEAP_STOP, KERNEL_VMA, KHEAP_ALIGN_IN_BYTES in *.
  split; unfold t_stop, HEADER, KERNEL_HEAP_STOP, KERNEL_VMA; try done; try lia; rewrite ?Hd.
  - by rewrite u64_small by lia.
  - rewrite (u64_small (_ + size)), u64_small by lia. change KHEAP_ALIGN_IN_BYTES with (2 ^ 4).
    rewrite ROUNDUP_pow2 by lia. done.
  - by rewrite u64_small by lia.
Qed.

Lemma load_small n m a v : 0 ≤ v < 256 ^ Z.of_nat n → load_le n (write_le n m a v) a = Some v.
Proof. intros Hv. by rewrite load_write_same, Z.mod_small. Qed.

Lemma reprev_id l p : (∀ x, head l = Some x → k_prev x = p) → reprev p l = l.
Proof. destruct l as [|[]]; [done|]. intros H. simpl. by rewrite <- (H _ eq_refl). Qed.

(** Changes confined to the count of [c], to [lo, hi) and to the [prev] field of
    the block after it, the first of [l2]. *)
Definition block_frame (c : ct) (lo hi : Z) (l2 : list bk) (m m' : mem) : Prop :=
  same_domain m m' ∧
  ∀ i, ¬ t_at c + 8 ≤ i < t_at c + 16 → ¬ lo ≤ i < hi →
    (∀ x, head l2 = Some x → ¬ k_at x + 16 ≤ i < k_at x + 24) → m' !! i = m !! i.

(** The same for one block. *)
Definition take_frame (c : ct) (b : bk) (l2 : list bk) (m m' : mem) : Prop :=
  block_frame c (k_at b) (k_at b + HEADER + k_size b) l2 m m'.

Lemma chained_reprev m m' c l p lo hi :
  chained m c l NULL → laid lo l hi →
  (∀ b i, b ∈ l → k_at b ≤ i < k_at b + HEADER →
     (∀ x, head l = Some x → ¬ k_at x + 16 ≤ i < k_at x + 24) → m' !! i = m !! i) →
  (∀ x, head l = Some x → load_le 8 m' (k_at x + 16) = Some p) →
  chained m' c (reprev p l) NULL.
Proof.
  destruct l as [|b l]; [done|]. intros [[H1 H2 H3 H4 H5] Hl] (_ & _ & Hb & Hlaid) Hm Hp.
  simpl in *. unfold HEADER in *. split.
  - split; simpl; [| |by apply Hp| |]; (erewrite load_le_ext; [eassumption|]); intros i Hi;
      (apply (Hm b); [set_solver|lia|]); intros ? [= <-]; lia.
  - eapply chained_frame; [exact Hl|]. intros x i Hx Hi. unfold HEADER in Hi.
    pose proof (laid_elem _ _ _ _ Hlaid Hx). apply (Hm x); [set_solver|lia|].
    intros y [= <-]. lia.
Qed.

(** [c'] has the place of [c]. *)
Record same_place (c c' : ct) : Prop := {
  sp_at : t_at c' = t_at c; sp_size : t_size c' = t_size c; sp_prev : t_prev c' = t_prev c;
}.

(** The container after the blocks [old] have become the blocks [new], from
    the loads that the operation makes true. *)
Lemma container_replace m m' c c' next l1 old new l2 stop p :
  container_in m c next → container_ok c → same_place c c' →
  t_blocks c = l1 ++ old ++ l2 → t_blocks c' = l1 ++ new ++ reprev p l2 →
  old ≠ [] → new ≠ [] → head_at new = head_at old → stop = end_of (head_at old) old →
  block_frame c (head_at old) stop l2 m m' →
  load_le 8 m' (t_at c + 8) = Some (t_count c') →
  (∀ x, head l2 = Some x → load_le 8 m' (k_at x + 16) = Some p) →
  (chained m' (t_at c) (reprev p l2) NULL → chained m' (t_at c) (new ++ reprev p l2) NULL) →
  container_in m' c' next.
Proof.
  intros [H1 H2 H3 H4 H5 Hch Hmap] [Hat Hhi _ _ Hlaid] [Sa Ss Sp] Hl Hl' Hold Hnew Hhead -> [Hdom Hm] Hcnt Hp Hchain.
  destruct old as [|b old]; [done|]. destruct new as [|b' new]; [done|]. simpl in Hhead, Hm.
  rewrite Hl in *. simpl in Hch, Hlaid. apply chained_app in Hch as [Hch1 Hch2].
  assert (chained m (t_at c) l2 NULL) as Hch3.
  { revert Hch2. change (b :: old ++ l2) with ((b :: old) ++ l2). generalize (b :: old). clear.
    intros l. induction l as [|x l IH]; [done|]. simpl. intros [_ ?]. auto. }
  apply laid_app in Hlaid as [Hlaid1 Hlaid2]. change (b :: old ++ l2) with ((b :: old) ++ l2) in Hlaid2.
  apply laid_app in Hlaid2 as [[Hb Hlaid2] Hlaid3].
  assert (end_of (end_of (t_at c + HEADER) l1) (b :: old) = end_of (k_at b) (b :: old)) as Hend.
  { unfold end_of at 1 3. rewrite last_cons. by destruct (last old). }
  rewrite Hend in *. set (stop := end_of (k_at b) (b :: old)) in *. pose proof (laid_le _ _ _ Hlaid1).
  assert (k_at b + HEADER ≤ stop) as Hbs by (destruct Hlaid2 as (_ & ? & Hle); apply laid_le in Hle; lia).
  assert (∀ x, head l2 = Some x → stop ≤ k_at x) as Hhd.
  { intros x Hx. apply (laid_elem _ _ _ x Hlaid3). destruct l2; [done|]. injection Hx as ->. set_solver. }
  assert (chained m' (t_at c) (reprev p l2) NULL) as Hch3'.
  { eapply chained_reprev; [exact Hch3|exact Hlaid3| |done]. intros x i Hx Hi Hne.
    destruct (laid_elem _ _ _ x Hlaid3 Hx). unfold HEADER in *. apply Hm; [lia|lia|done]. }
  apply Hchain in Hch3'. unfold HEADER in *.
  split; rewrite ?Sa, ?Ss, ?Sp, ?Hl'; try done.
  1-3: erewrite load_le_ext; [eassumption|]; intros i Hi; apply Hm;
    [lia|lia|intros x Hx; specialize (Hhd x Hx); lia].
  - simpl. rewrite (head_at_app l1 b' _ (old ++ l2) b) by done. etrans; [|exact H5]. apply load_le_ext. intros i Hi.
    apply Hm; [lia|lia|intros x Hx; specialize (Hhd x Hx); lia].
  - apply chained_app. split; [|done]. rewrite Hhead. eapply chained_frame; [exact Hch1|].
    intros x i Hx Hi. destruct (laid_elem _ _ _ x Hlaid1 Hx) as (? & ? & ?). unfold HEADER in *.
    apply Hm; [lia|lia|intros y Hy; specialize (Hhd y Hy); lia].
  - intros i Hi. apply Hdom. by apply Hmap.
Qed.

(** The container after [take_block]. *)
Lemma container_taken m m' c next l1 b l2 size p :
  container_in m c next → container_ok c → t_blocks c = l1 ++ b :: l2 →
  take_frame c b l2 m m' →
  load_le 8 m' (t_at c + 8) = Some (t_count c + 1) →
  (∀ x, head l2 = Some x → load_le 8 m' (k_at x + 16) = Some p) →
  (∃ new, new ≠ [] ∧ head_at new = k_at b ∧ carve b size l2 = new ++ reprev p l2) →
  (chained m' (t_at c) (reprev p l2) NULL → chained m' (t_at c) (carve b size l2) NULL) →
  container_in m' (taken c l1 b size l2) next.
Proof.
  intros Hc Hok Hl Hfr Hcnt Hp (new & Hne & Hhd & Hcv) Hch.
  eapply (container_replace m m' c _ next l1 [b] new l2 _ p); try done; simpl.
  - by rewrite Hcv.
  - by rewrite <- Hcv.
Qed.

(** *** [take_block] *)
(** The memory after a block has been marked and counted. *)
Definition used_mem (m : mem) (c : ct) (b : bk) : mem :=
  write_le 8 (write_le 1 m (k_at b + 8) TRUE) (t_at c + 8) (u64 (t_count c + 1)).

(** The memory after the header of a remainder of [rest] bytes has been written
    at [a], before [nx]. *)
Definition split_mem (m : mem) (c : ct) (b : bk) (a rest nx : Z) : mem :=
  write_le 8 (write_le 8 (write_le 1 (write_le 8 (write_le 8 (write_le 8 (used_mem m c b)
    a rest) (a + 16) (k_at b)) (a + 24) nx) (a + 8) FALSE) (a + 32) (t_at c)) (k_at b + 24) a.

Section take.
Context (m : mem) (c : ct) (next : Z) (l1 : list bk) (b : bk) (l2 : list bk) (size : Z).
Hypothesis Hc : container_in m c next.
Hypothesis Hok : container_ok c.
Hypothesis Hl : t_blocks c = l1 ++ b :: l2.
Hypothesis Hsz : 0 ≤ size ≤ k_size b.

Local Notation stop := (k_at b + HEADER + k_size b).
Local Notation new := (split_end b size - HEADER).

(** The remainder is too small to be a block: the block is given out whole. *)
Lemma take_whole (m' := used_mem m c b) :
  stop ≤ split_end b size → take_frame c b l2 m m' ∧ container_in m' (taken c l1 b size l2) next.
Proof using Hc Hok Hl Hsz.
  intros E. pose proof (block_facts_ok _ _ _ _ _ _ Hc Hok Hl) as [[] _ _ _ _ _ ? Hhd _].
  destruct (take_bounds_ok _ _ _ _ _ Hok Hl Hsz). pose proof (container_count _ Hok). pose proof (ci_count _ _ _ Hc).
  unfold used_mem, HEADER, KERNEL_HEAP_STOP, KERNEL_VMA in *.
  assert (take_frame c b l2 m m') as Hframe.
  { split; [unfold m'; dom_tac|]. unfold HEADER. intros i Hi1 Hi2 _. unfold m'. by rewrite !write_le_lookup_out by lia. }
  split; [done|]. assert (∀ p l, carve b size l = mk_bk (k_at b) (k_size b) true p :: l ↔ p = k_prev b) as Hcv.
  { intros p l. unfold carve, HEADER. rewrite (proj2 (Z.leb_le _ _)) by done. split; [by intros [= ->]|by intros ->]. }
  eapply (container_taken m m' _ _ _ _ _ _ (match l2 with [] => 0 | x :: _ => k_prev x end)); [done|done|done|done|..];
    rewrite ?reprev_id by (by destruct l2; [|intros ? [= ->]]).
  - unfold m'. rewrite u64_small by lia. apply load_small. change (256 ^ Z.of_nat 8) with (2 ^ 64). lia.
  - intros x Hx. destruct (Hhd x Hx) as ([_ _ Hp _ _] & ? & _). unfold m'. mem_simpl.
    rewrite Hp. destruct l2; [done|]. by injection Hx as ->.
  - exists [mk_bk (k_at b) (k_size b) true (k_prev b)]. split; [done|]. split; [done|]. by apply Hcv.
  - rewrite (proj2 (Hcv (k_prev b) l2)) by done. intros Hch'. split; [|done]. unfold m'. split; simpl; mem_simpl; done.
Qed.

(** The remainder becomes a free block: its header, the size of the block given
    out, and the [prev] field of the block after it, in [m2], have been written. *)
Lemma take_split m2 (m1 := split_mem m c b new (stop - split_end b size) (head_at l2)) (m' := write_le 8 m2 (k_at b) size) :
  split_end b size < stop → same_domain m m2 →
  (∀ i, (∀ x, head l2 = Some x → ¬ k_at x + 16 ≤ i < k_at x + 24) → m2 !! i = m1 !! i) →
  (∀ x, head l2 = Some x → load_le 8 m2 (k_at x + 16) = Some new) →
  take_frame c b l2 m m' ∧ container_in m' (taken c l1 b size l2) next.
Proof using Hc Hok Hl Hsz.
  intros E Hdom Hm2 Hnp. pose proof (block_facts_ok _ _ _ _ _ _ Hc Hok Hl) as [[] _ _ _ _ _ ? Hhd _].
  destruct (take_bounds_ok _ _ _ _ _ Hok Hl Hsz). pose proof (container_count _ Hok). pose proof (load_le_range _ _ _ _ bi_prev0).
  pose proof (load_le_range _ _ _ _ bi_next0) as Hnx.
  unfold HEADER, KERNEL_HEAP_STOP, KERNEL_VMA in *. change (256 ^ Z.of_nat 8) with (2 ^ 64) in *.
  assert (∀ n a, a + Z.of_nat n ≤ k_at b + 40 + k_size b → load_le n m2 a = load_le n m1 a) as Hlow.
  { intros n a Ha. apply load_le_ext. intros i Hi. apply Hm2. intros x Hx. destruct (Hhd x Hx) as (_ & ? & _). lia. }
  unfold split_mem, used_mem in m1. set (e := split_end b size) in *.
  assert (take_frame c b l2 m m') as Hframe.
  { split; [unfold m'; dom_tac|]. unfold HEADER. intros i Hi1 Hi2 Hi3. unfold m'.
    rewrite write_le_lookup_out, Hm2 by (lia || done). unfold m1. by rewrite !write_le_lookup_out by lia. }
  split; [done|].
  assert (carve b size l2 = mk_bk (k_at b) size true (k_prev b) ::
    mk_bk (e - 40) (k_at b + 40 + k_size b - e) false (k_at b) :: reprev (e - 40) l2) as Hcv.
  { unfold carve, HEADER. fold e. by rewrite (proj2 (Z.leb_gt _ _)) by done. }
  eapply (container_taken m m' _ _ _ _ _ _ (e - 40)); [done|done|done|done|..]; rewrite ?Hcv.
  - unfold m'. rewrite load_write_ne, Hlow by lia. unfold m1. mem_simpl.
    rewrite u64_small, Z.mod_small; [done|..|lia]. change (256 ^ Z.of_nat 8) with (2 ^ 64). lia.
  - intros x Hx. destruct (Hhd x Hx) as (_ & ? & _). unfold m'. rewrite load_write_ne by lia. by apply Hnp.
  - by exists [mk_bk (k_at b) size true (k_prev b); mk_bk (e - 40) (k_at b + 40 + k_size b - e) false (k_at b)].
  - intros Hch'. split; [|split; [|done]]; unfold m'; split; simpl;
      rewrite ?load_small by (change (256 ^ Z.of_nat 8) with (2 ^ 64); lia); try done;
      rewrite load_write_ne, Hlow by lia; unfold m1; mem_simpl; try done;
      try (rewrite Z.mod_small; [|change (256 ^ Z.of_nat 8) with (2 ^ 64); lia]); try done.
    by destruct l2 as [|? [|]].
Qed.
End take.

Lemma same_domain_load m m' n a : same_domain m m' → is_Some (load_le n m a) → is_Some (load_le n m' a).
Proof. intros Hd. apply load_le_mono. intros i. apply Hd. Qed.

(** Making the [prev] field of the first block of [l] point to [a]. *)
Lemma wp_point_back s m1 (l : list bk) a (m := st_mem s) :
  same_domain m m1 → 0 ≤ a < 2 ^ 64 →
  (∀ x, head l = Some x → 0 < k_at x ∧ is_Some (load_le 8 m (k_at x + 16))) →
  wp (if head_at l =? NULL then mret tt else wr64 (head_at l + 16) a) (st_put m1 s)
    (λ _ s', ∃ m2, s' = st_put m2 s ∧ same_domain m m2 ∧
      (∀ i, (∀ x, head l = Some x → ¬ k_at x + 16 ≤ i < k_at x + 24) → m2 !! i = m1 !! i) ∧
      ∀ x, head l = Some x → load_le 8 m2 (k_at x + 16) = Some a).
Proof.
  intros Hdom Ha Hl. destruct l as [|x l]; simpl.
  - apply wp_ret. by exists m1.
  - destruct (Hl x eq_refl) as [Hx Hld]. rewrite (proj2 (Z.eqb_neq (k_at x) NULL)) by (unfold NULL; lia).
    apply wp_store. { rewrite st_mem_put. by eapply same_domain_load. }
    rewrite st_put_put, st_mem_put. eexists. split; [done|]. split; [|split].
    + apply same_domain_write; [done|]. by apply load_le_is_Some.
    + intros i Hi. apply write_le_lookup_out. specialize (Hi x eq_refl). lia.
    + intros ? [= <-]. by apply load_small.
Qed.

Lemma wp_take_block c next l1 b l2 size s (m := st_mem s) :
  container_in m c next → container_ok c → t_blocks c = l1 ++ b :: l2 → 0 ≤ size ≤ k_size b →
  k_used b = false →
  wp (take_block (k_at b) size) s (λ r s', r = k_at b ∧ ∃ m', s' = st_put m' s ∧
    take_frame c b l2 m m' ∧ container_in m' (taken c l1 b size l2) next).
Proof.
  intros Hc Hok Hl Hsz Hu.
  pose proof (block_facts_ok _ _ _ _ _ _ Hc Hok Hl) as [[B1 B2 B3 B4 B5] _ _ _ _ _ Hmap Hhd _].
  destruct (take_bounds_ok _ _ _ _ _ Hok Hl Hsz). pose proof (ci_count _ _ _ Hc) as C2. pose proof (load_le_range _ _ _ _ B3).
  pose proof (take_whole m c next l1 b l2 size Hc Hok Hl Hsz) as Hwhole.
  pose proof (take_split m c next l1 b l2 size Hc Hok Hl Hsz) as Hsplit.
  unfold take_block, b_used, b_container, c_used_blocks, b_size_in_bytes, b_prev, b_next, b_container.
  unfold HEADER, KERNEL_HEAP_STOP, KERNEL_VMA in *. set (e := split_end b size) in *. set (stop := k_at b + 40 + k_size b) in *.
  wp_step. wp_st. wp_step. wp_ld. wp_step. wp_ld. wp_step. wp_st. wp_step. wp_ld. rewrite tb_end0, tb_round0, tb_new0.
  change (256 ^ Z.of_nat 8) with (2 ^ 64) in *. case_if; bool_facts.
  { apply wp_ret. split; [done|]. rewrite !st_put_put, ?st_mem_put. eexists. split; [done|]. by apply Hwhole. }
  assert (∀ o n, 0 ≤ o → o + Z.of_nat n ≤ 40 → is_Some (load_le n m (e - 40 + o))) as Hnew.
  { intros o n ??. apply load_le_is_Some. eapply mapped_sub; [exact Hmap|lia|lia]. }
  rewrite (u64_small (stop - e)) by lia.
  wp_step. apply wp_store; [still_mapped; rewrite <- (Z.add_0_r (e - 40)); apply Hnew; lia|].
  wp_step. apply wp_store; [still_mapped; apply Hnew; lia|].
  wp_step. wp_ld.
  wp_step. apply wp_store; [still_mapped; apply Hnew; lia|].
  wp_step. apply wp_store; [still_mapped; apply Hnew; lia|].
  wp_step. wp_ld.
  wp_step. apply wp_store; [still_mapped; apply Hnew; lia|].
  wp_step. wp_st.
  wp_step. eapply wp_load; [mem_simpl; reflexivity|].
  rewrite !st_put_put, ?st_mem_put. fold m.
  pose proof (load_le_range _ _ _ _ B4) as Hnx. change (256 ^ Z.of_nat 8) with (2 ^ 64) in *. rewrite (Z.mod_small (head_at l2)) by lia.
  match goal with |- wp _ (st_put ?m1 s) _ => change m1 with (split_mem m c b (e - 40) (stop - e) (head_at l2)) end.
  assert (same_domain m (split_mem m c b (e - 40) (stop - e) (head_at l2))) as Hdom1.
  { unfold split_mem, used_mem. repeat (apply same_domain_write;
      [|first [by eapply load_le_mapped|eapply mapped_sub; [exact Hmap|lia|lia]]]). apply same_domain_refl. }
  set (m1 := split_mem _ _ _ _ _ _) in *.
  wp_step. eapply wp_mono; [apply wp_point_back; [exact Hdom1|lia|]|].
  { intros x Hx. destruct (Hhd x Hx) as ([_ _ X3 _ _] & ? & _). split; [lia|by eexists]. }
  intros _ s' (m2 & -> & Hd & Hm2 & Hnp). wp_step. apply wp_store.
  { rewrite st_mem_put. eapply same_domain_load; [exact Hd|by eexists]. }
  apply wp_ret. split; [done|]. rewrite st_put_put, st_mem_put. eexists. split; [done|]. by apply Hsplit.
Qed.
End block_ops.

(** ** Lemmas on the list of containers *)
Lemma cts_apart_sym c c' : cts_apart c c' → cts_apart c' c.
Proof. unfold cts_apart. tauto. Qed.

Lemma cts_disjoint_mid l1 c l2 :
  cts_disjoint (l1 ++ c :: l2) ↔ cts_disjoint (l1 ++ l2) ∧ Forall (cts_apart c) (l1 ++ l2).
Proof.
  induction l1 as [|d l1 IH]; simpl; [tauto|].
  rewrite IH, !Forall_app, !Forall_cons, !Forall_app. split.
  - intros ((? & ? & ?) & ? & ? & ?). split_and!; auto using cts_apart_sym.
  - intros (((? & ?) & ?) & ? & ? & ?). split_and!; auto using cts_apart_sym.
Qed.

Lemma cts_disjoint_update l1 c c' l2 :
  t_at c' = t_at c → t_size c' = t_size c →
  cts_disjoint (l1 ++ c :: l2) → cts_disjoint (l1 ++ c' :: l2).
Proof.
  intros Ha Hs [H1 H2]%cts_disjoint_mid. apply cts_disjoint_mid. split; [done|].
  eapply Forall_impl; [exact H2|]. intros d. unfold cts_apart, t_stop. by rewrite Ha, Hs.
Qed.

Lemma containers_update m m' prev l1 c c' l2 :
  containers m prev (l1 ++ c :: l2) → cts_disjoint (l1 ++ c :: l2) → same_place c c' →
  (∀ i, ¬ t_at c ≤ i < t_stop c → m' !! i = m !! i) →
  container_in m' c' (head_ct l2) → container_ok c' →
  containers m' prev (l1 ++ c' :: l2).
Proof.
  intros Hcs Hdis [Ha Hs Hp] Hm Hc' Hok'.
  apply cts_disjoint_mid in Hdis as [_ Hap].
  assert (∀ d next, d ∈ l1 ++ l2 → container_in m d next → container_ok d → container_in m' d next) as Hfr.
  { intros d next Hd Hin Hok. eapply container_frame; [done|done|]. intros i Hi. apply Hm.
    rewrite Forall_forall in Hap. destruct (Hap d Hd); lia. }
  clear Hap Hm. revert prev Hcs. induction l1 as [|d l1 IH]; intros prev; simpl.
  - intros (_ & _ & Hprev & Hl2). split_and!; [done|done|congruence|]. rewrite Ha. clear Hc' Hok' Ha Hs Hp.
    simpl in Hfr. revert Hl2. generalize (t_at c). induction l2 as [|d l2 IH]; intros p; simpl; [done|].
    intros (Hin & Hok & ? & Hl2). split_and!; try done; [apply Hfr; [set_solver|done|done]|].
    apply IH; [|done]. intros e next He. apply Hfr. set_solver.
  - intros (Hin & Hok & ? & Hl). split_and!; try done; [|apply IH; [|done]; intros e next He; apply Hfr; set_solver].
    replace (head_ct (l1 ++ c' :: l2)) with (head_ct (l1 ++ c :: l2)) by (by destruct l1).
    apply Hfr; [set_solver|done|done].
Qed.

Lemma containers_mid m prev l1 c l2 :
  containers m prev (l1 ++ c :: l2) → container_in m c (head_ct l2) ∧ container_ok c.
Proof.
  revert prev. induction l1 as [|d l1 IH]; intros prev; simpl; [tauto|].
  intros (_ & _ & _ & H). by eapply IH.
Qed.

Lemma take_frame_out c l1 b l2 m m' :
  container_ok c → t_blocks c = l1 ++ b :: l2 → take_frame c b l2 m m' →
  ∀ i, ¬ t_at c ≤ i < t_stop c → m' !! i = m !! i.
Proof.
  intros Hok Hl [_ Hm] i Hi. pose proof (co_laid _ Hok) as Hlaid. rewrite Hl in Hlaid.
  pose proof (laid_le _ _ _ Hlaid).
  destruct (laid_around _ _ _ _ _ Hlaid) as (_ & Hb & Ha). unfold t_stop, HEADER in *.
  apply Hm; [lia|lia|]. intros x Hx. assert (x ∈ l2) as Hx2 by (destruct l2; [done|injection Hx as ->; set_solver]).
  destruct (Ha x Hx2). lia.
Qed.

Section heap_ops.
Context {S : Type} {MS : MemState S} {HS : HeapState S} {VS : KernelVmm S}.
Implicit Types s : S.

Lemma heap_update s m' l1 c c' l2 :
  heap_is s (l1 ++ c :: l2) → same_place c c' → same_domain (st_mem s) m' →
  (∀ i, ¬ t_at c ≤ i < t_stop c → m' !! i = st_mem s !! i) →
  container_in m' c' (head_ct l2) → container_ok c' →
  heap_is (st_put m' s) (l1 ++ c' :: l2).
Proof.
  intros [Hh Hcs Hdis How Hv] Hsp Hdom Hm Hc' Hok'. split.
  - rewrite heap_mem, Hh. destruct l1; [|done]. simpl. symmetry. apply Hsp.
  - rewrite st_mem_put. by eapply containers_update.
  - eapply cts_disjoint_update; [apply Hsp|apply Hsp|done].
  - intros d Hd. apply vmm_owned_mem. apply elem_of_app in Hd as [Hd|[->|Hd]%elem_of_cons].
    + apply How. set_solver.
    + destruct Hsp as [-> -> _]. apply How. set_solver.
    + apply How. set_solver.
  - by apply vmm_inv_mem.
Qed.

Lemma taken_same_place c l1 b size l2 : same_place c (taken c l1 b size l2).
Proof. done. Qed.

(** The first block of the heap that fits gives [size] bytes at [p]. *)
Definition allocated (size : Z) (L : list ct) (m : mem) (p : Z) (L' : list ct) (m' : mem) : Prop :=
  ∃ L1 c L2 l1 b l2, L = L1 ++ c :: L2 ∧ t_blocks c = l1 ++ b :: l2 ∧
    fits size b = true ∧ (∀ b', b' ∈ l1 → fits size b' = false) ∧
    (∀ d b', d ∈ L1 → b' ∈ t_blocks d → fits size b' = false) ∧
    p = k_at b ∧ L' = L1 ++ taken c l1 b size l2 :: L2 ∧ take_frame c b l2 m m'.

Lemma wp_try_alloc_block L1 c L2 size s :
  heap_is s (L1 ++ c :: L2) → 0 ≤ size →
  (∀ d b', d ∈ L1 → b' ∈ t_blocks d → fits size b' = false) →
  wp (try_alloc_block (t_at c) size) s (λ r s',
    (r = NULL ∧ s' = s ∧ ∀ b, b ∈ t_blocks c → fits size b = false) ∨
    (r ≠ NULL ∧ ∃ m' L', s' = st_put m' s ∧ heap_is s' L' ∧
       allocated size (L1 ++ c :: L2) (st_mem s) r L' m')).
Proof.
  intros Hheap Hsz HL1. destruct (containers_mid _ _ _ _ _ (hi_cts _ _ Hheap)) as [Hc Hok].
  unfold try_alloc_block. wp_step. eapply wp_find_block; [done|done|..].
  - intros Hnone. simpl. apply wp_ret. by left.
  - intros l1 b l2 Hl Hf Hl1. pose proof (andb_prop _ _ Hf) as [Hu Hle]. bool_facts.
    destruct (take_bounds_ok _ _ _ _ size Hok Hl ltac:(lia)).
    assert (k_at b ≠ NULL) as Hne by (unfold NULL, HEADER in *; lia).
    rewrite (proj2 (Z.eqb_neq _ _)) by done.
    eapply wp_mono; [eapply wp_take_block; [done|done|done|lia|done]|].
    intros r s' (-> & m' & -> & Hfr & Hc'). right. split; [done|]. exists m'. eexists. split; [done|].
    split; [|by exists L1, c, L2, l1, b, l2].
    eapply heap_update; [done|apply taken_same_place|apply Hfr|by eapply take_frame_out|done|].
    by apply taken_ok; [|done|done|lia].
Qed.
End heap_ops.

(** ** Specifications of the steps of [kfree] *)
Definition with_blocks (c : ct) (count : Z) (l : list bk) : ct :=
  mk_ct (t_at c) (t_size c) count (t_prev c) l.
Definition unused (b : bk) : bk := mk_bk (k_at b) (k_size b) false (k_prev b).
Definition grown (b : bk) (size : Z) : bk := mk_bk (k_at b) size (k_used b) (k_prev b).

Section free_ops.
Context {S : Type} {MS : MemState S} {HS : HeapState S} {VS : KernelVmm S}.
Implicit Types s : S.

Lemma wp_mark_unused c next l1 b l2 s (m := st_mem s) :
  container_in m c next → container_ok c → t_blocks c = l1 ++ b :: l2 → 1 ≤ t_count c →
  wp (mark_unused (k_at b)) s (λ _ s', ∃ m', s' = st_put m' s ∧
    block_frame c (k_at b) (k_at b + HEADER) [] m m' ∧
    container_in m' (with_blocks c (t_count c - 1) (l1 ++ unused b :: l2)) next).
Proof.
  intros Hc Hok Hl Hcnt. destruct (block_facts_ok _ _ _ _ _ _ Hc Hok Hl).
  destruct bf_block0 as [B1 B2 B3 B4 B5]. pose proof (ci_count _ _ _ Hc) as C2.
  pose proof (container_count _ Hok). unfold HEADER, t_stop in *.
  unfold mark_unused, b_used, b_container, c_used_blocks. fold m.
  wp_step. wp_st. wp_step. wp_ld. wp_step. wp_ld. wp_st.
  rewrite ?st_put_put, ?st_mem_put. eexists. split; [done|]. fold m.
  set (m' := write_le 8 _ _ _).
  assert (block_frame c (k_at b) (k_at b + HEADER) [] m m') as Hfr.
  { split; [unfold m'; dom_tac|]. unfold HEADER. intros i Hi1 Hi2 _. unfold m'.
    by rewrite !write_le_lookup_out by lia. }
  split; [done|].
  eapply (container_replace m m' c _ next l1 [b] [unused b] l2 _ (prev_of_head l2)); try done; simpl.
  - by rewrite reprev_prev_of_head.
  - destruct Hfr as [? Hm]. split; [done|]. intros i Hi1 Hi2 _. unfold end_of, HEADER in *. simpl in Hi2.
    apply Hm; [done|lia|by intros ?].
  - unfold m'. rewrite u64_small by lia. apply load_small. change (256 ^ Z.of_nat 8) with (2 ^ 64). lia.
  - intros x Hx. destruct (bf_next0 x Hx) as ([_ _ Hp _ _] & ? & _). unfold m'. mem_simpl. rewrite Hp.
    destruct l2; [done|]. by injection Hx as ->.
  - rewrite reprev_prev_of_head. intros Hch. split; [|done].
    unfold m'. split; simpl; mem_simpl; try done.
Qed.

(** The memory after the header of [b] has taken the block [n] in. *)
Definition merged_mem (m : mem) (b n : bk) (nx : Z) : mem :=
  write_le 8 (write_le 8 m (k_at b) (k_size b + (k_size n + HEADER))) (k_at b + 24) nx.

(** In [m'], the block after [n] points back to [b] too. *)
Lemma merge_next_done m m' c next l1 b n l2 :
  container_in m c next → container_ok c → t_blocks c = l1 ++ b :: n :: l2 → same_domain m m' →
  (∀ i, (∀ x, head l2 = Some x → ¬ k_at x + 16 ≤ i < k_at x + 24) → m' !! i = merged_mem m b n (head_at l2) !! i) →
  (∀ x, head l2 = Some x → load_le 8 m' (k_at x + 16) = Some (k_at b)) →
  block_frame c (k_at b) (k_at b + HEADER) l2 m m' ∧
  container_in m' (with_blocks c (t_count c) (l1 ++ grown b (k_size b + (k_size n + HEADER)) :: reprev (k_at b) l2)) next.
Proof.
  intros Hc Hok Hl Hdom Hm' Hnp. destruct (block_facts_ok _ _ _ _ _ _ Hc Hok Hl) as [[B1 B2 B3 B4 B5] ? ? ? ? ? _ Hn _].
  destruct (Hn n eq_refl) as ([N1 N2 N3 N4 N5] & Hnlo & Hns & Hnhi). clear Hn. simpl in *.
  assert (t_blocks c = (l1 ++ [b]) ++ n :: l2) as Hl' by (by rewrite <- app_assoc).
  destruct (block_facts_ok _ _ _ _ _ _ Hc Hok Hl') as [_ _ _ _ _ _ _ Hnn _].
  pose proof (load_le_range _ _ _ _ N4) as Hnr.
  unfold merged_mem, HEADER, t_stop, KERNEL_HEAP_STOP, KERNEL_VMA in *. change (256 ^ Z.of_nat 8) with (2 ^ 64) in *.
  set (m1 := write_le 8 _ _ _) in *.
  assert (∀ n' a, a + Z.of_nat n' ≤ k_at n + 40 + k_size n → load_le n' m' a = load_le n' m1 a) as Hlow.
  { intros n' a Ha. apply load_le_ext. intros i Hi. apply Hm'. intros x Hx. destruct (Hnn x Hx) as (_ & ? & _). lia. }
  assert (block_frame c (k_at b) (k_at b + 40) l2 m m') as Hfr.
  { split; [done|]. intros i Hi1 Hi2 Hi3. rewrite Hm' by done. unfold m1. by rewrite !write_le_lookup_out by lia. }
  split; [done|].
  eapply (container_replace m m' c _ next l1 [b; n] [grown b (k_size b + (k_size n + 40))] l2 _ (k_at b)); try done; simpl.
  - destruct Hfr as [? Hm]. split; [done|]. intros i Hi1 Hi2. unfold end_of, HEADER in *. simpl in Hi2. apply Hm; [done|lia].
  - rewrite Hlow by lia. unfold m1. mem_simpl. apply Hc.
  - intros Hch. split; [|done]. split; simpl; rewrite Hlow by lia; unfold m1; mem_simpl; try done.
    + rewrite Z.mod_small; [done|]. change (256 ^ Z.of_nat 8) with (2 ^ 64). lia.
    + change (256 ^ Z.of_nat 8) with (2 ^ 64). rewrite Z.mod_small by lia. by destruct l2.
Qed.

Lemma wp_merge_with_next c next l1 b l2 s (m := st_mem s) :
  container_in m c next → container_ok c → t_blocks c = l1 ++ b :: l2 →
  wp (merge_with_next (k_at b)) s (λ _ s', ∃ m', s' = st_put m' s ∧
    match l2 with
    | n :: l2' =>
        if k_used n then m' = m
        else block_frame c (k_at b) (k_at b + HEADER) l2' m m' ∧
             container_in m' (with_blocks c (t_count c)
               (l1 ++ grown b (k_size b + (k_size n + HEADER)) :: reprev (k_at b) l2')) next
    | [] => m' = m
    end).
Proof.
  intros Hc Hok Hl. destruct (block_facts_ok _ _ _ _ _ _ Hc Hok Hl).
  destruct bf_block0 as [B1 B2 B3 B4 B5].
  unfold merge_with_next, is_unused, b_next, b_used, b_size_in_bytes, b_prev.
  wp_step. wp_ld. wp_step. destruct l2 as [|n l2].
  { simpl. apply wp_ret. apply wp_ret. exists m. unfold m. by rewrite st_put_mem. }
  destruct (bf_next0 n eq_refl) as ([N1 N2 N3 N4 N5] & Hnlo & Hns & Hnhi). simpl in *.
  rewrite (proj2 (Z.eqb_neq (k_at n) NULL)) by (unfold NULL, HEADER in *; lia).
  wp_step. wp_ld. wp_step. unfold FALSE. destruct (k_used n) eqn:Hnu; simpl.
  { apply wp_ret. exists m. unfold m. by rewrite st_put_mem. }
  assert (t_blocks c = (l1 ++ [b]) ++ n :: l2) as Hl' by (by rewrite <- app_assoc).
  destruct (block_facts_ok _ _ _ _ _ _ Hc Hok Hl') as [_ _ _ _ _ _ _ Hnn _].
  pose proof (load_le_range _ _ _ _ N4) as Hnr.
  unfold HEADER, t_stop, KERNEL_HEAP_STOP, KERNEL_VMA in *. change (256 ^ Z.of_nat 8) with (2 ^ 64) in *.
  wp_step. wp_ld. wp_step. wp_ld. wp_step. wp_ld.
  rewrite (u64_small (k_size n + 40)), u64_small by lia.
  wp_step. wp_st. wp_step. wp_ld. wp_step. wp_ld. wp_step. wp_st.
  wp_step. eapply wp_load; [mem_simpl; reflexivity|].
  change (256 ^ Z.of_nat 8) with (2 ^ 64). rewrite (Z.mod_small (head_at l2)) by lia.
  rewrite ?st_put_put, ?st_mem_put. fold m.
  eapply wp_mono; [apply wp_point_back; [dom_tac|lia|]|].
  { intros x Hx. destruct (Hnn x Hx) as ([_ _ X3 _ _] & ? & _). split; [lia|by eexists]. }
  intros _ s' (m' & -> & Hdom & Hm' & Hnp). exists m'. split; [done|]. by eapply merge_next_done.
Qed.

Lemma wp_merge_with_prev c next l1 b l2 s (m := st_mem s) :
  container_in m c next → container_ok c → t_blocks c = l1 ++ b :: l2 →
  k_prev b = match last l1 with Some x => k_at x | None => NULL end →
  wp (merge_with_prev (k_at b) (u64 (k_size b + HEADER))) s (λ r s', ∃ m', s' = st_put m' s ∧
    match last l1 with
    | Some x =>
        if k_used x then r = k_at b ∧ m' = m
        else r = k_at x ∧
             block_frame c (k_at x) (k_at x + HEADER) [] m m' ∧
             container_in m' (with_blocks c (t_count c)
               (removelast l1 ++ grown x (k_size x + (k_size b + HEADER)) :: l2)) next
    | None => r = k_at b ∧ m' = m
    end).
Proof.
  intros Hc Hok Hl Hprev. destruct (block_facts_ok _ _ _ _ _ _ Hc Hok Hl).
  destruct bf_block0 as [B1 B2 B3 B4 B5].
  unfold merge_with_prev, is_unused, b_next, b_used, b_size_in_bytes, b_prev.
  wp_step. wp_ld. wp_step. rewrite Hprev. destruct (last l1) as [x|] eqn:Hx.
  2: { simpl. apply wp_ret. apply wp_ret. exists m. unfold m. by rewrite st_put_mem. }
  destruct (bf_prev0 x eq_refl) as ([X1 X2 X3 X4 X5] & Hxlo & Hxs & Hxhi).
  rewrite (proj2 (Z.eqb_neq (k_at x) NULL)) by (unfold NULL, HEADER in *; lia).
  wp_step. wp_ld. wp_step. unfold FALSE. destruct (k_used x) eqn:Hxu; simpl.
  { apply wp_ret. exists m. unfold m. by rewrite st_put_mem. }
  apply last_Some in Hx as [l0 ->]. rewrite removelast_last. rewrite Hprev in B3.
  pose proof (load_le_range _ _ _ _ B4) as Hnr.
  unfold HEADER, t_stop, KERNEL_HEAP_STOP, KERNEL_VMA in *. change (256 ^ Z.of_nat 8) with (2 ^ 64) in *.
  wp_step. wp_ld. wp_step. wp_ld. wp_step. wp_st. wp_step. wp_ld. wp_step. wp_ld.
  rewrite (u64_small (k_size b + 40)), u64_small by lia.
  wp_step. wp_st. wp_step. wp_ld. wp_step. wp_ld. wp_step. wp_st. wp_ld.
  rewrite ?st_put_put, ?st_mem_put. fold m. set (m' := write_le 8 _ _ _). eexists. split; [done|].
  split; [done|].
  assert (block_frame c (k_at x) (k_at x + 40) [] m m') as Hfr.
  { split; [unfold m'; dom_tac|]. intros i Hi1 Hi2 _. unfold m'. by rewrite !write_le_lookup_out by lia. }
  split; [done|].
  eapply (container_replace m m' c _ next l0 [x; b] [grown x (k_size x + (k_size b + 40))] l2 _ (prev_of_head l2));
    try done; simpl.
  - by rewrite Hl, <- app_assoc.
  - by rewrite reprev_prev_of_head.
  - destruct Hfr as [? Hm]. split; [done|]. intros i Hi1 Hi2 _. unfold end_of, HEADER in *. simpl in Hi2.
    apply Hm; [done|lia|by intros ?].
  - unfold m'. mem_simpl. apply Hc.
  - intros y Hy. destruct (bf_next0 y Hy) as ([_ _ Hp _ _] & ? & _). unfold m'. mem_simpl. rewrite Hp.
    destruct l2; [done|]. by injection Hy as ->.
  - rewrite reprev_prev_of_head. intros Hch. split; [|done].
    unfold m'. split; simpl; mem_simpl; try done.
    + rewrite Z.mod_small; [done|]. change (256 ^ Z.of_nat 8) with (2 ^ 64). lia.
    + by rewrite Hxu.
    + change (256 ^ Z.of_nat 8) with (2 ^ 64). rewrite Z.mod_small by lia. by destruct l2.
Qed.
End free_ops.

(** ** Pure facts on the lists of [kfree] *)

(** What merging with the next block does to the list. *)
Definition merged_next (l1 : list bk) (b : bk) (l2 : list bk) : list bk :=
  match l2 with
  | n :: l2' =>
      if k_used n then l1 ++ b :: l2
      else l1 ++ grown b (k_size b + (k_size n + HEADER)) :: reprev (k_at b) l2'
  | [] => l1 ++ [b]
  end.

(** The blocks after [b], at [l1 ++ b :: l2], is freed. *)
Definition freed (l1 : list bk) (b : bk) (l2 : list bk) : list bk :=
  match last l1 with
  | Some x =>
      if k_used x then merged_next l1 (unused b) l2
      else merged_next (removelast l1) (grown x (k_size x + (k_size b + HEADER))) l2
  | None => merged_next l1 (unused b) l2
  end.

Lemma merged_next_laid lo l1 b l2 hi :
  laid lo (l1 ++ b :: l2) hi → laid lo (merged_next l1 b l2) hi.
Proof.
  unfold merged_next. destruct l2 as [|n l2]; [done|]. destruct (k_used n); [done|].
  rewrite !laid_app. intros [? (H1 & H2 & H3 & H4 & H5 & H6 & H7)]. split; [done|].
  unfold HEADER in *. split_and!; simpl; [done|done|lia|]. apply laid_reprev.
  revert H7. destruct l2 as [|y l2]; simpl; unfold HEADER; [lia|]. intuition lia.
Qed.

Lemma merged_next_count l1 b l2 :
  k_used b = false → count_used (merged_next l1 b l2) = count_used (l1 ++ b :: l2).
Proof.
  intros Hb. unfold merged_next. destruct l2 as [|n l2]; [done|]. destruct (k_used n) eqn:Hn; [done|].
  rewrite !count_used_app, !count_used_cons, count_used_reprev, Hn. simpl. rewrite Hb. done.
Qed.

Lemma merged_next_live l1 b l2 :
  k_used b = false → live_blocks (merged_next l1 b l2) = live_blocks l1 ++ live_blocks l2.
Proof.
  intros Hb. unfold merged_next. destruct l2 as [|n l2].
  - by rewrite live_blocks_app, live_blocks_cons, Hb.
  - destruct (k_used n) eqn:Hn; rewrite live_blocks_app, !live_blocks_cons; simpl; rewrite Hb, Hn; [done|].
    by rewrite live_blocks_reprev.
Qed.

Lemma merge_prev_laid lo l1 x b l2 hi :
  laid lo ((l1 ++ [x]) ++ b :: l2) hi →
  laid lo (l1 ++ grown x (k_size x + (k_size b + HEADER)) :: l2) hi.
Proof.
  rewrite <- app_assoc. simpl. rewrite !laid_app. intros [? (H1 & H2 & H3 & H4 & H5 & H6 & H7)]. split; [done|].
  unfold HEADER in *. split_and!; simpl; [done|done|lia|].
  revert H7. destruct l2 as [|y l2]; simpl; unfold HEADER; [lia|]. intuition lia.
Qed.

Lemma freed_laid lo l1 b l2 hi : laid lo (l1 ++ b :: l2) hi → laid lo (freed l1 b l2) hi.
Proof.
  intros Hl. assert (laid lo (l1 ++ unused b :: l2) hi) as Hu.
  { revert Hl. rewrite !laid_app. done. }
  unfold freed. destruct (last l1) as [x|] eqn:Hx; [|by apply merged_next_laid].
  destruct (k_used x); [by apply merged_next_laid|]. apply last_Some in Hx as [l0 ->].
  rewrite removelast_last. apply merged_next_laid. by apply merge_prev_laid.
Qed.

Lemma freed_count l1 b l2 :
  k_used b = true → count_used (freed l1 b l2) = count_used (l1 ++ b :: l2) - 1.
Proof.
  intros Hb. unfold freed. destruct (last l1) as [x|] eqn:Hx.
  - destruct (k_used x) eqn:Hxu; rewrite merged_next_count by done.
    + rewrite !count_used_app, !count_used_cons, Hb. simpl. lia.
    + apply last_Some in Hx as [l0 ->]. rewrite removelast_last.
      rewrite !count_used_app, !count_used_cons. simpl. rewrite Hxu, Hb. unfold count_used at 4. simpl. lia.
  - rewrite merged_next_count by done. rewrite !count_used_app, !count_used_cons, Hb. simpl. lia.
Qed.

Lemma freed_live l1 b l2 : live_blocks (freed l1 b l2) = live_blocks l1 ++ live_blocks l2.
Proof.
  unfold freed. destruct (last l1) as [x|] eqn:Hx; [|by rewrite merged_next_live].
  destruct (k_used x) eqn:Hxu; [by rewrite merged_next_live|].
  apply last_Some in Hx as [l0 ->]. rewrite removelast_last, merged_next_live by done.
  by rewrite live_blocks_app, live_blocks_cons, Hxu, app_nil_r.
Qed.

Lemma prevs_ok_split prev l1 l2 :
  prevs_ok prev (l1 ++ l2) ↔
  prevs_ok prev l1 ∧ prevs_ok (match last l1 with Some x => k_at x | None => prev end) l2.
Proof.
  revert prev. induction l1 as [|x l1 IH]; intros prev; simpl; [tauto|].
  rewrite IH, last_cons. destruct (last l1); tauto.
Qed.

Lemma prevs_ok_reprev p q l : prevs_ok p l → prevs_ok q (reprev q l).
Proof. destruct l; [done|]. by intros [_ ?]. Qed.

Lemma carve_prevs prev b size l : prevs_ok prev (b :: l) → prevs_ok prev (carve b size l).
Proof.
  simpl. intros [<- Hl]. unfold carve. case_if; [done|]. simpl. split_and!; [done|done|].
  unfold HEADER. by eapply prevs_ok_reprev.
Qed.

Lemma merged_next_prevs prev l1 b l2 :
  prevs_ok prev (l1 ++ b :: l2) → prevs_ok prev (merged_next l1 b l2).
Proof.
  unfold merged_next. destruct l2 as [|n l2]; [done|]. destruct (k_used n); [done|].
  rewrite !prevs_ok_split. intros (? & Hb & Hn & Hl). simpl. split_and!; [done|done|]. by eapply prevs_ok_reprev.
Qed.

(** The [prev] fields stay right, except after a merge with the previous block
    only: the block after the merged one still points to [b]. *)
Lemma freed_prevs prev l1 b l2 :
  prevs_ok prev (l1 ++ b :: l2) → NoDup (k_at <$> (l1 ++ b :: l2)) →
  prevs_ok prev (freed l1 b l2) ↔
  ¬ ∃ x n, last l1 = Some x ∧ k_used x = false ∧ head l2 = Some n ∧ k_used n = true.
Proof.
  intros Hp Hnd. assert (prevs_ok prev (l1 ++ unused b :: l2)) as Hu.
  { revert Hp. rewrite !prevs_ok_split. done. }
  unfold freed. destruct (last l1) as [x|] eqn:Hx.
  2: { split; [intros _ (? & ? & ? & _); congruence|]. intros _. by apply merged_next_prevs. }
  destruct (k_used x) eqn:Hxu.
  { split; [intros _ (? & ? & ? & ? & _); congruence|]. intros _. by apply merged_next_prevs. }
  apply last_Some in Hx as [l0 ->]. rewrite removelast_last.
  apply prevs_ok_split in Hp as [Hp0 [Hpb Hp2]]. apply prevs_ok_split in Hp0 as [Hp0 [Hpx _]].
  rewrite last_snoc in Hpb. unfold merged_next. destruct l2 as [|n l2].
  { split; [intros _ (? & ? & _ & _ & Hh & _); discriminate Hh|]. intros _. apply prevs_ok_split. done. }
  destruct (k_used n) eqn:Hnu.
  - split.
    + intros H _. apply prevs_ok_split in H as [_ (_ & Hn & _)]. destruct Hp2 as [Hn' _]. simpl in Hn.
      rewrite Hn' in Hn. rewrite <- app_assoc, fmap_app in Hnd. apply NoDup_app in Hnd as (_ & _ & Hnd).
      simpl in Hnd. apply NoDup_cons in Hnd as [Hnd _]. apply Hnd. rewrite Hn. set_solver.
    + intros []. exists x, n. done.
  - split; [intros _ (? & ? & _ & _ & [= ->] & ?); congruence|]. intros _.
    apply prevs_ok_split. split; [done|]. destruct Hp2 as [_ Hp2]. split; [done|]. by eapply prevs_ok_reprev.
Qed.

(** ** Adding and removing containers *)
Definition set_prev (p : Z) (L : list ct) : list ct :=
  match L with
  | [] => []
  | c :: L => mk_ct (t_at c) (t_size c) (t_count c) p (t_blocks c) :: L
  end.

Definition in_containers (L : list ct) (i : Z) : Prop := ∃ c, c ∈ L ∧ t_at c ≤ i < t_stop c.

(** The addresses of the [prev] field of the first container of [L]. *)
Definition prev_field (L : list ct) (i : Z) : Prop :=
  ∃ c, head L = Some c ∧ t_at c + 16 ≤ i < t_at c + 24.
(** The addresses of the [next] field of the last one. *)
Definition next_field (L : list ct) (i : Z) : Prop :=
  ∃ c, last L = Some c ∧ t_at c + 24 ≤ i < t_at c + 32.

Lemma container_ok_set_prev c p :
  container_ok c → container_ok (mk_ct (t_at c) (t_size c) (t_count c) p (t_blocks c)).
Proof. by intros []. Qed.

Lemma chained_blocks_frame m m' c :
  container_ok c → chained m (t_at c) (t_blocks c) NULL →
  (∀ i, t_at c + HEADER ≤ i < t_stop c → m' !! i = m !! i) → chained m' (t_at c) (t_blocks c) NULL.
Proof.
  intros [] Hch Hm. eapply chained_frame; [exact Hch|]. intros b i Hb Hi. apply Hm.
  destruct (laid_elem _ _ _ _ co_laid0 Hb) as (? & ? & ?). unfold t_stop, HEADER in *. lia.
Qed.

(** The links of a container change, and nothing else of it. *)
Lemma container_relink m m' c next prev' next' :
  container_in m c next → container_ok c →
  (∀ i, t_at c ≤ i < t_stop c → ¬ t_at c + 16 ≤ i < t_at c + 32 → m' !! i = m !! i) →
  load_le 8 m' (t_at c + 16) = Some prev' → load_le 8 m' (t_at c + 24) = Some next' →
  container_in m' (mk_ct (t_at c) (t_size c) (t_count c) prev' (t_blocks c)) next'.
Proof.
  intros [H1 H2 H3 H4 H5 Hch Hmap] Hok Hm Hp Hn. pose proof (laid_le _ _ _ (co_laid _ Hok)).
  unfold t_stop, HEADER in *. split; simpl; try done.
  1-3: erewrite load_le_ext; [eassumption|]; intros i Hi; apply Hm; lia.
  - eapply chained_blocks_frame; [done|done|]. unfold t_stop, HEADER. intros i Hi. apply Hm; lia.
  - unfold HEADER. intros i Hi. destruct (decide (t_at c + 16 ≤ i < t_at c + 32)) as [Hin|Hin].
    + destruct (decide (i < t_at c + 24)).
      * by apply (load_le_mapped _ _ _ _ Hp); lia.
      * by apply (load_le_mapped _ _ _ _ Hn); lia.
    + rewrite Hm by lia. apply Hmap. done.
Qed.

Lemma containers_frame m m' prev L :
  containers m prev L → (∀ i, in_containers L i → m' !! i = m !! i) → containers m' prev L.
Proof.
  revert prev. induction L as [|c L IH]; intros prev; simpl; [done|]. intros (Hc & Hok & Hp & HL) Hm.
  split_and!; try done.
  - eapply container_frame; [done|done|]. intros i Hi. apply Hm. exists c. split; [set_solver|done].
  - apply IH; [done|]. intros i (d & Hd & Hi). apply Hm. exists d. split; [set_solver|done].
Qed.

(** The first container gets another predecessor. *)
Lemma containers_set_prev m m' p q L :
  containers m p L → cts_disjoint L →
  (∀ i, in_containers L i → ¬ prev_field L i → m' !! i = m !! i) →
  (∀ c, head L = Some c → load_le 8 m' (t_at c + 16) = Some q) →
  containers m' q (set_prev q L).
Proof.
  destruct L as [|c L]; [done|]. intros (Hc & Hok & _ & HL) [Hap _] Hm Hq.
  assert (∀ i, t_at c ≤ i < t_stop c → ¬ t_at c + 16 ≤ i < t_at c + 24 → m' !! i = m !! i) as Hmc.
  { intros i Hi1 Hi2. apply Hm; [exists c; split; [set_solver|done]|]. by intros (? & [= <-] & ?). }
  pose proof (laid_le _ _ _ (co_laid _ Hok)). unfold t_stop, HEADER in *.
  simpl. split_and!; [|by apply container_ok_set_prev|done|].
  - eapply container_relink; [done|done| |by apply Hq|].
    + unfold t_stop, HEADER. intros i Hi1 Hi2. apply Hmc; lia.
    + rewrite <- (ci_next _ _ _ Hc). apply load_le_ext. intros i Hi. apply Hmc; lia.
  - eapply containers_frame; [exact HL|]. intros i (d & Hd & Hi). apply Hm.
    + exists d. split; [set_solver|done].
    + intros (? & [= <-] & Hi2). rewrite Forall_forall in Hap. destruct (Hap d Hd); unfold t_stop, HEADER in *; lia.
Qed.

(** Taking [c] out of the list. *)
Lemma containers_remove m m' p L1 c L2 :
  containers m p (L1 ++ c :: L2) → cts_disjoint (L1 ++ c :: L2) →
  (∀ i, in_containers (L1 ++ L2) i → ¬ prev_field L2 i → ¬ next_field L1 i → m' !! i = m !! i) →
  (∀ d, head L2 = Some d → load_le 8 m' (t_at d + 16) = Some (t_prev c)) →
  (∀ d, last L1 = Some d → load_le 8 m' (t_at d + 24) = Some (head_ct L2)) →
  containers m' p (L1 ++ set_prev (t_prev c) L2).
Proof.
  revert p. induction L1 as [|d L1 IH]; intros p.
  - simpl. intros (_ & _ & <- & HL2) [_ Hdis] Hm Hp _. eapply containers_set_prev; [done|done| |done].
    intros i Hi Hpf. apply Hm; [done|done|]. by intros (? & ? & _).
  - intros Hall Hdisj Hm Hp Hn. pose proof Hall as (Hd & Hokd & Hpd & HL). pose proof Hdisj as [Hap Hdis].
    rewrite Forall_app, Forall_cons in Hap. destruct Hap as (Hap1 & _ & Hap2).
    rewrite Forall_forall in Hap1, Hap2. pose proof (laid_le _ _ _ (co_laid _ Hokd)) as Hle.
    assert (∀ i, t_at d ≤ i < t_stop d → ¬ prev_field L2 i) as Hnp.
    { intros i Hi (x & Hx & Hxi). assert (x ∈ L2) as Hx2 by (destruct L2; [done|injection Hx as ->; set_solver]).
      assert (container_ok x) as Hokx.
      { destruct L2; [done|]. injection Hx as ->. apply (containers_mid m p (d :: L1 ++ [c]) x L2).
        by rewrite <- app_comm_cons, <- app_assoc. }
      pose proof (laid_le _ _ _ (co_laid _ Hokx)). destruct (Hap2 x Hx2); unfold t_stop, HEADER in *; lia. }
    simpl. assert (containers m' (t_at d) (L1 ++ set_prev (t_prev c) L2)) as HL'.
    { apply IH; [done|done| |done|].
      - intros i (x & Hx & Hi) Hpf Hnf. apply Hm; [exists x; split; [set_solver|done]|done|].
        intros (y & Hy & Hyi). destruct L1 as [|z L1]; [|rewrite last_cons_cons in Hy; apply Hnf; by exists y].
        injection Hy as <-. simpl in Hx. destruct (Hap2 x Hx); unfold t_stop, HEADER in *; lia.
      - intros x Hx. apply Hn. destruct L1; [done|]. by rewrite last_cons_cons. }
    split_and!; try done. destruct L1 as [|z L1].
    + simpl. assert (∀ i, t_at d ≤ i < t_stop d → ¬ prev_field L2 i → ¬ next_field [d] i → m' !! i = m !! i) as Hmd.
      { intros i Hi. apply Hm. exists d. split; [set_solver|done]. }
      unfold t_stop, HEADER in *. destruct d as [da ds dc dp db]. simpl in *.
      assert (head_ct (set_prev (t_prev c) L2) = head_ct L2) as -> by (by destruct L2).
      eapply (container_relink m m' (mk_ct da ds dc dp db)); [done|done|..]; unfold t_stop, HEADER; simpl.
      * intros i Hi1 Hi2. apply Hmd; [lia|apply Hnp; lia|]. intros (? & [= <-] & ?). simpl in *. lia.
      * etrans; [|exact (ci_prev _ _ _ Hd)]. simpl. apply load_le_ext. intros i Hi.
        apply Hmd; [lia|apply Hnp; lia|]. intros (? & [= <-] & ?). simpl in *. lia.
      * by apply (Hn (mk_ct da ds dc dp db)).
    + change ((z :: L1) ++ c :: L2) with (z :: (L1 ++ c :: L2)) in Hd. simpl in Hd. simpl.
      eapply container_frame; [exact Hd|done|]. intros i Hi. apply Hm; [exists d; split; [set_solver|done]|by apply Hnp|].
      intros (x & Hx & Hxi). rewrite last_cons_cons in Hx.
      assert (x ∈ z :: L1) as Hx1 by (by apply last_Some_elem_of).
      assert (container_ok x) as Hokx.
      { apply last_Some in Hx as [L0 Hx]. apply (containers_mid m p (d :: L0) x (c :: L2)).
        rewrite Hx, <- app_comm_cons, <- app_assoc in Hall. done. }
      pose proof (laid_le _ _ _ (co_laid _ Hokx)). destruct (Hap1 x Hx1); unfold t_stop, HEADER in *; lia.
Qed.

Lemma containers_prev m p L1 c L2 :
  containers m p (L1 ++ c :: L2) → t_prev c = match last L1 with Some d => t_at d | None => p end.
Proof.
  revert p. induction L1 as [|d L1 IH]; intros p; simpl; [tauto|].
  intros (_ & _ & _ & H). rewrite (IH _ H), last_cons. by destruct (last L1).
Qed.

Lemma containers_elem m p L d :
  containers m p L → d ∈ L → container_ok d ∧ mapped m (t_at d) (HEADER + t_size d).
Proof.
  revert p. induction L as [|c L IH]; intros p; simpl; [set_solver|].
  intros (Hc & Hok & _ & HL) [->|Hd]%elem_of_cons; [split; [done|apply Hc]|eauto].
Qed.

Lemma container_ok_bounds c :
  container_ok c → 0 < t_at c ∧ t_at c + HEADER ≤ t_stop c ∧ 0 ≤ t_size c ∧ t_stop c ≤ KERNEL_HEAP_STOP.
Proof. intros []. pose proof (laid_le _ _ _ co_laid0). unfold t_stop, HEADER in *. lia. Qed.

Lemma cts_disjoint_apart L1 L2 d y :
  cts_disjoint (L1 ++ L2) → d ∈ L1 → y ∈ L2 → cts_apart d y.
Proof.
  induction L1 as [|c L1 IH]; simpl; [set_solver|]. intros [Hap Hdis] [->|Hd]%elem_of_cons Hy; [|auto].
  rewrite Forall_forall in Hap. apply Hap. set_solver.
Qed.

Lemma head_elem {A} (l : list A) x : head l = Some x → x ∈ l.
Proof. destruct l; [done|]. intros [= ->]. set_solver. Qed.

Lemma head_ct_head L : head_ct L = match head L with Some c => t_at c | None => NULL end.
Proof. by destruct L. Qed.

Section container_ops.
Context {S : Type} {MS : MemState S} {HS : HeapState S} {VS : KernelVmm S}.
Implicit Types s : S.

(** What a step that only writes memory and [heap] keeps. *)
Definition same_vmm s s' : Prop :=
  (vmm_inv s → vmm_inv s') ∧ (∀ q k, vmm_owned s q k → vmm_owned s' q k).

Lemma heap_elem s L c :
  heap_is s L → c ∈ L →
  container_ok c ∧ mapped (st_mem s) (t_at c) (HEADER + t_size c) ∧
  0 < t_at c ∧ t_at c + HEADER ≤ t_stop c ∧ 0 ≤ t_size c ∧ t_stop c ≤ KERNEL_HEAP_STOP.
Proof.
  intros Hh Hc. destruct (containers_elem _ _ _ _ (hi_cts _ _ Hh) Hc) as [Hok Hm].
  pose proof (container_ok_bounds _ Hok). split_and!; tauto.
Qed.

Lemma unlink_next s m1 L2 c (m := st_mem s) :
  same_domain m m1 →
  load_le 8 m1 (t_at c + 24) = Some (head_ct L2) → load_le 8 m1 (t_at c + 16) = Some (t_prev c) →
  0 ≤ t_prev c < 2 ^ 64 →
  (∀ d, head L2 = Some d → 0 < t_at d ∧ is_Some (load_le 8 m (t_at d + 16)) ∧
     (t_at d + 24 ≤ t_at c ∨ t_at c + 40 ≤ t_at d)) →
  wp (if head_ct L2 =? NULL then mret tt
      else next ← rd64 (t_at c + 24); prev ← rd64 (t_at c + 16); wr64 (next + 16) prev)
     (st_put m1 s) (λ _ s', ∃ m2, s' = st_put m2 s ∧ same_domain m m2 ∧
       (∀ i, ¬ prev_field L2 i → m2 !! i = m1 !! i) ∧
       (∀ d, head L2 = Some d → load_le 8 m2 (t_at d + 16) = Some (t_prev c))).
Proof.
  intros Hdom Hn Hp Hr HL2. rewrite head_ct_head in *.
  destruct (head L2) as [d|] eqn:Hd.
  - destruct (HL2 d eq_refl) as (Hpos & Hmap & Hap).
    rewrite (proj2 (Z.eqb_neq (t_at d) NULL)) by (unfold NULL; lia).
    wp_step. wp_ld. wp_step. wp_ld. apply wp_store.
    { rewrite st_mem_put. eapply load_le_mono; [|exact Hmap]. intros i. apply Hdom. }
    rewrite st_put_put, st_mem_put. eexists. split_and!; [done|..].
    + apply same_domain_write; [done|]. by apply load_le_is_Some.
    + intros i Hi. apply write_le_lookup_out. intros Hin. apply Hi. exists d. split; [done|lia].
    + intros ? [= <-]. by apply load_small.
  - simpl. apply wp_ret. by exists m1.
Qed.

(** A container and the others of the heap. *)
Lemma other_container s L1 c L2 d :
  heap_is s (L1 ++ c :: L2) → d ∈ L1 ++ L2 →
  mapped (st_mem s) (t_at d) (HEADER + t_size d) ∧ (t_stop c ≤ t_at d ∨ t_stop d ≤ t_at c) ∧
  0 < t_at d ∧ t_at d + HEADER ≤ t_stop d.
Proof.
  intros Hheap Hd. pose proof (hi_apart _ _ Hheap) as Hdisj. apply cts_disjoint_mid in Hdisj as [_ Hap].
  rewrite Forall_forall in Hap. destruct (heap_elem _ _ d Hheap) as (_ & ? & ? & ? & _); [in_list|]. by specialize (Hap d Hd).
Qed.

(** The field that points to [c], [heap] or the [next] of the container before it,
    is made to point to the container after it. *)
Definition prev_unlinked (s : S) (L1 : list ct) (c : ct) (L2 : list ct) (m1 : mem) (s0 : S) : Prop :=
  st_mem s0 = st_mem s ∧ heap s0 = head_ct (L1 ++ L2) ∧ same_vmm s s0 ∧ same_domain (st_mem s) m1 ∧
  (∀ i, ¬ next_field L1 i → m1 !! i = st_mem s !! i) ∧
  (∀ d, last L1 = Some d → load_le 8 m1 (t_at d + 24) = Some (head_ct L2)).

Lemma wp_unlink_prev s L1 c L2 :
  heap_is s (L1 ++ c :: L2) →
  wp (if t_prev c =? NULL then next ← rd64 (t_at c + 24); modify (put_heap next)
      else prev ← rd64 (t_at c + 16); next ← rd64 (t_at c + 24); wr64 (prev + 24) next) s
    (λ _ s1, ∃ m1 s0, s1 = st_put m1 s0 ∧ prev_unlinked s L1 c L2 m1 s0).
Proof.
  intros Hheap. destruct (containers_mid _ _ _ _ _ (hi_cts _ _ Hheap)) as [[C1 C2 C3 C4 C5 C6 C7] Hok].
  pose proof (load_le_range _ _ _ _ C4) as Hnr. change (256 ^ Z.of_nat 8) with (2 ^ 64) in *.
  pose proof (containers_prev _ _ _ _ _ (hi_cts _ _ Hheap)) as Hprev. rewrite Hprev in *. destruct (last L1) as [d|] eqn:Hl.
  - destruct (other_container s L1 c L2 d Hheap) as (Hdm & Hdap & Hdpos & Hdle); [apply last_Some_elem_of in Hl; in_list|].
    rewrite (proj2 (Z.eqb_neq (t_at d) NULL)) by (unfold NULL; lia). unfold t_stop, HEADER in *.
    wp_step. eapply wp_load; [exact C3|]. wp_step. eapply wp_load; [exact C4|].
    apply wp_store. { apply load_le_is_Some. eapply mapped_sub; [exact Hdm|lia|lia]. }
    eexists _, s. split; [done|]. split_and!; [done| |done| | |].
    + rewrite (hi_head _ _ Hheap). by destruct L1.
    + apply same_domain_write; [done|]. eapply mapped_sub; [exact Hdm|lia|lia].
    + intros i Hi. apply write_le_lookup_out. intros Hin. apply Hi. exists d. split; [done|lia].
    + rewrite Hl. intros ? [= <-]. by apply load_small.
  - apply last_None in Hl as ->. simpl. wp_step. eapply wp_load; [exact C4|]. wp_step.
    exists (st_mem s), (put_heap (head_ct L2) s). split; [by rewrite <- (mem_heap (head_ct L2) s), st_put_mem|].
    split_and!; [apply mem_heap|apply heap_put| |done|done|done].
    split; [apply vmm_inv_heap|]. intros q k. apply vmm_owned_heap.
Qed.

(** The heap without [c], from what the steps of [remove_container] wrote. *)
Lemma removed_heap s s0 s' L1 c L2 m1 m2 :
  heap_is s (L1 ++ c :: L2) → prev_unlinked s L1 c L2 m1 s0 →
  (∀ i, ¬ prev_field L2 i → m2 !! i = m1 !! i) →
  (∀ d, head L2 = Some d → load_le 8 m2 (t_at d + 16) = Some (t_prev c)) →
  vmm_inv s' → heap s' = head_ct (L1 ++ L2) → (∀ i, ¬ t_at c ≤ i < t_stop c → st_mem s' !! i = m2 !! i) →
  (∀ q k, vmm_owned s q k → q ≠ t_at c → vmm_owned s' q k) →
  heap_is s' (L1 ++ set_prev (t_prev c) L2) ∧
  ∀ i, ¬ t_at c ≤ i < t_stop c → ¬ prev_field L2 i → ¬ next_field L1 i → st_mem s' !! i = st_mem s !! i.
Proof.
  intros Hheap (_ & _ & _ & _ & Hm1 & Hn1) Hm2 Hp2 Hinv' Hheap' Hmem' Hown'.
  pose proof (λ d, other_container s L1 c L2 d Hheap) as Hd.
  pose proof (hi_apart _ _ Hheap) as Hdisj. apply cts_disjoint_mid in Hdisj as [Hdis _].
  assert (∀ i, ¬ t_at c ≤ i < t_stop c → ¬ prev_field L2 i → ¬ next_field L1 i → st_mem s' !! i = st_mem s !! i) as Hfr.
  { intros i Hi Hpf Hnf. by rewrite Hmem', Hm2, Hm1 by done. }
  assert (∀ d n a, d ∈ L1 ++ L2 → t_at d ≤ a → a + Z.of_nat n ≤ t_stop d → load_le n (st_mem s') a = load_le n m2 a) as Hld.
  { intros d n a HdL ??. apply load_le_ext. intros i Hi. apply Hmem'. destruct (Hd d HdL) as (_ & ? & _). lia. }
  split; [|exact Hfr]. split.
  - rewrite Hheap'. destruct L1; [by destruct L2|done].
  - eapply containers_remove; [apply (hi_cts _ _ Hheap)|apply (hi_apart _ _ Hheap)|..].
    + intros i (d & HdL & Hi) ??. apply Hfr; [|done|done]. destruct (Hd d HdL) as (_ & ? & _). lia.
    + intros d Hdh. assert (d ∈ L1 ++ L2) as HdL by (apply head_elem in Hdh; in_list).
      destruct (Hd d HdL) as (_ & _ & ? & ?). unfold t_stop, HEADER in *. rewrite (Hld d) by (done || lia). by apply Hp2.
    + intros d Hdl. assert (d ∈ L1 ++ L2) as HdL by (apply last_Some_elem_of in Hdl; in_list).
      destruct (Hd d HdL) as (_ & _ & ? & ?). unfold t_stop, HEADER in *.
      rewrite (Hld d) by (done || lia). rewrite <- (Hn1 d Hdl). apply load_le_ext. intros i Hi. apply Hm2.
      intros (y & Hy & Hyi). pose proof (head_elem _ _ Hy) as HyL. destruct (Hd y) as (_ & _ & ? & ?); [in_list|].
      destruct (cts_disjoint_apart L1 L2 d y Hdis); [by apply last_Some_elem_of|done|..]; unfold t_stop, HEADER in *; lia.
  - destruct L2 as [|d L2]; [exact Hdis|]. by eapply (cts_disjoint_update L1 d).
  - intros d HdL. assert (∃ d0, d0 ∈ L1 ++ L2 ∧ t_at d0 = t_at d ∧ t_size d0 = t_size d) as (d0 & Hd0 & <- & <-).
    { destruct L2 as [|y L2]; [by exists d|]. simpl in HdL.
      apply elem_of_app in HdL as [?|[->|?]%elem_of_cons]; [exists d|exists y|exists d]; in_list. }
    apply Hown'; [apply (hi_owned _ _ Hheap); in_list|]. pose proof (container_ok_bounds _ (proj2 (containers_mid _ _ _ _ _ (hi_cts _ _ Hheap)))).
    destruct (Hd d0 Hd0) as (_ & ? & ? & ?). unfold t_stop, HEADER in *. lia.
  - done.
Qed.

Lemma wp_remove_container L1 c L2 s :
  heap_is s (L1 ++ c :: L2) →
  wp (remove_container (t_at c)) s (λ _ s', heap_is s' (L1 ++ set_prev (t_prev c) L2) ∧
    ∀ i, ¬ t_at c ≤ i < t_stop c → ¬ prev_field L2 i → ¬ next_field L1 i →
      st_mem s' !! i = st_mem s !! i).
Proof.
  intros Hheap. destruct (containers_mid _ _ _ _ _ (hi_cts _ _ Hheap)) as [[C1 C2 C3 C4 C5 C6 C7] Hok].
  pose proof (λ d, other_container s L1 c L2 d Hheap) as Hd.
  pose proof (container_ok_bounds _ Hok) as (Hcpos & Hcle & Hcs & Hchi).
  pose proof (load_le_range _ _ _ _ C3) as Hpr. change (256 ^ Z.of_nat 8) with (2 ^ 64) in *.
  unfold remove_container, c_prev, c_next, c_size_in_bytes.
  wp_step. eapply wp_load; [exact C3|]. wp_step. eapply wp_mono; [by apply wp_unlink_prev|].
  intros _ s1 (m1 & s0 & -> & Hun). pose proof Hun as (Hs0 & Hh0 & [Hvi Hvo] & Hdom1 & Hm1 & Hn1).
  assert (∀ n a, t_at c ≤ a → a + Z.of_nat n ≤ t_stop c → load_le n m1 a = load_le n (st_mem s) a) as Hcl.
  { intros n a ??. apply load_le_ext. intros i Hi. apply Hm1. intros (d & Hdl & Hdi).
    destruct (Hd d) as (_ & ? & ? & ?); [apply last_Some_elem_of in Hdl; in_list|]. unfold t_stop, HEADER in *. lia. }
  assert (∀ d, head L2 = Some d → 0 < t_at d ∧ is_Some (load_le 8 (st_mem s) (t_at d + 16)) ∧
     (t_at d + 24 ≤ t_at c ∨ t_at c + 40 ≤ t_at d)) as HL2.
  { intros d Hdh. destruct (Hd d) as (Hdm & Hdap & ? & ?); [apply head_elem in Hdh; in_list|].
    unfold t_stop, HEADER in *. split_and!; [done| |lia]. apply load_le_is_Some. eapply mapped_sub; [exact Hdm|lia|lia]. }
  wp_step. eapply wp_load; [rewrite st_mem_put, Hcl by (unfold t_stop, HEADER in *; lia); exact C4|].
  wp_step. eapply wp_mono.
  { apply (unlink_next s0 m1 L2 c); rewrite ?Hs0; try done; rewrite Hcl by (unfold t_stop, HEADER in *; lia); done. }
  intros _ s2 (m2 & -> & Hdom2 & Hm2 & Hp2). rewrite Hs0 in *.
  wp_step. eapply wp_load.
  { rewrite st_mem_put. erewrite load_le_ext; [rewrite Hcl by (unfold t_stop, HEADER in *; lia); exact C1|].
    intros i Hi. apply Hm2. intros (d & Hdh & Hdi). specialize (HL2 d Hdh). lia. }
  assert (u64 (t_size c + HEADER) / PAGE_SIZE_IN_BYTES = (t_size c + HEADER) / 4096) as ->.
  { unfold t_stop, HEADER, KERNEL_HEAP_STOP, KERNEL_VMA in *. rewrite u64_small by lia. done. }
  assert (vmm_inv (st_put m2 s0)) as Hinv.
  { apply vmm_inv_mem; [apply Hvi, (hi_vmm _ _ Hheap)|by rewrite Hs0]. }
  eapply wp_mono.
  { apply vmm_free_law; [done|]. apply vmm_owned_mem, Hvo, (hi_owned _ _ Hheap). in_list. }
  intros _ s' (Hinv' & Hheap' & Hmem' & Hown'). rewrite st_mem_put in Hmem'.
  assert (t_at c + (t_size c + HEADER) / 4096 * 4096 = t_stop c) as Hend.
  { pose proof (co_pages _ Hok). unfold t_stop. zlia. }
  rewrite Hend in *. eapply (removed_heap s s0 s' L1 c L2 m1 m2); try done; [by rewrite Hheap', heap_mem|].
  intros q k Hq. apply Hown'. by apply vmm_owned_mem, Hvo.
Qed.

(** The container [create_container] makes of [n] pages at [va]. *)
Definition new_block (va n : Z) : bk := mk_bk (va + HEADER) (n * 4096 - HEADER - HEADER) false NULL.
Definition new_ct (va n : Z) : ct := mk_ct va (n * 4096 - HEADER) 0 NULL [new_block va n].

Lemma heap_frame s s' L :
  heap_is s L → vmm_inv s' → heap s' = heap s →
  (∀ i, is_Some (st_mem s !! i) → st_mem s' !! i = st_mem s !! i) →
  (∀ q k, vmm_owned s q k → vmm_owned s' q k) → heap_is s' L.
Proof.
  intros Hh Hinv Hheap Hmem Hown. split; [|..|done].
  - rewrite Hheap. apply Hh.
  - eapply containers_frame; [apply Hh|]. intros i (c & Hc & Hi). apply Hmem.
    destruct (heap_elem _ _ _ Hh Hc) as (_ & Hm & _). apply Hm. unfold t_stop in Hi. lia.
  - apply Hh.
  - intros c Hc. apply Hown. by apply Hh.
Qed.

Lemma new_ct_ok va n :
  0 < va → va mod 4096 = 0 → va + n * 4096 ≤ KERNEL_HEAP_STOP → 1 ≤ n → container_ok (new_ct va n).
Proof.
  intros. unfold new_ct, new_block, HEADER in *. split; simpl; unfold HEADER, KHEAP_ALIGN_IN_BYTES; try lia; try done.
  - replace (n * 4096 - 40 + 40) with (n * 4096) by lia. by apply Z_mod_mult.
  - split_and!; try lia. zlia.
Qed.

(** Fresh pages are apart from every container. *)
Lemma fresh_apart s L va n :
  heap_is s L → 1 ≤ n → (∀ i, va ≤ i < va + n * 4096 → st_mem s !! i = None) →
  Forall (cts_apart (new_ct va n)) L.
Proof.
  intros Hh Hn Hfresh. apply Forall_forall. intros c Hc.
  destruct (heap_elem _ _ _ Hh Hc) as (_ & Hm & _ & ? & ? & _). unfold cts_apart, t_stop, new_ct, HEADER in *. simpl.
  destruct (decide (va + 40 + (n * 4096 - 40) ≤ t_at c)) as [|H1]; [by left|].
  destruct (decide (t_at c + 40 + t_size c ≤ va)) as [|H2]; [by right|]. exfalso.
  destruct (Hm (Z.max va (t_at c))) as [v Hv]; [lia|]. rewrite Hfresh in Hv by lia. done.
Qed.

(** [create_container] with [n] pages: [NULL], or a heap with a new container in
    front; the bytes mapped before change only in the [prev] field of the container
    that was first. *)
Definition created (s : S) (L : list ct) (n va : Z) (s' : S) : Prop :=
  (∀ i, is_Some (st_mem s !! i) → ¬ prev_field L i → st_mem s' !! i = st_mem s !! i) ∧
  ((va = NULL ∧ heap_is s' L) ∨
   (va ≠ NULL ∧ heap_is s' (new_ct va n :: set_prev va L) ∧
    ∀ i, va ≤ i < va + n * 4096 → st_mem s !! i = None)).

Lemma wp_link_first s m4 va L (m := st_mem s) :
  same_domain m m4 → 0 ≤ va < 2 ^ 64 →
  (∀ d, head L = Some d → 0 < t_at d ∧ is_Some (load_le 8 m (t_at d + 16))) →
  wp (if head_ct L =? NULL then mret tt else wr64 (head_ct L + 16) va) (st_put m4 s)
     (λ _ s', ∃ m5, s' = st_put m5 s ∧ same_domain m m5 ∧
       (∀ i, ¬ prev_field L i → m5 !! i = m4 !! i) ∧
       (∀ d, head L = Some d → load_le 8 m5 (t_at d + 16) = Some va)).
Proof.
  intros Hdom Hva HL. rewrite head_ct_head. destruct (head L) as [d|] eqn:Hd.
  - destruct (HL d eq_refl) as [Hpos Hmap]. rewrite (proj2 (Z.eqb_neq (t_at d) NULL)) by (unfold NULL; lia).
    apply wp_store. { rewrite st_mem_put. eapply load_le_mono; [|exact Hmap]. intros i. apply Hdom. }
    rewrite st_put_put, st_mem_put. eexists. split_and!; [done|..].
    + apply same_domain_write; [done|]. by apply load_le_is_Some.
    + intros i Hi. apply write_le_lookup_out. intros Hin. apply Hi. exists d. split; [done|lia].
    + intros ? [= <-]. by apply load_small.
  - apply wp_ret. by exists m4.
Qed.

(** The memory after the header of a container of [n] pages has been written at
    [va], and after its block has. *)
Definition ct_header_mem (m : mem) (va n nx : Z) : mem :=
  write_le 8 (write_le 8 (write_le 8 (write_le 8 m va (n * 4096 - HEADER)) (va + 8) 0) (va + 16) NULL) (va + 24) nx.
Definition ct_block_mem (m : mem) (va n : Z) : mem :=
  write_le 8 (write_le 8 (write_le 8 (write_le 1 (write_le 8 (write_le 8 m (va + 32) (va + HEADER))
    (va + HEADER) (n * 4096 - HEADER - HEADER)) (va + HEADER + 8) FALSE) (va + HEADER + 16) NULL)
    (va + HEADER + 24) NULL) (va + HEADER + 32) va.

(** A new container of [n] fresh pages at [va], in front of the containers [L]. *)
Section new_container.
Context (s : S) (L : list ct) (n va : Z).
Hypothesis Hh : heap_is s L.
Hypothesis Hn : 5 ≤ n < 2 ^ 52.
Hypothesis Hva : 0 < va ∧ va mod 4096 = 0 ∧ va + n * 4096 ≤ KERNEL_HEAP_STOP.
Hypothesis Hap : Forall (cts_apart (new_ct va n)) L.
Hypothesis Hmap : mapped (st_mem s) va (n * 4096).

Lemma new_first d : head L = Some d →
  d ∈ L ∧ 0 < t_at d ∧ t_at d < 2 ^ 64 ∧ is_Some (load_le 8 (st_mem s) (t_at d + 16)) ∧
  (t_at d + 40 ≤ va ∨ va + n * 4096 ≤ t_at d).
Proof using Hh Hap.
  intros Hd%head_elem. destruct (heap_elem _ _ _ Hh Hd) as (_ & Hdm & ? & ? & ? & ?). rewrite Forall_forall in Hap.
  destruct (Hap d Hd); unfold t_stop, new_ct, HEADER, KERNEL_HEAP_STOP, KERNEL_VMA in *; simpl in *;
    (split_and!; [done|lia|lia| |lia]); apply load_le_is_Some; (eapply mapped_sub; [exact Hdm|lia|lia]).
Qed.

Lemma new_next : 0 ≤ head_ct L < 2 ^ 64.
Proof using Hh Hap.
  rewrite head_ct_head. destruct (head L) as [d|] eqn:Hd; [|done]. destruct (new_first d Hd) as (_ & ? & ? & _). lia.
Qed.

(** [m5] is the memory in which the first container of [L] points back to it. *)
Context (m5 : mem).
Let m4 := ct_header_mem (st_mem s) va n (head_ct L).
Let m' := ct_block_mem m5 va n.
Hypothesis Hdom5 : same_domain (st_mem s) m5.
Hypothesis Hm5 : ∀ i, ¬ prev_field L i → m5 !! i = m4 !! i.
Hypothesis Hp5 : ∀ d, head L = Some d → load_le 8 m5 (t_at d + 16) = Some va.

Lemma new_loads k a : va ≤ a → a + Z.of_nat k ≤ va + n * 4096 → load_le k m5 a = load_le k m4 a.
Proof using Hh Hap Hm5.
  intros ??. apply load_le_ext. intros i Hi. apply Hm5. intros (d & Hd & Hdi).
  destruct (new_first d Hd) as (_ & _ & _ & _ & ?). lia.
Qed.

Lemma new_dom : same_domain (st_mem s) m'.
Proof using Hn Hmap Hdom5.
  unfold m', ct_block_mem, HEADER.
  repeat (apply same_domain_write; [|eapply mapped_sub; [exact Hmap|lia|lia]]). exact Hdom5.
Qed.

Lemma new_out i : ¬ va ≤ i < va + n * 4096 → ¬ prev_field L i → m' !! i = st_mem s !! i.
Proof using Hn Hm5.
  intros Hi Hpf. unfold m', ct_block_mem, HEADER. rewrite !write_le_lookup_out, Hm5 by (done || lia).
  unfold m4, ct_header_mem. by rewrite !write_le_lookup_out by lia.
Qed.

Lemma new_container_in : container_in m' (new_ct va n) (head_ct (set_prev va L)).
Proof using Hh Hn Hva Hap Hmap Hdom5 Hm5 Hp5.
  assert (head_ct (set_prev va L) = head_ct L) as -> by (by destruct L). pose proof new_next as Hnx.
  unfold KERNEL_HEAP_STOP, KERNEL_VMA in *.
  assert (∀ o, o = 0 ∨ o = 8 ∨ o = 16 ∨ o = 24 → load_le 8 m' (va + o) = load_le 8 m4 (va + o)) as H8.
  { intros o Ho. unfold m', ct_block_mem, HEADER. rewrite !load_write_ne by lia. apply new_loads; lia. }
  split; simpl; unfold HEADER.
  - rewrite <- (Z.add_0_r va), H8 by lia. rewrite Z.add_0_r. unfold m4, ct_header_mem, HEADER. mem_simpl.
    rewrite Z.mod_small; [done|]. change (256 ^ Z.of_nat 8) with (2 ^ 64). lia.
  - rewrite H8 by lia. unfold m4, ct_header_mem. by mem_simpl.
  - rewrite H8 by lia. unfold m4, ct_header_mem. by mem_simpl.
  - rewrite H8 by lia. unfold m4, ct_header_mem. by apply load_small.
  - unfold m', ct_block_mem, HEADER. rewrite !load_write_ne by lia. apply load_small. change (256 ^ Z.of_nat 8) with (2 ^ 64). lia.
  - split; [|done]. split; simpl; unfold HEADER, m', ct_block_mem, HEADER; mem_simpl; try done;
      rewrite Z.mod_small; try done; change (256 ^ Z.of_nat 8) with (2 ^ 64); lia.
  - replace (40 + (n * 4096 - 40)) with (n * 4096) by lia. intros i Hi. apply new_dom. by apply Hmap.
Qed.

Lemma new_heap : vmm_inv s → vmm_owned s va n →
  heap_is (st_put m' (put_heap va (st_put m5 s))) (new_ct va n :: set_prev va L).
Proof using Hh Hn Hva Hap Hmap Hdom5 Hm5 Hp5.
  intros Hinv Howned. pose proof Hap as Hap'. rewrite Forall_forall in Hap'. destruct Hva as (? & ? & ?). split.
  - by rewrite heap_mem, heap_put.
  - rewrite st_mem_put. split_and!; [exact new_container_in|apply new_ct_ok; (done || lia)|done|].
    eapply containers_set_prev; [apply (hi_cts _ _ Hh)|apply (hi_apart _ _ Hh)|..].
    + intros i (d & Hd1 & Hi) Hpf. apply new_out; [|done].
      destruct (Hap' d Hd1); unfold t_stop, new_ct, HEADER in *; simpl in *; lia.
    + intros d Hd1. rewrite <- (Hp5 d Hd1). unfold m', ct_block_mem, HEADER.
      destruct (new_first d Hd1) as (_ & _ & _ & _ & ?). by rewrite !load_write_ne by lia.
  - split; [|destruct L as [|d L0]; [done|by eapply (cts_disjoint_update [] d); [..|apply Hh]]].
    destruct L; [done|]. apply Forall_cons in Hap as [? ?]. by apply Forall_cons.
  - intros d Hd1. apply vmm_owned_mem, vmm_owned_heap, vmm_owned_mem. apply elem_of_cons in Hd1 as [->|Hd1].
    + simpl. unfold HEADER. replace ((n * 4096 - 40 + 40) / 4096) with n by zlia. done.
    + destruct L as [|y L0]; [by apply not_elem_of_nil in Hd1|]. simpl in Hd1. apply elem_of_cons in Hd1 as [->|Hd1]; simpl;
        [apply (hi_owned _ _ Hh y)|apply (hi_owned _ _ Hh d)]; in_list.
  - apply vmm_inv_mem; [by apply vmm_inv_heap, vmm_inv_mem|]. rewrite mem_heap, st_mem_put.
    intros i. by rewrite (new_dom i), (Hdom5 i).
Qed.
End new_container.

Lemma wp_create_container s L pages :
  heap_is s L → 0 ≤ pages < 2 ^ 52 →
  wp (create_container pages) s (created s L (Z.max KHEAP_MIN_ALLOC_IN_PAGES pages)).
Proof.
  intros Hh Hpg. unfold create_container. rewrite MAX_u64 by (unfold KHEAP_MIN_ALLOC_IN_PAGES; lia).
  set (n := Z.max _ _). assert (5 ≤ n < 2 ^ 52) as Hn by (unfold n, KHEAP_MIN_ALLOC_IN_PAGES; lia). clearbody n.
  wp_step. eapply wp_mono; [apply vmm_alloc_between_law; [apply Hh|lia]|].
  intros va s1 (Hinv & Hheap & Hmem & Hown & Hva). cbn beta.
  assert (heap_is s1 L) as Hh1 by (by eapply heap_frame).
  destruct (va =? NULL) eqn:Hnull; bool_facts.
  { apply wp_ret. split; [by auto|]. by left. }
  destruct (Hva Hnull) as (Hpos & Hal & Hup & Hfresh & Hmap & Howned). clear Hva.
  pose proof (fresh_apart s L va n Hh ltac:(lia) Hfresh) as Hap.
  pose proof (new_first s1 L n va Hh1 Hap) as HL. pose proof (new_next s1 L n va Hh1 Hap) as Hnx.
  pose proof (new_loads s1 L n va Hh1 Hap) as Hloads. pose proof (new_out s1 L n va Hn) as Hout.
  pose proof (new_heap s1 L n va Hh1 Hn ltac:(done) Hap Hmap) as Hnew.
  set (m := st_mem s1) in *.
  assert (∀ o k, 0 ≤ o → o + Z.of_nat k ≤ 80 → is_Some (load_le k m (va + o))) as Hf.
  { intros o k ??. apply load_le_is_Some. eapply mapped_sub; [exact Hmap|lia|lia]. }
  unfold ct_header_mem, ct_block_mem, PAGE_SIZE_IN_BYTES, HEADER in *. unfold KERNEL_HEAP_STOP, KERNEL_VMA in Hup.
  rewrite (u64_small (n * 4096)), (u64_small (n * 4096 - 40)) by lia.
  unfold c_size_in_bytes, c_used_blocks, c_prev, c_next, c_block, b_used, b_size_in_bytes, b_prev, b_next, b_container.
  wp_step. apply wp_store; [rewrite <- (Z.add_0_r va); apply Hf; lia|].
  do 2 (wp_step; apply wp_store; [still_mapped; apply Hf; lia|]).
  wp_step. wp_step. wp_step. apply wp_store; [still_mapped; apply Hf; lia|].
  wp_step. eapply wp_load; [mem_simpl; reflexivity|].
  rewrite !heap_mem, (hi_head _ _ Hh1), !st_put_put, ?st_mem_put. fold m. rewrite (Z.mod_small (head_ct L)) by done.
  wp_step. eapply wp_mono; [apply wp_link_first; [|lia|]|].
  { repeat (apply same_domain_write; [|eapply mapped_sub; [exact Hmap|lia|lia]]). apply same_domain_refl. }
  { intros d Hd. split; apply HL; done. }
  intros _ s2 (m5 & -> & Hdom5 & Hm5 & Hp5).
  assert (∀ o k, 0 ≤ o → o + Z.of_nat k ≤ 80 → is_Some (load_le k m5 (va + o))) as Hf5.
  { intros o k ??. eapply same_domain_load; [done|by apply Hf]. }
  unfold CONTAINER_DATA, HEADER. rewrite (u64_small (va + 40)) by lia.
  wp_step. wp_step. wp_step. apply wp_store; [rewrite mem_heap, st_mem_put; apply Hf5; lia|].
  rewrite mem_heap, st_mem_put.
  wp_step. eapply wp_load; [mem_simpl; rewrite Z.mod_small; [done|change (256 ^ Z.of_nat 8) with (2 ^ 64); lia]|].
  wp_step. eapply wp_load.
  { rewrite st_mem_put, load_write_ne, (Hloads m5 Hm5) by lia. mem_simpl. rewrite Z.mod_small; [done|].
    change (256 ^ Z.of_nat 8) with (2 ^ 64). lia. }
  rewrite (u64_small (n * 4096 - 40 - 40)) by lia.
  wp_step. apply wp_store; [still_mapped; apply Hf5; lia|].
  do 4 (wp_step; apply wp_store; [still_mapped; rewrite <- Z.add_assoc; apply Hf5; lia|]).
  apply wp_ret. rewrite !st_put_put, ?st_mem_put. split.
  - intros i Hi Hpf. rewrite st_mem_put, (Hout m5 Hm5); [by apply Hmem| |done].
    intros Hin. rewrite Hfresh in Hi by done. by destruct Hi.
  - right. split; [done|]. split; [|done]. by apply Hnew.
Qed.
End container_ops.

(** ** What the clients see *)
Lemma live_app L1 L2 : live (L1 ++ L2) = live L1 ++ live L2.
Proof. unfold live. by rewrite bind_app. Qed.
Lemma live_cons c L : live (c :: L) = live_blocks (t_blocks c) ++ live L.
Proof. done. Qed.
Lemma live_set_prev p L : live (set_prev p L) = live L.
Proof. by destruct L. Qed.

Lemma live_elem L q k :
  (q, k) ∈ live L ↔ ∃ c b, c ∈ L ∧ b ∈ t_blocks c ∧ k_used b = true ∧ q = k_at b + HEADER ∧ k = k_size b.
Proof.
  unfold live. rewrite list_elem_of_bind. unfold live_blocks. split.
  - intros (c & (b & [= -> ->] & [Hu Hb]%list_elem_of_filter)%list_elem_of_fmap & Hc). by exists c, b.
  - intros (c & b & Hc & Hb & Hu & -> & ->). exists c. split; [|done].
    apply list_elem_of_fmap. exists b. split; [done|]. by apply list_elem_of_filter.
Qed.

(** The data of a block in use is apart from block [b], which is not, and is
    not changed with it. *)
Lemma live_untouched L L1 c L2 l1 b l2 m m' q k :
  L = L1 ++ c :: L2 → Forall container_ok L → cts_disjoint L →
  t_blocks c = l1 ++ b :: l2 → k_used b = false →
  block_frame c (k_at b) (k_at b + HEADER + k_size b) l2 m m' →
  (q, k) ∈ live L →
  (q + k ≤ k_at b ∨ k_at b + HEADER + k_size b ≤ q) ∧
  (∀ i, q ≤ i < q + k → m' !! i = m !! i).
Proof.
  intros -> Hok Hdis Hl Hub [_ Hm] (d & x & Hd & Hx & Hux & -> & ->)%live_elem.
  rewrite Forall_forall in Hok. assert (container_ok c) as Hokc by (apply Hok; in_list).
  pose proof (co_laid _ Hokc) as Hlaid. rewrite Hl in Hlaid.
  destruct (laid_around _ _ _ _ _ Hlaid) as (Ha1 & (Hblo & _ & Hbs & Hbhi) & Ha2).
  assert (∀ y, head l2 = Some y → k_at b + HEADER + k_size b ≤ k_at y ∧ k_at y + HEADER + k_size y ≤ t_stop c ∧ 0 ≤ k_size y) as Hhd.
  { intros y Hy%head_elem. by apply Ha2. }
  assert (d = c ∨ cts_apart c d) as [->|Hap].
  { apply cts_disjoint_mid in Hdis as [_ Hap]. rewrite Forall_forall in Hap.
    apply elem_of_app in Hd as [Hd|[->|Hd]%elem_of_cons]; [right|by left|right]; apply Hap; in_list. }
  - rewrite Hl in Hx. unfold t_stop, HEADER in *.
    apply elem_of_app in Hx as [Hx|[->|Hx]%elem_of_cons]; [|congruence|].
    + destruct (Ha1 x Hx) as (? & ? & ?). split; [lia|]. intros i Hi. apply Hm; [lia|lia|].
      intros y Hy. destruct (Hhd y Hy) as (? & ? & ?). lia.
    + destruct (Ha2 x Hx) as (? & ? & ?). split; [lia|]. intros i Hi. apply Hm; [lia|lia|].
      intros y Hy. destruct l2 as [|z l2]; [done|]. injection Hy as ->.
      apply elem_of_cons in Hx as [->|Hx]; [lia|].
      change (l1 ++ b :: y :: l2) with (l1 ++ [b] ++ y :: l2) in Hlaid. rewrite app_assoc in Hlaid.
      destruct (laid_around _ _ _ _ _ Hlaid) as (_ & _ & Ha3). destruct (Ha3 x Hx) as (? & ? & ?).
      destruct (Hhd y eq_refl) as (? & ? & ?). unfold HEADER in *. lia.
  - assert (container_ok d) as Hokd by (apply Hok; done).
    destruct (laid_elem _ _ _ _ (co_laid _ Hokd) Hx) as (? & ? & ?).
    pose proof (container_ok_bounds _ Hokc). pose proof (container_ok_bounds _ Hokd).
    unfold cts_apart, t_stop, HEADER in *.
    split; [lia|]. intros i Hi. apply Hm; [lia|lia|]. intros y Hy. destruct (Hhd y Hy) as (? & ? & ?). lia.
Qed.

(** The data of the blocks in use is not in the header of a container. *)
Lemma live_not_header L q k i d :
  Forall container_ok L → cts_disjoint L → (q, k) ∈ live L → q ≤ i < q + k → d ∈ L →
  ¬ t_at d ≤ i < t_at d + HEADER.
Proof.
  intros Hok Hdis (c & b & Hc & Hb & _ & -> & ->)%live_elem Hi Hd.
  rewrite Forall_forall in Hok. pose proof (Hok c Hc) as Hokc.
  destruct (laid_elem _ _ _ _ (co_laid _ Hokc) Hb) as (? & ? & ?).
  apply list_elem_of_split in Hc as (L1 & L2 & ->). apply cts_disjoint_mid in Hdis as [_ Hap].
  rewrite Forall_forall in Hap. pose proof (container_ok_bounds _ (Hok d Hd)). unfold t_stop, HEADER in *.
  apply elem_of_app in Hd as [Hd|[->|Hd]%elem_of_cons]; [|lia|];
    (destruct (Hap d) as [?|?]; [in_list|unfold t_stop, HEADER in *; lia..]).
Qed.

(** Nor, for the blocks of other containers, in the pages of [c]. *)
Lemma live_not_in_container L1 c L2 q k i :
  Forall container_ok (L1 ++ c :: L2) → cts_disjoint (L1 ++ c :: L2) → (q, k) ∈ live (L1 ++ L2) →
  q ≤ i < q + k → ¬ t_at c ≤ i < t_stop c.
Proof.
  intros Hok Hdis (d & b & Hd & Hb & _ & -> & ->)%live_elem Hi.
  rewrite Forall_forall in Hok. assert (container_ok d) as Hokd by (apply Hok; in_list).
  destruct (laid_elem _ _ _ _ (co_laid _ Hokd) Hb) as (? & ? & ?).
  apply cts_disjoint_mid in Hdis as [_ Hap]. rewrite Forall_forall in Hap.
  destruct (Hap d Hd); unfold t_stop, HEADER in *; lia.
Qed.

Lemma block_frame_weaken c lo hi lo' hi' l2 m m' :
  block_frame c lo hi [] m m' → lo' ≤ lo → hi ≤ hi' → block_frame c lo' hi' l2 m m'.
Proof. intros [Hd Hm] ??. split; [done|]. intros i Hi1 Hi2 _. apply Hm; [done|lia|by intros ?]. Qed.

Lemma carve_live l1 b size l2 :
  k_used b = false → 0 ≤ size ≤ k_size b →
  ∃ n, size ≤ n ≤ k_size b ∧ live_blocks (l1 ++ carve b size l2) ≡ₚ (k_at b + HEADER, n) :: live_blocks (l1 ++ b :: l2).
Proof.
  intros Hu Hsz. unfold carve. case_if; [exists (k_size b)|exists size]; (split; [lia|]);
    rewrite !live_blocks_app, !live_blocks_cons; simpl; rewrite Hu, ?live_blocks_reprev; simpl;
    by rewrite Permutation_middle.
Qed.

(** The heap with right [prev] fields. *)
Definition heap_ok {S} {MS : MemState S} {HS : HeapState S} {VS : KernelVmm S} (s : S) (L : list ct) : Prop :=
  heap_is s L ∧ Forall (λ c, prevs_ok NULL (t_blocks c)) L.

Section kmalloc.
Context {S : Type} {MS : MemState S} {HS : HeapState S} {VS : KernelVmm S}.
Implicit Types s : S.

Lemma heap_all_ok s L : heap_is s L → Forall container_ok L.
Proof. intros Hh. apply Forall_forall. intros c Hc. by apply (heap_elem s L). Qed.

Lemma allocated_live size s L p L' m' :
  heap_is s L → 0 ≤ size → allocated size L (st_mem s) p L' m' →
  0 < p ∧ (p + HEADER) mod KHEAP_ALIGN_IN_BYTES = 0 ∧
  ∃ n, size ≤ n ∧ p + HEADER + n ≤ KERNEL_HEAP_STOP ∧ live L' ≡ₚ (p + HEADER, n) :: live L ∧ mapped m' (p + HEADER) n ∧
    ∀ q k, (q, k) ∈ live L → (p + HEADER + n ≤ q ∨ q + k ≤ p + HEADER) ∧
      ∀ i, q ≤ i < q + k → m' !! i = st_mem s !! i.
Proof.
  intros Hh Hsz (L1 & c & L2 & l1 & b & l2 & HL & Hl & Hf & _ & _ & -> & -> & Hfr).
  pose proof (heap_all_ok _ _ Hh) as Hoks.
  assert (c ∈ L) as HcL by (rewrite HL; in_list).
  destruct (heap_elem _ _ _ Hh HcL) as (Hok & Hmap & Hcpos & _ & _ & Hhi).
  apply andb_prop in Hf as [Hu Hle]. bool_facts.
  pose proof (co_laid _ Hok) as Hlaid. rewrite Hl in Hlaid.
  destruct (laid_around _ _ _ _ _ Hlaid) as (_ & (Hblo & Hal & Hbs & Hbhi) & _).
  destruct (carve_live l1 b size l2 Hu ltac:(lia)) as (n & Hn & Hlive).
  split; [unfold HEADER in *; lia|]. split; [done|]. exists n. split; [lia|]. split; [unfold t_stop in *; lia|].
  split_and!.
  - subst L. rewrite !live_app, !live_cons. simpl. rewrite Hlive, Hl. by rewrite Permutation_middle.
  - intros i Hi. apply Hfr. apply Hmap. unfold HEADER in *. lia.
  - intros q k Hq. destruct (live_untouched L L1 c L2 l1 b l2 (st_mem s) m' q k) as [Hap Hsame]; try done; [apply Hh|].
    split; [unfold HEADER in *; lia|done].
Qed.

Lemma heap_fuel s L : heap_is s L → (length L ≤ size (st_mem s))%nat.
Proof.
  intros Hh. rewrite <- (length_fmap t_at). apply nodup_mapped_size.
  - pose proof (hi_apart _ _ Hh) as Hdis. pose proof (heap_all_ok _ _ Hh) as Hok. clear Hh.
    induction L as [|c L IH]; [constructor|]. destruct Hdis as [Hap Hdis]. apply Forall_cons in Hok as [Hc Hok].
    simpl. constructor; [|by apply IH]. intros (d & Hcd & Hd)%list_elem_of_fmap.
    rewrite Forall_forall in Hap, Hok. pose proof (container_ok_bounds _ Hc). pose proof (container_ok_bounds _ (Hok d Hd)).
    destruct (Hap d Hd); unfold HEADER in *; lia.
  - intros a (c & -> & Hc)%list_elem_of_fmap. destruct (heap_elem _ _ _ Hh Hc) as (_ & Hm & ? & ? & ? & _).
    apply Hm. unfold HEADER. lia.
Qed.

(** The search over the containers. *)
Lemma wp_search s L size :
  heap_is s L → 0 ≤ size →
  wp (loop (Datatypes.S (base.size (st_mem s))) (λ c,
        if c =? NULL then mret (inr NULL)
        else
          b ← try_alloc_block c size;
          if b =? NULL then next ← rd64 (c_next c); mret (inl next)
          else mret (inr b)) (head_ct L)) s
     (λ r s', (r = NULL ∧ s' = s ∧ ∀ c b, c ∈ L → b ∈ t_blocks c → fits size b = false) ∨
        (r ≠ NULL ∧ ∃ m' L', s' = st_put m' s ∧ heap_is s' L' ∧ allocated size L (st_mem s) r L' m')).
Proof.
  intros Hh Hsz. pose proof (heap_fuel _ _ Hh) as Hfuel.
  match goal with |- wp (loop ?f ?b _) _ ?Q =>
    assert (∀ L2 fuel L1, L = L1 ++ L2 → (length L2 < fuel)%nat →
      (∀ d b', d ∈ L1 → b' ∈ t_blocks d → fits size b' = false) → wp (loop fuel b (head_ct L2)) s Q) as Hloop end.
  { intros L2. induction L2 as [|c L2 IH]; intros fuel L1 HL Hlt HL1.
    - destruct fuel as [|fuel]; [simpl in Hlt; lia|]. simpl. wp_step. apply wp_ret. apply wp_ret. left.
      split_and!; [done|done|]. rewrite HL, app_nil_r. done.
    - destruct fuel as [|fuel]; [simpl in Hlt; lia|]. simpl.
      assert (c ∈ L) as Hc by (rewrite HL; in_list).
      destruct (heap_elem _ _ _ Hh Hc) as (_ & _ & Hpos & _).
      rewrite (proj2 (Z.eqb_neq (t_at c) NULL)) by (unfold NULL; lia).
      wp_step. wp_step. rewrite HL in Hh. eapply wp_mono; [by apply wp_try_alloc_block|].
      intros r s' [(-> & -> & Hnone)|(Hr & m' & L' & -> & Hh' & Hal)].
      + simpl. wp_step. destruct (containers_mid _ _ _ _ _ (hi_cts _ _ Hh)) as [Hin _].
        eapply wp_load; [apply Hin|]. wp_step. apply (IH fuel (L1 ++ [c])).
        * by rewrite <- app_assoc.
        * simpl in Hlt. lia.
        * intros d b' [Hd| ->%list_elem_of_singleton]%elem_of_app Hb'; [by eapply HL1|by apply Hnone].
      + rewrite (proj2 (Z.eqb_neq r NULL)) by done. apply wp_ret. apply wp_ret. right. split; [done|].
        exists m', L'. by rewrite HL. }
  apply (Hloop _ _ []); [done|lia|]. intros d b' Hd. by apply not_elem_of_nil in Hd.
Qed.

(** What [kmalloc] leaves: a heap [L'], and the address of the data. *)
Definition kmalloc_post (s : S) (L : list ct) (size p : Z) (s' : S) : Prop :=
  (p = NULL ∧ heap_is s' L ∧
   ∀ i, is_Some (st_mem s !! i) → ¬ prev_field L i → st_mem s' !! i = st_mem s !! i) ∨
  (∃ s0 L0 b m' L', p = b + HEADER ∧ s' = st_put m' s0 ∧ heap_is s0 L0 ∧ heap_is s' L' ∧
     allocated size L0 (st_mem s0) b L' m' ∧
     ((s0 = s ∧ L0 = L) ∨
      (∃ n va, 5 ≤ n ∧ L0 = new_ct va n :: set_prev va L ∧ created s L n va s0))).

Lemma block_data_small b : 0 < b → b + HEADER ≤ KERNEL_HEAP_STOP → BLOCK_DATA b = b + HEADER.
Proof. intros. unfold BLOCK_DATA, HEADER, KERNEL_HEAP_STOP, KERNEL_VMA in *. by rewrite u64_small by lia. Qed.

Lemma allocated_data size s L p L' m' :
  heap_is s L → 0 ≤ size → allocated size L (st_mem s) p L' m' → BLOCK_DATA p = p + HEADER.
Proof.
  intros Hh Hsz Hal. destruct (allocated_live _ _ _ _ _ _ Hh Hsz Hal) as (? & _ & n & ? & ? & _).
  apply block_data_small; lia.
Qed.

Lemma wp_kmalloc s L size :
  heap_is s L → 0 ≤ size < 2 ^ 64 - 2 * 4096 - HEADER →
  wp (kmalloc size) s (kmalloc_post s L size).
Proof.
  intros Hh Hsz. unfold kmalloc, mem_fuel. wp_step. wp_step. rewrite (hi_head _ _ Hh).
  wp_step. wp_step. wp_step. eapply wp_mono; [apply wp_search; [done|lia]|].
  intros b s1 [(-> & -> & _)|(Hb & m' & L' & -> & Hh' & Hal)].
  2: { rewrite (proj2 (Z.eqb_neq b NULL)) by done. apply wp_ret.
       right. exists s, L, b, m', L'. split_and!; try done; [|by left].
       apply (allocated_data size s L b L' m'); [done|lia|done]. }
  simpl. set (pages := u64 (u64 (size + HEADER) / PAGE_SIZE_IN_BYTES + 2)).
  assert (pages = (size + HEADER) / 4096 + 2) as Hpages.
  { unfold pages, HEADER, PAGE_SIZE_IN_BYTES in *. rewrite (u64_small (size + 40)) by lia. rewrite u64_small; zlia. }
  wp_step. eapply wp_mono; [apply wp_create_container; [done|unfold HEADER in *; zlia]|].
  set (n := Z.max _ pages). intros va s2 Hcr. pose proof Hcr as [Hfr [[-> Hh2]|(Hva & Hh2 & _)]]; cbn beta.
  { simpl. apply wp_ret. by left. }
  rewrite (proj2 (Z.eqb_neq va NULL)) by done.
  assert (5 ≤ n ∧ size + HEADER + HEADER ≤ n * 4096) as [Hn5 Hfit].
  { unfold n, KHEAP_MIN_ALLOC_IN_PAGES, HEADER in *. zlia. }
  wp_step. eapply wp_mono.
  { apply (wp_try_alloc_block [] (new_ct va n) (set_prev va L)); [done|lia|].
    intros d b' Hd. by apply not_elem_of_nil in Hd. }
  intros b s3 [(-> & -> & Hnone)|(Hb & m' & L' & -> & Hh' & Hal)].
  { exfalso. assert (fits size (new_block va n) = false) as Hf by (apply Hnone; simpl; in_list).
    unfold fits in Hf. simpl in Hf. bool_facts. lia. }
  rewrite (proj2 (Z.eqb_neq b NULL)) by done. apply wp_ret. right.
  exists s2, (new_ct va n :: set_prev va L), b, m', L'. split_and!; try done.
  - eapply (allocated_data size s2 _ b L' m'); [exact Hh2|lia|done].
  - right. by exists n, va.
Qed.

Lemma live_not_prev_field s L q k i :
  heap_is s L → (q, k) ∈ live L → q ≤ i < q + k → is_Some (st_mem s !! i) ∧ ¬ prev_field L i.
Proof.
  intros Hh Hq Hi. split.
  - apply live_elem in Hq as (c & b & Hc & Hb & _ & -> & ->).
    destruct (heap_elem _ _ _ Hh Hc) as (Hok & Hm & _). apply Hm.
    destruct (laid_elem _ _ _ _ (co_laid _ Hok) Hb) as (? & ? & ?). unfold HEADER in *. lia.
  - intros (d & Hd%head_elem & Hdi).
    pose proof (live_not_header L q k i d (heap_all_ok _ _ Hh) (hi_apart _ _ Hh) Hq Hi Hd). unfold HEADER in *. lia.
Qed.

Lemma prevs_allocated size L m p L' m' :
  Forall (λ c, prevs_ok NULL (t_blocks c)) L → allocated size L m p L' m' →
  Forall (λ c, prevs_ok NULL (t_blocks c)) L'.
Proof.
  intros HL (L1 & c & L2 & l1 & b & l2 & -> & Hl & _ & _ & _ & _ & -> & _).
  apply Forall_app in HL as [HL1 [Hc HL2]%Forall_cons]. apply Forall_app. split; [done|].
  apply Forall_cons. split; [|done]. simpl. rewrite Hl in Hc. apply prevs_ok_split in Hc as [? ?].
  apply prevs_ok_split. split; [done|]. by apply carve_prevs.
Qed.
End kmalloc.

Section kfree.
Context {S : Type} {MS : MemState S} {HS : HeapState S} {VS : KernelVmm S}.
Implicit Types s : S.

Lemma with_blocks_ok c count l :
  container_ok c → laid (t_at c + HEADER) l (t_stop c) → count = count_used l → container_ok (with_blocks c count l).
Proof. by intros [] ??. Qed.

(** One step of [kfree]: a block [b] of the list after it is not in use, and
    only its header, the count and the link of the next block change. *)
Lemma free_step s m' L1 c L2 count l1 b l2 :
  heap_is s (L1 ++ c :: L2) → container_ok (with_blocks c count (l1 ++ b :: l2)) → k_used b = false →
  block_frame c (k_at b) (k_at b + HEADER + k_size b) l2 (st_mem s) m' →
  container_in m' (with_blocks c count (l1 ++ b :: l2)) (head_ct L2) →
  heap_is (st_put m' s) (L1 ++ with_blocks c count (l1 ++ b :: l2) :: L2) ∧
  (∀ q k i, (q, k) ∈ live (L1 ++ with_blocks c count (l1 ++ b :: l2) :: L2) → q ≤ i < q + k →
    m' !! i = st_mem s !! i) ∧
  ∀ i, ¬ t_at c ≤ i < t_stop c → m' !! i = st_mem s !! i.
Proof.
  intros Hh Hok Hu Hfr Hin. set (c' := with_blocks c count (l1 ++ b :: l2)) in *.
  assert (∀ i, ¬ t_at c ≤ i < t_stop c → m' !! i = st_mem s !! i) as Hout by (by apply (take_frame_out c' l1 b l2 (st_mem s) m')).
  assert (heap_is (st_put m' s) (L1 ++ c' :: L2)) as Hh' by (by eapply heap_update; [exact Hh|done|apply Hfr|..]).
  split; [done|]. split; [|done]. intros q k i Hq Hi.
  by eapply (live_untouched (L1 ++ c' :: L2) L1 c' L2 l1 b l2 (st_mem s) m' q k);
    [|by eapply heap_all_ok|apply Hh'|..].
Qed.

Lemma live_with_blocks L1 c L2 count l l' :
  live_blocks l = live_blocks l' →
  live (L1 ++ with_blocks c count l :: L2) = live (L1 ++ with_blocks c count l' :: L2).
Proof. intros Hl. rewrite !live_app, !live_cons. simpl. by rewrite Hl. Qed.

Lemma wp_merge_next_heap s L1 c L2 l1 b l2 :
  heap_is s (L1 ++ c :: L2) → t_blocks c = l1 ++ b :: l2 → k_used b = false →
  wp (merge_with_next (k_at b)) s (λ _ s',
    heap_is s' (L1 ++ with_blocks c (t_count c) (merged_next l1 b l2) :: L2) ∧
    (∀ q k i, (q, k) ∈ live (L1 ++ c :: L2) → q ≤ i < q + k → st_mem s' !! i = st_mem s !! i) ∧
    ∀ i, ¬ t_at c ≤ i < t_stop c → st_mem s' !! i = st_mem s !! i).
Proof.
  intros Hh Hl Hu. destruct (containers_mid _ _ _ _ _ (hi_cts _ _ Hh)) as [Hin Hok].
  eapply wp_mono; [by eapply wp_merge_with_next|]. intros _ s' (m' & -> & Hcase).
  assert (with_blocks c (t_count c) (l1 ++ b :: l2) = c) as Hc by (rewrite <- Hl; by destruct c).
  assert (m' = st_mem s → merged_next l1 b l2 = l1 ++ b :: l2 →
    heap_is (st_put m' s) (L1 ++ with_blocks c (t_count c) (merged_next l1 b l2) :: L2) ∧
    (∀ q k i, (q, k) ∈ live (L1 ++ c :: L2) → q ≤ i < q + k → st_mem (st_put m' s) !! i = st_mem s !! i) ∧
    ∀ i, ¬ t_at c ≤ i < t_stop c → st_mem (st_put m' s) !! i = st_mem s !! i) as Hid.
  { intros -> ->. rewrite st_put_mem, Hc. done. }
  unfold merged_next in *. destruct l2 as [|n l2]; [by apply Hid|].
  destruct (k_used n) eqn:Hn; [by apply Hid|]. destruct Hcase as [Hfr Hin']. clear Hid.
  set (g := grown b (k_size b + (k_size n + HEADER))) in *.
  assert (merged_next l1 b (n :: l2) = l1 ++ g :: reprev (k_at b) l2) as Hmn by (unfold merged_next; by rewrite Hn).
  pose proof (co_laid _ Hok) as Hlaid. rewrite Hl in Hlaid.
  assert (0 ≤ k_size b ∧ 0 ≤ k_size n) as [? ?].
  { split; [apply (laid_elem _ _ _ b Hlaid)|apply (laid_elem _ _ _ n Hlaid)]; in_list. }
  destruct (free_step s m' L1 c L2 (t_count c) l1 g (reprev (k_at b) l2)) as (Hh' & Hlive & Hout); try done.
  - rewrite <- Hmn. apply with_blocks_ok; [done|by apply merged_next_laid|].
    rewrite merged_next_count by done. rewrite <- Hl. apply Hok.
  - destruct Hfr as [? Hm]. split; [done|]. intros i Hi1 Hi2 Hi3. unfold g, HEADER in *. simpl in Hi2.
    apply Hm; [done|lia|]. intros x Hx. destruct l2 as [|y l2]; [done|]. injection Hx as ->.
    by apply (Hi3 (mk_bk (k_at x) (k_size x) (k_used x) (k_at b))).
  - split; [done|]. rewrite st_mem_put. split; [|done]. intros q k i Hq. apply (Hlive q k).
    rewrite <- Hmn. rewrite (live_with_blocks _ _ _ _ _ (t_blocks c)).
    + rewrite Hl, Hc. done.
    + rewrite merged_next_live by done. rewrite Hl, live_blocks_app, (live_blocks_cons b), Hu. done.
Qed.

Lemma wp_merge_prev_heap s L1 c L2 l1 b l2 :
  heap_is s (L1 ++ c :: L2) → t_blocks c = l1 ++ b :: l2 → k_used b = false →
  k_prev b = match last l1 with Some x => k_at x | None => NULL end →
  wp (merge_with_prev (k_at b) (u64 (k_size b + HEADER))) s (λ r s',
    ∃ l0 b', r = k_at b' ∧ k_used b' = false ∧
      heap_is s' (L1 ++ with_blocks c (t_count c) (l0 ++ b' :: l2) :: L2) ∧
      live_blocks (l0 ++ b' :: l2) = live_blocks (t_blocks c) ∧
      (l0, b') = (match last l1 with
                  | Some x => if k_used x then (l1, b)
                              else (removelast l1, grown x (k_size x + (k_size b + HEADER)))
                  | None => (l1, b)
                  end) ∧
      (∀ q k i, (q, k) ∈ live (L1 ++ c :: L2) → q ≤ i < q + k → st_mem s' !! i = st_mem s !! i) ∧
      ∀ i, ¬ t_at c ≤ i < t_stop c → st_mem s' !! i = st_mem s !! i).
Proof.
  intros Hh Hl Hu Hprev. destruct (containers_mid _ _ _ _ _ (hi_cts _ _ Hh)) as [Hin Hok].
  eapply wp_mono; [by eapply wp_merge_with_prev|]. intros r s' (m' & -> & Hcase).
  assert (with_blocks c (t_count c) (l1 ++ b :: l2) = c) as Hc by (rewrite <- Hl; by destruct c).
  destruct (last l1) as [x|] eqn:Hx.
  2: { destruct Hcase as [-> ->]. exists l1, b. rewrite st_put_mem, Hc, Hl. done. }
  destruct (k_used x) eqn:Hxu.
  { destruct Hcase as [-> ->]. exists l1, b. rewrite st_put_mem, Hc, Hl. done. }
  destruct Hcase as (-> & Hfr & Hin'). apply last_Some in Hx as [l0 ->]. rewrite removelast_last in *.
  set (g := grown x (k_size x + (k_size b + HEADER))) in *.
  pose proof (co_laid _ Hok) as Hlaid. rewrite Hl in Hlaid.
  assert (0 ≤ k_size b ∧ 0 ≤ k_size x) as [? ?].
  { split; [apply (laid_elem _ _ _ b Hlaid)|apply (laid_elem _ _ _ x Hlaid)]; in_list. }
  assert (live_blocks (l0 ++ g :: l2) = live_blocks (t_blocks c)) as Hlv.
  { rewrite Hl, !live_blocks_app, !live_blocks_cons. simpl. by rewrite Hxu, Hu, app_nil_r. }
  destruct (free_step s m' L1 c L2 (t_count c) l0 g l2) as (Hh' & Hlive & Hout); try done.
  - apply with_blocks_ok; [done|by apply merge_prev_laid|].
    rewrite (co_count _ Hok), Hl, !count_used_app, !count_used_cons. simpl. rewrite Hxu, Hu.
    unfold count_used at 2. simpl. lia.
  - eapply block_frame_weaken; [exact Hfr|done|]. unfold g, HEADER. simpl. lia.
  - exists l0, g. rewrite st_mem_put. split_and!; try done. intros q k i Hq. apply (Hlive q k).
    rewrite (live_with_blocks _ _ _ _ _ (t_blocks c)) by done. by rewrite Hl, Hc.
Qed.

(** The heap after [b], at [l1 ++ b :: l2] in container [c], is freed. *)
Definition freed_heap (L1 : list ct) (c : ct) (L2 : list ct) (l1 : list bk) (b : bk) (l2 : list bk) : list ct :=
  if t_count c =? 1 then L1 ++ set_prev (t_prev c) L2
  else L1 ++ with_blocks c (t_count c - 1) (freed l1 b l2) :: L2.

Lemma count_used_live l : count_used l = Z.of_nat (length (live_blocks l)).
Proof. unfold count_used, live_blocks. by rewrite length_fmap. Qed.

Lemma freed_heap_live L1 c L2 l1 b l2 :
  container_ok c → t_blocks c = l1 ++ b :: l2 → k_used b = true →
  live (L1 ++ c :: L2) ≡ₚ (k_at b + HEADER, k_size b) :: live (freed_heap L1 c L2 l1 b l2).
Proof.
  intros Hok Hl Hu. rewrite live_app, live_cons, Hl, live_blocks_app, live_blocks_cons, Hu. simpl.
  unfold freed_heap. destruct (t_count c =? 1) eqn:E; bool_facts.
  - rewrite live_app, live_set_prev. pose proof (co_count _ Hok) as Hc. rewrite E, Hl, count_used_app, count_used_cons, Hu in Hc.
    simpl in Hc. rewrite !count_used_live in Hc.
    assert (live_blocks l1 = []) as -> by (apply nil_length_inv; lia).
    assert (live_blocks l2 = []) as -> by (apply nil_length_inv; lia).
    simpl. by rewrite Permutation_middle.
  - rewrite live_app, live_cons. simpl. rewrite freed_live. by rewrite <- !app_assoc, <- app_comm_cons, !Permutation_middle.
Qed.

(** The data of the other containers is not in what [remove_container] changes. *)
Lemma others_live s L1 c L2 q k i :
  heap_is s (L1 ++ c :: L2) → (q, k) ∈ live (L1 ++ L2) → q ≤ i < q + k →
  ¬ t_at c ≤ i < t_stop c ∧ ¬ prev_field L2 i ∧ ¬ next_field L1 i.
Proof.
  intros Hh Hq Hi. pose proof (heap_all_ok _ _ Hh) as Hoks. pose proof (hi_apart _ _ Hh) as Hap.
  assert (∀ d, d ∈ L1 ++ c :: L2 → ¬ t_at d ≤ i < t_at d + HEADER) as Hhdr.
  { intros d Hd. eapply live_not_header; try done. rewrite live_app in *. rewrite live_cons. in_list. }
  unfold HEADER in Hhdr. split; [by eapply live_not_in_container|]. split.
  - intros (d & Hd%head_elem & Hdi). apply (Hhdr d); [in_list|lia].
  - intros (d & Hd%last_Some_elem_of & Hdi). apply (Hhdr d); [in_list|lia].
Qed.

Lemma wp_kfree s L1 c L2 l1 b l2 :
  heap_is s (L1 ++ c :: L2) → t_blocks c = l1 ++ b :: l2 → k_used b = true →
  k_prev b = match last l1 with Some x => k_at x | None => NULL end →
  wp (kfree (k_at b + HEADER)) s (λ _ s', heap_is s' (freed_heap L1 c L2 l1 b l2) ∧
    (∀ q k i, (q, k) ∈ live (freed_heap L1 c L2 l1 b l2) → q ≤ i < q + k → st_mem s' !! i = st_mem s !! i) ∧
    ∀ i, ¬ in_containers (L1 ++ c :: L2) i → st_mem s' !! i = st_mem s !! i).
Proof.
  intros Hh Hl Hu Hprev. destruct (containers_mid _ _ _ _ _ (hi_cts _ _ Hh)) as [Hin Hok].
  pose proof (block_facts_ok _ _ _ _ _ _ Hin Hok Hl) as [[B1 _ _ _ B5] Hcpos Hblo Hbs Hbhi Hchi _ _ _].
  pose proof (container_count _ Hok) as Hcnt. pose proof (co_count _ Hok) as Hcu.
  rewrite Hl, count_used_app, count_used_cons, Hu in Hcu. simpl in Hcu.
  pose proof (count_used_nonneg l1). pose proof (count_used_nonneg l2).
  unfold kfree. assert (DATA_BLOCK (k_at b + HEADER) = k_at b) as ->.
  { unfold DATA_BLOCK, HEADER, KERNEL_HEAP_STOP, KERNEL_VMA in *.
    replace (k_at b + 40 - 40) with (k_at b) by lia. apply u64_small. lia. }
  wp_step. eapply wp_load; [exact B1|]. wp_step.
  eapply wp_mono; [apply (wp_mark_unused c (head_ct L2) l1 b l2); [done|done|done|lia]|]. intros _ s1 (m1 & -> & Hfr1 & Hin1).
  set (c1 := with_blocks c (t_count c - 1) (l1 ++ unused b :: l2)) in *.
  destruct (free_step s m1 L1 c L2 (t_count c - 1) l1 (unused b) l2) as (Hh1 & Hlive1 & Hout1); try done.
  { apply with_blocks_ok; [done| |].
    - pose proof (co_laid _ Hok) as Hlaid. rewrite Hl in Hlaid. revert Hlaid. rewrite !laid_app. done.
    - rewrite count_used_app, count_used_cons. simpl. lia. }
  { eapply block_frame_weaken; [exact Hfr1|done|]. simpl. unfold HEADER. lia. }
  fold c1 in Hh1, Hlive1.
  assert (∀ i d, ¬ in_containers (L1 ++ c :: L2) i → d ∈ L1 ++ c :: L2 → ¬ t_at d ≤ i < t_stop d) as Hin_c.
  { intros i d Hi Hd Hdi. apply Hi. by exists d. }
  pose proof (chained_tail _ _ _ _ _ (ci_chain _ _ _ Hin1)) as [[_ _ _ _ U5] _]. simpl in U5.
  pose proof (ci_count _ _ _ Hin1) as U2. simpl in U2.
  unfold c_used_blocks, b_container.
  wp_step. eapply wp_load; [rewrite st_mem_put; exact U5|].
  wp_step. eapply wp_load; [rewrite st_mem_put; exact U2|].
  unfold freed_heap. destruct (t_count c =? 1) eqn:E; bool_facts.
  - rewrite E. simpl. wp_step. eapply wp_load; [rewrite st_mem_put; exact U5|].
    eapply wp_mono; [exact (wp_remove_container L1 c1 L2 _ Hh1)|]. intros [] s' [Hh' Hfr']. split; [exact Hh'|]. split.
    2: { intros i Hi. rewrite Hfr', st_mem_put; [apply Hout1; apply Hin_c; [done|in_list]|apply (Hin_c i c Hi); in_list|..].
         - intros (d & Hd%head_elem & Hdi). apply (Hin_c i d Hi); [in_list|].
           destruct (heap_elem _ _ d Hh) as (_ & _ & _ & ? & _); [in_list|]. unfold HEADER in *. lia.
         - intros (d & Hd%last_Some_elem_of & Hdi). apply (Hin_c i d Hi); [in_list|].
           destruct (heap_elem _ _ d Hh) as (_ & _ & _ & ? & _); [in_list|]. unfold HEADER in *. lia. }
    intros q k i Hq Hi. rewrite live_app, live_set_prev in Hq. rewrite st_mem_put in Hfr'. destruct (others_live _ L1 c1 L2 q k i Hh1) as (? & ? & ?); [by rewrite live_app|done|].
    rewrite Hfr', (Hlive1 q k i); try done. rewrite live_app, live_cons. in_list.
  - rewrite (proj2 (Z.eqb_neq (t_count c - 1) 0)) by lia.
    wp_step. eapply wp_mono.
    { apply (wp_merge_prev_heap _ L1 c1 L2 l1 (unused b) l2 Hh1); done. }
    intros r s2 (l0 & b' & -> & Hu' & Hh2 & Hlv2 & Heq & Hsame2 & Hout2). rewrite st_mem_put in Hsame2, Hout2.
    eapply wp_mono; [by eapply wp_merge_next_heap|]. intros _ s3 (Hh3 & Hsame3 & Hout3).
    assert (merged_next l0 b' l2 = freed l1 b l2) as Hfreed.
    { unfold freed. destruct (last l1) as [x|]; [destruct (k_used x)|]; by injection Heq as -> ->. }
    simpl in Hh3. rewrite Hfreed in Hh3. change (with_blocks (with_blocks c1 _ _) _ _) with (with_blocks c (t_count c - 1) (freed l1 b l2)) in Hh3.
    split; [exact Hh3|]. split.
    2: { intros i Hi. assert (¬ t_at c ≤ i < t_stop c) as Hc by (apply Hin_c; [done|in_list]).
         rewrite Hout3, Hout2 by exact Hc. by apply Hout1. }
    intros q k i Hq Hi.
    assert ((q, k) ∈ live (L1 ++ c1 :: L2)) as Hq1.
    { rewrite (live_with_blocks _ c _ _ _ (l1 ++ unused b :: l2)) in Hq; [exact Hq|].
      by rewrite freed_live, live_blocks_app, live_blocks_cons. }
    rewrite (Hsame3 q k i), (Hsame2 q k i), (Hlive1 q k i); try done.
    rewrite live_app, live_cons in *. simpl. by rewrite Hlv2.
Qed.
End kfree.
