(* ===== verification/KheapProps.v ===== *)
(** * Properties of the kernel heap

    The theorems about kheap.c, for every virtual memory manager that keeps the
    laws of [KernelVmm], and an instance of it to run the heap on. *)
From S2P Require Import Prelude CInt Mem CString Kheap.

(** ** A virtual memory manager to run the heap on

    Pages are taken from a growing address and never reused, as the stub of
    tests/kheap.c takes them from [malloc]. *)
Record bump_state : Type := mk_bump {
  bu_mem : mem; bu_heap : Z; bu_next : Z; bu_owned : list (Z * Z);
}.

#[export] Program Instance bump_mem : MemState bump_state := {|
  st_mem := bu_mem; st_put := λ m s, mk_bump m (bu_heap s) (bu_next s) (bu_owned s);
|}.
Next Obligation. done. Qed.
Next Obligation. by intros []. Qed.
Next Obligation. done. Qed.

#[export] Program Instance bump_heap : HeapState bump_state := {|
  heap := bu_heap; put_heap := λ h s, mk_bump (bu_mem s) h (bu_next s) (bu_owned s);
|}.
Solve All Obligations with done.

Definition map_pages (m : mem) (va n : Z) : mem := foldr (λ i m, <[i := 0]> m) m (seqZ va (n * 4096)).
Definition unmap_pages (m : mem) (va n : Z) : mem := foldr (λ i m, delete i m) m (seqZ va (n * 4096)).

Definition bump_alloc_between (lower upper n flags : Z) : M bump_state Z :=
  s ← get_state;
  let va := bu_next s in
  if va + n * 4096 <=? upper then
    put_state (mk_bump (map_pages (bu_mem s) va n) (bu_heap s) (va + n * 4096) ((va, n) :: bu_owned s)) ;;
    mret va
  else mret NULL.

Definition bump_free (va n : Z) : M bump_state unit :=
  s ← get_state;
  put_state (mk_bump (unmap_pages (bu_mem s) va n) (bu_heap s) (bu_next s)
    (filter (λ p, p.1 ≠ va) (bu_owned s))).

Record bump_ok (s : bump_state) : Prop := {
  bo_next : 0 < bu_next s ∧ bu_next s mod 4096 = 0;
  bo_fresh : ∀ i, bu_next s ≤ i → bu_mem s !! i = None;
}.

Lemma map_pages_lookup m va n i :
  map_pages m va n !! i = if decide (va ≤ i < va + n * 4096) then Some 0 else m !! i.
Proof.
  unfold map_pages. transitivity (if decide (i ∈ seqZ va (n * 4096)) then Some 0 else m !! i).
  - induction (seqZ va (n * 4096)) as [|j l IH]; simpl; [done|].
    destruct (decide (i = j)) as [->|Hne].
    + rewrite lookup_insert_eq, decide_True by set_solver. done.
    + rewrite lookup_insert_ne by done. rewrite IH. repeat case_decide; set_solver.
  - assert (i ∈ seqZ va (n * 4096) ↔ va ≤ i < va + n * 4096) as Hin by apply elem_of_seqZ.
    repeat case_decide; tauto.
Qed.

Lemma unmap_pages_lookup m va n i :
  ¬ va ≤ i < va + n * 4096 → unmap_pages m va n !! i = m !! i.
Proof.
  unfold unmap_pages. intros Hi.
  assert (i ∉ seqZ va (n * 4096)) as Hin by (rewrite elem_of_seqZ; lia).
  induction (seqZ va (n * 4096)) as [|j l IH]; simpl; [done|].
  rewrite lookup_delete_ne by set_solver. apply IH. set_solver.
Qed.

Lemma unmap_pages_none m va n i : m !! i = None → unmap_pages m va n !! i = None.
Proof.
  unfold unmap_pages. intros Hi. induction (seqZ va (n * 4096)) as [|j l IH]; simpl; [done|].
  destruct (decide (i = j)) as [->|Hne]; [by rewrite lookup_delete_eq|by rewrite lookup_delete_ne].
Qed.

#[export] Program Instance bump_vmm : KernelVmm bump_state := {|
  vmm_alloc_between := bump_alloc_between;
  vmm_free := bump_free;
  vmm_inv := bump_ok;
  vmm_owned := λ s va n, (va, n) ∈ bu_owned s;
|}.
Next Obligation.
  intros m s [H1 H2] Hd. split; [done|]. intros i Hi. simpl. specialize (Hd i). simpl in Hd.
  rewrite H2 in Hd by done. destruct (m !! i); [|done]. destruct Hd as [Hd _]. by destruct (Hd (ex_intro _ _ eq_refl)).
Qed.
Next Obligation. by intros h s []. Qed.
Next Obligation. done. Qed.
Next Obligation. done. Qed.
Next Obligation.
  intros lower upper n flags s [[H1 H2] H3] Hn. unfold bump_alloc_between. wp_step. wp_step.
  case_if; bool_facts.
  - wp_step. unfold put_state. unfold wp at 1. apply wp_ret. simpl. split_and!; try done.
    + split; simpl; [split; [lia|zlia]|]. intros i Hi. rewrite map_pages_lookup, decide_False by lia. apply H3. lia.
    + intros i [v Hi]. rewrite map_pages_lookup, decide_False; [done|]. intros Hin.
      rewrite H3 in Hi by lia. done.
    + intros q k Hq. set_solver.
    + intros _. split_and!; try done; try lia.
      * intros i Hi. apply H3. lia.
      * intros i Hi. rewrite map_pages_lookup, decide_True by done. by eexists.
      * set_solver.
  - apply wp_ret. simpl. split_and!; try done.
Qed.
Next Obligation.
  intros va n s [[H1 H2] H3] Hown. unfold bump_free. wp_step. wp_step. unfold put_state, wp. simpl. split_and!; try done.
  - split; [done|]. intros i Hi. apply unmap_pages_none, H3. done.
  - intros i Hi. by apply unmap_pages_lookup.
  - intros q k Hq Hne. by apply list_elem_of_filter.
Qed.

(** ** Properties *)
Section properties.
Context {S : Type} {MS : MemState S} {HS : HeapState S} {VS : KernelVmm S}.
Implicit Types s : S.

(** The [prev] fields of the blocks are right. *)
Definition prevs_right (L : list ct) : Prop := Forall (λ c, prevs_ok NULL (t_blocks c)) L.

(** Bytes outside the heap stay what they are, and stay outside. *)
Definition outside_kept s (L : list ct) s' (L' : list ct) : Prop :=
  ∀ i, is_Some (st_mem s !! i) → ¬ in_containers L i → st_mem s' !! i = st_mem s !! i ∧ ¬ in_containers L' i.

Lemma in_containers_cons c L i : in_containers (c :: L) i ↔ t_at c ≤ i < t_stop c ∨ in_containers L i.
Proof. unfold in_containers. setoid_rewrite elem_of_cons. naive_solver. Qed.

Lemma in_containers_app L1 L2 i : in_containers (L1 ++ L2) i ↔ in_containers L1 i ∨ in_containers L2 i.
Proof. unfold in_containers. setoid_rewrite elem_of_app. naive_solver. Qed.

Lemma in_containers_set_prev p L i : in_containers (set_prev p L) i ↔ in_containers L i.
Proof. destruct L as [|c L]; [done|]. simpl. by rewrite !in_containers_cons. Qed.

Lemma prev_field_inside s L i : heap_is s L → prev_field L i → in_containers L i.
Proof.
  intros Hh (d & Hd%head_elem & Hi). exists d. split; [done|].
  destruct (heap_elem _ _ d Hh Hd) as (_ & _ & _ & ? & _). unfold HEADER in *. lia.
Qed.

Lemma freed_heap_inside L1 c L2 l1 b l2 i :
  in_containers (freed_heap L1 c L2 l1 b l2) i → in_containers (L1 ++ c :: L2) i.
Proof.
  unfold freed_heap. rewrite in_containers_app, in_containers_cons. case_match; rewrite in_containers_app; [|rewrite in_containers_cons; done].
  rewrite in_containers_set_prev. tauto.
Qed.

Lemma allocated_outside size s L p L' m' s' :
  heap_is s L → allocated size L (st_mem s) p L' m' → st_mem s' = m' → outside_kept s L s' L'.
Proof.
  intros Hh (L1 & c & L2 & l1 & b & l2 & -> & Hl & _ & _ & _ & _ & -> & Hfr) <- i Hi Hout.
  assert (container_ok c) as Hok by (apply (heap_elem _ _ c Hh); in_list).
  rewrite in_containers_app, in_containers_cons in Hout. split.
  - apply (take_frame_out c l1 b l2 _ _ Hok Hl Hfr). tauto.
  - rewrite in_containers_app, in_containers_cons. exact Hout.
Qed.

Lemma created_outside s L n va s0 :
  heap_is s L → 5 ≤ n → created s L n va s0 → va ≠ NULL → outside_kept s L s0 (new_ct va n :: set_prev va L).
Proof.
  intros Hh Hn [Hsame [[? _]|(_ & _ & Hfresh)]] Hva i Hi Hout; [done|]. split.
  - apply Hsame; [done|]. by intros ?%(prev_field_inside s).
  - rewrite in_containers_cons, in_containers_set_prev. intros [Hin|?]; [|done].
    rewrite Hfresh in Hi; [by destruct Hi|]. revert Hin. unfold t_stop, new_ct. simpl. lia.
Qed.

Lemma outside_kept_trans s L s1 L1 s2 L2 : outside_kept s L s1 L1 → outside_kept s1 L1 s2 L2 → outside_kept s L s2 L2.
Proof. intros H1 H2 i Hi Hout. destruct (H1 i Hi Hout) as [E Hout1]. rewrite <- E in *. by apply H2. Qed.

Lemma created_live L va n : live (new_ct va n :: set_prev va L) = live L.
Proof. by rewrite live_cons, live_set_prev. Qed.

Lemma created_prevs L va n :
  prevs_right L → prevs_right (new_ct va n :: set_prev va L).
Proof. unfold prevs_right. intros HL. constructor; [done|]. by destruct HL; constructor. Qed.

(** [kmalloc] does not look at the [prev] fields of the blocks. *)
Lemma kmalloc_is_run s L size :
  heap_is s L → 0 ≤ size < 2 ^ 64 - 2 * 4096 - HEADER →
  ∃ p s' L', kmalloc size s = Done (p, s') ∧ heap_is s' L' ∧ (prevs_right L → prevs_right L') ∧
    ((p = NULL ∧ L' = L) ∨
     (p ≠ NULL ∧ p mod KHEAP_ALIGN_IN_BYTES = 0 ∧
      ∃ n, size ≤ n ∧ live L' ≡ₚ (p, n) :: live L ∧ mapped (st_mem s') p n ∧
        ∀ q k, (q, k) ∈ live L → p + n ≤ q ∨ q + k ≤ p)) ∧
    (∀ q k i, (q, k) ∈ live L → q ≤ i < q + k → st_mem s' !! i = st_mem s !! i) ∧ outside_kept s L s' L'.
Proof.
  intros Hh Hsz. destruct (proj1 (wp_Done _ _ _) (wp_kmalloc s L size Hh Hsz)) as (p & s' & Hrun & Hpost).
  destruct Hpost as [(-> & Hh' & Hfr)|(s0 & L0 & b & m' & L' & -> & -> & Hh0 & Hh' & Hal & Hcase)].
  { exists NULL, s', L. split_and!; [done|done|done|by left|..].
    - intros q k i Hq Hi. destruct (live_not_prev_field s L q k i Hh Hq Hi). by apply Hfr.
    - intros i Hi Hout. split; [|done]. apply Hfr; [done|]. by intros ?%(prev_field_inside s). }
  assert (live L0 = live L ∧ (prevs_right L → prevs_right L0) ∧
    ∀ q k i, (q, k) ∈ live L → q ≤ i < q + k → st_mem s0 !! i = st_mem s !! i) as (Hl0 & Hp0 & Hm0).
  { destruct Hcase as [[-> ->]|(n & va & Hn & -> & Hfr & _)]; [done|].
    split_and!; [by rewrite created_live|apply created_prevs|]. intros q k i Hq Hi.
    destruct (live_not_prev_field s L q k i Hh Hq Hi). by apply Hfr. }
  destruct (allocated_live size s0 L0 b L' m' Hh0 ltac:(lia) Hal) as (Hpos & Hali & n & Hn & _ & Hlive & Hmap & Hothers).
  rewrite Hl0 in *. exists (b + HEADER), (st_put m' s0), L'. split_and!; [done|done| | | |].
  - intros Hpr. eapply prevs_allocated; [by apply Hp0|exact Hal].
  - right. split_and!; [unfold NULL, HEADER in *; lia|done|]. exists n. rewrite st_mem_put. split_and!; try done.
    intros q k Hq. by apply Hothers.
  - intros q k i Hq Hi. rewrite st_mem_put. destruct (Hothers q k Hq) as [_ Hs]. rewrite Hs by done. by apply (Hm0 q k).
  - pose proof (allocated_outside size s0 L0 b L' m' (st_put m' s0) Hh0 Hal (st_mem_put _ _)) as Hout.
    destruct Hcase as [[-> ->]|(n' & va & Hn' & -> & Hcr)]; [done|]. eapply outside_kept_trans; [|exact Hout].
    apply created_outside; try done. pose proof (heap_elem s0 _ (new_ct va n') Hh0 ltac:(in_list)) as (_ & _ & Hva & _).
    simpl in Hva. unfold NULL. lia.
Qed.

Lemma kmalloc_run s L size :
  heap_ok s L → 0 ≤ size < 2 ^ 64 - 2 * 4096 - HEADER →
  ∃ p s' L', kmalloc size s = Done (p, s') ∧ heap_ok s' L' ∧
    ((p = NULL ∧ L' = L) ∨
     (p ≠ NULL ∧ p mod KHEAP_ALIGN_IN_BYTES = 0 ∧
      ∃ n, size ≤ n ∧ live L' ≡ₚ (p, n) :: live L ∧ mapped (st_mem s') p n ∧
        ∀ q k, (q, k) ∈ live L → p + n ≤ q ∨ q + k ≤ p)) ∧
    (∀ q k i, (q, k) ∈ live L → q ≤ i < q + k → st_mem s' !! i = st_mem s !! i) ∧ outside_kept s L s' L'.
Proof.
  intros [Hh Hpr] Hsz. destruct (kmalloc_is_run s L size Hh Hsz) as (p & s' & L' & Hrun & Hh' & Hpr' & Hpost).
  exists p, s', L'. split; [done|]. split; [|exact Hpost]. split; [done|by apply Hpr'].
Qed.

(** C1: on a heap with containers [L], [kmalloc] returns [NULL] and leaves the
    heap as it was, or returns 16-byte aligned, mapped memory of at least [size]
    bytes, apart from every block in use, which is then the only new block in
    use.  The data of the blocks in use is not changed, nor is any byte outside the
    heap, and the heap stays well formed. *)
Theorem kmalloc_contract s L size :
  heap_ok s L → 0 ≤ size < 2 ^ 64 - 2 * 4096 - HEADER →
  ∃ p s' L', kmalloc size s = Done (p, s') ∧ heap_ok s' L' ∧
    ((p = NULL ∧ L' = L) ∨
     (p ≠ NULL ∧ p mod KHEAP_ALIGN_IN_BYTES = 0 ∧
      ∃ n, size ≤ n ∧ live L' ≡ₚ (p, n) :: live L ∧ mapped (st_mem s') p n ∧
        ∀ q k, (q, k) ∈ live L → p + n ≤ q ∨ q + k ≤ p)) ∧
    (∀ q k i, (q, k) ∈ live L → q ≤ i < q + k → st_mem s' !! i = st_mem s !! i) ∧ outside_kept s L s' L'.
Proof. apply kmalloc_run. Qed.

(** Where a block in use is in the list of containers. *)
Lemma live_at s L p n :
  heap_is s L → (p, n) ∈ live L →
  ∃ L1 c L2 l1 b l2, L = L1 ++ c :: L2 ∧ t_blocks c = l1 ++ b :: l2 ∧ k_used b = true ∧
    p = k_at b + HEADER ∧ n = k_size b ∧ container_ok c.
Proof.
  intros Hh (c & b & Hc & Hb & Hu & -> & ->)%live_elem.
  pose proof (heap_all_ok _ _ Hh) as Hok. rewrite Forall_forall in Hok. pose proof (Hok c Hc).
  apply list_elem_of_split in Hc as (L1 & L2 & ->). apply list_elem_of_split in Hb as (l1 & l2 & Hl).
  by exists L1, c, L2, l1, b, l2.
Qed.

Lemma live_split s L p n :
  heap_ok s L → (p, n) ∈ live L →
  ∃ L1 c L2 l1 b l2, L = L1 ++ c :: L2 ∧ t_blocks c = l1 ++ b :: l2 ∧ k_used b = true ∧
    p = k_at b + HEADER ∧ n = k_size b ∧ container_ok c ∧ prevs_ok NULL (t_blocks c) ∧
    k_prev b = match last l1 with Some x => k_at x | None => NULL end.
Proof.
  intros [Hh Hpr] Hp. destruct (live_at s L p n Hh Hp) as (L1 & c & L2 & l1 & b & l2 & -> & Hl & Hu & Ep & En & Hc).
  apply Forall_app in Hpr as [_ [Hpr _]%Forall_cons]. exists L1, c, L2, l1, b, l2. split_and!; try done.
  cbn beta in Hpr. rewrite Hl in Hpr. by apply prevs_ok_app in Hpr.
Qed.

(** [kfree] looks at the [prev] field of the block it frees, and of no other. *)
Lemma kfree_is_run s L1 c L2 l1 b l2 :
  heap_is s (L1 ++ c :: L2) → t_blocks c = l1 ++ b :: l2 → k_used b = true →
  k_prev b = match last l1 with Some x => k_at x | None => NULL end →
  ∃ s', kfree (k_at b + HEADER) s = Done (tt, s') ∧ heap_is s' (freed_heap L1 c L2 l1 b l2) ∧
    (∀ q k i, (q, k) ∈ live (freed_heap L1 c L2 l1 b l2) → q ≤ i < q + k → st_mem s' !! i = st_mem s !! i) ∧
    outside_kept s (L1 ++ c :: L2) s' (freed_heap L1 c L2 l1 b l2) ∧
    (prevs_right (L1 ++ c :: L2) → (prevs_right (freed_heap L1 c L2 l1 b l2) ↔
     t_count c = 1 ∨ ¬ ∃ x n, last l1 = Some x ∧ k_used x = false ∧ head l2 = Some n ∧ k_used n = true)).
Proof.
  intros Hh Hl Hu Hprev. destruct (proj1 (wp_Done _ _ _) (wp_kfree s L1 c L2 l1 b l2 Hh Hl Hu Hprev))
    as ([] & s' & Hrun & Hh' & Hsame & Hout).
  exists s'. split_and!; [done|done|done|intros i _ Hi; split; [by apply Hout|by intros ?%freed_heap_inside]|].
  intros [HL1 [Hc HL2]%Forall_cons]%Forall_app. cbn beta in Hc. rewrite Hl in Hc.
  pose proof (heap_all_ok _ _ Hh) as Hok. rewrite Forall_forall in Hok.
  assert (container_ok c) as Hokc by (apply Hok; in_list). unfold prevs_right, freed_heap in *.
  pose proof (laid_NoDup _ _ _ (co_laid _ Hokc)) as Hnd. rewrite Hl in Hnd.
  pose proof (freed_prevs NULL l1 b l2 Hc Hnd) as Hfp.
  destruct (t_count c =? 1) eqn:E; bool_facts.
  - split; [by left|]. intros _. apply Forall_app. split; [done|]. by destruct HL2; constructor.
  - rewrite Forall_app, Forall_cons. simpl. rewrite Hfp. tauto.
Qed.

Lemma kfree_run s L1 c L2 l1 b l2 :
  heap_ok s (L1 ++ c :: L2) → t_blocks c = l1 ++ b :: l2 → k_used b = true →
  ∃ s', kfree (k_at b + HEADER) s = Done (tt, s') ∧ heap_is s' (freed_heap L1 c L2 l1 b l2) ∧
    (∀ q k i, (q, k) ∈ live (freed_heap L1 c L2 l1 b l2) → q ≤ i < q + k → st_mem s' !! i = st_mem s !! i) ∧
    outside_kept s (L1 ++ c :: L2) s' (freed_heap L1 c L2 l1 b l2) ∧
    (heap_ok s' (freed_heap L1 c L2 l1 b l2) ↔
     t_count c = 1 ∨ ¬ ∃ x n, last l1 = Some x ∧ k_used x = false ∧ head l2 = Some n ∧ k_used n = true).
Proof.
  intros [Hh Hpr] Hl Hu. pose proof Hpr as [_ [Hc _]%Forall_cons]%Forall_app. cbn beta in Hc. rewrite Hl in Hc.
  destruct (kfree_is_run s L1 c L2 l1 b l2 Hh Hl Hu (prevs_ok_app _ _ _ _ Hc)) as (s' & Hrun & Hh' & Hsame & Hout & Hiff).
  exists s'. split_and!; try done. rewrite <- (Hiff Hpr). unfold heap_ok, prevs_right. tauto.
Qed.

(** C2: on a well-formed heap, [kfree] of a block in use always returns; the
    other blocks in use are exactly those that remain, with their data, and no byte
    outside the heap changes. *)
Theorem kfree_contract s L p n :
  heap_ok s L → (p, n) ∈ live L →
  ∃ s' L', kfree p s = Done (tt, s') ∧ heap_is s' L' ∧ live L ≡ₚ (p, n) :: live L' ∧
    (∀ q k i, (q, k) ∈ live L' → q ≤ i < q + k → st_mem s' !! i = st_mem s !! i) ∧ outside_kept s L s' L'.
Proof.
  intros Hok Hp. destruct (live_split _ _ _ _ Hok Hp) as (L1 & c & L2 & l1 & b & l2 & -> & Hl & Hu & -> & -> & Hc & _).
  destruct (kfree_run s L1 c L2 l1 b l2 Hok Hl Hu) as (s' & Hrun & Hh' & Hsame & Hout & _).
  exists s', (freed_heap L1 c L2 l1 b l2). split_and!; [done|done|by apply freed_heap_live|done|done].
Qed.

(** [kfree] keeps the [prev] fields right exactly when it does not merge
    the block with a free block before it while the block after it is in use:
    in that case the block after it still points to the header merged away. *)
Theorem kfree_prev_fields s L1 c L2 l1 b l2 :
  heap_ok s (L1 ++ c :: L2) → t_blocks c = l1 ++ b :: l2 → k_used b = true →
  ∃ s', kfree (k_at b + HEADER) s = Done (tt, s') ∧ heap_is s' (freed_heap L1 c L2 l1 b l2) ∧
    (heap_ok s' (freed_heap L1 c L2 l1 b l2) ↔
     t_count c = 1 ∨ ¬ ∃ x n, last l1 = Some x ∧ k_used x = false ∧ head l2 = Some n ∧ k_used n = true).
Proof.
  intros Hok Hl Hu. destruct (kfree_run s L1 c L2 l1 b l2 Hok Hl Hu) as (s' & Hrun & Hh' & _ & _ & Hiff). by exists s'.
Qed.

(** [kheap_init] makes a well-formed heap of one free block, or panics. *)
Theorem kheap_init_ready s pages :
  heap_ok s [] → 0 ≤ pages < 2 ^ 52 →
  kheap_init pages s = Faulted (Panicked "kheap_init: failed to init kheap") ∨
  ∃ s' va, kheap_init pages s = Done (tt, s') ∧ heap_ok s' [new_ct va (Z.max KHEAP_MIN_ALLOC_IN_PAGES pages)].
Proof.
  intros [Hh _] Hpg. destruct (proj1 (wp_Done _ _ _) (wp_create_container s [] pages Hh Hpg)) as (va & s' & Hrun & Hcr).
  unfold kheap_init. rewrite (bind_Done _ _ _ _ _ Hrun).
  destruct Hcr as [_ [[-> Hh']|(Hva & Hh' & _)]]; [by left|]. right.
  rewrite (proj2 (Z.eqb_neq va NULL)) by done. exists s', va. split; [done|]. split; [exact Hh'|].
  by repeat constructor.
Qed.

(** For a size within 40 bytes of [2^64] the size of the new container
    wraps around to the minimum: [kmalloc] allocates five pages and panics. *)
Theorem kmalloc_huge_size_panics s L size :
  heap_ok s L → 2 ^ 64 - HEADER ≤ size < 2 ^ 64 →
  ∃ c s1, create_container 2 s = Done (c, s1) ∧
    kmalloc size s = if c =? NULL then Done (NULL, s1)
                     else Faulted (Panicked "kmalloc: the impossible is possible").
Proof.
  intros [Hh _] Hsz.
  assert (∀ s L, heap_is s L → ∀ c b, c ∈ L → b ∈ t_blocks c → fits size b = false) as Hnofit.
  { intros s0 L0 Hh0 c b Hc Hb. destruct (heap_elem _ _ _ Hh0 Hc) as (Hok & _ & ? & _ & _ & ?).
    destruct (laid_elem _ _ _ _ (co_laid _ Hok) Hb) as (? & ? & ?). unfold fits.
    rewrite (proj2 (Z.leb_gt _ _)); [by rewrite andb_false_r|].
    unfold t_stop, HEADER, KERNEL_HEAP_STOP, KERNEL_VMA in *. lia. }
  destruct (proj1 (wp_Done _ _ _) (wp_create_container s L 2 Hh ltac:(lia))) as (c & s1 & Hrun & Hcr).
  exists c, s1. split; [done|]. unfold kmalloc, mem_fuel.
  rewrite (bind_Done _ _ _ (heap s) s) by done. rewrite (bind_Done _ _ _ (Datatypes.S (base.size (st_mem s))) s) by done.
  rewrite (hi_head _ _ Hh).
  destruct (proj1 (wp_Done _ _ _) (wp_search s L size Hh ltac:(unfold HEADER in *; lia))) as (b & s2 & Hs & Hpost).
  rewrite (bind_Done _ _ _ _ _ Hs). destruct Hpost as [(-> & -> & _)|(_ & m' & L' & _ & _ & L1 & d & L2 & l1 & b' & l2 & HL & Hl & Hf & _)].
  2: { rewrite (Hnofit s L Hh d b') in Hf; [done|rewrite HL; in_list|rewrite Hl; in_list]. }
  simpl. replace (u64 (u64 (size + HEADER) / PAGE_SIZE_IN_BYTES + 2)) with 2.
  2: { unfold HEADER, PAGE_SIZE_IN_BYTES, u64 in *. zlia. }
  rewrite (bind_Done _ _ _ _ _ Hrun).
  destruct Hcr as [_ [[-> Hh']|(Hva & Hh' & _)]]; [done|]. rewrite (proj2 (Z.eqb_neq c NULL)) by done.
  destruct (proj1 (wp_Done _ _ _) (wp_try_alloc_block [] _ _ size s1 Hh' ltac:(unfold HEADER in *; lia)
    ltac:(intros ? ? []%not_elem_of_nil))) as (b & s2 & Htry & Hpost).
  simpl in Htry. rewrite (bind_Done _ _ _ _ _ Htry).
  destruct Hpost as [(-> & -> & _)|(_ & m' & L' & _ & _ & L1 & d & L2 & l1 & b' & l2 & HL & Hl & Hf & _)]; [done|].
  rewrite (Hnofit s1 _ Hh' d b') in Hf; [done|simpl in HL; rewrite HL; in_list|rewrite Hl; in_list].
Qed.
End properties.

(** ** A run that corrupts live data *)

(** The header of a block at [b]. *)
Definition write_block (m : mem) (b size used prev next c : Z) : mem :=
  write_le 8 (write_le 8 (write_le 8 (write_le 1 (write_le 8 m b size) (b + 8) used) (b + 16) prev) (b + 24) next)
    (b + 32) c.

(** The start of a container of five pages at 0x10000, after four calls
    [kmalloc(16)]; the free block at its end is never reached. *)
Definition four_blocks : mem :=
  let m := zero_mem 0x10000 336 in
  let m := write_le 8 (write_le 8 (write_le 8 m 0x10000 (5 * 4096 - 40)) 0x10008 4) 0x10020 0x10028 in
  let m := write_block m 0x10028 16 1 NULL 0x10068 0x10000 in
  let m := write_block m 0x10068 16 1 0x10028 0x100a8 0x10000 in
  let m := write_block m 0x100a8 16 1 0x10068 0x100e8 0x10000 in
  let m := write_block m 0x100e8 16 1 0x100a8 0x10128 0x10000 in
  write_block m 0x10128 (5 * 4096 - 336) 0 0x100e8 NULL 0x10000.
Definition four_blocks_state : bump_state := mk_bump four_blocks 0x10000 0x15000 [(0x10000, 5)].

(** The first two blocks are freed, which merges them; their space is allocated
    again and the client clears it; then the third block is freed. *)
Definition stale_prev_run : M bump_state (Z * mem * mem) :=
  kfree 0x10050 ;;
  kfree 0x10090 ;;
  p ← kmalloc 72;
  memset p 0 72 ;;
  before ← gets st_mem;
  kfree 0x100d0 ;;
  after ← gets st_mem;
  mret (p, before, after).

(** After the merge of two freed blocks the third one's [prev] still
    points into the merged block; freeing it writes 16 bytes, a size and a
    [next] pointer, into the data a client has allocated there since. *)
Theorem kfree_stale_prev_corrupts_live_data :
  ∃ p before after s', stale_prev_run four_blocks_state = Done ((p, before, after), s') ∧
    load_le 8 before (p + 24) = Some 0 ∧ load_le 8 after (p + 24) = Some 56 ∧
    load_le 8 before (p + 48) = Some 0 ∧ load_le 8 after (p + 48) = Some (p + 152).
Proof.
  assert (match stale_prev_run four_blocks_state with
          | Done ((p, before, after), _) =>
              bool_decide (load_le 8 before (p + 24) = Some 0 ∧ load_le 8 after (p + 24) = Some 56 ∧
                load_le 8 before (p + 48) = Some 0 ∧ load_le 8 after (p + 48) = Some (p + 152))
          | Faulted _ => false
          end = true) as Hcheck by (vm_compute; reflexivity).
  destruct (stale_prev_run four_blocks_state) as [[[[p before] after] s']|f]; [|done].
  apply bool_decide_eq_true in Hcheck. by exists p, before, after, s'.
Qed.

(** ** Witnesses *)
Definition ex_va : Z := 0xffffffef80000000.
Definition bump_start : bump_state := mk_bump ∅ NULL ex_va [].

(** A heap of one container, and the same with a block of 16 bytes in use. *)
Definition ex_heap1 : bump_state :=
  match create_container 5 bump_start with Done (_, s) => s | Faulted _ => bump_start end.
Definition ex_heap2 : bump_state :=
  match try_alloc_block ex_va 16 ex_heap1 with Done (_, s) => s | Faulted _ => bump_start end.
Definition ex_block : bk := mk_bk (ex_va + HEADER) 16 true NULL.
Definition ex_free : bk := mk_bk (ex_va + HEADER + 64) (5 * 4096 - 40 - 40 - 64) false (ex_va + HEADER).
Definition ex_ct : ct := mk_ct ex_va (5 * 4096 - HEADER) 1 NULL [ex_block; ex_free].

Lemma bump_start_ok : heap_ok bump_start [].
Proof.
  split; [|constructor]. split; [done|done|done|intros c []%not_elem_of_nil|]. split; [done|]. intros i _. apply lookup_empty.
Qed.

Lemma create_container_result pages c va s s0 s1 :
  vmm_alloc_between KERNEL_HEAP_START KERNEL_HEAP_STOP (MAX KHEAP_MIN_ALLOC_IN_PAGES pages) PAGE_KERNEL_RW s
    = Done (va, s0) →
  create_container (VS := bump_vmm) pages s = Done (c, s1) → c = va.
Proof.
  intros Hva Hrun. unfold create_container in Hrun. rewrite (bind_Done _ _ _ _ _ Hva) in Hrun.
  destruct (va =? NULL) eqn:E; bool_facts; [by injection Hrun as <-|].
  repeat (apply bind_inv in Hrun as (? & ? & _ & Hrun)). by injection Hrun as <-.
Qed.

Lemma bump_alloc_Done lower upper n flags s :
  bu_next s + n * 4096 ≤ upper →
  bump_alloc_between lower upper n flags s =
    Done (bu_next s, mk_bump (map_pages (bu_mem s) (bu_next s) n) (bu_heap s) (bu_next s + n * 4096)
                       ((bu_next s, n) :: bu_owned s)).
Proof.
  intros Hle. unfold bump_alloc_between. rewrite (bind_Done _ _ _ s s) by done.
  by rewrite (proj2 (Z.leb_le _ _) Hle).
Qed.

Lemma ex_heap1_ok :
  create_container 5 bump_start = Done (ex_va, ex_heap1) ∧ heap_ok ex_heap1 [new_ct ex_va 5].
Proof.
  destruct (proj1 (wp_Done _ _ _) (wp_create_container bump_start [] 5 (proj1 bump_start_ok) ltac:(lia)))
    as (va & s1 & Hrun & _ & Hcase).
  assert (va = ex_va) as ->.
  { eapply create_container_result; [|exact Hrun]. change (MAX KHEAP_MIN_ALLOC_IN_PAGES 5) with 5.
    apply (bump_alloc_Done _ _ 5 _ bump_start). unfold KERNEL_HEAP_STOP, KERNEL_VMA. simpl. unfold ex_va. lia. }
  unfold ex_heap1. rewrite Hrun. cbv beta iota. split; [reflexivity|].
  destruct Hcase as [[[=] _]|(_ & Hh & _)]. change (Z.max KHEAP_MIN_ALLOC_IN_PAGES 5) with 5 in Hh.
  simpl set_prev in Hh. cbv beta iota. split; [exact Hh|]. apply Forall_singleton. split; constructor.
Qed.

Lemma ex_heap2_ok : heap_ok ex_heap2 [ex_ct].
Proof.
  destruct ex_heap1_ok as [_ [Hh Hp]].
  destruct (proj1 (wp_Done _ _ _) (wp_try_alloc_block [] (new_ct ex_va 5) [] 16 ex_heap1 Hh ltac:(lia)
    ltac:(intros ? ? []%not_elem_of_nil))) as (r & s2 & Hrun & Hpost).
  simpl in Hrun. unfold ex_heap2. rewrite Hrun.
  destruct Hpost as [(_ & _ & Hnone)|(_ & m' & L' & -> & Hh' & Hal)].
  { assert (fits 16 (new_block ex_va 5) = false) as Hf by (apply Hnone; left). discriminate Hf. }
  pose proof (prevs_allocated _ _ _ _ _ _ Hp Hal) as Hp'.
  destruct Hal as (L1 & c & L2 & l1 & b & l2 & HL & Hl & _ & _ & _ & _ & -> & _).
  destruct L1 as [|? L1]; [|destruct L1; discriminate HL]. injection HL as <- <-.
  destruct l1 as [|? l1]; [|destruct l1; discriminate Hl]. injection Hl as <- <-. split; [exact Hh'|exact Hp'].
Qed.

Lemma kmalloc_contract_witness :
  ∃ p s' L', kmalloc 16 bump_start = Done (p, s') ∧ heap_ok s' L' ∧
    ((p = NULL ∧ L' = []) ∨
     (p ≠ NULL ∧ p mod KHEAP_ALIGN_IN_BYTES = 0 ∧
      ∃ n, 16 ≤ n ∧ live L' ≡ₚ (p, n) :: live [] ∧ mapped (st_mem s') p n ∧
        ∀ q k, (q, k) ∈ live [] → p + n ≤ q ∨ q + k ≤ p)) ∧
    (∀ q k i, (q, k) ∈ live [] → q ≤ i < q + k → st_mem s' !! i = st_mem bump_start !! i) ∧
    outside_kept bump_start [] s' L'.
Proof. apply (kmalloc_contract bump_start [] 16 bump_start_ok). split; [lia|reflexivity]. Defined.

Lemma kfree_contract_witness :
  ∃ s' L', kfree (ex_va + 80) ex_heap2 = Done (tt, s') ∧ heap_is s' L' ∧
    live [ex_ct] ≡ₚ (ex_va + 80, 16) :: live L' ∧
    (∀ q k i, (q, k) ∈ live L' → q ≤ i < q + k → st_mem s' !! i = st_mem ex_heap2 !! i) ∧
    outside_kept ex_heap2 [ex_ct] s' L'.
Proof.
  apply (kfree_contract ex_heap2 [ex_ct] (ex_va + 80) 16 ex_heap2_ok). left.
Defined.

Lemma kfree_prev_fields_witness :
  ∃ s', kfree (k_at ex_block + HEADER) ex_heap2 = Done (tt, s') ∧
    heap_is s' (freed_heap [] ex_ct [] [] ex_block [ex_free]) ∧
    (heap_ok s' (freed_heap [] ex_ct [] [] ex_block [ex_free]) ↔
     t_count ex_ct = 1 ∨ ¬ ∃ x n, last [] = Some x ∧ k_used x = false ∧ head [ex_free] = Some n ∧ k_used n = true).
Proof. by apply (kfree_prev_fields ex_heap2 [] ex_ct [] [] ex_block [ex_free] ex_heap2_ok). Defined.

Lemma kheap_init_ready_witness :
  kheap_init 5 bump_start = Faulted (Panicked "kheap_init: failed to init kheap") ∨
  ∃ s' va, kheap_init 5 bump_start = Done (tt, s') ∧ heap_ok s' [new_ct va (Z.max KHEAP_MIN_ALLOC_IN_PAGES 5)].
Proof. apply (kheap_init_ready bump_start 5 bump_start_ok). split; [lia|reflexivity]. Defined.

Lemma kmalloc_huge_size_panics_witness :
  ∃ c s1, create_container 2 bump_start = Done (c, s1) ∧
    kmalloc (2 ^ 64 - 1) bump_start =
      if c =? NULL then Done (NULL, s1) else Faulted (Panicked "kmalloc: the impossible is possible").
Proof.
  apply (kmalloc_huge_size_panics bump_start [] (2 ^ 64 - 1) bump_start_ok). unfold HEADER. lia.
Defined.
