(* ===== verification/KheapRuns.v ===== *)
(** * kernel/mm/kheap.c (third part): every run of a client

    The states the heap can reach when a client allocates, frees and writes to
    what it was given, against an abstract allocator: a map from the blocks the
    client holds to their sizes, and the bytes it has stored in them. *)
From S2P Require Import Prelude CInt Mem CString Kheap KheapProps.

(** What the client knows: the blocks it holds, and what it has written there. *)
Record client : Type := mk_client { c_blocks : gmap Z Z; c_data : gmap Z Z }.
Definition client_empty : client := mk_client ∅ ∅.

Definition in_block (p size a : Z) : Prop := p ≤ a < p + size.
#[export] Instance in_block_dec p size a : Decision (in_block p size a).
Proof. unfold in_block. apply _. Defined.

(** The abstract allocator. *)
Definition client_malloc (p size : Z) (v : client) : client :=
  if p =? NULL then v else mk_client (<[p := size]> (c_blocks v)) (c_data v).
Definition client_free (p : Z) (v : client) : client :=
  match c_blocks v !! p with
  | Some size => mk_client (delete p (c_blocks v)) (filter (λ x, ¬ in_block p size x.1) (c_data v))
  | None => v
  end.
Definition client_write (a b : Z) (v : client) : client := mk_client (c_blocks v) (<[a := b]> (c_data v)).

(** The free of [p] merges it with a free block before it while the block after
    it is in use, whose [prev] field then goes stale. *)
Definition stale_free (m : mem) (p : Z) : bool :=
  match load_le 8 m (b_prev (p - HEADER)), load_le 8 m (b_next (p - HEADER)) with
  | Some prev, Some next =>
      negb (prev =? NULL) && bool_decide (load_le 1 m (b_used prev) = Some FALSE) &&
      negb (next =? NULL) && bool_decide (load_le 1 m (b_used next) = Some TRUE)
  | _, _ => false
  end.

(** The block before [b] in the chain that starts at [x]. *)
Fixpoint block_before (fuel : nat) (m : mem) (before x b : Z) : option Z :=
  if x =? b then Some before
  else match fuel with
       | O => None
       | Datatypes.S fuel => next ← load_le 8 m (b_next x); block_before fuel m x next b
       end.

(** The [prev] field of the block of [p] is the block before it in its container. *)
Definition prev_sound (m : mem) (p : Z) : bool :=
  match load_le 8 m (b_prev (p - HEADER)), load_le 8 m (b_container (p - HEADER)) with
  | Some prev, Some c =>
      match load_le 8 m (c_block c) with
      | Some x => bool_decide (block_before (size m) m NULL x (p - HEADER) = Some prev)
      | None => false
      end
  | _, _ => false
  end.

Section runs.
Context {S : Type} {MS : MemState S} {HS : HeapState S} {VS : KernelVmm S}.
Implicit Types (s : S) (v : client).

(** The states reached from a boot with [kheap_init].  Blocks are freed whose own
    [prev] field is sound; [clean] says that no free so far has left an unsound one. *)
Inductive heap_run : bool → S → client → Prop :=
  | run_boot s pages s' :
      heap_ok s [] → 0 ≤ pages < 2 ^ 52 → kheap_init pages s = Done (tt, s') → heap_run true s' client_empty
  | run_malloc clean s v size p s' :
      heap_run clean s v → 0 ≤ size < 2 ^ 64 - 2 * 4096 - HEADER → kmalloc size s = Done (p, s') →
      heap_run clean s' (client_malloc p size v)
  | run_free clean s v p s' :
      heap_run clean s v → is_Some (c_blocks v !! p) → prev_sound (st_mem s) p = true → kfree p s = Done (tt, s') →
      heap_run (clean && negb (stale_free (st_mem s) p)) s' (client_free p v)
  | run_write clean s v p size a b s' :
      heap_run clean s v → c_blocks v !! p = Some size → in_block p size a → 0 ≤ b < 256 → wr8 a b s = Done (tt, s') →
      heap_run clean s' (client_write a b v).

(** The heap implements the abstract allocator. *)
Record implements (clean : bool) (s : S) (L : list ct) (v : client) : Prop := {
  im_ok : heap_is s L;
  im_prevs : clean = true → prevs_right L;
  im_held : ∀ p size, c_blocks v !! p = Some size → ∃ n, size ≤ n ∧ (p, n) ∈ live L;
  im_only : ∀ p n, (p, n) ∈ live L → is_Some (c_blocks v !! p);
  im_data : ∀ a b, c_data v !! a = Some b → st_mem s !! a = Some b;
  im_inside : ∀ a b, c_data v !! a = Some b → ∃ p size, c_blocks v !! p = Some size ∧ in_block p size a;
}.

(** ** The blocks in use are apart *)

Lemma live_blocks_bounds lo l hi x : laid lo l hi → x ∈ live_blocks l →
  lo + HEADER ≤ x.1 ∧ 0 ≤ x.2 ∧ x.1 + x.2 ≤ hi ∧ x.1 mod KHEAP_ALIGN_IN_BYTES = 0.
Proof.
  unfold live_blocks. intros Hl (b & -> & [_ Hb]%list_elem_of_filter)%list_elem_of_fmap.
  destruct (laid_elem _ _ _ _ Hl Hb) as (? & ? & ?). simpl.
  apply list_elem_of_split in Hb as (l1 & l2 & ->).
  destruct (laid_around _ _ _ _ _ Hl) as (_ & (? & ? & ? & ?) & _). unfold HEADER in *. lia.
Qed.

Lemma live_blocks_NoDup lo l hi : laid lo l hi → NoDup (live_blocks l).*1.
Proof.
  revert lo. induction l as [|b l IH]; intros lo; [constructor|]. intros (Hlo & Hal & Hsz & Hl).
  rewrite live_blocks_cons. destruct (k_used b); [|by eapply IH]. simpl.
  constructor; [|by eapply IH]. intros (x & Hx1 & Hx)%list_elem_of_fmap.
  destruct (live_blocks_bounds _ _ _ _ Hl Hx) as (? & _). unfold HEADER in *. lia.
Qed.

Lemma live_bounds L x : Forall container_ok L → x ∈ live L →
  ∃ c, c ∈ L ∧ t_at c + HEADER + HEADER ≤ x.1 ∧ 0 ≤ x.2 ∧ x.1 + x.2 ≤ t_stop c ∧ x.1 mod KHEAP_ALIGN_IN_BYTES = 0.
Proof.
  intros Hok Hx. unfold live in Hx. apply list_elem_of_bind in Hx as (c & Hx & Hc).
  rewrite Forall_forall in Hok. pose proof (live_blocks_bounds _ _ _ _ (co_laid _ (Hok c Hc)) Hx).
  exists c. unfold t_stop. tauto.
Qed.

Lemma live_NoDup L : Forall container_ok L → cts_disjoint L → NoDup (live L).*1.
Proof.
  induction L as [|c L IH]; [constructor|]. intros Hoks [Hap Hdis]. pose proof Hoks as [Hok HL]%Forall_cons.
  rewrite live_cons, fmap_app. apply NoDup_app. split_and!; [eapply live_blocks_NoDup, Hok| |by apply IH].
  intros a (x & -> & Hx)%list_elem_of_fmap (y & Hy1 & Hy)%list_elem_of_fmap.
  destruct (live_blocks_bounds _ _ _ _ (co_laid _ Hok) Hx) as (? & ? & ? & _).
  destruct (live_bounds L y HL Hy) as (d & Hd & ? & ? & ? & _).
  rewrite Forall_forall in Hap. destruct (Hap d Hd); unfold t_stop, HEADER in *; lia.
Qed.

(** Two blocks, in whatever containers, follow each other or are the same. *)
Lemma blocks_follow L c d b y : Forall container_ok L → cts_disjoint L →
  c ∈ L → d ∈ L → b ∈ t_blocks c → y ∈ t_blocks d →
  y = b ∨ k_at b + HEADER + k_size b ≤ k_at y ∨ k_at y + HEADER + k_size y ≤ k_at b.
Proof.
  intros Hoks Hdis Hc Hd Hb Hy. rewrite Forall_forall in Hoks.
  pose proof (co_laid _ (Hoks c Hc)) as Hlc. pose proof (co_laid _ (Hoks d Hd)) as Hld.
  destruct (laid_elem _ _ _ _ Hlc Hb) as (? & ? & ?). destruct (laid_elem _ _ _ _ Hld Hy) as (? & ? & ?).
  apply list_elem_of_split in Hc as (L1 & L2 & ->). apply cts_disjoint_mid in Hdis as [_ Hap]. rewrite Forall_forall in Hap.
  assert (d = c ∨ cts_apart c d) as [->|Hcd] by (apply elem_of_app in Hd as [|[->|]%elem_of_cons]; [right|by left|right]; apply Hap; in_list).
  2: { right. destruct Hcd; unfold t_stop, HEADER in *; lia. }
  apply list_elem_of_split in Hb as (l1 & l2 & Hl). rewrite Hl in Hy, Hlc.
  destruct (laid_around _ _ _ _ _ Hlc) as (Hbefore & _ & Hafter).
  apply elem_of_app in Hy as [Hy%Hbefore|[->|Hy%Hafter]%elem_of_cons]; [right; right|by left|right; left]; unfold HEADER in *; lia.
Qed.

Definition blocks_apart (x y : Z * Z) : Prop := x.1 + x.2 ≤ y.1 ∨ y.1 + y.2 ≤ x.1.

Lemma live_apart L x y : Forall container_ok L → cts_disjoint L → x ∈ live L → y ∈ live L → x.1 ≠ y.1 → blocks_apart x y.
Proof.
  intros Hoks Hdis Hx Hy Hne. destruct x as [q k], y as [q' k'].
  apply live_elem in Hx as (c & b & Hc & Hb & _ & -> & ->).
  apply live_elem in Hy as (d & y & Hd & Hy & _ & -> & ->).
  unfold blocks_apart. simpl in *.
  destruct (blocks_follow L c d b y) as [->|H]; try done. unfold HEADER in *. lia.
Qed.

(** ** The client writes to what it holds *)

(** The bytes of the headers. *)
Definition header_byte (L : list ct) (i : Z) : Prop :=
  ∃ c, c ∈ L ∧ (t_at c ≤ i < t_at c + HEADER ∨ ∃ b, b ∈ t_blocks c ∧ k_at b ≤ i < k_at b + HEADER).

Lemma containers_headers m m' prev L : containers m prev L → (∀ i, header_byte L i → m' !! i = m !! i) →
  (∀ i, is_Some (m !! i) → is_Some (m' !! i)) → containers m' prev L.
Proof.
  revert prev. induction L as [|c L IH]; intros prev; [done|]. intros (Hin & Hok & Hp & HL) Hm Hdom.
  assert (∀ i, t_at c ≤ i < t_at c + HEADER → m' !! i = m !! i) as Hhead.
  { intros i Hi. apply Hm. exists c. split; [set_solver|by left]. }
  split_and!; [|done|done|].
  - unfold HEADER in Hhead. destruct Hin. split; try (erewrite load_le_ext; [eassumption|]; intros i Hi; apply Hhead; lia).
    + eapply chained_frame; [done|]. intros b i Hb Hi. apply Hm. exists c. split; [set_solver|right]. by exists b.
    + intros i Hi. by apply Hdom, ci_mapped.
  - apply IH; [done| |done]. intros i (d & Hd & Hi). apply Hm. exists d. split; [set_solver|done].
Qed.

Lemma live_not_header_byte L q k i : Forall container_ok L → cts_disjoint L →
  (q, k) ∈ live L → q ≤ i < q + k → ¬ header_byte L i.
Proof.
  intros Hoks Hdis Hq Hi (d & Hd & [Hi'|(y & Hy & Hi')]); [by eapply (live_not_header L q k i d)|].
  apply live_elem in Hq as (c & b & Hc & Hb & _ & -> & ->).
  destruct (blocks_follow L c d b y) as [->|H]; try done; [unfold HEADER in *; lia|].
  rewrite Forall_forall in Hoks. destruct (laid_elem _ _ _ _ (co_laid _ (Hoks d Hd)) Hy) as (? & ? & ?).
  unfold HEADER in *. lia.
Qed.

(** The addresses a client may write: in a block in use, or outside the heap. *)
Definition client_addr (L : list ct) (i : Z) : Prop :=
  ¬ in_containers L i ∨ ∃ q k, (q, k) ∈ live L ∧ q ≤ i < q + k.

Lemma client_addr_live L q k i : (q, k) ∈ live L → q ≤ i < q + k → client_addr L i.
Proof. intros. right. by exists q, k. Qed.

Lemma header_byte_not_client s L i : heap_is s L → header_byte L i → ¬ client_addr L i.
Proof.
  intros Hh Hb [Hout|(q & k & Hq & Hi)].
  - apply Hout. destruct Hb as (c & Hc & Hi). exists c. split; [done|].
    destruct (heap_elem _ _ _ Hh Hc) as (Hok & _ & _ & Hst & _). destruct Hi as [|(b & Hb & Hi)]; [lia|].
    destruct (laid_elem _ _ _ _ (co_laid _ Hok) Hb) as (? & ? & ?). unfold t_stop, HEADER in *. lia.
  - by eapply (live_not_header_byte L q k i); [apply (heap_all_ok s)|apply Hh|..].
Qed.

(** What a client writes where it may leaves the heap well formed. *)
Lemma heap_is_client_writes s L m' : heap_is s L → same_domain (st_mem s) m' →
  (∀ i, m' !! i ≠ st_mem s !! i → client_addr L i) → heap_is (st_put m' s) L.
Proof.
  intros Hh Hdom Hm. split.
  - rewrite heap_mem. apply Hh.
  - rewrite st_mem_put. eapply containers_headers; [apply Hh| |intros i; by apply Hdom].
    intros i Hi. destruct (decide (m' !! i = st_mem s !! i)) as [|Hne]; [done|].
    exfalso. by apply (header_byte_not_client s L i); [..|apply Hm].
  - apply Hh.
  - intros c Hc. apply vmm_owned_mem. by apply (hi_owned _ _ Hh).
  - apply vmm_inv_mem; [apply Hh|done].
Qed.

Lemma heap_client_writes s L m' : heap_ok s L → same_domain (st_mem s) m' →
  (∀ i, m' !! i ≠ st_mem s !! i → client_addr L i) → heap_ok (st_put m' s) L.
Proof. intros [Hh Hpr] Hdom Hm. split; [by apply heap_is_client_writes|exact Hpr]. Qed.

Lemma heap_write_ok s L q k a b : heap_is s L → (q, k) ∈ live L → q ≤ a < q + k →
  heap_is (st_put (write_le 1 (st_mem s) a b) s) L ∧ wr8 a b s = Done (tt, st_put (write_le 1 (st_mem s) a b) s).
Proof.
  intros Hok Hq Ha. destruct (live_not_prev_field s L q k a Hok Hq Ha) as [Hmap _].
  assert (mapped (st_mem s) a (Z.of_nat 1)) as Hm1 by (intros i Hi; by replace i with a by lia).
  pose proof (only_in_write_le 1 (st_mem s) a b Hm1) as [Hout Hdom].
  split; [|apply store_Done; by apply load_le_is_Some].
  apply heap_is_client_writes; [done|exact Hdom|]. intros i Hi. apply (client_addr_live L q k); [done|].
  destruct (decide (i = a)) as [->|Hne]; [done|]. destruct Hi. apply Hout. lia.
Qed.

(** ** The soundness of a [prev] field *)

Lemma block_before_chained m c l1 b l2 next : ∀ fuel before,
  chained m c (l1 ++ b :: l2) next → NoDup (k_at <$> l1 ++ b :: l2) → (length l1 ≤ fuel)%nat →
  block_before fuel m before (head_at (l1 ++ b :: l2)) (k_at b) = Some (match last l1 with Some x => k_at x | None => before end).
Proof.
  induction l1 as [|x l1 IH]; intros fuel before Hc Hnd Hf.
  { destruct fuel; simpl; by rewrite Z.eqb_refl. }
  destruct fuel as [|fuel]; [simpl in Hf; lia|]. rewrite <- app_comm_cons in Hc, Hnd. destruct Hc as [Hx Hc].
  rewrite fmap_cons in Hnd. apply NoDup_cons in Hnd as [Hnx Hnd].
  assert (k_at x ≠ k_at b) as Hne by (intros E; apply Hnx; rewrite E; apply list_elem_of_fmap_2; in_list).
  cbn [app head_at block_before]. rewrite (proj2 (Z.eqb_neq _ _) Hne).
  assert (load_le 8 m (b_next (k_at x)) = Some (head_at (l1 ++ b :: l2))) as ->.
  { unfold b_next. rewrite (bi_next _ _ _ _ Hx). by destruct (l1 ++ b :: l2) eqn:E; [destruct l1|]. }
  cbn [mbind option_bind]. rewrite IH by (done || simpl in Hf; lia). by rewrite last_cons; destruct (last l1).
Qed.

Lemma prev_sound_iff s L1 c L2 l1 b l2 : heap_is s (L1 ++ c :: L2) → t_blocks c = l1 ++ b :: l2 →
  prev_sound (st_mem s) (k_at b + HEADER) = true ↔ k_prev b = match last l1 with Some x => k_at x | None => NULL end.
Proof.
  intros Hh Hl. destruct (containers_mid _ _ _ _ _ (hi_cts _ _ Hh)) as [Hin Hok].
  pose proof (bf_block _ _ _ _ _ (block_facts_ok _ _ _ _ _ _ Hin Hok Hl)) as B.
  pose proof (blocks_fuel _ _ _ Hin Hok) as Hf. pose proof (laid_NoDup _ _ _ (co_laid _ Hok)) as Hnd.
  pose proof (ci_chain _ _ _ Hin) as Hch. rewrite Hl in Hf, Hnd, Hch. rewrite length_app in Hf.
  unfold prev_sound. rewrite Z.add_simpl_r. unfold b_prev, b_container, c_block.
  rewrite (bi_prev _ _ _ _ B), (bi_cont _ _ _ _ B), (ci_block _ _ _ Hin), Hl.
  rewrite (block_before_chained _ _ _ _ _ _ _ _ Hch Hnd) by (simpl in Hf; lia). rewrite bool_decide_eq_true.
  split; [by intros [= ->]|by intros ->].
Qed.

(** ** Every step implements the abstract allocator's *)

Lemma live_fun L p n k : Forall container_ok L → cts_disjoint L → (p, n) ∈ live L → (p, k) ∈ live L → n = k.
Proof.
  intros Hoks Hdis Hn Hk. pose proof (live_NoDup L Hoks Hdis) as Hnd.
  apply list_elem_of_split in Hn as (l1 & l2 & E). rewrite E in Hnd, Hk. rewrite fmap_app, fmap_cons in Hnd.
  apply NoDup_app in Hnd as (_ & Hnd1 & Hnd2). apply NoDup_cons in Hnd2 as [Hnd2 _]. cbn [fst] in *.
  apply elem_of_app in Hk as [Hk|[[= ->]|Hk]%elem_of_cons]; [|done|]; exfalso.
  - apply (Hnd1 p); [apply list_elem_of_fmap; by exists (p, k)|by left].
  - apply Hnd2, list_elem_of_fmap. by exists (p, k).
Qed.

Lemma implements_data clean s s' L v : implements clean s L v →
  (∀ q k i, (q, k) ∈ live L → q ≤ i < q + k → st_mem s' !! i = st_mem s !! i) →
  ∀ a b, c_data v !! a = Some b → st_mem s' !! a = Some b.
Proof.
  intros Him Hsame a b Hab. destruct (im_inside _ _ _ _ Him a b Hab) as (p & size & Hp & Ha).
  destruct (im_held _ _ _ _ Him p size Hp) as (n & Hn & Hlive).
  rewrite (Hsame p n a Hlive) by (unfold in_block in Ha; lia). by apply (im_data _ _ _ _ Him).
Qed.

Lemma implements_malloc clean s L v size : implements clean s L v → 0 ≤ size < 2 ^ 64 - 2 * 4096 - HEADER →
  ∃ p s' L', kmalloc size s = Done (p, s') ∧ implements clean s' L' (client_malloc p size v).
Proof.
  intros Him Hsz. destruct (kmalloc_is_run s L size (im_ok _ _ _ _ Him) Hsz) as (p & s' & L' & Hrun & Hok' & Hpr & Hcase & Hsame & _).
  exists p, s', L'. split; [done|]. pose proof (implements_data clean s s' L v Him Hsame) as Hdata. unfold client_malloc.
  destruct Hcase as [[-> ->]|(Hp & _ & n & Hn & Hperm & _)]; [cbn; by destruct Him; split|].
  rewrite (proj2 (Z.eqb_neq _ _) Hp). pose proof (live_NoDup L' (heap_all_ok _ _ Hok') (hi_apart _ _ Hok')) as Hnd.
  rewrite Hperm in Hnd. apply NoDup_cons in Hnd as [Hnew _]. cbn [fst] in Hnew.
  assert (c_blocks v !! p = None) as Hnone.
  { apply eq_None_not_Some. intros [k Hk]. destruct (im_held _ _ _ _ Him p k Hk) as (m & _ & Hm).
    apply Hnew, list_elem_of_fmap. by exists (p, m). }
  split; cbn [c_blocks c_data]; [done|intros Hc; by apply Hpr, (im_prevs _ _ _ _ Him)| | |done|].
  - intros q k Hq. destruct (decide (q = p)) as [->|Hne].
    + rewrite lookup_insert_eq in Hq. injection Hq as <-. exists n. split; [done|]. rewrite Hperm. by left.
    + rewrite lookup_insert_ne in Hq by done. destruct (im_held _ _ _ _ Him q k Hq) as (m & ? & Hm).
      exists m. split; [done|]. rewrite Hperm. by right.
  - intros q k. rewrite Hperm. intros [[= -> ->]|Hq]%elem_of_cons; [rewrite lookup_insert_eq; by eexists|].
    apply lookup_insert_is_Some'. right. by eapply (im_only _ _ _ _ Him).
  - intros a b Hab. destruct (im_inside _ _ _ _ Him a b Hab) as (q & k & Hq & Ha).
    exists q, k. split; [|done]. by rewrite lookup_insert_ne by congruence.
Qed.

(** The condition of [kfree_run] as the client can read it off the headers. *)
Lemma not_stale s L1 c L2 l1 b l2 : heap_is s (L1 ++ c :: L2) → t_blocks c = l1 ++ b :: l2 →
  k_prev b = match last l1 with Some x => k_at x | None => NULL end →
  stale_free (st_mem s) (k_at b + HEADER) = false →
  ¬ ∃ x n, last l1 = Some x ∧ k_used x = false ∧ head l2 = Some n ∧ k_used n = true.
Proof.
  intros Hh Hl Hprev Hst (x & n & Hx & Hux & Hn & Hun). destruct (containers_mid _ _ _ _ _ (hi_cts _ _ Hh)) as [Hin Hok].
  pose proof (block_facts_ok _ _ _ _ _ _ Hin Hok Hl) as [B1 Hc Hlo _ _ _ _ Hnext Hpv].
  destruct (Hnext n Hn) as (Bn & Hn1 & _ & _). destruct (Hpv x Hx) as (Bx & Hx1 & _ & _).
  rewrite Hx in Hprev. assert (head_at l2 = k_at n) as Hh2 by (destruct l2; [done|by injection Hn as ->]).
  unfold stale_free in Hst. rewrite Z.add_simpl_r in Hst. unfold b_prev, b_next, b_used in Hst.
  rewrite (bi_prev _ _ _ _ B1), (bi_next _ _ _ _ B1), Hprev, Hh2, (bi_used _ _ _ _ Bx), (bi_used _ _ _ _ Bn), Hux, Hun in Hst.
  pose proof (bf_size _ _ _ _ _ (block_facts_ok _ _ _ _ _ _ Hin Hok Hl)).
  rewrite !(proj2 (Z.eqb_neq _ _)) in Hst by (unfold NULL, HEADER in *; lia). discriminate.
Qed.

Lemma implements_free clean s L v p : implements clean s L v → is_Some (c_blocks v !! p) → prev_sound (st_mem s) p = true →
  ∃ s' L', kfree p s = Done (tt, s') ∧ implements (clean && negb (stale_free (st_mem s) p)) s' L' (client_free p v).
Proof.
  intros Him [size Hp] Hsound. destruct (im_held _ _ _ _ Him p size Hp) as (n & Hn & Hlive).
  pose proof (im_ok _ _ _ _ Him) as Hok. pose proof (heap_all_ok _ _ Hok) as Hoks.
  pose proof (hi_apart _ _ Hok) as Hdis.
  destruct (live_at _ _ _ _ Hok Hlive) as (L1 & c & L2 & l1 & b & l2 & HL & Hl & Hu & Epn & En & Hc).
  subst L. subst p. pose proof (proj1 (prev_sound_iff s L1 c L2 l1 b l2 Hok Hl) Hsound) as Hprev.
  destruct (kfree_is_run s L1 c L2 l1 b l2 Hok Hl Hu Hprev) as (s' & Hrun & Hok' & Hsame & _ & Hiff).
  exists s', (freed_heap L1 c L2 l1 b l2). split; [exact Hrun|]. pose proof (freed_heap_live L1 c L2 l1 b l2 Hc Hl Hu) as Hperm.
  pose proof (live_NoDup _ Hoks Hdis) as Hnd. rewrite Hperm in Hnd. apply NoDup_cons in Hnd as [Hgone _]. cbn [fst] in Hgone.
  set (L' := freed_heap L1 c L2 l1 b l2) in *. set (p := k_at b + HEADER) in *. unfold client_free. rewrite Hp.
  assert (∀ q k, (q, k) ∈ live L' → q ≠ p) as Hother.
  { intros q k Hq ->. apply Hgone, list_elem_of_fmap. by exists (p, k). }
  split; cbn [c_blocks c_data].
  - exact Hok'.
  - intros [Hcl Hst%negb_true_iff]%andb_prop. apply Hiff; [by apply (im_prevs _ _ _ _ Him)|right]. by eapply not_stale.
  - intros q k [Hne Hq]%lookup_delete_Some. destruct (im_held _ _ _ _ Him q k Hq) as (m & ? & Hm).
    exists m. split; [done|]. rewrite Hperm in Hm. apply elem_of_cons in Hm as [[= -> _]|]; [done|done].
  - intros q k Hq. apply lookup_delete_is_Some. split; [intros ->; by eapply Hother|].
    apply (im_only _ _ _ _ Him q k). rewrite Hperm. by right.
  - intros a w [Haw Hout]%map_lookup_filter_Some. cbn [fst] in Hout.
    destruct (im_inside _ _ _ _ Him a w Haw) as (q & k & Hq & Ha). assert (q ≠ p) as Hqp by (intros ->; congruence).
    destruct (im_held _ _ _ _ Him q k Hq) as (m & Hm & Hqm). rewrite Hperm in Hqm.
    apply elem_of_cons in Hqm as [[= ? _]|Hqm]; [done|].
    rewrite (Hsame q m a Hqm) by (unfold in_block in Ha; lia). by apply (im_data _ _ _ _ Him).
  - intros a w [Haw Hout]%map_lookup_filter_Some. cbn [fst] in Hout.
    destruct (im_inside _ _ _ _ Him a w Haw) as (q & k & Hq & Ha).
    exists q, k. split; [|done]. apply lookup_delete_Some. split; [intros <-; congruence|done].
Qed.

Lemma implements_write clean s L v p size a b : implements clean s L v → c_blocks v !! p = Some size → in_block p size a → 0 ≤ b < 256 →
  ∃ s', wr8 a b s = Done (tt, s') ∧ implements clean s' L (client_write a b v).
Proof.
  intros Him Hp Ha Hb. destruct (im_held _ _ _ _ Him p size Hp) as (n & Hn & Hlive). unfold in_block in Ha.
  destruct (heap_write_ok s L p n a b (im_ok _ _ _ _ Him) Hlive ltac:(lia)) as [Hok Hrun].
  eexists. split; [exact Hrun|]. split; cbn [c_blocks c_data client_write]; [done|apply Him|apply Him|apply Him| |].
  - intros i w. rewrite st_mem_put. destruct (decide (i = a)) as [->|Hne].
    + rewrite !lookup_insert_eq. intros [= <-].
      rewrite write_le_S, write_le_lookup_out, lookup_insert_eq, Z.mod_small by lia. done.
    + rewrite lookup_insert_ne by done. intros Hi. rewrite write_le_lookup_out by lia. by apply (im_data _ _ _ _ Him).
  - intros i w. destruct (decide (i = a)) as [->|Hne]; [intros _; by exists p, size|].
    rewrite lookup_insert_ne by done. apply (im_inside _ _ _ _ Him).
Qed.

Lemma heap_run_implements clean s v : heap_run clean s v → ∃ L, implements clean s L v.
Proof.
  induction 1 as [s pages s' Hok Hpg Hrun|clean s v size p s' _ [L Him] Hsz Hrun|clean s v p s' _ [L Him] Hp Hsd Hrun
    |clean s v p size a b s' _ [L Him] Hp Ha Hb Hrun].
  - destruct (kheap_init_ready s pages Hok Hpg) as [Hf|(s1 & va & Hrun1 & [Hh1 Hpr1])]; [congruence|].
    rewrite Hrun in Hrun1. injection Hrun1 as <-. eexists. split; [exact Hh1|intros _; exact Hpr1|done| |done|done].
    intros p n Hpn. by apply elem_of_nil in Hpn.
  - destruct (implements_malloc clean s L v size Him Hsz) as (p' & s1 & L' & Hrun1 & Him1).
    rewrite Hrun in Hrun1. injection Hrun1 as <- <-. by exists L'.
  - destruct (implements_free clean s L v p Him Hp Hsd) as (s1 & L' & Hrun1 & Him1).
    rewrite Hrun in Hrun1. injection Hrun1 as <-. by exists L'.
  - destruct (implements_write clean s L v p size a b Him Hp Ha Hb) as (s1 & Hrun1 & Him1).
    rewrite Hrun in Hrun1. injection Hrun1 as <-. by exists L.
Qed.
End runs.

(** ** Every run is safe *)
Section safety.
Context {S : Type} {MS : MemState S} {HS : HeapState S} {VS : KernelVmm S}.
Implicit Types (s : S) (v : client).

(** What the client may rely on in a state of the heap. *)
Record served (clean : bool) (s : S) (v : client) : Prop := {
  sv_block : ∀ p size, c_blocks v !! p = Some size →
    p ≠ NULL ∧ p mod KHEAP_ALIGN_IN_BYTES = 0 ∧ mapped (st_mem s) p size;
  sv_apart : ∀ p size q k, c_blocks v !! p = Some size → c_blocks v !! q = Some k → p ≠ q →
    blocks_apart (p, size) (q, k);
  sv_data : ∀ a b, c_data v !! a = Some b → st_mem s !! a = Some b;
  sv_malloc : ∀ size, 0 ≤ size < 2 ^ 64 - 2 * 4096 - HEADER → ∃ p s', kmalloc size s = Done (p, s');
  sv_free : ∀ p, is_Some (c_blocks v !! p) → prev_sound (st_mem s) p = true → ∃ s', kfree p s = Done (tt, s');
  sv_sound : clean = true → ∀ p, is_Some (c_blocks v !! p) → prev_sound (st_mem s) p = true;
}.

Lemma implements_served clean s L v : implements clean s L v → served clean s v.
Proof.
  intros Him. pose proof (im_ok _ _ _ _ Him) as Hh. pose proof (heap_all_ok _ _ Hh) as Hoks.
  assert (∀ p size, c_blocks v !! p = Some size → ∃ n, size ≤ n ∧ (p, n) ∈ live L ∧ p ≠ NULL ∧ p mod KHEAP_ALIGN_IN_BYTES = 0) as Hheld.
  { intros p size Hp. destruct (im_held _ _ _ _ Him p size Hp) as (n & Hn & Hl). exists n.
    destruct (live_bounds L _ Hoks Hl) as (c & Hc & ? & _ & _ & ?). cbn [fst] in *.
    destruct (heap_elem _ _ _ Hh Hc) as (_ & _ & ? & _). split_and!; [done|done|unfold NULL, HEADER in *; lia|done]. }
  split.
  - intros p size Hp. destruct (Hheld p size Hp) as (n & Hn & Hl & ? & ?). split_and!; [done|done|].
    intros i Hi. apply (live_not_prev_field s L p n i Hh Hl). lia.
  - intros p size q k Hp Hq Hne. destruct (Hheld p size Hp) as (n & Hn & Hl & _), (Hheld q k Hq) as (n' & Hn' & Hl' & _).
    pose proof (live_apart L _ _ Hoks (hi_apart _ _ Hh) Hl Hl' Hne). unfold blocks_apart in *. cbn [fst snd] in *. lia.
  - apply Him.
  - intros size Hsz. destruct (implements_malloc clean s L v size Him Hsz) as (p & s' & _ & Hrun & _). by exists p, s'.
  - intros p Hp Hsd. destruct (implements_free clean s L v p Him Hp Hsd) as (s' & _ & Hrun & _). by exists s'.
  - intros Hcl p [size Hp]. destruct (im_held _ _ _ _ Him p size Hp) as (n & _ & Hl).
    destruct (live_split s L p n (conj Hh (im_prevs _ _ _ _ Him Hcl)) Hl) as (L1 & c & L2 & l1 & b & l2 & -> & Hb & _ & -> & _ & _ & _ & Hprev).
    by apply (prev_sound_iff s L1 c L2 l1 b l2).
Qed.

(** C3: in every state reached from boot by allocations, writes to the blocks held,
    and frees of held blocks whose own [prev] field is sound ([prev_sound], read off
    the headers): the blocks the client holds are aligned, mapped and apart from each
    other, the bytes it has stored in them are still there, every allocation of a
    representable size returns, and so does the free of every held block whose field
    is sound.  All of them are, as long as no free has merged its block with a free
    one before it while the one after it was in use ([stale_free]); such a free is
    itself part of the runs, and what the client relies on still holds after it. *)
Theorem heap_run_safe clean s v : heap_run clean s v → served clean s v.
Proof. intros [L Him]%heap_run_implements. by eapply implements_served. Qed.

(** The first block of the first container is large enough. *)
Lemma kmalloc_first s size b s' c :
  heap s = c → c ≠ NULL → try_alloc_block c size s = Done (b, s') → b ≠ NULL →
  kmalloc size s = Done (BLOCK_DATA b, s').
Proof.
  intros <- Hc Hrun Hb. unfold kmalloc, mem_fuel, gets, mbind, M_bind. rewrite loop_S. unfold mbind, M_bind.
  rewrite (proj2 (Z.eqb_neq _ _) Hc), Hrun, (proj2 (Z.eqb_neq _ _) Hb). unfold mret, M_ret.
  by rewrite (proj2 (Z.eqb_neq _ _) Hb).
Qed.
End safety.

(** Boot, an allocation, a byte stored. *)
Definition ex_client : client := client_write (ex_va + 80) 7 (client_malloc (ex_va + 80) 16 client_empty).
Definition ex_heap3 : bump_state := st_put (write_le 1 (st_mem ex_heap2) (ex_va + 80) 7) ex_heap2.

Lemma ex_try_alloc : try_alloc_block ex_va 16 ex_heap1 = Done (ex_va + 40, ex_heap2).
Proof.
  destruct ex_heap1_ok as [_ [Hh _]].
  destruct (proj1 (wp_Done _ _ _) (wp_try_alloc_block [] (new_ct ex_va 5) [] 16 ex_heap1 Hh ltac:(lia)
    ltac:(intros ? ? []%not_elem_of_nil))) as (r & s2 & Hrun & Hpost).
  change (t_at (new_ct ex_va 5)) with ex_va in Hrun. unfold ex_heap2. rewrite Hrun. do 2 f_equal.
  destruct Hpost as [(_ & _ & Hnone)|(_ & m' & L' & -> & Hh' & Hal)].
  { assert (fits 16 (new_block ex_va 5) = false) as Hf by (apply Hnone; left). discriminate Hf. }
  destruct Hal as (L1 & c & L2 & l1 & b & l2 & HL & Hl & _ & _ & _ & -> & _).
  destruct L1 as [|? L1]; [|destruct L1; discriminate HL]. injection HL as <- <-.
  destruct l1 as [|? l1]; [|destruct l1; discriminate Hl]. by injection Hl as <- <-.
Qed.

Lemma ex_malloc : kmalloc 16 ex_heap1 = Done (ex_va + 80, ex_heap2).
Proof.
  pose proof (hi_head _ _ (proj1 (proj2 ex_heap1_ok))) as Hhead.
  exact (kmalloc_first ex_heap1 16 (ex_va + 40) ex_heap2 ex_va Hhead ltac:(done) ex_try_alloc ltac:(done)).
Qed.

Lemma ex_run : heap_run true ex_heap3 ex_client.
Proof.
  assert (heap_run true ex_heap1 client_empty) as H1.
  { apply (run_boot bump_start 5 ex_heap1 bump_start_ok); [lia|]. unfold kheap_init.
    rewrite (bind_Done _ _ _ _ _ (proj1 ex_heap1_ok)). done. }
  assert (heap_run true ex_heap2 (client_malloc (ex_va + 80) 16 client_empty)) as H2
    by (eapply run_malloc; [exact H1|unfold HEADER; lia|exact ex_malloc]).
  unfold ex_client. eapply (run_write _ _ _ (ex_va + 80) 16); [exact H2| |unfold in_block; lia|lia|].
  - unfold client_malloc. rewrite (proj2 (Z.eqb_neq _ _)) by done. apply lookup_insert_eq.
  - apply (heap_write_ok ex_heap2 [ex_ct] (ex_va + 80) 16 (ex_va + 80) 7 (proj1 ex_heap2_ok)); [left|lia].
Qed.

Lemma heap_run_safe_witness : heap_run true ex_heap3 ex_client ∧ served true ex_heap3 ex_client.
Proof. split; [exact ex_run|]. exact (heap_run_safe true ex_heap3 ex_client ex_run). Defined.
