(* ===== verification/Vfs.v ===== *)
(** * kernel/fs/vfs.c: the list of mounted file systems

    [vfs_mnt] and [vfs_umnt], which compose the heap, the strings and the lists.
    The other functions of the file are not C (see the header of the development). *)
From S2P Require Import Prelude CInt Mem CString DList Kheap KheapProps KheapRuns.

(** ** [struct vfs_mnt] *)
Definition VFS_TYPE_LENGTH : Z := 32.
Definition VFS_MNT_SIZE : Z := 120.
Definition m_type (mnt : Z) : Z := mnt.
Definition m_mountpoint (mnt : Z) : Z := mnt + VFS_TYPE_LENGTH.
Definition m_list (mnt : Z) : Z := mnt + 104.

Section defs.
Context {S : Type} {MS : MemState S} {HS : HeapState S} {VS : KernelVmm S}.
(** The address of the static [mountpoints]. *)
Context (mountpoints : Z).

Definition vfs_mnt (type mountpoint : Z) : M S Z :=
  mnt ← kmalloc VFS_MNT_SIZE;
  strcpy (m_type mnt) type ;;
  strcpy (m_mountpoint mnt) mountpoint ;;
  list_add (m_list mnt) mountpoints ;;
  mret mnt.

Definition vfs_umnt (mnt : Z) : M S unit :=
  list_del (m_list mnt) ;;
  kfree mnt.
End defs.

(** ** The mounts in memory *)

(** [mnts] are mounted, the last one first; each is in a block of the heap, and the
    head of the list is outside it. *)
Record mounted (mountpoints : Z) (m : mem) (L : list ct) (mnts : list Z) : Prop := {
  mt_list : clist m mountpoints (m_list <$> mnts);
  mt_held : ∀ x, x ∈ mnts → ∃ n, VFS_MNT_SIZE ≤ n ∧ (x, n) ∈ live L;
  mt_static : ∀ i, mountpoints ≤ i < mountpoints + LIST_HEAD_SIZE → ¬ in_containers L i;
}.

(** The string [name] at [a], that the heap does not own, fits a field of a mount. *)
Record client_name (m : mem) (L : list ct) (a : Z) (name : list Z) : Prop := {
  cn_str : cstr m a name;
  cn_length : 0 < Z.of_nat (length name) ≤ VFS_TYPE_LENGTH;
  cn_client : ∀ i, a ≤ i ≤ a + Z.of_nat (length name) → client_addr L i;
}.

(** ** Lemmas *)
(** Two ranges without a common address. *)
Lemma ranges_apart a n b k : 0 < n → 0 < k →
  (∀ i, a ≤ i < a + n → ¬ b ≤ i < b + k) → a + n ≤ b ∨ b + k ≤ a.
Proof. intros Hn Hk Hi. specialize (Hi (Z.max a b)). lia. Qed.

Section lemmas.
Context {S : Type} {MS : MemState S} {HS : HeapState S} {VS : KernelVmm S}.
Implicit Types s : S.

Lemma live_inside s L q k i : heap_is s L → (q, k) ∈ live L → q ≤ i < q + k → in_containers L i.
Proof.
  intros Hh (c & b & Hc & Hb & _ & -> & ->)%live_elem Hi. exists c. split; [done|].
  destruct (heap_elem _ _ _ Hh Hc) as (Hok & _). destruct (laid_elem _ _ _ _ (co_laid _ Hok) Hb) as (? & ? & ?).
  unfold t_stop, HEADER in *. lia.
Qed.

Lemma live_range s L q k : heap_is s L → (q, k) ∈ live L → 0 < q ∧ 0 ≤ k ∧ q + k ≤ KERNEL_HEAP_STOP.
Proof.
  intros Hh (c & b & Hc & Hb & _ & -> & ->)%live_elem.
  destruct (heap_elem _ _ _ Hh Hc) as (Hok & _ & ? & _ & _ & ?).
  destruct (laid_elem _ _ _ _ (co_laid _ Hok) Hb) as (? & ? & ?). unfold t_stop, HEADER in *. lia.
Qed.

(** What [kmalloc] is to a client: what it may use stays as it is, and is apart
    from what it gets. *)
Lemma kmalloc_client s L size : heap_ok s L → 0 ≤ size < 2 ^ 64 - 2 * 4096 - HEADER →
  ∃ p s' L', kmalloc size s = Done (p, s') ∧ heap_ok s' L' ∧
    ((p = NULL ∧ L' = L) ∨
     (0 < p ∧ ∃ n, size ≤ n ∧ p + n ≤ KERNEL_HEAP_STOP ∧ live L' ≡ₚ (p, n) :: live L ∧ mapped (st_mem s') p n ∧
        ∀ i, is_Some (st_mem s !! i) → client_addr L i → ¬ p ≤ i < p + n)) ∧
    (∀ i, is_Some (st_mem s !! i) → client_addr L i → st_mem s' !! i = st_mem s !! i ∧ client_addr L' i) ∧
    outside_kept s L s' L'.
Proof.
  intros Hok Hsz. destruct (kmalloc_run s L size Hok Hsz) as (p & s' & L' & Hrun & Hok' & Hcase & Hsame & Hout).
  exists p, s', L'. split; [done|]. split; [done|].
  assert (live L ⊆ live L') as Hsub.
  { destruct Hcase as [[_ ->]|(_ & _ & n & _ & Hl & _)]; [done|]. intros x Hx. rewrite Hl. by right. }
  split; [|split; [|exact Hout]].
  - destruct Hcase as [?|(_ & _ & n & Hn & Hl & Hm & Hap)]; [by left|right].
    assert ((p, n) ∈ live L') as Hp by (rewrite Hl; left).
    destruct (live_range _ _ _ _ (proj1 Hok') Hp) as (Hp0 & _ & Hphi).
    split; [done|]. exists n. split_and!; try done. intros i Hi [Hc|(q & k & Hq & Hqi)] Hpi.
    + destruct (Hout i Hi Hc) as [_ Hno]. apply Hno, (live_inside s' L' p n); [apply Hok'|done|done].
    + destruct (Hap q k Hq); lia.
  - intros i Hi [Hc|(q & k & Hq & Hqi)].
    + destruct (Hout i Hi Hc) as [E Hno]. split; [done|by left].
    + split; [by eapply Hsame|]. apply (client_addr_live L' q k); [by apply Hsub|done].
Qed.

(** The same for [kfree]. *)
Lemma kfree_client s L p n : heap_ok s L → (p, n) ∈ live L →
  ∃ s' L', kfree p s = Done (tt, s') ∧ heap_is s' L' ∧ live L ≡ₚ (p, n) :: live L' ∧
    (∀ i, is_Some (st_mem s !! i) → client_addr L i → ¬ p ≤ i < p + n →
       st_mem s' !! i = st_mem s !! i ∧ client_addr L' i) ∧
    outside_kept s L s' L'.
Proof.
  intros Hok Hp. destruct (live_split _ _ _ _ Hok Hp) as (L1 & c & L2 & l1 & b & l2 & -> & Hl & Hu & -> & -> & Hc & _).
  destruct (kfree_run s L1 c L2 l1 b l2 Hok Hl Hu) as (s' & Hrun & Hh' & Hsame & Hout & _).
  pose proof (freed_heap_live L1 c L2 l1 b l2 Hc Hl Hu) as Hlive. set (L' := freed_heap L1 c L2 l1 b l2) in *.
  exists s', L'. split_and!; try done. intros i Hi [Ho|(q & k & Hq & Hqi)] Hpi.
  - destruct (Hout i Hi Ho) as [E Ho']. split; [done|by left].
  - assert ((q, k) ∈ live L') as Hq'.
    { rewrite Hlive in Hq. apply elem_of_cons in Hq as [[= -> ->]|Hq]; [by destruct Hpi|done]. }
    split; [by apply (Hsame q k)|by apply (client_addr_live L' q k)].
Qed.

(** The mounts are kept by whatever keeps the bytes of their nodes. *)
Lemma mounted_kept mp s L s' L' mnts : mounted mp (st_mem s) L mnts →
  (∀ x i, x ∈ mp :: (m_list <$> mnts) → x ≤ i < x + LIST_HEAD_SIZE → st_mem s' !! i = st_mem s !! i) →
  (∀ x n, x ∈ mnts → (x, n) ∈ live L → (x, n) ∈ live L') → outside_kept s L s' L' → mounted mp (st_mem s') L' mnts.
Proof.
  intros [Hl Hheld Hst] Hsame Hlive Hout. split.
  - by apply (clist_ext (st_mem s)).
  - intros x Hx. destruct (Hheld x Hx) as (n & Hn & Hxn). exists n. split; [done|by apply Hlive].
  - intros i Hi. apply (Hout i); [|by apply Hst]. apply (clist_node_mapped _ _ _ mp Hl); [left|done].
Qed.

Lemma mounted_client mp m L mnts x i :
  mounted mp m L mnts → x ∈ mp :: (m_list <$> mnts) → x ≤ i < x + LIST_HEAD_SIZE → client_addr L i.
Proof.
  intros [_ Hheld Hst] [->|(y & -> & Hy)%list_elem_of_fmap]%elem_of_cons Hi; [left; by apply Hst|].
  destruct (Hheld y Hy) as (n & Hn & Hl). apply (client_addr_live L y n); [done|].
  unfold m_list, LIST_HEAD_SIZE, VFS_MNT_SIZE in *. lia.
Qed.
End lemmas.

(** ** [vfs_mnt] *)
Section mount.
Context {S : Type} {MS : MemState S} {HS : HeapState S} {VS : KernelVmm S}.
Context (mountpoints : Z).
Implicit Types s : S.

(** [strcpy] of a string that is not empty, to a place apart from it. *)
Lemma wp_strcpy_cstr dst src bs s (Q : Z → S → Prop) (n := Z.of_nat (length bs)) :
  cstr (st_mem s) src bs → 0 < n → mapped (st_mem s) dst n →
  (∀ i, src ≤ i ≤ src + n → ¬ dst ≤ i < dst + n) →
  (∀ m', only_in dst (dst + n) (st_mem s) m' → bytes_at m' dst bs → Q dst (st_put m' s)) →
  wp (strcpy dst src) s Q.
Proof.
  intros [Hb Hnz] Hn Hm Hap HQ. destruct bs as [|b bs]; [unfold n in Hn; simpl in Hn; lia|].
  apply Forall_cons in Hnz as [_ Hnz]. apply (wp_strcpy dst src b bs); try done.
  destruct (ranges_apart src (n + 1) dst n); [lia|lia| |by right; lia|by left].
  intros i Hi. apply Hap. lia.
Qed.

Lemma cstr_ext m m' a bs : cstr m a bs → (∀ i, a ≤ i ≤ a + Z.of_nat (length bs) → m' !! i = m !! i) → cstr m' a bs.
Proof.
  intros [Hb Hnz] Hm. split; [|done]. intros i b Hi. rewrite <- (Hb i b Hi). apply load_le_ext.
  apply lookup_lt_Some in Hi. rewrite length_app in Hi. simpl in Hi. intros j Hj. apply Hm. change (Z.of_nat 1) with 1 in Hj. lia.
Qed.

Lemma bytes_at_ext m m' a bs : bytes_at m a bs →
  (∀ i, a ≤ i < a + Z.of_nat (length bs) → m' !! i = m !! i) → bytes_at m' a bs.
Proof.
  intros Hb Hm i b Hi. rewrite <- (Hb i b Hi). apply load_le_ext. apply lookup_lt_Some in Hi.
  intros j Hj. apply Hm. change (Z.of_nat 1) with 1 in Hj. lia.
Qed.

(** Adding a node does not change what is mapped. *)
Lemma list_add_domain m m' el h xs :
  clist m h xs → separate m el h xs → clist m' h (el :: xs) → same_outside (el :: h :: xs) m m' → same_domain m m'.
Proof.
  intros Hl (Hel & _ & _) Hl' Hout i.
  destruct (decide (Exists (λ x, x ≤ i < x + LIST_HEAD_SIZE) (el :: h :: xs))) as [(x & Hx & Hi)%Exists_exists|Hno].
  - assert (is_Some (m !! i)) by (apply elem_of_cons in Hx as [->|Hx]; [by apply Hel|by apply (clist_node_mapped m h xs x)]).
    assert (is_Some (m' !! i)) by (apply (clist_node_mapped m' h (el :: xs) x); [done|set_solver|done]). done.
  - rewrite Hout; [done|]. intros x Hx Hi. apply Hno, Exists_exists. by exists x.
Qed.

(** The bytes [vfs_mnt] writes. *)
Definition mount_byte (p : Z) (tname mname : list Z) (nodes : list Z) (i : Z) : Prop :=
  m_type p ≤ i < m_type p + Z.of_nat (length tname) ∨
  m_mountpoint p ≤ i < m_mountpoint p + Z.of_nat (length mname) ∨
  ∃ x, x ∈ m_list p :: nodes ∧ x ≤ i < x + LIST_HEAD_SIZE.

(** What the fresh block [p] must be apart from. *)
Record fresh_mount s (L : list ct) (mnts : list Z) (p n : Z) (type mount : Z) (tname mname : list Z) : Prop := {
  fm_block : (p, n) ∈ live L ∧ VFS_MNT_SIZE ≤ n ∧ 0 < p ∧ p + n ≤ KERNEL_HEAP_STOP;
  fm_mapped : mapped (st_mem s) p n;
  fm_nodes : ∀ x i, x ∈ mountpoints :: (m_list <$> mnts) → x ≤ i < x + LIST_HEAD_SIZE → ¬ p ≤ i < p + n;
  fm_type : cstr (st_mem s) type tname ∧ 0 < Z.of_nat (length tname) ≤ VFS_TYPE_LENGTH ∧
    ∀ i, type ≤ i ≤ type + Z.of_nat (length tname) → ¬ p ≤ i < p + n;
  fm_mount : cstr (st_mem s) mount mname ∧ 0 < Z.of_nat (length mname) ≤ VFS_TYPE_LENGTH ∧
    ∀ i, mount ≤ i ≤ mount + Z.of_nat (length mname) → ¬ p ≤ i < p + n;
}.

Lemma wp_fill_mount s L mnts p n type mount tname mname :
  heap_ok s L → mounted mountpoints (st_mem s) L mnts → fresh_mount s L mnts p n type mount tname mname →
  wp (strcpy (m_type p) type ;; strcpy (m_mountpoint p) mount ;; list_add (m_list p) mountpoints ;; mret p) s
    (λ r s', r = p ∧ heap_ok s' L ∧ mounted mountpoints (st_mem s') L (p :: mnts) ∧
       bytes_at (st_mem s') (m_type p) tname ∧ bytes_at (st_mem s') (m_mountpoint p) mname ∧
       ∀ i, ¬ mount_byte p tname mname (mountpoints :: (m_list <$> mnts)) i → st_mem s' !! i = st_mem s !! i).
Proof.
  intros Hok Hmt [(Hp & Hn & Hp0 & Hphi) Hm Hnodes (Hts & Htl & Htap) (Hms & Hml & Hmap)].
  pose proof (mt_list _ _ _ _ Hmt) as Hl. set (nodes := m_list <$> mnts) in *.
  unfold m_type, m_mountpoint, m_list, VFS_TYPE_LENGTH, VFS_MNT_SIZE, KERNEL_HEAP_STOP, KERNEL_VMA in *.
  wp_step. apply (wp_strcpy_cstr p type tname); [done|lia|eapply mapped_sub; [exact Hm|lia|lia]| |].
  { intros i Hi Hpi. apply (Htap i Hi). lia. }
  intros m1 Hm1 Hb1. assert (∀ i, ¬ p ≤ i < p + n → m1 !! i = st_mem s !! i) as Hout1 by (intros i Hi; apply Hm1; lia).
  wp_step. apply (wp_strcpy_cstr (p + 32) mount mname); rewrite ?st_mem_put.
  { apply (cstr_ext (st_mem s)); [done|]. intros i Hi. by apply Hout1, Hmap. }
  { lia. }
  { eapply only_in_mapped; [exact Hm1|]. eapply mapped_sub; [exact Hm|lia|lia]. }
  { intros i Hi Hpi. apply (Hmap i Hi). lia. }
  intros m2 Hm2 Hb2. rewrite st_put_put. assert (∀ i, ¬ p ≤ i < p + n → m2 !! i = st_mem s !! i) as Hout2.
  { intros i Hi. rewrite (proj1 Hm2) by lia. by apply Hout1. }
  assert (clist m2 mountpoints nodes) as Hl2.
  { apply (clist_ext (st_mem s)); [done|]. intros x i Hx Hi. by apply Hout2, (Hnodes x). }
  assert (separate m2 (p + 104) mountpoints nodes) as Hsep.
  { split; [|split; [lia|]].
    - eapply only_in_mapped; [exact Hm2|]. eapply only_in_mapped; [exact Hm1|]. unfold LIST_HEAD_SIZE. eapply mapped_sub; [exact Hm|lia|lia].
    - intros x Hx. destruct (ranges_apart x LIST_HEAD_SIZE (p + 104) 16) as [?|?]; [done|done| |by right|by left].
      intros i Hi Hpi. apply (Hnodes x i Hx Hi). lia. }
  wp_step. apply (wp_list_add _ _ nodes); rewrite ?st_mem_put; [done|done|]. intros m3 Hl3 Hout3. rewrite st_put_put.
  apply wp_ret. rewrite !st_mem_put. split; [done|].
  assert (∀ i, ¬ mount_byte p tname mname (mountpoints :: nodes) i → m3 !! i = st_mem s !! i) as Hframe.
  { unfold mount_byte, m_type, m_mountpoint, m_list, VFS_TYPE_LENGTH. intros i Hi.
    rewrite Hout3, (proj1 Hm2), (proj1 Hm1); [done| | |]; [intros ?; apply Hi; by left|intros ?; apply Hi; right; by left|].
    intros x Hx ?. apply Hi. right. right. by exists x. }
  assert (∀ i, p ≤ i < p + 64 → m3 !! i = m2 !! i) as Hfields.
  { intros i Hi. apply Hout3. unfold LIST_HEAD_SIZE. intros x [->|Hx]%elem_of_cons Hxi; [lia|].
    apply (Hnodes x i Hx Hxi). lia. }
  split_and!; [| |apply (bytes_at_ext m2)|apply (bytes_at_ext m2)|exact Hframe].
  - apply heap_client_writes; [done| |].
    + intros i. rewrite (list_add_domain m2 m3 _ _ _ Hl2 Hsep Hl3 Hout3 i), (proj2 Hm2 i). apply Hm1.
    + intros i Hi. destruct (decide (p ≤ i < p + n)) as [Hpi|Hpi]; [by apply (client_addr_live L p n)|].
      destruct (decide (Exists (λ x, x ≤ i < x + LIST_HEAD_SIZE) (mountpoints :: nodes))) as [(x & Hx & Hxi)%Exists_exists|Hno].
      { by apply (mounted_client mountpoints (st_mem s) L mnts x). }
      exfalso. apply Hi. rewrite Hout3; [by apply Hout2|]. intros x [->|Hx]%elem_of_cons Hxi; [unfold LIST_HEAD_SIZE in Hxi; lia|].
      apply Hno, Exists_exists. by exists x.
  - destruct Hmt as [_ Hheld Hst]. split; [done| |done]. intros x [->|Hx]%elem_of_cons; [by exists n|by apply Hheld].
  - intros i b Hi. rewrite <- (Hb1 i b Hi). apply load_le_ext. intros j Hj. apply Hm2. apply lookup_lt_Some in Hi.
    change (Z.of_nat 1) with 1 in Hj. lia.
  - intros i Hi. apply Hfields. lia.
  - exact Hb2.
  - intros i Hi. apply Hfields. lia.
Qed.
End mount.

(** ** Mounting and unmounting *)

Section runs.
Context {S : Type} {MS : MemState S} {HS : HeapState S} {VS : KernelVmm S}.
Context (mountpoints : Z).
Implicit Types s : S.

Definition in_nodes (nodes : list Z) (i : Z) : Prop := ∃ x, x ∈ nodes ∧ x ≤ i < x + LIST_HEAD_SIZE.

(** [strcpy] to an address that is not mapped. *)
Lemma strcpy_unmapped dst src c s :
  load_le 1 (st_mem s) src = Some c → st_mem s !! dst = None → strcpy dst src s = Faulted (Undefined "store").
Proof.
  intros Hc Hd. unfold strcpy, mem_fuel. rewrite (bind_Done _ _ s (Datatypes.S (base.size (st_mem s))) s) by done.
  rewrite loop_S. apply bind_Faulted. rewrite (bind_Done _ _ s c s) by (rewrite Z.add_0_r; by apply load_Done).
  apply bind_Faulted. unfold wr8, store, mbind, M_bind, gets, store_le. rewrite Z.add_0_r, load_le_S, Hd. reflexivity.
Qed.

(** The result of [kmalloc] is not looked at: [NULL] is written through. *)
Lemma vfs_mnt_null s s1 type mount c :
  kmalloc VFS_MNT_SIZE s = Done (NULL, s1) → load_le 1 (st_mem s1) type = Some c → st_mem s1 !! 0 = None →
  vfs_mnt mountpoints type mount s = Faulted (Undefined "store").
Proof.
  intros Hrun Hc H0. unfold vfs_mnt. rewrite (bind_Done _ _ _ _ _ Hrun). apply bind_Faulted.
  by apply (strcpy_unmapped _ _ c).
Qed.

Lemma vfs_mnt_run s L mnts type mount tname mname :
  heap_ok s L → mounted mountpoints (st_mem s) L mnts →
  client_name (st_mem s) L type tname → client_name (st_mem s) L mount mname →
  ∃ p s1 L', kmalloc VFS_MNT_SIZE s = Done (p, s1) ∧
    ((p = NULL ∧ (st_mem s1 !! 0 = None → vfs_mnt mountpoints type mount s = Faulted (Undefined "store"))) ∨
     (p ≠ NULL ∧ ∃ n s', vfs_mnt mountpoints type mount s = Done (p, s') ∧ heap_ok s' L' ∧ live L' ≡ₚ (p, n) :: live L ∧
        mounted mountpoints (st_mem s') L' (p :: mnts) ∧
        bytes_at (st_mem s') (m_type p) tname ∧ bytes_at (st_mem s') (m_mountpoint p) mname ∧
        (∀ i, p ≤ i < p + n → ¬ mount_byte p tname mname (mountpoints :: (m_list <$> mnts)) i →
           st_mem s' !! i = st_mem s1 !! i) ∧
        (∀ i, is_Some (st_mem s !! i) → client_addr L i → ¬ p ≤ i < p + n ∧ client_addr L' i ∧
           (¬ in_nodes (mountpoints :: (m_list <$> mnts)) i → st_mem s' !! i = st_mem s !! i)))).
Proof.
  intros Hok Hmt [Hts Htl Htc] [Hms Hml Hmc].
  destruct (kmalloc_client s L VFS_MNT_SIZE Hok ltac:(unfold VFS_MNT_SIZE, HEADER; lia))
    as (p & s1 & L' & Hrun & Hok1 & Hcase & Hkept & Hout).
  assert (∀ a bs i, cstr (st_mem s) a bs → a ≤ i ≤ a + Z.of_nat (length bs) → is_Some (st_mem s !! i)) as Hmapped.
  { intros a bs i [Hb _] Hi. apply (bytes_at_mapped _ _ _ Hb). rewrite length_app. simpl. lia. }
  assert (∀ a bs, cstr (st_mem s) a bs → (∀ i, a ≤ i ≤ a + Z.of_nat (length bs) → client_addr L i) → cstr (st_mem s1) a bs) as Hstr.
  { intros a bs Hs Hc. apply (cstr_ext (st_mem s)); [done|]. intros i Hi. apply Hkept; eauto. }
  exists p, s1, L'. split; [done|]. destruct Hcase as [[-> ->]|(Hp0 & n & Hn & Hphi & Hlive & Hm & Hap)].
  { left. split; [done|]. destruct tname as [|c tname]; [simpl in Htl; lia|].
    intros H0. apply (vfs_mnt_null s s1 type mount c Hrun); [|done].
    rewrite <- (Z.add_0_r type). by apply (cstr_char _ _ (c :: tname) 0%nat c (Hstr _ _ Hts Htc)). }
  right. split; [unfold NULL; lia|]. exists n.
  assert (mounted mountpoints (st_mem s1) L' mnts) as Hmt1.
  { eapply mounted_kept; [exact Hmt| | |exact Hout].
    - intros x i Hx Hi. apply Hkept; [by apply (clist_node_mapped _ _ _ x (mt_list _ _ _ _ Hmt))|by eapply mounted_client].
    - intros x k _ Hx. rewrite Hlive. by right. }
  destruct (proj1 (wp_Done _ _ _) (wp_fill_mount mountpoints s1 L' mnts p n type mount tname mname Hok1 Hmt1
    ltac:(split; [split_and!; [rewrite Hlive; left|done|done|done]|done| |split_and!; [by apply Hstr|lia|lia|]|split_and!; [by apply Hstr|lia|lia|]];
      [intros x i Hx Hi; apply Hap; [by apply (clist_node_mapped _ _ _ x (mt_list _ _ _ _ Hmt))|by eapply mounted_client]
      |intros i Hi; apply Hap; eauto|intros i Hi; apply Hap; eauto])))
    as (r & s' & Hrun2 & -> & Hok2 & Hmt2 & Hb1 & Hb2 & Hframe).
  exists s'. split_and!; try done.
  - unfold vfs_mnt. rewrite (bind_Done _ _ _ _ _ Hrun). exact Hrun2.
  - intros i Hi Hno. by apply Hframe.
  - intros i Hi Hc. destruct (Hkept i Hi Hc) as [E Hc']. split; [by apply Hap|]. split; [done|].
    intros Hno. rewrite <- E. apply Hframe. pose proof (Hap i Hi Hc) as Hpi.
    unfold mount_byte, m_type, m_mountpoint, m_list, VFS_TYPE_LENGTH, VFS_MNT_SIZE in *.
    intros [?|[?|(x & [->|Hx]%elem_of_cons & Hxi)]]; [lia|lia|unfold LIST_HEAD_SIZE in Hxi; lia|]. apply Hno. by exists x.
Qed.

Lemma vfs_umnt_run s L ms1 x ms2 :
  heap_ok s L → mounted mountpoints (st_mem s) L (ms1 ++ x :: ms2) →
  ∃ n s' L', vfs_umnt x s = Done (tt, s') ∧ heap_is s' L' ∧ live L ≡ₚ (x, n) :: live L' ∧
    mounted mountpoints (st_mem s') L' (ms1 ++ ms2) ∧
    ∀ i, is_Some (st_mem s !! i) → client_addr L i → ¬ x ≤ i < x + n →
      ¬ in_nodes (mountpoints :: (m_list <$> ms1 ++ ms2)) i → st_mem s' !! i = st_mem s !! i.
Proof.
  intros Hok Hmt. pose proof Hmt as [Hl Hheld Hst]. destruct (Hheld x ltac:(set_solver)) as (n & Hn & Hx).
  rewrite fmap_app, fmap_cons in Hl.
  destruct (proj1 (wp_Done (list_del (m_list x)) s (λ _ s', ∃ m', s' = st_put m' s ∧
    clist m' mountpoints (m_list <$> ms1 ++ ms2) ∧ same_domain (st_mem s) m' ∧
    same_outside (mountpoints :: (m_list <$> ms1 ++ x :: ms2)) (st_mem s) m'))) as ([] & ? & Hrun1 & m1 & -> & Hl1 & Hdom & Hout1).
  { apply (wp_list_del _ _ _ _ _ _ Hl). intros m' Hl' _ _ Hout Hd. exists m'. rewrite !fmap_app, fmap_cons. done. }
  assert (heap_ok (st_put m1 s) L) as Hok1.
  { apply heap_client_writes; [done|done|]. intros i Hi.
    destruct (decide (Exists (λ y, y ≤ i < y + LIST_HEAD_SIZE) (mountpoints :: (m_list <$> ms1 ++ x :: ms2)))) as [(y & Hy & Hyi)%Exists_exists|Hno].
    { by apply (mounted_client mountpoints (st_mem s) L (ms1 ++ x :: ms2) y). }
    destruct Hi. apply Hout1. intros y Hy Hyi. apply Hno, Exists_exists. by exists y. }
  destruct (kfree_client _ L x n Hok1 Hx) as (s' & L' & Hrun2 & Hh' & Hlive & Hkept & Hout). rewrite st_mem_put in Hkept.
  assert (x ∉ ms1 ++ ms2) as Hnx.
  { pose proof (clist_nodup _ _ _ Hl) as Hnd. apply NoDup_cons in Hnd as [_ Hnd].
    intros Hin. eapply (NoDup_mid_ne (m_list <$> ms1) (m_list <$> ms2) (m_list x) (m_list x) Hnd); [|done].
    rewrite <- fmap_app. by apply list_elem_of_fmap_2. }
  assert (∀ y k, y ∈ ms1 ++ ms2 → (y, k) ∈ live L → (y, k) ∈ live L') as Hlive'.
  { intros y k Hy Hyk. rewrite Hlive in Hyk. apply elem_of_cons in Hyk as [[= -> ->]|]; done. }
  assert (mounted mountpoints (st_mem (st_put m1 s)) L (ms1 ++ ms2)) as Hmt1.
  { rewrite st_mem_put. split; [done| |done]. intros y Hy. apply Hheld. set_solver. }
  exists n, s', L'. split; [unfold vfs_umnt; by rewrite (bind_Done _ _ _ _ _ Hrun1)|]. split; [done|]. split; [done|].
  assert (∀ y i, y ∈ mountpoints :: (m_list <$> ms1 ++ ms2) → y ≤ i < y + LIST_HEAD_SIZE → ¬ x ≤ i < x + n) as Hapart.
  { intros y i [->|(z & -> & Hz)%list_elem_of_fmap]%elem_of_cons Hi Hxi.
    - apply (Hst i Hi). by apply (live_inside s L x n); [apply Hok|..].
    - destruct (Hheld z ltac:(set_solver)) as (k & Hk & Hzk).
      destruct (live_apart L (z, k) (x, n) (heap_all_ok _ _ (proj1 Hok)) (hi_apart _ _ (proj1 Hok)) Hzk Hx) as [H|H];
        [by intros E; simpl in E; subst z| |]; unfold m_list, LIST_HEAD_SIZE, VFS_MNT_SIZE in *; simpl in H; lia. }
  assert (∀ i, ¬ x ≤ i < x + n → ¬ in_nodes (mountpoints :: (m_list <$> ms1 ++ ms2)) i → m1 !! i = st_mem s !! i) as Hsame1.
  { intros i Hxi Hno. apply Hout1. intros y Hy Hyi. rewrite fmap_app, fmap_cons in Hy.
    destruct (decide (y = m_list x)) as [->|Hne]; [unfold m_list, LIST_HEAD_SIZE, VFS_MNT_SIZE in *; lia|].
    apply Hno. exists y. split; [|done]. rewrite fmap_app. set_solver. }
  split.
  - eapply mounted_kept; [exact Hmt1| |exact Hlive'|exact Hout]. rewrite st_mem_put. intros y i Hy Hi.
    assert (is_Some (m1 !! i)) as Hi1 by (by apply (clist_node_mapped m1 mountpoints _ y Hl1)).
    apply Hkept; [done|by apply (mounted_client mountpoints m1 L (ms1 ++ ms2) y); [rewrite st_mem_put in Hmt1|..]|by apply (Hapart y)].
  - intros i Hi Hc Hxi Hno. rewrite <- (Hsame1 i Hxi Hno). apply Hkept; [by apply Hdom|done|done].
Qed.

(** C15: Mounting and unmounting are inverse, for names of 1 to 32 characters outside the
    memory of the heap (longer ones overflow their field).  [vfs_mnt] puts a new mount in
    front of the list, with the characters of both names; every other byte before the
    links is what [kmalloc] left: no NUL is written after either name, since [strcpy] does
    not copy it, and the operations of the mount are not set.  [vfs_umnt]
    of it takes it out of the list and gives its block back: the mounts, the blocks in
    use and every byte of the clients but the links are as before.  When there is no
    memory, and nothing is mapped at 0, [vfs_mnt] has undefined behaviour. *)
Theorem vfs_mount_unmount s L mnts type mount tname mname :
  heap_ok s L → mounted mountpoints (st_mem s) L mnts →
  client_name (st_mem s) L type tname → client_name (st_mem s) L mount mname →
  ∃ p s1, kmalloc VFS_MNT_SIZE s = Done (p, s1) ∧
    ((p = NULL ∧ (st_mem s1 !! 0 = None → vfs_mnt mountpoints type mount s = Faulted (Undefined "store"))) ∨
     (p ≠ NULL ∧ ∃ s' L' s'' L'', vfs_mnt mountpoints type mount s = Done (p, s') ∧ vfs_umnt p s' = Done (tt, s'') ∧
        (heap_ok s' L' ∧ mounted mountpoints (st_mem s') L' (p :: mnts) ∧
         bytes_at (st_mem s') (m_type p) tname ∧ bytes_at (st_mem s') (m_mountpoint p) mname ∧
         (∀ i, m_type p + Z.of_nat (length tname) ≤ i < m_mountpoint p ∨ m_mountpoint p + Z.of_nat (length mname) ≤ i < m_list p →
            st_mem s' !! i = st_mem s1 !! i)) ∧
        (heap_is s'' L'' ∧ live L'' ≡ₚ live L ∧ mounted mountpoints (st_mem s'') L'' mnts ∧
         ∀ i, is_Some (st_mem s !! i) → client_addr L i → ¬ in_nodes (mountpoints :: (m_list <$> mnts)) i →
           st_mem s'' !! i = st_mem s !! i))).
Proof.
  intros Hok Hmt Hty Hmo.
  destruct (vfs_mnt_run s L mnts type mount tname mname Hok Hmt Hty Hmo) as (p & s1 & L' & Hrun & Hcase).
  exists p, s1. split; [done|]. destruct Hcase as [Hnull|(Hp & n & s' & Hmnt & Hok' & Hlive & Hmt' & Hb1 & Hb2 & Hblk & Hkept)]; [by left|right].
  split; [done|]. destruct (vfs_umnt_run s' L' [] p mnts Hok' Hmt') as (n' & s'' & L'' & Humnt & Hh'' & Hlive'' & Hmt'' & Hkept'').
  pose proof (cn_length _ _ _ _ Hty) as Htl. pose proof (cn_length _ _ _ _ Hmo) as Hml.
  assert ((p, n) ∈ live L' ∧ (p, n') ∈ live L') as [Hpn Hpn'] by (rewrite Hlive'' at 2; rewrite Hlive; split; left).
  pose proof (live_fun L' p n n' (heap_all_ok _ _ (proj1 Hok')) (hi_apart _ _ (proj1 Hok')) Hpn Hpn') as <-.
  destruct (mt_held _ _ _ _ Hmt' p ltac:(left)) as (k & Hk & Hpk).
  pose proof (live_fun L' p n k (heap_all_ok _ _ (proj1 Hok')) (hi_apart _ _ (proj1 Hok')) Hpn Hpk) as <-.
  exists s', L', s'', L''. split; [done|]. split; [done|]. split; split_and!; try done.
  - intros i Hi. apply Hblk; unfold m_type, m_mountpoint, m_list, VFS_TYPE_LENGTH, VFS_MNT_SIZE in *; [lia|].
    intros [?|[?|(x & [->|Hx]%elem_of_cons & Hxi)]]; unfold m_type, m_mountpoint, m_list, VFS_TYPE_LENGTH, LIST_HEAD_SIZE in *; [lia..|].
    assert (is_Some (st_mem s !! i)) as His by (by apply (clist_node_mapped _ _ _ x (mt_list _ _ _ _ Hmt))).
    destruct (Hkept _ His (mounted_client _ _ _ _ _ _ Hmt Hx Hxi)) as [Hno _]. apply Hno. lia.
  - rewrite Hlive in Hlive''. by apply Permutation_cons_inv in Hlive''.
  - intros i Hi Hc Hno. destruct (Hkept i Hi Hc) as (Hpi & Hc' & E). rewrite <- (E Hno) in *. by apply Hkept''.
Qed.
End runs.

(** ** A mount on the example

    The head of the list and the names are below the heap. *)
Definition ex_names : mem :=
  foldr (λ '(a, b) m, <[a := b]> m) (zero_mem 0x100 48) [(0x110, 101); (0x111, 120); (0x112, 116); (0x120, 47)].
Definition ex_vfs_mem : mem := write_le 8 (write_le 8 ex_names 0x100 0x100) 0x108 0x100.
Definition ex_vfs : bump_state := mk_bump ex_vfs_mem NULL ex_va [].

Lemma ex_vfs_mem_out i : ex_va ≤ i → ex_vfs_mem !! i = None.
Proof.
  unfold ex_va, ex_vfs_mem. intros Hi. do 2 (rewrite write_le_lookup_out by lia). unfold ex_names. cbn [foldr].
  do 4 (rewrite lookup_insert_ne by lia). apply zero_mem_lookup_out. lia.
Qed.

Lemma vfs_mount_unmount_witness :
  ∃ p s1, kmalloc VFS_MNT_SIZE ex_vfs = Done (p, s1) ∧
    ((p = NULL ∧ (st_mem s1 !! 0 = None → vfs_mnt 0x100 0x110 0x120 ex_vfs = Faulted (Undefined "store"))) ∨
     (p ≠ NULL ∧ ∃ s' L' s'' L'', vfs_mnt 0x100 0x110 0x120 ex_vfs = Done (p, s') ∧ vfs_umnt p s' = Done (tt, s'') ∧
        mounted 0x100 (st_mem s') L' [p] ∧ mounted 0x100 (st_mem s'') L'' [])).
Proof.
  destruct (vfs_mount_unmount (S := bump_state) 0x100 ex_vfs [] [] 0x110 0x120 [101; 120; 116] [47]) as (p & s1 & Hrun & Hcase).
  - split; [|constructor]. split; [done|done|done|intros c []%not_elem_of_nil|]. split; [done|].
    intros i Hi. change (bu_next ex_vfs) with ex_va in Hi. by apply ex_vfs_mem_out.
  - split; [|intros x []%not_elem_of_nil|intros i _ (c & []%not_elem_of_nil & _)].
    split; [split; [split; reflexivity|done]|apply NoDup_singleton|].
    intros x y ->%list_elem_of_singleton ->%list_elem_of_singleton. by left.
  - split; [split|done|].
    + intros i b Hi. do 4 (destruct i as [|i]; [injection Hi as <-; reflexivity|]). done.
    + repeat constructor; done.
    + intros i _. left. by intros (c & []%not_elem_of_nil & _).
  - split; [split|done|].
    + intros i b Hi. do 2 (destruct i as [|i]; [injection Hi as <-; reflexivity|]). done.
    + repeat constructor; done.
    + intros i _. left. by intros (c & []%not_elem_of_nil & _).
  - exists p, s1. split; [exact Hrun|]. clear Hrun.
    destruct Hcase as [Hn|(Hp & s' & L' & s'' & L'' & H1 & H2 & (_ & H3 & _) & (_ & _ & H4 & _))]; [left; exact Hn|right].
    split; [exact Hp|]. exists s', L', s'', L''. exact (conj H1 (conj H2 (conj H3 H4))).
Defined.
