(* ===== verification/Signal.v ===== *)
(** * kernel/multitasking/signal.c: sending and delivering signals

    The process is a [struct process] (arch/x86_64/multitasking/process.h) in
    the byte memory; this file has the offsets of its fields, of [struct
    trap_frame] and of [struct context], and the operations of signal.c. *)
From S2P Require Import Prelude CInt Mem CString Bitmap.

Definition PROCESS_NSIG : Z := 64.
Definition PROCESS_NAME_MAX : Z := 64.
Definition PROCESS_MAX_FD : Z := 256.
Definition PROCESS_KERNEL_STACK_SIZE : Z := 16384.

(** [enum process_state] *)
Definition PROCESS_RUNNING : Z := 0.
Definition PROCESS_READY : Z := 1.
Definition PROCESS_STOPPED : Z := 2.
Definition PROCESS_ZOMBIE : Z := 3.

(** The fields of [struct process], laid out as x86-64 compilers do. *)
Definition p_pid (p : Z) : Z := p.
Definition p_name (p : Z) : Z := p + 2.
Definition p_state (p : Z) : Z := p + 68.
Definition p_space (p : Z) : Z := p + 72.
Definition SCHED_LIST : Z := 80.
Definition p_sched_list (p : Z) : Z := p + SCHED_LIST.
Definition p_siblings_list (p : Z) : Z := p + 96.
Definition p_parent (p : Z) : Z := p + 112.
Definition p_child (p : Z) : Z := p + 120.
Definition p_fds (p : Z) : Z := p + 128.
Definition p_fdbitmap (p : Z) : Z := p + 4224.
Definition p_masked_signals (p : Z) : Z := p + 4280.
Definition p_pending_signals (p : Z) : Z := p + 4288.
Definition p_signals_handlers (p : Z) : Z := p + 4296.
Definition p_kstack (p : Z) : Z := p + 4808.
Definition p_tf (p : Z) : Z := p + 4816.
Definition p_saved_tf (p : Z) : Z := p + 4824.
Definition p_context (p : Z) : Z := p + 5000.
Definition PROCESS_SIZE : Z := 5008.

(** [struct trap_frame], packed. *)
Definition tf_rdi (tf : Z) : Z := tf + 72.
Definition tf_rip (tf : Z) : Z := tf + 136.
Definition tf_cs (tf : Z) : Z := tf + 144.
Definition tf_rflags (tf : Z) : Z := tf + 152.
Definition tf_rsp (tf : Z) : Z := tf + 160.
Definition tf_ss (tf : Z) : Z := tf + 168.
Definition TRAP_FRAME_SIZE : Z := 176.

(** [struct context], packed. *)
Definition c_rip (c : Z) : Z := c + 48.
Definition CONTEXT_SIZE : Z := 56.

(** The signals. *)
Definition SIGKILL : Z := 0.
Definition SIGSEGV : Z := 1.
Definition SIGSTOP : Z := 2.
Definition SIGCONT : Z := 3.

(** ** The operations *)
Section defs.
Context {CS : CSem} {S : Type} {MS : MemState S}.

(** [1 << signum] is computed on [int] and converted to [u64]. *)
Definition signal_bit (signum : Z) : M S Z := v ← of_outcome (int_shl1 signum); mret (u64 v).
Definition SIGNAL_IS_SET (signals_bm signum : Z) : M S bool :=
  v ← signal_bit signum; mret (negb (Z.land signals_bm v =? 0)).
Definition SIGNAL_SET (signals_bm signum : Z) : M S Z :=
  v ← signal_bit signum; mret (Z.lor signals_bm v).
Definition SIGNAL_UNSET (signals_bm signum : Z) : M S Z :=
  v ← of_outcome (int_shl1 signum); mret (Z.land signals_bm (u64 (Z.lnot v))).

(** [EINVAL] is not declared anywhere in the sources. *)
Definition signal_send (EINVAL proc signum : Z) : M S Z :=
  if (signum <? 0) || (PROCESS_NSIG <=? signum) then mret (- EINVAL)
  else
    masked ← rd64 (p_masked_signals proc);
    is_set ← SIGNAL_IS_SET masked signum;
    (if is_set : bool then mret tt
     else
       pending ← rd64 (p_pending_signals proc);
       pending ← SIGNAL_SET pending signum;
       wr64 (p_pending_signals proc) pending) ;;
    mret 0.

(** What is done without a handler, or for [SIGKILL]. *)
Definition signal_default (proc signum : Z) : M S unit :=
  if (signum =? SIGSEGV) || (signum =? SIGKILL) then mret tt
  else if signum =? SIGSTOP then wr32 (p_state proc) PROCESS_STOPPED
  else if signum =? SIGCONT then
    state ← rd32 (p_state proc);
    if state =? PROCESS_STOPPED then wr32 (p_state proc) PROCESS_READY else mret tt
  else mret tt.

(** The call of a handler, set up in the trap frame that was saved. *)
Definition signal_call (proc handler signum : Z) : M S unit :=
  tf ← rd64 (p_tf proc);
  memcpy (p_saved_tf proc) tf TRAP_FRAME_SIZE ;;
  tf ← rd64 (p_tf proc);
  wr64 (tf_rip tf) handler ;;
  tf ← rd64 (p_tf proc);
  wr64 (tf_rdi tf) signum.

Definition signal_deliver (proc : Z) : M S unit :=
  pending ← rd64 (p_pending_signals proc);
  if pending =? 0 then mret tt
  else
    found ← for_ret 0 PROCESS_NSIG (λ signum,
      pending ← rd64 (p_pending_signals proc);
      is_set ← SIGNAL_IS_SET pending signum;
      mret (if is_set : bool then Some signum else None));
    let signum := default PROCESS_NSIG found in
    pending ← rd64 (p_pending_signals proc);
    pending ← SIGNAL_UNSET pending signum;
    wr64 (p_pending_signals proc) pending ;;
    handler ← (if signum <? PROCESS_NSIG then rd64 (p_signals_handlers proc + 8 * signum)
               else faultM (Undefined "signals_handlers"));
    if (handler =? NULL) || (signum =? SIGKILL) then signal_default proc signum
    else signal_call proc handler signum.
End defs.

(** ** Lemmas *)
Lemma land_pow2 v k : 0 ≤ k → (Z.land v (2 ^ k) =? 0) = negb (Z.testbit v k).
Proof.
  intros Hk. destruct (Z.testbit v k) eqn:Hb; cbn [negb].
  - apply Z.eqb_neq. intros Hz. apply (f_equal (λ x, Z.testbit x k)) in Hz.
    by rewrite Z.land_spec, Hb, Z.pow2_bits_true, Z.testbit_0_l in Hz by lia.
  - apply Z.eqb_eq, Z.bits_inj'. intros i Hi. rewrite Z.land_spec, Z.testbit_0_l, Z.pow2_bits_eqb by lia.
    destruct (k =? i) eqn:E; bool_facts; [subst i; by rewrite Hb|by rewrite andb_false_r].
Qed.

Lemma testbit_unset v n k : 0 ≤ v < 2 ^ 64 → 0 ≤ n < 31 → 0 ≤ k →
  Z.testbit (Z.land v (u64 (Z.lnot (2 ^ n)))) k = Z.testbit v k && negb (k =? n).
Proof.
  intros Hv Hn Hk. rewrite Z.land_spec. destruct (decide (k < 64)).
  - rewrite u64_testbit, Z.lnot_spec, Z.pow2_bits_eqb by lia. by rewrite (Z.eqb_sym n k).
  - by rewrite testbit_high64 by lia.
Qed.

(** [n] is the signal that is delivered when [v] are pending: the lowest one; those
    from 31 up cannot be told apart and count as 31. *)
Record next_signal (v n : Z) : Prop := {
  ns_some : v ≠ 0;
  ns_range : 0 ≤ n ≤ 31;
  ns_low : ∀ k, 0 ≤ k < n → Z.testbit v k = false;
  ns_bit : n < 31 → Z.testbit v n = true;
}.

(** The signals that are pending afterwards. *)
Definition signal_left (v n : Z) : Z := if n <? 31 then Z.clearbit v n else 0.

Lemma signal_left_small v n : 0 ≤ v < 2 ^ 64 → 0 ≤ n < 31 → Z.land v (u64 (Z.lnot (2 ^ n))) = signal_left v n.
Proof.
  intros Hv Hn. unfold signal_left. rewrite (proj2 (Z.ltb_lt _ _)) by lia. apply Z.bits_inj'. intros k Hk.
  rewrite testbit_unset, Z.clearbit_eqb by lia. by rewrite (Z.eqb_sym k n).
Qed.

Lemma signal_left_range v n : 0 ≤ v < 2 ^ 64 → 0 ≤ n → 0 ≤ signal_left v n < 2 ^ 64.
Proof.
  intros Hv Hn. destruct (n <? 31) eqn:E; [|unfold signal_left; rewrite E; lia].
  bool_facts. rewrite <- signal_left_small by lia. by apply (land_range v).
Qed.

(** Pending signals all of which are from 31 up. *)
Lemma high_mod v : (∀ k, 0 ≤ k < 31 → Z.testbit v k = false) → v mod 2 ^ 31 = 0.
Proof.
  intros Hlow. apply Z.bits_inj'. intros k Hk. rewrite Z.testbit_0_l, Z.testbit_mod_pow2 by lia.
  destruct (k <? 31) eqn:E; bool_facts; [|done]. by rewrite Hlow by lia.
Qed.

Lemma high_land v : 0 ≤ v < 2 ^ 64 → (∀ k, 0 ≤ k < 31 → Z.testbit v k = false) → Z.land v (2 ^ 64 - 2 ^ 31) = v.
Proof.
  intros Hv Hlow. apply Z.bits_inj'. intros k Hk. rewrite Z.land_spec.
  change (2 ^ 64 - 2 ^ 31) with (Z.shiftl (Z.ones 33) 31). rewrite Z.shiftl_spec by lia.
  destruct (decide (k < 31)); [by rewrite Hlow by lia|]. destruct (decide (k < 64)).
  - rewrite Z.ones_spec_low by lia. by rewrite andb_true_r.
  - by rewrite testbit_high64 by lia.
Qed.

Section lemmas.
Context {CS : CSem} {S : Type} {MS : MemState S}.
Implicit Types s : S.

Lemma signal_bit_small n s : 0 ≤ n < 31 → signal_bit n s = Done (2 ^ n, s).
Proof.
  intros Hn. unfold signal_bit. rewrite int_shl1_small by lia. unfold of_outcome, mbind, M_bind, mret, M_ret.
  rewrite u64_small; [done|]. split; [lia|]. apply Z.pow_lt_mono_r; lia.
Qed.

Lemma is_set_small v n s : 0 ≤ n < 31 → SIGNAL_IS_SET v n s = Done (Z.testbit v n, s).
Proof.
  intros Hn. unfold SIGNAL_IS_SET. rewrite (bind_Done _ _ _ _ _ (signal_bit_small n s Hn)).
  rewrite land_pow2 by lia. by rewrite negb_involutive.
Qed.

Lemma is_set_next v n s : 0 ≤ v < 2 ^ 64 → next_signal v n → SIGNAL_IS_SET v n s = Done (true, s).
Proof.
  intros Hv [Hv0 Hn Hlow Hbit]. destruct (decide (n < 31)) as [Hlt|Hge]; [by rewrite is_set_small, Hbit by lia|].
  replace n with 31 in * by lia. unfold SIGNAL_IS_SET, signal_bit. rewrite int_shl1_31.
  unfold of_outcome, mbind, M_bind, mret, M_ret. change (u64 (- 2 ^ 31)) with (2 ^ 64 - 2 ^ 31).
  rewrite high_land by done. by rewrite (proj2 (Z.eqb_neq _ _)).
Qed.

Lemma unset_next v n s : 0 ≤ v < 2 ^ 64 → next_signal v n → SIGNAL_UNSET v n s = Done (signal_left v n, s).
Proof.
  intros Hv [Hv0 Hn Hlow Hbit]. unfold SIGNAL_UNSET. destruct (decide (n < 31)) as [Hlt|Hge].
  - rewrite int_shl1_small by lia. unfold of_outcome, mbind, M_bind, mret, M_ret. by rewrite signal_left_small by lia.
  - replace n with 31 in * by lia. rewrite int_shl1_31. unfold of_outcome, mbind, M_bind, mret, M_ret.
    change (u64 (Z.lnot (- 2 ^ 31))) with (Z.ones 31). rewrite Z.land_ones by lia. by rewrite high_mod.
Qed.

(** The search finds the lowest pending signal. *)
Lemma find_pending proc v n s : load_le 8 (st_mem s) (p_pending_signals proc) = Some v → next_signal v n →
  for_ret 0 PROCESS_NSIG (λ signum,
    pending ← rd64 (p_pending_signals proc);
    is_set ← SIGNAL_IS_SET pending signum;
    mret (if is_set : bool then Some signum else None)) s = Done (Some n, s).
Proof.
  intros Hv Hnext. pose proof (load_le_range _ _ _ _ Hv) as Hr. change (256 ^ Z.of_nat 8) with (2 ^ 64) in Hr.
  pose proof Hnext as [_ Hn Hlow _].
  enough (∀ j, 0 ≤ j ≤ n → for_ret (n - j) PROCESS_NSIG (λ signum,
    pending ← rd64 (p_pending_signals proc);
    is_set ← SIGNAL_IS_SET pending signum;
    mret (if is_set : bool then Some signum else None)) s = Done (Some n, s)) as H.
  { specialize (H n ltac:(lia)). by rewrite Z.sub_diag in H. }
  intros j Hj. rewrite <- (Z2Nat.id j) in * by lia. induction (Z.to_nat j) as [|i IH];
    rewrite for_ret_step by (unfold PROCESS_NSIG; lia).
  - rewrite Z.sub_0_r. rewrite (bind_Done _ _ s (Some n) s); [done|].
    rewrite (bind_Done _ _ s v s) by by apply load_Done.
    rewrite (bind_Done _ _ s _ s) by (by apply is_set_next). done.
  - rewrite (bind_Done _ _ s None s).
    2: { rewrite (bind_Done _ _ s v s) by by apply load_Done.
         rewrite (bind_Done _ _ s _ s) by (apply is_set_small; lia). by rewrite Hlow by lia. }
    replace (n - Z.of_nat (Datatypes.S i) + 1) with (n - Z.of_nat i) by lia. apply IH. lia.
Qed.
End lemmas.

Lemma keeps_mem_signal_deliver {CS : CSem} {S : Type} {MS : MemState S} p : keeps (S := S) mem_only (signal_deliver p).
Proof.
  unfold signal_deliver, signal_call, SIGNAL_IS_SET, SIGNAL_UNSET, signal_bit, signal_default, memcpy, rd8, rd32, rd64, wr8, wr32, wr64.
  keeps_auto.
Qed.

(** ** The theorems *)
Section properties.
Context {CS : CSem} {S : Type} {MS : MemState S}.
Implicit Types s : S.

Lemma signal_send_run EINVAL p signum v mk pd s (m := st_mem s) :
  0 ≤ signum < PROCESS_NSIG → int_shl1 signum = Done v →
  load_le 8 m (p_masked_signals p) = Some mk → load_le 8 m (p_pending_signals p) = Some pd →
  signal_send EINVAL p signum s =
    Done (0, if Z.land mk (u64 v) =? 0 then st_put (write_le 8 m (p_pending_signals p) (Z.lor pd (u64 v))) s else s).
Proof.
  intros Hn Hv Hmk Hpd. unfold signal_send.
  rewrite (proj2 (Z.ltb_ge _ _)), (proj2 (Z.leb_gt _ _)) by lia. cbn [orb].
  assert (∀ s, signal_bit signum s = Done (u64 v, s)) as Hbit by (intros; unfold signal_bit; by rewrite Hv).
  rewrite (bind_Done _ _ s mk s) by by apply load_Done.
  rewrite (bind_Done _ _ s (negb (Z.land mk (u64 v) =? 0)) s)
    by (unfold SIGNAL_IS_SET; by rewrite (bind_Done _ _ s _ s (Hbit s))).
  destruct (Z.land mk (u64 v) =? 0); cbn [negb]; [|done].
  erewrite bind_Done; [done|]. rewrite (bind_Done _ _ s pd s) by by apply load_Done.
  rewrite (bind_Done _ _ s (Z.lor pd (u64 v)) s)
    by (unfold SIGNAL_SET; by rewrite (bind_Done _ _ s _ s (Hbit s))).
  apply store_Done. by eexists.
Qed.

(** Sending one of the signals 0 to 30 returns 0 and makes exactly that
    signal pending, unless the process masks it; nothing else changes. *)
Theorem signal_send_marks EINVAL p signum mk pd s :
  0 ≤ signum < 31 →
  load_le 8 (st_mem s) (p_masked_signals p) = Some mk → load_le 8 (st_mem s) (p_pending_signals p) = Some pd →
  ∃ s' pd', signal_send EINVAL p signum s = Done (0, s') ∧
    load_le 8 (st_mem s') (p_pending_signals p) = Some pd' ∧
    (∀ k, 0 ≤ k → Z.testbit pd' k = Z.testbit pd k || (k =? signum) && negb (Z.testbit mk signum)) ∧
    only_in (p_pending_signals p) (p_pending_signals p + 8) (st_mem s) (st_mem s').
Proof.
  intros Hn Hmk Hpd. pose proof (load_le_range _ _ _ _ Hpd) as Hr. change (256 ^ Z.of_nat 8) with (2 ^ 64) in Hr.
  assert (0 ≤ 2 ^ signum < 2 ^ 64) as Hp by (split; [lia|apply Z.pow_lt_mono_r; lia]).
  rewrite (signal_send_run EINVAL p signum (2 ^ signum) mk pd s) by (unfold PROCESS_NSIG; try lia; try done;
    apply int_shl1_small; lia).
  rewrite u64_small by done. rewrite land_pow2 by lia. destruct (Z.testbit mk signum); cbn [negb].
  - exists s, pd. split; [done|]. split; [exact Hpd|]. split; [|apply only_in_refl].
    intros k Hk. by rewrite andb_false_r, orb_false_r.
  - eexists _, (Z.lor pd (2 ^ signum)). split; [reflexivity|]. rewrite st_mem_put.
    split; [rewrite load_write_same, Z.mod_small; [done|by apply lor_range]|]. split.
    + intros k Hk.
      by rewrite Z.lor_spec, Z.pow2_bits_eqb, andb_true_r, (Z.eqb_sym signum) by lia.
    + by apply (only_in_write_le 8), (load_le_mapped _ _ _ _ Hpd).
Qed.

End properties.

Section aliases.
Context {S : Type} {MS : MemState S}.
Implicit Types s : S.

(** As compiled for x86-64, a signal number from 32 to 62 is taken for the
    number 32 below it, so that 32 sends [SIGKILL]; sending 31 makes all the
    signals from 31 to 63 pending. *)
Theorem signal_send_aliases (garbage : Z) EINVAL p signum s :
  (32 ≤ signum < 63 →
     signal_send (CS := x86_O0 garbage) EINVAL p signum s = signal_send (CS := x86_O0 garbage) EINVAL p (signum - 32) s) ∧
  (∀ mk pd, load_le 8 (st_mem s) (p_masked_signals p) = Some mk → mk < 2 ^ 31 →
     load_le 8 (st_mem s) (p_pending_signals p) = Some pd →
     ∃ s' pd', signal_send (CS := x86_O0 garbage) EINVAL p 31 s = Done (0, s') ∧
       load_le 8 (st_mem s') (p_pending_signals p) = Some pd' ∧ ∀ k, 31 ≤ k < 64 → Z.testbit pd' k = true).
Proof.
  split.
  - intros Hn. assert (∀ s, signal_bit (CS := x86_O0 garbage) signum s = signal_bit (CS := x86_O0 garbage) (signum - 32) s) as Hbit.
    { intros s'. unfold signal_bit, int_shl1. rewrite !(proj2 (Z.ltb_ge _ _)), (proj2 (Z.eqb_neq _ _)) by lia.
      rewrite (proj2 (Z.ltb_lt (signum - 32) 31)) by lia. cbn [shl_over x86_O0]. unfold x86_shl.
      replace (signum mod 32) with (signum - 32) by zlia. unfold i32.
      assert (0 < 2 ^ (signum - 32) < 2 ^ 31) by (split; [lia|apply Z.pow_lt_mono_r; lia]).
      rewrite Z.mod_small by lia. rewrite Z.add_simpl_r. done. }
    unfold signal_send. rewrite !(proj2 (Z.ltb_ge _ _)), !(proj2 (Z.leb_gt _ _)) by (unfold PROCESS_NSIG; lia).
    cbn [orb]. unfold SIGNAL_IS_SET, SIGNAL_SET, mbind, M_bind. destruct (rd64 _ s) as [[mk s1]|f]; [|done].
    rewrite Hbit. destruct (signal_bit _ s1) as [[b s2]|f]; [|done]. unfold mret, M_ret.
    destruct (negb _); [done|]. destruct (rd64 _ s2) as [[pd s3]|f]; [|done]. by rewrite Hbit.
  - intros mk pd Hmk Hmk31 Hpd.
    pose proof (load_le_range _ _ _ _ Hpd) as Hr. pose proof (load_le_range _ _ _ _ Hmk) as Hmr.
    change (256 ^ Z.of_nat 8) with (2 ^ 64) in Hr, Hmr.
    rewrite (signal_send_run (CS := x86_O0 garbage) EINVAL p 31 (- 2 ^ 31) mk pd s) by (unfold PROCESS_NSIG; try lia; done).
    change (u64 (- 2 ^ 31)) with (Z.shiftl (Z.ones 33) 31).
    assert (Z.land mk (Z.shiftl (Z.ones 33) 31) = 0) as ->.
    { apply Z.bits_inj'. intros i Hi. rewrite Z.land_spec, Z.testbit_0_l. destruct (decide (i < 31)).
      - by rewrite Z.shiftl_spec_low, andb_false_r by lia.
      - destruct (decide (mk = 0)) as [->|]; [by rewrite Z.testbit_0_l|].
        rewrite Z.bits_above_log2; [done|lia|]. apply Z.log2_lt_pow2; [lia|].
        eapply Z.lt_le_trans; [exact Hmk31|]. apply Z.pow_le_mono_r; lia. }
    cbn [Z.eqb]. eexists _, (Z.lor pd (Z.shiftl (Z.ones 33) 31)). split; [reflexivity|]. rewrite st_mem_put.
    split; [rewrite load_write_same, Z.mod_small; [done|by apply lor_range]|].
    intros k Hk. rewrite Z.lor_spec, Z.shiftl_spec, Z.ones_spec_low by lia. apply orb_true_r.
Qed.


(** C36: [signal_send] as compiled for x86-64.  A number outside 0 to 63 is
    refused; 0 to 30 make exactly that signal pending unless the process masks
    it; 31 makes all the signals from 31 to 63 pending; and a number from 32 to
    62 is taken for the number 32 below it, so that 32 sends [SIGKILL]. *)
Theorem signal_send_contract (garbage : Z) EINVAL p signum mk pd s :
  load_le 8 (st_mem s) (p_masked_signals p) = Some mk → load_le 8 (st_mem s) (p_pending_signals p) = Some pd →
  let send n := signal_send (CS := x86_O0 garbage) EINVAL p n s in
  (signum < 0 ∨ PROCESS_NSIG ≤ signum → send signum = Done (- EINVAL, s)) ∧
  (0 ≤ signum < 31 → ∃ s' pd', send signum = Done (0, s') ∧
     load_le 8 (st_mem s') (p_pending_signals p) = Some pd' ∧
     (∀ k, 0 ≤ k → Z.testbit pd' k = Z.testbit pd k || (k =? signum) && negb (Z.testbit mk signum)) ∧
     only_in (p_pending_signals p) (p_pending_signals p + 8) (st_mem s) (st_mem s')) ∧
  (mk < 2 ^ 31 → ∃ s' pd', send 31 = Done (0, s') ∧
     load_le 8 (st_mem s') (p_pending_signals p) = Some pd' ∧ ∀ k, 31 ≤ k < 64 → Z.testbit pd' k = true) ∧
  (32 ≤ signum < 63 → send signum = send (signum - 32)).
Proof.
  intros Hmk Hpd. destruct (signal_send_aliases garbage EINVAL p signum s) as [Halias H31]. cbv zeta. split_and!.
  - intros Hn. unfold signal_send.
    destruct (Z.ltb_spec signum 0); [done|]. destruct (Z.leb_spec PROCESS_NSIG signum); [done|lia].
  - intros Hn. by apply signal_send_marks.
  - intros Hm. by apply (H31 mk pd).
  - exact Halias.
Qed.

End aliases.

Section delivery.
Context {CS : CSem} {S : Type} {MS : MemState S}.
Implicit Types s : S.

(** The state of the process after the default action. *)
Definition signal_state (n st : Z) : Z :=
  if n =? SIGSTOP then PROCESS_STOPPED
  else if (n =? SIGCONT) && (st =? PROCESS_STOPPED) then PROCESS_READY else st.

(** What becomes of the process and of its trap frame, the pending signals
    apart. *)
Definition delivered (p n h st tf : Z) (m m' : mem) : Prop :=
  if (h =? NULL) || (n =? SIGKILL) then
    load_le 4 m' (p_state p) =
      Some (signal_state n st) ∧
    ∀ a, ¬ p_pending_signals p ≤ a < p_pending_signals p + 8 → ¬ p_state p ≤ a < p_state p + 4 → m' !! a = m !! a
  else
    (∀ i, 0 ≤ i < TRAP_FRAME_SIZE → load_le 1 m' (p_saved_tf p + i) = load_le 1 m (tf + i)) ∧
    load_le 8 m' (tf_rip tf) = Some h ∧ load_le 8 m' (tf_rdi tf) = Some n ∧
    ∀ a, ¬ p_pending_signals p ≤ a < p_pending_signals p + 8 →
      ¬ p_saved_tf p ≤ a < p_saved_tf p + TRAP_FRAME_SIZE →
      ¬ tf_rip tf ≤ a < tf_rip tf + 8 → ¬ tf_rdi tf ≤ a < tf_rdi tf + 8 → m' !! a = m !! a.

Lemma wp_signal_default p n st s (Q : unit → S → Prop) :
  load_le 4 (st_mem s) (p_state p) = Some st →
  (∀ s', load_le 4 (st_mem s') (p_state p) = Some (signal_state n st) →
     only_in (p_state p) (p_state p + 4) (st_mem s) (st_mem s') → Q tt s') →
  wp (signal_default p n) s Q.
Proof.
  intros Hst HQ.
  assert (∀ w, 0 ≤ w < 2 ^ 32 → w = signal_state n st → wp (wr32 (p_state p) w) s Q) as Hset.
  { intros w Hw ->. apply wp_store; [by eexists|]. apply HQ; rewrite st_mem_put.
    - by rewrite load_write_same, Z.mod_small.
    - by apply (only_in_write_le 4), (load_le_mapped _ _ _ _ Hst). }
  assert (st = signal_state n st → wp (mret tt) s Q) as Hkeep.
  { intros E. wp_steps. apply HQ; [by rewrite <- E|apply only_in_refl]. }
  unfold signal_default. revert Hset Hkeep. unfold signal_state.
  destruct ((n =? SIGSEGV) || (n =? SIGKILL)) eqn:E.
  { intros _ Hkeep. apply Hkeep. by apply orb_true_iff in E as [->%Z.eqb_eq| ->%Z.eqb_eq]. }
  destruct (n =? SIGSTOP); [intros Hset _; by apply Hset|].
  destruct (n =? SIGCONT); cbn [andb]; [|intros _ Hkeep; by apply Hkeep].
  intros Hset Hkeep. wp_step. eapply wp_load; [exact Hst|]. case_if; [by apply Hset|by apply Hkeep].
Qed.

Lemma wp_signal_call p h n tf s (Q : unit → S → Prop) :
  0 < p → p + PROCESS_SIZE ≤ 2 ^ 64 → mapped (st_mem s) p PROCESS_SIZE →
  load_le 8 (st_mem s) (p_tf p) = Some tf → mapped (st_mem s) tf TRAP_FRAME_SIZE →
  p + PROCESS_SIZE ≤ tf ∨ tf + TRAP_FRAME_SIZE ≤ p → 0 ≤ h < 2 ^ 64 → 0 ≤ n < 2 ^ 64 →
  (∀ s', (∀ i, 0 ≤ i < TRAP_FRAME_SIZE → load_le 1 (st_mem s') (p_saved_tf p + i) = load_le 1 (st_mem s) (tf + i)) →
     load_le 8 (st_mem s') (tf_rip tf) = Some h → load_le 8 (st_mem s') (tf_rdi tf) = Some n →
     (∀ a, ¬ p_saved_tf p ≤ a < p_saved_tf p + TRAP_FRAME_SIZE → ¬ tf_rip tf ≤ a < tf_rip tf + 8 →
        ¬ tf_rdi tf ≤ a < tf_rdi tf + 8 → st_mem s' !! a = st_mem s !! a) → Q tt s') →
  wp (signal_call p h n) s Q.
Proof.
  intros Hp Hp64 Hm Htf Hmtf Hdis Hh Hn HQ. unfold signal_call, PROCESS_SIZE, TRAP_FRAME_SIZE, p_saved_tf, p_tf in *.
  wp_step. eapply wp_load; [exact Htf|]. wp_step.
  apply wp_memcpy; [lia|eapply mapped_sub; [exact Hm|lia|lia]|exact Hmtf|lia|unfold NULL; lia|].
  intros m2 Hout2 Hcopy. pose proof (proj1 Hout2) as Hsame.
  assert (∀ k a, a + Z.of_nat k ≤ p + 4824 ∨ p + 4824 + 176 ≤ a → load_le k m2 a = load_le k (st_mem s) a) as Hm2.
  { intros k a Ha. eapply only_in_load; [exact Hout2|lia]. }
  assert (mapped m2 tf 176) as Hmtf2 by by eapply only_in_mapped.
  wp_step. apply (wp_load _ _ tf); [rewrite st_mem_put, Hm2 by lia; exact Htf|].
  unfold tf_rip, tf_rdi in *. wp_step. apply wp_store; rewrite st_mem_put.
  { apply load_le_is_Some. eapply mapped_sub; [exact Hmtf2|lia|lia]. }
  rewrite st_put_put. wp_step. apply (wp_load _ _ tf); [rewrite st_mem_put, load_write_ne, Hm2 by lia; exact Htf|].
  apply wp_store; rewrite st_mem_put.
  { apply load_le_is_Some. eapply mapped_sub; [by apply mapped_write_le|lia|lia]. }
  apply HQ; rewrite ?st_put_put, ?st_mem_put.
  - intros i Hi. rewrite !load_write_ne by lia. apply Hcopy. lia.
  - rewrite load_write_ne by lia. by rewrite load_write_same, Z.mod_small.
  - rewrite load_write_same, Z.mod_small; done.
  - intros a Ha1 Ha2 Ha3. rewrite !write_le_lookup_out by lia. apply Hsame. lia.
Qed.

(** A process at [p] to which signal [n] can be delivered: [v] are its pending
    signals, [h] is the handler of [n], and its trap frame is at [tf], apart. *)
Record can_deliver (m : mem) (p v n h st tf : Z) : Prop := {
  cd_range : 0 < p ∧ p + PROCESS_SIZE ≤ 2 ^ 64;
  cd_mapped : mapped m p PROCESS_SIZE;
  cd_pending : load_le 8 m (p_pending_signals p) = Some v;
  cd_next : next_signal v n;
  cd_handler : load_le 8 m (p_signals_handlers p + 8 * n) = Some h;
  cd_state : load_le 4 m (p_state p) = Some st;
  cd_tf : load_le 8 m (p_tf p) = Some tf;
  cd_frame : mapped m tf TRAP_FRAME_SIZE;
  cd_apart : p + PROCESS_SIZE ≤ tf ∨ tf + TRAP_FRAME_SIZE ≤ p;
}.

Lemma signal_deliver_none p s : load_le 8 (st_mem s) (p_pending_signals p) = Some 0 → signal_deliver p s = Done (tt, s).
Proof. intros Hp. unfold signal_deliver. by rewrite (bind_Done _ _ s 0 s) by by apply load_Done. Qed.

Lemma signal_deliver_run p v n h st tf s (m := st_mem s) : can_deliver m p v n h st tf →
  ∃ s', signal_deliver p s = Done (tt, s') ∧ load_le 8 (st_mem s') (p_pending_signals p) = Some (signal_left v n) ∧
    delivered p n h st tf m (st_mem s').
Proof.
  intros [[Hp Hp64] Hm Hv Hnext Hh Hst Htf Hmtf Hdis]. pose proof Hnext as [Hv0 Hn _ _].
  pose proof (load_le_range _ _ _ _ Hv) as Hr. change (256 ^ Z.of_nat 8) with (2 ^ 64) in Hr.
  pose proof (signal_left_range v n Hr ltac:(lia)) as Hvr. set (v' := signal_left v n) in *.
  set (m1 := write_le 8 m (p_pending_signals p) v').
  assert (∀ k a, a + Z.of_nat k ≤ p_pending_signals p ∨ p_pending_signals p + 8 ≤ a →
    load_le k m1 a = load_le k m a) as Hm1 by (intros k a Ha; apply load_write_ne; lia).
  assert (load_le 8 m1 (p_pending_signals p) = Some v') as Hm1v.
  { unfold m1. by rewrite load_write_same, Z.mod_small. }
  assert (only_in (p_pending_signals p) (p_pending_signals p + 8) m m1) as Hout1.
  { by apply (only_in_write_le 8), (load_le_mapped _ _ _ _ Hv). }
  apply wp_unit.
  unfold signal_deliver. wp_step. eapply wp_load; [exact Hv|].
  rewrite (proj2 (Z.eqb_neq _ _) Hv0). wp_step. eapply wp_eq; [by apply (find_pending p v n)|].
  change (default PROCESS_NSIG (Some n)) with n. cbv zeta.
  wp_step. eapply wp_load; [exact Hv|]. wp_step. eapply wp_eq; [by apply unset_next|]. fold v'.
  wp_step. apply wp_store; [by eexists|]. fold m m1.
  rewrite (proj2 (Z.ltb_lt n PROCESS_NSIG)) by (unfold PROCESS_NSIG; lia).
  wp_step. apply (wp_load _ _ h).
  { rewrite st_mem_put, Hm1; [exact Hh|]. unfold p_signals_handlers, p_pending_signals. lia. }
  pose proof (load_le_range _ _ _ _ Hh) as Hhr. change (256 ^ Z.of_nat 8) with (2 ^ 64) in Hhr.
  unfold delivered. destruct ((h =? NULL) || (n =? SIGKILL)) eqn:Edef.
  - apply (wp_signal_default p n st); rewrite ?st_mem_put.
    { rewrite Hm1; [exact Hst|]. unfold p_state, p_pending_signals. lia. }
    intros s' Hst' Hout2. split_and!; [|exact Hst'|].
    + rewrite <- Hm1v. eapply only_in_load; [exact Hout2|]. unfold p_state, p_pending_signals. lia.
    + intros a Ha1 Ha2. rewrite (proj1 Hout2) by done. by apply (proj1 Hout1).
  - assert (load_le 8 m1 (p_tf p) = Some tf) as Htf1 by (rewrite Hm1; [exact Htf|unfold p_tf, p_pending_signals; lia]).
    apply (wp_signal_call p h n tf); rewrite ?st_mem_put; try done; try (by apply mapped_write_le); [lia|].
    intros s' Hcopy Hrip Hrdi Hsame. unfold PROCESS_SIZE, TRAP_FRAME_SIZE, tf_rip, tf_rdi, p_saved_tf, p_pending_signals in *.
    split_and!; [|intros i Hi; rewrite Hcopy by lia; apply Hm1; lia|done|done|].
    + rewrite <- Hm1v. apply load_le_ext. intros i Hi. apply Hsame; lia.
    + intros a Ha1 Ha2 Ha3 Ha4. rewrite Hsame by lia. by apply (proj1 Hout1).
Qed.

(** C21: without pending signals [signal_deliver] does nothing.  Otherwise it takes
    the lowest one off them, whether the process masks it or not; the signals from 31
    up cannot be told apart, and are taken off together as signal 31.  Without a
    handler, or for [SIGKILL], [SIGSTOP] stops the process, [SIGCONT] makes a stopped
    process ready, and every other signal is dropped; otherwise the trap frame is
    saved and the process resumes in the handler, with the signal as its argument. *)
Theorem signal_deliver_lowest p s (m := st_mem s) :
  (load_le 8 m (p_pending_signals p) = Some 0 → signal_deliver p s = Done (tt, s)) ∧
  ∀ v n h st tf, can_deliver m p v n h st tf →
    ∃ s', signal_deliver p s = Done (tt, s') ∧ load_le 8 (st_mem s') (p_pending_signals p) = Some (signal_left v n) ∧
      (∀ k, 0 ≤ k → Z.testbit (signal_left v n) k = Z.testbit v k && negb (if n <? 31 then k =? n else 31 <=? k)) ∧
      delivered p n h st tf m (st_mem s').
Proof.
  split; [apply signal_deliver_none|]. intros v n h st tf Hcd.
  destruct (signal_deliver_run p v n h st tf s Hcd) as (s' & Hrun & Hv' & Hd). exists s'. split_and!; try done.
  intros k Hk. pose proof (cd_next _ _ _ _ _ _ _ Hcd) as [_ Hn Hlow _]. unfold signal_left. destruct (n <? 31) eqn:E; bool_facts.
  - rewrite Z.clearbit_eqb by lia. by rewrite (Z.eqb_sym k n).
  - rewrite Z.testbit_0_l. destruct (31 <=? k) eqn:Ek; bool_facts; [by rewrite andb_false_r|]. by rewrite Hlow by lia.
Qed.
End delivery.

(** ** Examples *)
#[local] Instance ex_CS : CSem := strict_c.

(** A process at 4096 with [SIGSTOP] and signal 5 pending, a handler for the
    latter, and its trap frame at 16384. *)
Definition ex_process : mem :=
  write_le 8 (write_le 8 (write_le 8 (zero_mem 4096 16384) (p_pending_signals 4096) 36)
    (p_tf 4096) 16384) (p_signals_handlers 4096 + 8 * 5) 0x401000.

Lemma ex_process_mapped a n : 4096 ≤ a → a + n ≤ 20480 → mapped ex_process a n.
Proof. intros Ha Hn. unfold ex_process. do 3 apply mapped_write_le. apply zero_mem_mapped; lia. Qed.

Lemma ex_process_loads :
  load_le 8 (st_mem ex_process) (p_masked_signals 4096) = Some 0 ∧
  load_le 8 (st_mem ex_process) (p_pending_signals 4096) = Some 36 ∧
  load_le 8 (st_mem ex_process) (p_signals_handlers 4096 + 8 * 2) = Some 0 ∧
  load_le 4 (st_mem ex_process) (p_state 4096) = Some 0 ∧
  load_le 8 (st_mem ex_process) (p_tf 4096) = Some 16384.
Proof.
  change (st_mem ex_process) with ex_process.
  unfold ex_process, p_masked_signals, p_pending_signals, p_signals_handlers, p_state, p_tf.
  split_and!; mem_eval.
Qed.

Lemma signal_send_marks_witness :
  ∃ s' pd', signal_send 22 4096 3 ex_process = Done (0, s') ∧
    load_le 8 (st_mem s') (p_pending_signals 4096) = Some pd' ∧ Z.testbit pd' 3 = true.
Proof.
  destruct ex_process_loads as (Hmk & Hpd & _).
  destruct (signal_send_marks (S := mem) 22 4096 3 0 36 ex_process) as (s' & pd' & Hrun & Hl & Hk & _);
    [lia|exact Hmk|exact Hpd|].
  exists s', pd'. split; [exact Hrun|]. split; [exact Hl|]. exact (Hk 3 ltac:(lia)).
Defined.

Lemma signal_deliver_lowest_witness :
  ∃ s' v', signal_deliver 4096 ex_process = Done (tt, s') ∧
    load_le 8 (st_mem s') (p_pending_signals 4096) = Some v' ∧
    delivered 4096 2 0 0 16384 (st_mem ex_process) (st_mem s').
Proof.
  destruct ex_process_loads as (_ & Hpd & Hh & Hst & Htf).
  destruct (signal_deliver_lowest (S := mem) 4096 ex_process) as (_ & Hdel).
  destruct (Hdel 36 2 0 0 16384) as (s' & Hrun & Hl & _ & Hd).
  - split; [unfold PROCESS_SIZE; lia|apply ex_process_mapped; unfold PROCESS_SIZE; lia|exact Hpd| |
      exact Hh|exact Hst|exact Htf|apply ex_process_mapped; unfold TRAP_FRAME_SIZE; lia|left; unfold PROCESS_SIZE; lia].
    split; [done|lia| |done]. intros k Hk. assert (k = 0 ∨ k = 1) as [-> | ->] by lia; done.
  - exists s', 32. split; [exact Hrun|]. split; [exact Hl|exact Hd].
Defined.

Lemma signal_send_aliases_witness :
  signal_send (CS := x86_O0 0) 22 4096 32 ex_process = signal_send (CS := x86_O0 0) 22 4096 SIGKILL ex_process ∧
  ∃ s' pd', signal_send (CS := x86_O0 0) 22 4096 31 ex_process = Done (0, s') ∧
    load_le 8 (st_mem s') (p_pending_signals 4096) = Some pd' ∧ Z.testbit pd' 63 = true.
Proof.
  destruct ex_process_loads as (Hmk & Hpd & _).
  destruct (signal_send_aliases (S := mem) 0 22 4096 32 ex_process) as [H32 H31]. split; [apply H32; lia|].
  destruct (H31 0 36) as (s' & pd' & Hrun & Hl & Hk); [exact Hmk|lia|exact Hpd|].
  exists s', pd'. split; [exact Hrun|]. split; [exact Hl|]. exact (Hk 63 ltac:(lia)).
Defined.

Lemma signal_send_contract_witness :
  (∃ s' pd', signal_send (CS := x86_O0 0) 22 4096 3 ex_process = Done (0, s') ∧
     load_le 8 (st_mem s') (p_pending_signals 4096) = Some pd' ∧ Z.testbit pd' 3 = true) ∧
  signal_send (CS := x86_O0 0) 22 4096 64 ex_process = Done (- 22, ex_process) ∧
  signal_send (CS := x86_O0 0) 22 4096 32 ex_process = signal_send (CS := x86_O0 0) 22 4096 SIGKILL ex_process.
Proof.
  destruct ex_process_loads as (Hmk & Hpd & _).
  split_and!.
  - destruct (signal_send_contract (S := mem) 0 22 4096 3 0 36 ex_process Hmk Hpd) as (_ & H & _ & _).
    destruct H as (s' & pd' & Hrun & Hl & Hk & _); [lia|]. exists s', pd'.
    split; [exact Hrun|]. split; [exact Hl|]. exact (Hk 3 ltac:(lia)).
  - destruct (signal_send_contract (S := mem) 0 22 4096 64 0 36 ex_process Hmk Hpd) as (H & _).
    apply H. right. unfold PROCESS_NSIG. lia.
  - destruct (signal_send_contract (S := mem) 0 22 4096 32 0 36 ex_process Hmk Hpd) as (_ & _ & _ & H).
    apply H. lia.
Defined.
