(* ===== verification/Sched.v ===== *)
(** * kernel/multitasking/sched.c and process_switch: the scheduler

    The scheduled processes form a circle of [struct list_head] through their
    [sched_list] fields and the static [scheduled_procs].  [process_switch] is
    in arch/x86_64/multitasking/process.c; the change of stack of switch.asm is
    an event. *)
From S2P Require Import Prelude CInt Mem CString Hw Gdt Bitmap DList Pmm Mmu Signal.

(** [running] and [sched_schleeper]. *)
Record sched_globals : Type := mk_sched { g_running : Z; g_schleeper : Z }.

Class SchedState (S : Type) {MS : MemState S} {HW : Hardware S} {GS : GdtState S} : Type := {
  sched_g : S → sched_globals;
  sched_put : sched_globals → S → S;
  sched_g_put : ∀ g s, sched_g (sched_put g s) = g;
  sched_g_mem : ∀ m s, sched_g (st_put m s) = sched_g s;
  sched_g_hw : ∀ l s, sched_g (hw_put l s) = sched_g s;
  sched_g_gdt : ∀ g s, sched_g (gdt_put g s) = sched_g s;
  sched_mem_put : ∀ g s, st_mem (sched_put g s) = st_mem s;
}.

Record sched_state : Type := mk_sched_state { ss_gdt : gdt_state; ss_sched : sched_globals }.

#[export] Program Instance sched_state_mem : MemState sched_state := {|
  st_mem := st_mem ∘ ss_gdt; st_put := λ m s, mk_sched_state (st_put m (ss_gdt s)) (ss_sched s);
|}.
Solve All Obligations with by intros; try match goal with s : sched_state |- _ => destruct s as [[[] ?] ?] end.

#[export] Program Instance sched_state_hw : Hardware sched_state := {|
  hw_log := hw_log ∘ ss_gdt; hw_put := λ l s, mk_sched_state (hw_put l (ss_gdt s)) (ss_sched s);
  hw_msr := λ _, mret (0, 0); hw_cpuid := λ _ _, mret (0, 0, 0, 0); hw_mmio := λ _, mret 0; hw_in := λ _, mret 0;
|}.
Solve All Obligations with by intros; try match goal with s : sched_state |- _ => destruct s as [[[] ?] ?] end.

#[export] Program Instance sched_state_gdt : GdtState sched_state := {|
  gdt_g := gs_gdt ∘ ss_gdt; gdt_put := λ g s, mk_sched_state (gdt_put g (ss_gdt s)) (ss_sched s);
|}.
Solve All Obligations with by intros; try match goal with s : sched_state |- _ => destruct s as [[[] ?] ?] end.

#[export] Program Instance sched_state_sched : SchedState sched_state := {|
  sched_g := ss_sched; sched_put := λ g s, mk_sched_state (ss_gdt s) g;
|}.
Solve All Obligations with by intros; try match goal with s : sched_state |- _ => destruct s as [[[] ?] ?] end.

(** ** The operations *)
Section defs.
Context {CS : CSem} {S : Type} {MS : MemState S} {HW : Hardware S} {GS : GdtState S} {SS : SchedState S}.
(** The address of the static list head. *)
Context (scheduled_procs : Z).

(** switch.asm: the registers are saved on the stack, whose pointer is written
    at [cur], and those of [next] are taken from its stack. *)
Definition process_switch_asm (cur next : Z) : M S unit := event (SwitchStack cur next).

Definition process_switch (cur next : Z) : M S unit :=
  if cur =? next then mret tt
  else
    kstack ← rd64 (p_kstack next);
    gdt_set_tss_rsp (u64 (kstack + PROCESS_KERNEL_STACK_SIZE - 1)) ;;
    space ← rd64 (p_space next);
    mmu_switch_space paging_load space ;;
    context ← rd64 (p_context next);
    process_switch_asm (p_context cur) context.

Definition get_running : M S Z := gets (λ s, g_running (sched_g s)).
Definition get_schleeper : M S Z := gets (λ s, g_schleeper (sched_g s)).

Definition sched_add (proc : Z) : M S unit := list_add (p_sched_list proc) scheduled_procs.

Definition sched_init (proc : Z) : M S unit :=
  modify (sched_put (mk_sched proc proc)) ;;
  sched_add proc.

Definition sched_rmv (process : Z) : M S unit := wr32 (p_state process) PROCESS_ZOMBIE.

Definition sched_switch : M S unit :=
  running ← get_running;
  switched ← list_for_each_safe (p_sched_list running) (λ pos,
    let proc := list_entry pos SCHED_LIST in
    state ← rd32 (p_state proc);
    if state =? PROCESS_READY then
      signal_deliver proc ;;
      running ← get_running;
      process_switch running proc ;;
      mret (Some tt)
    else
      state ← rd32 (p_state proc);
      (if state =? PROCESS_ZOMBIE then list_del (p_sched_list proc) else mret tt) ;;
      mret None);
  match switched with
  | Some _ => mret tt
  | None =>
      running ← get_running;
      schleeper ← get_schleeper;
      process_switch running schleeper
  end.
End defs.

(** ** The circle seen from the running process

    [vs] are the addresses from which the nodes after [r] are at the offset of
    [sched_list]: processes, and [scheduled_procs - SCHED_LIST] for the list
    head, which [sched_switch] does not tell from a process. *)
Record sched_ok {S} {MS : MemState S} {HW : Hardware S} {GS : GdtState S} {SS : SchedState S}
    (s : S) (r : Z) (vs : list Z) (st : Z → Z) : Prop := {
  so_running : g_running (sched_g s) = r;
  so_circle : clist (st_mem s) (p_sched_list r) (p_sched_list <$> vs);
  so_apart : ∀ v w, v ∈ vs → w ∈ r :: vs → v + 72 ≤ w + 80 ∨ w + 96 ≤ v + 68;
  so_state : ∀ v, v ∈ vs → load_le 4 (st_mem s) (p_state v) = Some (st v);
}.

Definition live (st : Z → Z) (vs : list Z) : list Z := filter (λ v, st v ≠ PROCESS_ZOMBIE) vs.

Section lemmas.
Context {CS : CSem} {S : Type} {MS : MemState S} {HW : Hardware S} {GS : GdtState S} {SS : SchedState S}.
Implicit Types s : S.

Lemma same_outside_trans l m1 m2 m3 : same_outside l m1 m2 → same_outside l m2 m3 → same_outside l m1 m3.
Proof. intros H1 H2 i Hi. by rewrite H2, H1. Qed.

Lemma same_outside_mono l l' m m' : (∀ x, x ∈ l → x ∈ l') → same_outside l m m' → same_outside l' m m'.
Proof. intros Hl H i Hi. apply H. intros x Hx. apply Hi, Hl, Hx. Qed.

Lemma state_same s r vs st s1 v : sched_ok s r vs st → v ∈ vs →
  same_outside (p_sched_list <$> r :: vs) (st_mem s) (st_mem s1) → load_le 4 (st_mem s1) (p_state v) = Some (st v).
Proof.
  intros Hok Hv Hs. rewrite <- (so_state _ _ _ _ Hok v Hv). apply (same_outside_load _ _ _ _ _ Hs).
  intros x (w & -> & Hw)%list_elem_of_fmap. pose proof (so_apart _ _ _ _ Hok v w Hv Hw).
  unfold p_state, p_sched_list, SCHED_LIST, LIST_HEAD_SIZE. lia.
Qed.

#[export] Instance sched_list_inj : Inj (=) (=) p_sched_list.
Proof. intros v w. unfold p_sched_list. lia. Qed.

Lemma running_kept s s' r : mem_only s s' → g_running (sched_g s) = r → g_running (sched_g s') = r.
Proof. intros ->. by rewrite sched_g_mem. Qed.

Definition sched_step s r vs s1 : Prop :=
  mem_only s s1 ∧ same_outside (p_sched_list <$> r :: vs) (st_mem s) (st_mem s1).

Lemma sched_visit_ready r q s1 (Q : option unit → S → Prop) :
  g_running (sched_g s1) = r →
  wp (signal_deliver q ;; process_switch r q) s1 (λ _, Q (Some tt)) →
  wp (signal_deliver q ;; running ← get_running; process_switch running q ;; mret (Some tt)) s1 Q.
Proof.
  intros Hr Hwp. unfold wp, mbind, M_bind in *. destruct (signal_deliver q s1) as [[[] s2]|f] eqn:Hd; [|done].
  apply keeps_mem_signal_deliver in Hd. unfold get_running, gets. rewrite (running_kept _ _ _ Hd Hr).
  destruct (process_switch r q s2) as [[[] s3]|f]; [exact Hwp|done].
Qed.

(** The traversal stops at the first ready process, or at the end. *)
Lemma wp_sched_switch s r vs st (Q : unit → S → Prop) :
  sched_ok s r vs st →
  (∀ a q b s1, vs = a ++ q :: b → (∀ v, v ∈ a → st v ≠ PROCESS_READY) → st q = PROCESS_READY →
     sched_step s r vs s1 → clist (st_mem s1) (p_sched_list r) (p_sched_list <$> live st a ++ q :: b) →
     wp (signal_deliver q ;; process_switch r q) s1 Q) →
  (∀ s1, (∀ v, v ∈ vs → st v ≠ PROCESS_READY) → sched_step s r vs s1 →
     clist (st_mem s1) (p_sched_list r) (p_sched_list <$> live st vs) →
     wp (process_switch r (g_schleeper (sched_g s))) s1 Q) →
  wp sched_switch s Q.
Proof.
  intros Hok Hready Hidle. unfold sched_switch. wp_step. apply wp_gets. rewrite (so_running _ _ _ _ Hok). wp_step.
  pose (I := λ ys kept s1, ∃ a, ys = p_sched_list <$> a ∧ kept = p_sched_list <$> live st a ∧
    (∀ v, v ∈ a → st v ≠ PROCESS_READY) ∧ sched_step s r vs s1).
  apply (wp_for_each_safe (p_sched_list r) (p_sched_list <$> vs) s _ I).
  - exists []. split_and!; [done|done|by intros v ?%elem_of_nil|]. split; [done|]. by intros i _.
  - apply Hok.
  - intros ys kept x zs s1 Hvs (a & -> & -> & Ha & [Hmo Hso]) Hcirc.
    apply fmap_app_inv in Hvs as (a' & qb & Ea & Eqb & ->).
    apply (inj (fmap p_sched_list)) in Ea as <-.
    symmetry in Eqb. apply fmap_cons_inv in Eqb as (q & b & -> & -> & ->).
    rewrite <- fmap_cons, <- fmap_app in Hcirc.
    assert (list_entry (p_sched_list q) SCHED_LIST = q) as -> by (unfold list_entry, p_sched_list; lia).
    assert (q ∈ a ++ q :: b) as Hq by set_solver.
    pose proof (state_same s r _ st s1 q Hok Hq Hso) as Hst. cbv zeta.
    wp_step. eapply wp_load; [exact Hst|]. case_if; bool_facts.
    + apply sched_visit_ready with (r := r); [eapply running_kept; [exact Hmo|apply Hok]|].
      eapply wp_mono; [apply (Hready a q b s1)|]; [done|done|done|by split|done|].
      intros [] s2 HQ. exact HQ.
    + wp_step. eapply wp_load; [exact Hst|]. wp_step.
      assert (∀ v, v ∈ a ++ [q] → st v ≠ PROCESS_READY) as Ha'.
      { intros v [Hv|Hv%list_elem_of_singleton]%elem_of_app; [by apply Ha|by subst v]. }
      case_if; bool_facts.
      * rewrite fmap_app, fmap_cons in Hcirc. apply (wp_list_del _ _ _ _ _ _ Hcirc).
        intros m' Hc' _ _ Hsame _. wp_step. exists (p_sched_list <$> live st a). rewrite st_mem_put.
        split; [|exact Hc']. exists (a ++ [q]). split; [by rewrite fmap_app|]. split.
        { unfold live. by rewrite filter_app, filter_cons_False, filter_nil, app_nil_r by naive_solver. }
        split; [done|]. split; [etrans; [exact Hmo|]; unfold mem_only; by rewrite st_mem_put|].
        rewrite st_mem_put. eapply same_outside_trans; [exact Hso|].
        eapply same_outside_mono; [|exact Hsame]. intros y Hy. unfold live in Hy.
        rewrite fmap_cons, fmap_app, fmap_cons. rewrite !elem_of_cons, !elem_of_app, !elem_of_cons in *.
        destruct Hy as [?|[Hy|?]]; [tauto| |tauto]. right. left.
        apply list_elem_of_fmap in Hy as (v & -> & Hv). apply list_elem_of_fmap. exists v. split; [done|].
        by apply list_elem_of_filter in Hv as [_ ?].
      * wp_steps. exists (p_sched_list <$> live st a ++ [q]). split.
        { exists (a ++ [q]). split; [by rewrite fmap_app|]. split; [|done].
          unfold live. by rewrite filter_app, filter_cons_True, filter_nil by done. }
        rewrite <- fmap_app, <- app_assoc. exact Hcirc.
  - intros kept s1 (a & Ea & -> & Ha & [Hmo Hso]) Hcirc. apply (inj (fmap p_sched_list)) in Ea as <-.
    wp_step. apply wp_gets. rewrite (running_kept _ _ _ Hmo (so_running _ _ _ _ Hok)).
    wp_step. apply wp_gets. rewrite Hmo, sched_g_mem, <- Hmo. by apply Hidle.
Qed.

Lemma process_switch_run cur next ks space dir ctx s :
  cur ≠ next → load_le 8 (st_mem s) (p_kstack next) = Some ks → load_le 8 (st_mem s) (p_space next) = Some space →
  load_le 8 (st_mem s) (s_page_directory space) = Some dir → load_le 8 (st_mem s) (p_context next) = Some ctx →
  ∃ s', process_switch cur next s = Done (tt, s') ∧ st_mem s' = st_mem s ∧ sched_g s' = sched_g s ∧
    hw_log s' = SwitchStack (p_context cur) ctx :: LoadCr3 (DM_V2P dir) :: hw_log s ∧
    t_rsp0 (g_tss (gdt_g s')) = u64 (ks + PROCESS_KERNEL_STACK_SIZE - 1).
Proof.
  intros Hne Hks Hsp Hdir Hctx. apply wp_unit. unfold process_switch. rewrite (proj2 (Z.eqb_neq _ _) Hne).
  wp_step. eapply wp_load; [exact Hks|]. wp_step. unfold gdt_set_tss_rsp. wp_steps.
  destruct (gdt_g s) as [gdt tss]. wp_steps.
  unfold mmu_switch_space. eapply wp_load; [by rewrite gdt_mem_put|]. wp_steps.
  eapply wp_load; [by rewrite gdt_mem_put|]. apply wp_event. wp_steps.
  eapply wp_load; [by rewrite hw_mem_put, gdt_mem_put|]. apply wp_event.
  rewrite !hw_mem_put, gdt_mem_put, !sched_g_hw, sched_g_gdt, !hw_log_put, gdt_hw_put, !gdt_g_hw, gdt_g_put.
  by destruct tss.
Qed.

(** ** The signal a process gets before it runs *)

Record signal_request : Type := mk_signal { sg_pending : Z; sg_num : Z; sg_handler : Z; sg_state : Z; sg_tf : Z }.

(** [sig] is what [signal_deliver] finds, [None] when no signal is pending. *)
Definition awaits (m : mem) (q : Z) (sig : option signal_request) : Prop :=
  match sig with
  | None => load_le 8 m (p_pending_signals q) = Some 0
  | Some (mk_signal v n h st tf) => can_deliver m q v n h st tf
  end.

(** What it leaves. *)
Definition got (m m' : mem) (q : Z) (sig : option signal_request) : Prop :=
  match sig with
  | None => m' = m
  | Some (mk_signal v n h st tf) =>
      load_le 8 m' (p_pending_signals q) = Some (signal_left v n) ∧ delivered q n h st tf m m'
  end.

(** The trap frame is apart from the [n] bytes at [a]. *)
Definition frame_apart (sig : option signal_request) (a n : Z) : Prop :=
  ∀ g, sig = Some g → sg_tf g + TRAP_FRAME_SIZE ≤ a ∨ a + n ≤ sg_tf g.

Lemma deliver_got q sig s : awaits (st_mem s) q sig →
  ∃ s', signal_deliver q s = Done (tt, s') ∧ mem_only s s' ∧ got (st_mem s) (st_mem s') q sig.
Proof.
  destruct sig as [[v n h st tf]|]; intros Hw.
  - destruct (signal_deliver_run q v n h st tf s Hw) as (s' & Hrun & Hv & Hd). exists s'. split; [done|].
    split; [by apply keeps_mem_signal_deliver in Hrun|by split].
  - exists s. split; [by apply signal_deliver_none|]. split; [|done]. unfold mem_only. by rewrite st_put_mem.
Qed.

(** The bytes that the delivery leaves alone. *)
Lemma got_frame m m' q sig a n : got m m' q sig → frame_apart sig a n →
  (∀ o k, (o, k) ∈ [(68, 4); (4288, 8); (4824, TRAP_FRAME_SIZE)] → a + n ≤ q + o ∨ q + o + k ≤ a) →
  ∀ i, a ≤ i < a + n → m' !! i = m !! i.
Proof.
  intros Hg Hf Ho i Hi. destruct sig as [[v k h st tf]|]; [|by rewrite Hg]. destruct Hg as [_ Hd].
  specialize (Hf _ eq_refl). cbn [sg_tf] in Hf. unfold delivered in Hd.
  pose proof (Ho 68 4 ltac:(set_solver)). pose proof (Ho 4288 8 ltac:(set_solver)).
  pose proof (Ho 4824 TRAP_FRAME_SIZE ltac:(set_solver)).
  unfold p_pending_signals, p_state, p_saved_tf, tf_rip, tf_rdi, TRAP_FRAME_SIZE in *.
  destruct ((h =? NULL) || (k =? SIGKILL)); [destruct Hd as (_ & Hd)|destruct Hd as (_ & _ & _ & Hd)]; apply Hd; lia.
Qed.

(** Unlinking other processes does not matter for the delivery. *)
Lemma awaits_same m m1 q sig l : awaits m q sig → p_sched_list q ∈ l → same_outside l m m1 →
  mapped m1 (p_sched_list q) LIST_HEAD_SIZE →
  (∀ x, x ∈ l → x ≠ p_sched_list q → q + PROCESS_SIZE ≤ x ∨ x + LIST_HEAD_SIZE ≤ q) →
  (∀ x, x ∈ l → frame_apart sig x LIST_HEAD_SIZE) → awaits m1 q sig.
Proof.
  intros Hw Hq Hs Hmq Hap Hf. unfold LIST_HEAD_SIZE, PROCESS_SIZE in *.
  assert (∀ i, q ≤ i < q + 5008 → ¬ q + 80 ≤ i < q + 96 → m1 !! i = m !! i) as Hsame.
  { intros i Hi Hno. apply Hs. intros x Hx Hxi. unfold p_sched_list, SCHED_LIST, LIST_HEAD_SIZE in *.
    destruct (decide (x = q + 80)) as [->|Hne]; [lia|]. specialize (Hap x Hx Hne). lia. }
  assert (∀ k o, 0 ≤ o → o + Z.of_nat k ≤ 80 ∨ 96 ≤ o → o + Z.of_nat k ≤ 5008 → load_le k m1 (q + o) = load_le k m (q + o)) as Hld.
  { intros k o Ho1 Ho2 Ho3. apply load_le_ext. intros i Hi. apply Hsame; lia. }
  destruct sig as [[v n h st tf]|]; cbn [awaits] in *.
  2: { unfold p_pending_signals in *. by rewrite Hld by lia. }
  destruct Hw as [Hr Hm Hv Hn Hh Hst Htf Hmf Hpf]. pose proof (ns_range _ _ Hn). split; try done.
  - intros i Hi. unfold PROCESS_SIZE in Hi. destruct (decide (q + 80 ≤ i < q + 96)) as [Hin|Hout].
    + apply Hmq. unfold p_sched_list, SCHED_LIST. lia.
    + rewrite Hsame by done. apply Hm. unfold PROCESS_SIZE. lia.
  - unfold p_pending_signals in *. by rewrite Hld by lia.
  - unfold p_signals_handlers in *. rewrite <- Z.add_assoc in *. by rewrite Hld by lia.
  - unfold p_state in *. by rewrite Hld by lia.
  - unfold p_tf in *. by rewrite Hld by lia.
  - intros i Hi. rewrite Hs; [by apply Hmf|]. intros x Hx Hxi. pose proof (Hf x Hx _ eq_refl) as Hfx.
    unfold LIST_HEAD_SIZE in Hxi. cbn [sg_tf] in Hfx. lia.
Qed.

Lemma first_split (P : Z → Prop) a q b a' q' b' :
  a ++ q :: b = a' ++ q' :: b' → (∀ v, v ∈ a → ¬ P v) → (∀ v, v ∈ a' → ¬ P v) → P q → P q' →
  a = a' ∧ q = q' ∧ b = b'.
Proof.
  revert a'. induction a as [|x a IH]; intros [|x' a'] Heq Ha Ha' Hq Hq'; simplify_eq/=.
  - done.
  - exfalso. apply (Ha' x'); [set_solver|done].
  - exfalso. apply (Ha q'); [set_solver|done].
  - destruct (IH a') as (-> & -> & ->); [done|set_solver..|done|done|done].
Qed.
End lemmas.

(** ** The theorems *)
Section properties.
Context {CS : CSem} {S : Type} {MS : MemState S} {HW : Hardware S} {GS : GdtState S} {SS : SchedState S}.
Implicit Types s : S.

(** [q] is the first ready process after the running one, [r], in the circle; what it
    needs to be switched to is apart from the nodes of the list, and so is the trap
    frame of the signal it may get before. *)
Record switch_ready (s : S) (r : Z) (a : list Z) (q : Z) (b : list Z) (st : Z → Z) (sig : option signal_request)
    (ks space dir ctx : Z) : Prop := {
  sw_ok : sched_ok s r (a ++ q :: b) st;
  sw_first : ∀ v, v ∈ a → st v ≠ PROCESS_READY;
  sw_ready : st q = PROCESS_READY;
  sw_other : q ≠ r;
  sw_apart : ∀ w, w ∈ r :: a ++ q :: b → w ≠ q → q + PROCESS_SIZE ≤ w + 80 ∨ w + 96 ≤ q;
  sw_signal : awaits (st_mem s) q sig;
  sw_frame : ∀ w, w ∈ r :: a ++ q :: b → frame_apart sig (p_sched_list w) LIST_HEAD_SIZE;
  sw_frame_space : frame_apart sig space 8;
  sw_frame_process : frame_apart sig q PROCESS_SIZE;
  sw_kstack : load_le 8 (st_mem s) (p_kstack q) = Some ks;
  sw_space : load_le 8 (st_mem s) (p_space q) = Some space;
  sw_context : load_le 8 (st_mem s) (p_context q) = Some ctx;
  sw_directory : load_le 8 (st_mem s) (s_page_directory space) = Some dir;
  sw_space_nodes : ∀ w, w ∈ r :: a ++ q :: b → space + 8 ≤ w + 80 ∨ w + 96 ≤ space;
  sw_space_process : space + 8 ≤ q ∨ q + PROCESS_SIZE ≤ space;
}.

(** What [sched_switch] then does: the zombies before [q] are unlinked, [q] gets its
    signal, and the processor is switched to it. *)
Definition switched (s : S) (r : Z) (a : list Z) (q : Z) (b : list Z) (st : Z → Z) (sig : option signal_request)
    (ks dir ctx : Z) (s' : S) : Prop :=
  (∃ m1, same_outside (p_sched_list <$> r :: a ++ q :: b) (st_mem s) m1 ∧ got m1 (st_mem s') q sig) ∧
  hw_log s' = SwitchStack (p_context r) ctx :: LoadCr3 (DM_V2P dir) :: hw_log s ∧
  t_rsp0 (g_tss (gdt_g s')) = u64 (ks + PROCESS_KERNEL_STACK_SIZE - 1) ∧
  clist (st_mem s') (p_sched_list r) (p_sched_list <$> live st a ++ q :: b) ∧ sched_g s' = sched_g s.

(** The delivery and the switch, once the zombies are unlinked. *)
Lemma deliver_and_switch s r a q b st sig ks space dir ctx s1 :
  switch_ready s r a q b st sig ks space dir ctx → sched_step s r (a ++ q :: b) s1 →
  clist (st_mem s1) (p_sched_list r) (p_sched_list <$> live st a ++ q :: b) →
  wp (signal_deliver q ;; process_switch r q) s1 (λ _, switched s r a q b st sig ks dir ctx).
Proof.
  intros [Hok Ha Hq Hqr Hap Hw Hf Hfs Hfq Hks Hsp Hctx Hdir Hspn Hspq] [Hmo Hso] Hcirc.
  set (l := p_sched_list <$> r :: a ++ q :: b) in *.
  assert (∀ x, x ∈ l → ∃ w, x = p_sched_list w ∧ w ∈ r :: a ++ q :: b) as Hl by (intros x Hx; by apply list_elem_of_fmap in Hx).
  assert (awaits (st_mem s1) q sig) as Hw1.
  { apply (awaits_same (st_mem s) _ _ _ l); [done|apply list_elem_of_fmap_2; set_solver|done| | |].
    - apply (clist_node_mapped _ _ _ _ Hcirc). rewrite fmap_app, fmap_cons. set_solver.
    - intros x (w & -> & Hin)%Hl Hne. destruct (Hap w Hin) as [?|?]; [by intros ->|left|right]; unfold p_sched_list, SCHED_LIST, LIST_HEAD_SIZE; lia.
    - intros x (w & -> & Hin)%Hl. by apply Hf. }
  destruct (deliver_got q sig s1 Hw1) as (s2 & Hrun & Hmo2 & Hgot). wp_step. eapply wp_eq; [exact Hrun|].
  assert (∀ k x, (∀ w, w ∈ r :: a ++ q :: b → x + Z.of_nat k ≤ w + 80 ∨ w + 96 ≤ x) → frame_apart sig x (Z.of_nat k) →
    (∀ o n, (o, n) ∈ [(68, 4); (4288, 8); (4824, TRAP_FRAME_SIZE)] → x + Z.of_nat k ≤ q + o ∨ q + o + n ≤ x) →
    load_le k (st_mem s2) x = load_le k (st_mem s) x) as Hkeep.
  { intros k x Hx Hfx Ho. transitivity (load_le k (st_mem s1) x).
    - apply load_le_ext. by apply (got_frame _ _ _ _ _ _ Hgot).
    - apply (same_outside_load _ _ _ _ _ Hso). intros y (w & -> & Hin)%Hl. specialize (Hx w Hin).
      unfold p_sched_list, SCHED_LIST, LIST_HEAD_SIZE. lia. }
  assert (∀ f, f = 72 ∨ f = 4808 ∨ f = 5000 → load_le 8 (st_mem s2) (q + f) = load_le 8 (st_mem s) (q + f)) as Hfield.
  { intros f Hff. unfold PROCESS_SIZE, TRAP_FRAME_SIZE in *. apply Hkeep.
    - intros w Hin. destruct (decide (w = q)) as [->|Hne]; [lia|]. specialize (Hap w Hin Hne). lia.
    - intros g Hg. specialize (Hfq g Hg). unfold TRAP_FRAME_SIZE in *. lia.
    - intros o n Hon. rewrite !elem_of_cons, elem_of_nil in Hon. destruct Hon as [[= -> ->]|[[= -> ->]|[[= -> ->]|[]]]]; lia. }
  destruct (process_switch_run r q ks space dir ctx s2) as (s3 & Hrun3 & Hm3 & Hg3 & Hl3 & Ht3); [done|..];
    try (unfold p_kstack, p_space, p_context; rewrite Hfield by tauto; assumption).
  { rewrite Hkeep; [exact Hdir|exact Hspn|exact Hfs|]. unfold s_page_directory, PROCESS_SIZE, TRAP_FRAME_SIZE in *.
    intros o n Hon. rewrite !elem_of_cons, elem_of_nil in Hon. destruct Hon as [[= -> ->]|[[= -> ->]|[[= -> ->]|[]]]]; lia. }
  eapply wp_eq; [exact Hrun3|]. unfold switched. rewrite Hl3, Hm3, Hg3, Hmo2, hw_log_mem, sched_g_mem, <- Hmo2.
  split; [exists (st_mem s1); split; [exact Hso|exact Hgot]|]. split; [by rewrite Hmo, hw_log_mem|]. split; [exact Ht3|].
  split; [|by rewrite Hmo, sched_g_mem]. apply (clist_ext (st_mem s1)); [exact Hcirc|]. intros x i Hx Hi.
  assert (∃ w, x = p_sched_list w ∧ w ∈ r :: a ++ q :: b) as (w & -> & Hin).
  { apply elem_of_cons in Hx as [->|Hx]; [exists r; set_solver|]. apply list_elem_of_fmap in Hx as (w & -> & Hx). exists w. split; [done|].
    apply elem_of_cons. right. apply elem_of_app in Hx as [Hx|Hx]; [apply list_elem_of_filter in Hx as [_ Hx]; set_solver|set_solver]. }
  apply (got_frame _ _ _ _ (p_sched_list w) LIST_HEAD_SIZE Hgot (Hf w Hin)); [|done].
  intros o n Hon. rewrite !elem_of_cons, elem_of_nil in Hon. unfold p_sched_list, SCHED_LIST, LIST_HEAD_SIZE, PROCESS_SIZE, TRAP_FRAME_SIZE in *.
  destruct (decide (w = q)) as [->|Hne]; [|specialize (Hap w Hin Hne)]; destruct Hon as [[= -> ->]|[[= -> ->]|[[= -> ->]|[]]]]; lia.
Qed.

Lemma sched_switch_run s r a q b st sig ks space dir ctx :
  switch_ready s r a q b st sig ks space dir ctx →
  ∃ s', sched_switch s = Done (tt, s') ∧ switched s r a q b st sig ks dir ctx s'.
Proof.
  intros Hsw. pose proof Hsw as [Hok Ha Hq _ _ _ _ _ _ _ _ _ _ _ _]. apply wp_unit. eapply wp_sched_switch; [exact Hok| |].
  2: { intros s1 Hno. exfalso. apply (Hno q); [set_solver|done]. }
  intros a' q' b' s1 Heq Ha' Hq' Hstep Hcirc.
  destruct (first_split (λ v, st v = PROCESS_READY) a q b a' q' b' Heq Ha Ha' Hq Hq') as (<- & <- & <-).
  eapply wp_mono; [by eapply deliver_and_switch|]. by intros [] s'.
Qed.

(** C19: [sched_switch] unlinks the zombies between the running process and the
    first ready one after it in the circle, delivers the lowest pending signal of
    that one, if any, and switches to it: its kernel stack goes to the task state
    segment, its page tables to the processor, and the stacks are exchanged.  It is
    switched to whatever the signal does, also when [SIGSTOP] has just stopped it.
    [running] stays what it was. *)
Theorem sched_switch_next s r a q b st sig ks space dir ctx :
  switch_ready s r a q b st sig ks space dir ctx →
  ∃ s', sched_switch s = Done (tt, s') ∧ switched s r a q b st sig ks dir ctx s'.
Proof. apply sched_switch_run. Qed.

(** A process that the pending [SIGSTOP] has just stopped is switched to all the same. *)
Lemma sched_switch_stopped s r a q b st v tf ks space dir ctx :
  switch_ready s r a q b st (Some (mk_signal v SIGSTOP NULL PROCESS_READY tf)) ks space dir ctx →
  ∃ s', sched_switch s = Done (tt, s') ∧ load_le 4 (st_mem s') (p_state q) = Some PROCESS_STOPPED ∧
    hw_log s' = SwitchStack (p_context r) ctx :: LoadCr3 (DM_V2P dir) :: hw_log s.
Proof.
  intros (s' & Hrun & (m1 & _ & _ & Hst & _) & Hlog & _)%sched_switch_run. by exists s'.
Qed.

(** When no process is ready, [sched_switch] only unlinks the zombies and
    goes on with the sleeper, without a switch if it is the running process. *)
Theorem sched_switch_idle s r vs st :
  sched_ok s r vs st → (∀ v, v ∈ vs → st v ≠ PROCESS_READY) → g_schleeper (sched_g s) = r →
  ∃ s', sched_switch s = Done (tt, s') ∧ mem_only s s' ∧
    clist (st_mem s') (p_sched_list r) (p_sched_list <$> live st vs) ∧
    same_outside (p_sched_list <$> r :: vs) (st_mem s) (st_mem s').
Proof.
  intros Hok Hno Hr. apply wp_unit. eapply wp_sched_switch; [exact Hok| |].
  - intros a q b s1 -> _ Hq. exfalso. apply (Hno q); [set_solver|done].
  - intros s1 _ [Hmo Hso] Hcirc. rewrite Hr. unfold process_switch. rewrite Z.eqb_refl. wp_steps. by split_and!.
Qed.
End properties.

(** ** Examples *)
#[local] Instance ex_CS : CSem := strict_c.

Definition ex_link (m : mem) (a b : Z) : mem := write_le 8 (write_le 8 m a b) (b + 8) a.

(** The list head at 4096 (seen as the process 4016), the running process at
    0x2000, a zombie at 0x4000 and a ready process at 0x6000, linked in this
    order; the address space of the latter is at 0x9000.  At 0x20000 is a trap frame
    of interrupt 60. *)
Definition ex_sched_mem : mem :=
  let m := zero_mem 4080 32 ∪ zero_mem 0x2050 16 ∪ zero_mem 0x4040 32 ∪ zero_mem 0x6040 32
             ∪ zero_mem 0x70b8 728 ∪ zero_mem 0x9000 8 ∪ zero_mem 0x20000 176 in
  let m := ex_link (ex_link (ex_link (ex_link m 4096 0x2050) 0x2050 0x4050) 0x4050 0x6050) 0x6050 4096 in
  let m := write_le 4 (write_le 4 m (p_state 0x4000) PROCESS_ZOMBIE) (p_state 0x6000) PROCESS_READY in
  let m := write_le 8 (write_le 8 (write_le 8 (write_le 8 m (p_space 0x6000) 0x9000) 0x9000 (DM_P2V 0x300000))
    (p_kstack 0x6000) 0x10000) (p_context 0x6000) 0x13f00 in
  write_le 8 m (0x20000 + 120) 60.

Definition ex_sched : sched_state :=
  mk_sched_state (mk_gdt_state (mk_machine ex_sched_mem []) gdt_globals_initial) (mk_sched 0x2000 0x2000).
Definition ex_st (v : Z) : Z := if v =? 0x4000 then PROCESS_ZOMBIE else if v =? 0x6000 then PROCESS_READY else 0.

Lemma ex_sched_ok : sched_ok ex_sched 0x2000 [0x4000; 0x6000; 4016] ex_st.
Proof.
  split.
  - done.
  - split; [by vm_compute|apply (bool_decide_unpack _); by vm_compute|].
    intros x y Hx Hy. unfold apart, LIST_HEAD_SIZE, p_sched_list, SCHED_LIST in *. cbn [fmap list_fmap] in *.
    rewrite !elem_of_cons, elem_of_nil in Hx, Hy. lia.
  - intros v w Hv Hw. rewrite !elem_of_cons, elem_of_nil in Hv. rewrite !elem_of_cons, elem_of_nil in Hw. lia.
  - intros v Hv. rewrite !elem_of_cons, elem_of_nil in Hv.
    destruct Hv as [-> | [-> | [-> | []]]]; by vm_compute.
Qed.

Lemma ex_switch_ready :
  switch_ready ex_sched 0x2000 [0x4000] 0x6000 [4016] ex_st None 0x10000 0x9000 (DM_P2V 0x300000) 0x13f00.
Proof.
  split; [exact ex_sched_ok|by intros v ->%list_elem_of_singleton|done|done| |by vm_compute|done|done|done|by vm_compute|by vm_compute
    |by vm_compute|by vm_compute| |right; unfold PROCESS_SIZE; lia].
  - intros w Hw. cbn [app] in Hw. rewrite !elem_of_cons, elem_of_nil in Hw. unfold PROCESS_SIZE. lia.
  - intros w Hw. cbn [app] in Hw. rewrite !elem_of_cons, elem_of_nil in Hw. lia.
Qed.

Lemma sched_switch_next_witness :
  ∃ s', sched_switch ex_sched = Done (tt, s') ∧
    hw_log s' = [SwitchStack (p_context 0x2000) 0x13f00; LoadCr3 0x300000] ∧
    clist (st_mem s') 0x2050 [0x6050; 4096] ∧ sched_g s' = sched_g ex_sched.
Proof.
  destruct (sched_switch_next ex_sched 0x2000 [0x4000] 0x6000 [4016] ex_st None 0x10000 0x9000 (DM_P2V 0x300000) 0x13f00)
    as (s' & Hrun & _ & Hlog & _ & Hc & Hg); [exact ex_switch_ready|].
  exists s'. split; [exact Hrun|]. split; [exact Hlog|]. split; [exact Hc|exact Hg].
Defined.

(** Nothing but the running process in the list. *)
Definition ex_alone_mem (w : Z) : mem :=
  let m := zero_mem 4080 32 ∪ zero_mem 0x2050 16 in
  write_le 4 (ex_link (ex_link m 4096 0x2050) 0x2050 4096) 4084 w.
Definition ex_alone (w : Z) : sched_state :=
  mk_sched_state (mk_gdt_state (mk_machine (ex_alone_mem w) []) gdt_globals_initial) (mk_sched 0x2000 0x2000).

Lemma ex_alone_ok w : 0 ≤ w < 2 ^ 32 → sched_ok (ex_alone w) 0x2000 [4016] (λ _, w).
Proof.
  intros Hw. split.
  - done.
  - split.
    + change (links (ex_alone_mem w) 0x2050 4096 ∧ links (ex_alone_mem w) 4096 0x2050 ∧ True).
      unfold links, ex_alone_mem. rewrite !(load_write_ne 8 _ 4) by lia. by vm_compute.
    + apply (bool_decide_unpack _). by vm_compute.
    + intros x y Hx Hy. unfold apart, LIST_HEAD_SIZE, p_sched_list, SCHED_LIST in *. cbn [fmap list_fmap] in *.
      rewrite !elem_of_cons, elem_of_nil in Hx, Hy. lia.
  - intros v w' Hv Hw'. rewrite !elem_of_cons, elem_of_nil in Hv. rewrite !elem_of_cons, elem_of_nil in Hw'. lia.
  - intros v ->%list_elem_of_singleton. change (p_state 4016) with 4084. unfold ex_alone, ex_alone_mem.
    cbn [st_mem sched_state_mem gdt_state_mem machine_mem ss_gdt gs_machine mc_mem compose].
    by rewrite load_write_same, Z.mod_small.
Qed.

Lemma sched_switch_idle_witness :
  ∃ s', sched_switch (ex_alone 0) = Done (tt, s') ∧ clist (st_mem s') 0x2050 [4096].
Proof.
  destruct (sched_switch_idle (ex_alone 0) 0x2000 [4016] (λ _, 0)) as (s' & Hrun & _ & Hc & _);
    [apply ex_alone_ok; lia|done|done|]. exists s'. split; [exact Hrun|exact Hc].
Defined.

(** The word before the list head decides whether the head is run as a process:
    with a 1 there, [sched_switch] reads the pending signals of the "process"
    at [scheduled_procs - SCHED_LIST], outside the memory of the example. *)
Lemma sched_switch_list_head : sched_switch (ex_alone PROCESS_READY) = Faulted (Undefined "load").
Proof. by vm_compute. Qed.
