(* ===== verification/Process.v ===== *)
(** * kernel/multitasking/process.c: creating processes

    Composes the heap, the address spaces, the lists, the bitmaps and the
    scheduler.  [process_arch_init] is in arch/x86_64/multitasking/process.c. *)
From S2P Require Import Prelude CInt Mem CString Printk Hw Gdt Bitmap DList Pmm Mmu VmmSlab Kheap Vmm Signal Sched.

Definition DPL_USER : Z := 0x3.

Section arch.
Context {S : Type} {MS : MemState S}.
(** The addresses of the labels [trap_ret] and [process_first_run]. *)
Context (trap_ret process_first_run : Z).

(** The trap frame of a process that enters user space. *)
Definition fill_trap_frame (proc uentry ustack : Z) : M S unit :=
  tf ← rd64 (p_tf proc);
  memset tf 0 TRAP_FRAME_SIZE ;;
  tf ← rd64 (p_tf proc);
  wr64 (tf_rsp tf) ustack ;;
  tf ← rd64 (p_tf proc);
  wr64 (tf_ss tf) (Z.lor (GDT_USER_DATA_INDEX * 8) DPL_USER) ;;
  tf ← rd64 (p_tf proc);
  wr64 (tf_cs tf) (Z.lor (GDT_USER_CODE_INDEX * 8) DPL_USER) ;;
  tf ← rd64 (p_tf proc);
  wr64 (tf_rflags tf) 0x202 ;;
  tf ← rd64 (p_tf proc);
  wr64 (tf_rip tf) uentry.

(** What the first switch to the process finds below its trap frame. *)
Definition push_context (proc sp : Z) : M S unit :=
  let sp := u64 (sp - 8) in
  wr64 sp trap_ret ;;
  let sp := u64 (sp - CONTEXT_SIZE) in
  wr64 (p_context proc) sp ;;
  context ← rd64 (p_context proc);
  memset context 0 CONTEXT_SIZE ;;
  context ← rd64 (p_context proc);
  wr64 (c_rip context) process_first_run.

Definition process_arch_init (proc uentry ustack : Z) : M S unit :=
  kstack ← rd64 (p_kstack proc);
  let sp := u64 (kstack + PROCESS_KERNEL_STACK_SIZE) in
  let sp := u64 (sp - TRAP_FRAME_SIZE) in
  wr64 (p_tf proc) sp ;;
  fill_trap_frame proc uentry ustack ;;
  push_context proc sp.
End arch.

Section defs.
Context {CS : CSem} {S : Type} {MS : MemState S} {PS : PmmState S} {VS : VmmState S} {OA : ObjectAllocator S}
  {HS : HeapState S} {KV : KernelVmm S} {HW : Hardware S} {GS : GdtState S} {SS : SchedState S}.
(** Addresses: the labels, the static [pid_bitmap] and the list of processes;
    [debug] is the build option. *)
Context (debug : bool) (trap_ret process_first_run pid_bitmap scheduled_procs : Z).

Definition process_get_unused_pid : M S Z :=
  bm ← read_bitmap pid_bitmap;
  i ← bitmap_find_and_set bm;
  let pid := u16 i in
  len ← rd64 pid_bitmap;
  if pid =? len then panic "process_get_unused_pid: exhausted all PIDs" else mret pid.

(** The new process becomes a sibling of the child of its parent, or that child. *)
Definition link_parent (proc parent : Z) : M S unit :=
  has_child ← (if negb (parent =? NULL) then
                 child ← rd64 (p_child parent); mret (negb (child =? NULL))
               else mret false);
  if has_child : bool then
    child ← rd64 (p_child parent);
    list_add (p_siblings_list proc) (p_siblings_list child)
  else wr64 (p_child parent) proc.

(** The part of [process_create] after the allocations. *)
Definition process_fill (proc name uentry parent : Z) : M S Z :=
  process_arch_init trap_ret process_first_run proc uentry 0xffff ;;
  name_len ← strlen name PROCESS_NAME_MAX;
  memcpy (p_name proc) name name_len ;;
  wr8 (p_name proc + name_len) 0 ;;
  pid ← process_get_unused_pid;
  wr16 (p_pid proc) pid ;;
  bitmap_init_static (p_fdbitmap proc) PROCESS_MAX_FD ;;
  INIT_LIST_HEAD (p_sched_list proc) ;;
  INIT_LIST_HEAD (p_siblings_list proc) ;;
  wr32 (p_state proc) PROCESS_READY ;;
  wr64 (p_parent proc) parent ;;
  link_parent proc parent ;;
  wr64 (p_child proc) NULL ;;
  memset (p_signals_handlers proc) 0 (8 * PROCESS_NSIG) ;;
  mret proc.

Definition process_create (name uentry parent : Z) : M S Z :=
  proc ← kmalloc PROCESS_SIZE;
  if proc =? NULL then mret NULL
  else
    kstack ← kmalloc PROCESS_KERNEL_STACK_SIZE;
    wr64 (p_kstack proc) kstack ;;
    kstack ← rd64 (p_kstack proc);
    if kstack =? NULL then kfree proc ;; mret NULL
    else
      space ← kspace;
      wr64 (p_space proc) space ;;
      space ← vmm_create_space 0x1000 LOWER_HALF_STOP;
      wr64 (p_space proc) space ;;
      space ← rd64 (p_space proc);
      if space =? NULL then
        kstack ← rd64 (p_kstack proc);
        kfree kstack ;; kfree proc ;; mret NULL
      else
        space ← rd64 (p_space proc);
        kernel ← kspace;
        vmm_copy_regions space kernel ;;
        (if debug then
           kernel ← kspace; space ← rd64 (p_space proc); mmu_test_compare_mapping kernel space
         else mret tt) ;;
        space ← rd64 (p_space proc);
        ustack ← vmm_alloc_at space 0xf000 8 PAGE_USER_RW;
        if ustack =? NULL then
          space ← rd64 (p_space proc);
          vmm_delete_space space ;;
          kstack ← rd64 (p_kstack proc);
          kfree kstack ;; kfree proc ;; mret NULL
        else process_fill proc name uentry parent.

(** [bitmap_init_kheap] of a [struct bitmap] in memory at [p]. *)
Definition bitmap_init_kheap_at (p len : Z) : M S Z :=
  wr64 p len ;;
  let size := BITMAP_SIZE_IN_BLOCK len in
  wr64 (p + 8) size ;;
  ptr ← kmalloc (u64 (8 * size));
  wr64 (p + 16) ptr ;;
  if ptr =? NULL then mret NULL
  else
    memset ptr 0xff (u64 (size * 8)) ;;
    mret (u64 (ptr + size)).

(** The characters of a local array, copied to [dst]. *)
Definition copy_codes (dst : Z) (cs : list Z) : M S unit :=
  for_up 0 (Z.of_nat (length cs)) (λ i, wr8 (dst + i) (default 0 (cs !! Z.to_nat i))).

Definition process_init : M S unit :=
  proc ← kmalloc PROCESS_SIZE;
  (if proc =? NULL then panic "process_init: failed to init boot process" else mret tt) ;;
  kernel ← kspace;
  wr64 (p_space proc) kernel ;;
  wr16 (p_pid proc) 0 ;;
  INIT_LIST_HEAD (p_sched_list proc) ;;
  copy_codes (p_name proc) (codes "BOOTSTRAP PROCESS" ++ [0]) ;;
  wr64 (p_tf proc) NULL ;;
  wr32 (p_state proc) PROCESS_RUNNING ;;
  sched_init scheduled_procs proc ;;
  bitmap_init_kheap_at pid_bitmap U16_MAX ;;
  mret tt.
End defs.

(** ** The theorems *)
Section arch_properties.
Context {S : Type} {MS : MemState S}.
Implicit Types s : S.

(** The five words of the trap frame that are not zero. *)
Definition tf_set (tf a : Z) : Prop := tf_rip tf ≤ a < tf_rip tf + 40.

Lemma wp_fill_trap_frame p tf uentry ustack s (Q : unit → S → Prop) :
  load_le 8 (st_mem s) (p_tf p) = Some tf → 0 ≤ tf → mapped (st_mem s) tf TRAP_FRAME_SIZE →
  p_tf p + 8 ≤ tf ∨ tf + TRAP_FRAME_SIZE ≤ p_tf p → 0 ≤ uentry < 2 ^ 64 → 0 ≤ ustack < 2 ^ 64 →
  (∀ m', load_le 8 m' (tf_rip tf) = Some uentry → load_le 8 m' (tf_cs tf) = Some 0x1b →
     load_le 8 m' (tf_rflags tf) = Some 0x202 → load_le 8 m' (tf_rsp tf) = Some ustack →
     load_le 8 m' (tf_ss tf) = Some 0x23 →
     (∀ a, tf ≤ a < tf + TRAP_FRAME_SIZE → ¬ tf_set tf a → m' !! a = Some 0) →
     only_in tf (tf + TRAP_FRAME_SIZE) (st_mem s) m' → Q tt (st_put m' s)) →
  wp (fill_trap_frame p uentry ustack) s Q.
Proof.
  intros Htf Hpos Hmap Hdis Hue Hus HQ. unfold fill_trap_frame, TRAP_FRAME_SIZE, p_tf in *.
  unfold tf_set, tf_rip, tf_cs, tf_rflags, tf_rsp, tf_ss in *.
  wp_step. eapply wp_load; [exact Htf|]. wp_step. apply wp_memset; [lia|exact Hmap|].
  intros m2 Hout2 Hzero2.
  assert (load_le 8 m2 (p + 4816) = Some tf) as Htf2 by (rewrite <- Htf; eapply only_in_load; [exact Hout2|lia]).
  assert (∀ a, tf ≤ a ∧ a + 8 ≤ tf + 176 → is_Some (load_le 8 m2 a)) as Hm2.
  { intros a Ha. apply load_le_is_Some. eapply mapped_sub; [by eapply only_in_mapped|lia|lia]. }
  do 4 (wp_step; apply (wp_load _ _ tf); [mem_simpl; exact Htf2|];
        wp_step; apply wp_store; [rewrite ?st_mem_put; repeat apply load_write_mono; apply Hm2; lia|];
        rewrite ?st_mem_put, ?st_put_put).
  wp_step; apply (wp_load _ _ tf); [mem_simpl; exact Htf2|].
  apply wp_store; [rewrite ?st_mem_put; repeat apply load_write_mono; apply Hm2; lia|].
  rewrite ?st_mem_put, ?st_put_put. apply HQ;
    try (repeat (rewrite load_write_ne by lia);
         rewrite load_write_same, Z.mod_small; [done|change (256 ^ Z.of_nat 8) with (2 ^ 64); first [lia|by split]]).
  - intros a Ha1 Ha2. rewrite !write_le_lookup_out by lia. by apply Hzero2.
  - repeat (apply only_in_write; [|lia|lia|apply load_le_is_Some; repeat apply load_write_mono; apply Hm2; lia]).
    exact Hout2.
Qed.

Lemma wp_push_context trap_ret process_first_run p tf s (ctx := tf - 8 - CONTEXT_SIZE) (Q : unit → S → Prop) :
  64 ≤ tf < 2 ^ 64 → mapped (st_mem s) ctx 64 → mapped (st_mem s) (p_context p) 8 →
  p_context p + 8 ≤ ctx ∨ tf ≤ p_context p → 0 ≤ trap_ret < 2 ^ 64 → 0 ≤ process_first_run < 2 ^ 64 →
  (∀ m', load_le 8 m' (p_context p) = Some ctx → load_le 8 m' (c_rip ctx) = Some process_first_run →
     load_le 8 m' (c_rip ctx + 8) = Some trap_ret → (∀ a, ctx ≤ a < c_rip ctx → m' !! a = Some 0) →
     (∀ a, ¬ ctx ≤ a < tf → ¬ p_context p ≤ a < p_context p + 8 → m' !! a = st_mem s !! a) → Q tt (st_put m' s)) →
  wp (push_context trap_ret process_first_run p tf) s Q.
Proof.
  intros Htf Hmap Hmp Hdis Htr Hpf HQ. unfold push_context. cbv zeta. unfold c_rip in *.
  rewrite (u64_small (tf - 8)) by lia.
  replace (u64 (tf - 8 - CONTEXT_SIZE)) with ctx by (unfold ctx, CONTEXT_SIZE; rewrite u64_small; lia).
  assert (ctx = tf - 64) as Hctx by (unfold ctx, CONTEXT_SIZE; lia). clearbody ctx. unfold CONTEXT_SIZE, p_context in *.
  wp_step. apply wp_store; [apply load_le_is_Some; eapply mapped_sub; [exact Hmap|lia|lia]|].
  wp_step. apply wp_store; [rewrite st_mem_put; apply load_write_mono, load_le_is_Some; exact Hmp|].
  rewrite st_mem_put, st_put_put. set (m3 := write_le 8 (write_le 8 (st_mem s) _ _) _ _).
  assert (load_le 8 m3 (p + 5000) = Some ctx) as Hctx3.
  { unfold m3. rewrite load_write_same, Z.mod_small; [reflexivity|]. change (256 ^ Z.of_nat 8) with (2 ^ 64). lia. }
  wp_step. apply (wp_load _ _ ctx); [by rewrite st_mem_put|]. wp_step. apply wp_memset; rewrite ?st_mem_put; [lia| |].
  { do 2 apply mapped_write_le. eapply mapped_sub; [exact Hmap|lia|lia]. }
  intros m4 Hout4 Hzero4. rewrite st_put_put.
  assert (∀ k a, a + Z.of_nat k ≤ ctx ∨ ctx + 56 ≤ a → load_le k m4 a = load_le k m3 a) as Hm4 by
    (intros k a Ha; by eapply only_in_load).
  wp_step. apply (wp_load _ _ ctx); [rewrite st_mem_put, Hm4 by lia; exact Hctx3|].
  apply wp_store; rewrite st_mem_put.
  { apply load_le_is_Some. eapply only_in_mapped; [exact Hout4|]. do 2 apply mapped_write_le.
    eapply mapped_sub; [exact Hmap|lia|lia]. }
  rewrite st_put_put. apply HQ.
  - rewrite load_write_ne, Hm4 by lia. exact Hctx3.
  - rewrite load_write_same, Z.mod_small; [done|exact Hpf].
  - replace (ctx + 48 + 8) with (tf - 8) by lia. rewrite load_write_ne, Hm4 by lia. unfold m3.
    rewrite load_write_ne by lia. rewrite load_write_same, Z.mod_small; [done|exact Htr].
  - intros a Ha. rewrite write_le_lookup_out by lia. apply Hzero4. lia.
  - intros a Ha1 Ha2. rewrite write_le_lookup_out by lia. rewrite (proj1 Hout4) by lia. unfold m3.
    by rewrite !write_le_lookup_out by lia.
Qed.

(** C37: [process_arch_init] lays out the top of the kernel stack so that the
    first switch to the process returns to [process_first_run], which returns
    to [trap_ret], which finds a trap frame for user space: the entry point, the
    user stack, the user segments with ring 3, interrupts enabled, and zero in
    every other register.  Only the top 240 bytes of the stack and the fields
    [tf] and [context] are written. *)
Theorem process_arch_init_frames trap_ret process_first_run p uentry ustack ks s
    (m := st_mem s) (tf := ks + PROCESS_KERNEL_STACK_SIZE - TRAP_FRAME_SIZE) (ctx := tf - 8 - CONTEXT_SIZE) :
  0 < p → p + PROCESS_SIZE ≤ 2 ^ 64 → mapped m p PROCESS_SIZE → load_le 8 m (p_kstack p) = Some ks →
  ks + PROCESS_KERNEL_STACK_SIZE ≤ 2 ^ 64 → mapped m ks PROCESS_KERNEL_STACK_SIZE →
  p + PROCESS_SIZE ≤ ks ∨ ks + PROCESS_KERNEL_STACK_SIZE ≤ p →
  0 ≤ trap_ret < 2 ^ 64 → 0 ≤ process_first_run < 2 ^ 64 → 0 ≤ uentry < 2 ^ 64 → 0 ≤ ustack < 2 ^ 64 →
  ∃ s', process_arch_init trap_ret process_first_run p uentry ustack s = Done (tt, s') ∧
    load_le 8 (st_mem s') (p_tf p) = Some tf ∧ load_le 8 (st_mem s') (p_context p) = Some ctx ∧
    load_le 8 (st_mem s') (c_rip ctx) = Some process_first_run ∧ load_le 8 (st_mem s') (c_rip ctx + 8) = Some trap_ret ∧
    load_le 8 (st_mem s') (tf_rip tf) = Some uentry ∧ load_le 8 (st_mem s') (tf_cs tf) = Some 0x1b ∧
    load_le 8 (st_mem s') (tf_rflags tf) = Some 0x202 ∧ load_le 8 (st_mem s') (tf_rsp tf) = Some ustack ∧
    load_le 8 (st_mem s') (tf_ss tf) = Some 0x23 ∧
    (∀ a, tf ≤ a < tf + TRAP_FRAME_SIZE ∧ ¬ tf_set tf a ∨ ctx ≤ a < c_rip ctx → st_mem s' !! a = Some 0) ∧
    ∀ a, ¬ ctx ≤ a < tf + TRAP_FRAME_SIZE → ¬ p_tf p ≤ a < p_tf p + 8 → ¬ p_context p ≤ a < p_context p + 8 →
      st_mem s' !! a = m !! a.
Proof.
  intros Hp Hp64 Hmp Hks Hks64 Hmks Hdis Htr Hpf Hue Hus. apply wp_unit.
  pose proof (load_le_range _ _ _ _ Hks) as Hksr. change (256 ^ Z.of_nat 8) with (2 ^ 64) in Hksr.
  unfold process_arch_init. wp_step. eapply wp_load; [exact Hks|]. cbv zeta. autorewrite with u64.
  unfold PROCESS_SIZE, PROCESS_KERNEL_STACK_SIZE in *.
  replace (u64 (ks + 16384 - TRAP_FRAME_SIZE)) with tf by (rewrite u64_small; unfold tf, TRAP_FRAME_SIZE; lia).
  assert (tf = ks + 16208) as Htf by (unfold tf, TRAP_FRAME_SIZE; lia).
  assert (ctx = ks + 16144) as Hctx by (unfold ctx, CONTEXT_SIZE; lia). clearbody tf.
  wp_step. apply wp_store; [apply load_le_is_Some; eapply mapped_sub; [exact Hmp|unfold p_tf; lia|unfold p_tf; lia]|].
  fold m. set (m1 := write_le 8 m (p_tf p) tf).
  assert (load_le 8 m1 (p_tf p) = Some tf) as Htf1.
  { unfold m1. rewrite load_write_same, Z.mod_small; [done|]. change (256 ^ Z.of_nat 8) with (2 ^ 64). lia. }
  unfold TRAP_FRAME_SIZE, p_tf, p_context in *. wp_step. apply (wp_fill_trap_frame p tf); rewrite ?st_mem_put;
    unfold TRAP_FRAME_SIZE, p_tf; [exact Htf1|lia|apply mapped_write_le; eapply mapped_sub; [exact Hmks|lia|lia]|lia|done|done|].
  intros m2 Hrip Hcs Hrfl Hrsp Hss Hzero Hout2. rewrite st_put_put.
  assert (∀ a n, mapped m a n → mapped m2 a n) as Hm2 by (intros a n Ha; eapply only_in_mapped; [exact Hout2|by apply mapped_write_le]).
  apply (wp_push_context _ _ p tf); rewrite ?st_mem_put; fold ctx; unfold p_context;
    [lia|apply Hm2; eapply mapped_sub; [exact Hmks|lia|lia]|apply Hm2; eapply mapped_sub; [exact Hmp|lia|lia]|lia|done|done|].
  intros m3 Hctx3 Hpf3 Htr3 Hzero3 Hsame3. rewrite !st_put_put, st_mem_put.
  assert (∀ k a, (tf ≤ a ∨ a + Z.of_nat k ≤ ctx) → a + Z.of_nat k ≤ p + 5000 ∨ p + 5008 ≤ a → load_le k m3 a = load_le k m2 a) as Hm3
    by (intros k a Ha1 Ha2; apply load_le_ext; intros i Hi; apply Hsame3; lia).
  unfold tf_set, tf_rip, tf_cs, tf_rflags, tf_rsp, tf_ss, c_rip in *.
  split_and!; try done; try (rewrite Hm3 by lia; assumption).
  - rewrite Hm3 by lia. rewrite <- Htf1. eapply only_in_load; [exact Hout2|lia].
  - intros a [[Ha1 Ha2]|Ha]; [|by apply Hzero3]. rewrite Hsame3 by lia. by apply Hzero.
  - intros a Ha1 Ha2 Ha3. rewrite Hsame3 by lia. rewrite (proj1 Hout2) by lia. unfold m1. by rewrite write_le_lookup_out by lia.
Qed.
End arch_properties.

Section no_parent.
Context {CS : CSem} {S : Type} {MS : MemState S}.
Implicit Types s : S.

(** A byte that is not mapped stays so. *)
Definition unmapped_kept (a : Z) (s s' : S) : Prop := st_mem s !! a = None → st_mem s' !! a = None.

#[export] Instance unmapped_kept_preorder a : PreOrder (unmapped_kept a).
Proof. split; [by intros s H|]. intros s1 s2 s3 H1 H2 H. by apply H2, H1. Qed.

Lemma keeps_unmapped_load a n b : keeps (unmapped_kept a) (load n b).
Proof. unfold load. keeps_auto. Qed.

Lemma keeps_unmapped_store a n b v : keeps (unmapped_kept a) (store n b v).
Proof.
  intros s u s' Hrun Ha. unfold store, mbind, M_bind, gets in Hrun.
  destruct (store_le n (st_mem s) b v) as [m'|] eqn:Hst; [|done]. injection Hrun as _ <-. rewrite st_mem_put.
  unfold store_le in Hst. destruct (load_le n (st_mem s) b) as [w|] eqn:Hl; [|done]. injection Hst as <-.
  apply eq_None_not_Some. rewrite (write_le_dom n) by by eexists. rewrite Ha. by intros [? [=]].
Qed.

(** [m] does not return from a state where [a] is not mapped. *)
Definition faults_without (a : Z) {A} (m : M S A) : Prop := ∀ s, st_mem s !! a = None → ∃ f, m s = Faulted f.

Lemma faults_without_first {A B} a (m : M S A) (k : A → M S B) : faults_without a m → faults_without a (m ≫= k).
Proof. intros Hm s Hs. destruct (Hm s Hs) as [f Hf]. exists f. unfold mbind, M_bind. by rewrite Hf. Qed.

Lemma faults_without_later {A B} a (m : M S A) (k : A → M S B) :
  keeps (unmapped_kept a) m → (∀ x, faults_without a (k x)) → faults_without a (m ≫= k).
Proof.
  intros Hm Hk s Hs. unfold mbind, M_bind. destruct (m s) as [[x s']|f] eqn:Hrun; [|by exists f].
  apply (Hk x s'). by eapply Hm.
Qed.

Lemma faults_without_store a n b v : b ≤ a < b + Z.of_nat n → faults_without a (store n b v).
Proof.
  intros Ha s Hs. exists (Undefined "store"). unfold store, mbind, M_bind, gets.
  unfold store_le. destruct (load_le n (st_mem s) b) as [w|] eqn:Hl; [|done].
  apply load_le_mapped in Hl. destruct (Hl a Ha) as [? ?]. congruence.
Qed.

Lemma faults_without_link proc : faults_without 120 (link_parent proc NULL).
Proof. intros s Hs. apply (faults_without_store 120 8 120 proc); [lia|exact Hs]. Qed.

Lemma keeps_unmapped_arch_init a trap_ret first_run proc uentry ustack :
  keeps (unmapped_kept a) (process_arch_init trap_ret first_run proc uentry ustack).
Proof.
  pose proof (keeps_unmapped_load a) as Hl. pose proof (keeps_unmapped_store a) as Hs.
  unfold process_arch_init, fill_trap_frame, push_context, memset, rd64, wr64, wr8. keeps_auto.
Qed.

Lemma keeps_unmapped_pid a pid_bitmap : keeps (unmapped_kept a) (process_get_unused_pid pid_bitmap).
Proof.
  pose proof (keeps_unmapped_load a) as Hl. pose proof (keeps_unmapped_store a) as Hs.
  unfold process_get_unused_pid, read_bitmap, bitmap_find_and_set, rd64, wr64. keeps_auto.
Qed.

(** With [NULL] for the parent, as [create_init_process] calls it,
    [process_create] cannot return a process when address 120 is not mapped:
    once the allocations are done, it stores to [parent->child]. *)
Theorem process_fill_no_parent trap_ret process_first_run pid_bitmap proc name uentry s :
  st_mem s !! 120 = None →
  ∃ f, process_fill trap_ret process_first_run pid_bitmap proc name uentry NULL s = Faulted f.
Proof.
  pose proof (keeps_unmapped_load 120) as Hl. pose proof (keeps_unmapped_store 120) as Hst.
  revert s. change (faults_without 120 (process_fill trap_ret process_first_run pid_bitmap proc name uentry NULL)).
  unfold process_fill.
  apply faults_without_later; [apply keeps_unmapped_arch_init|intros _].
  apply faults_without_later; [unfold strlen, rd8; keeps_auto|intros len].
  apply faults_without_later; [unfold memcpy, rd8, wr8; keeps_auto|intros _].
  apply faults_without_later; [unfold wr8; keeps_auto|intros _].
  apply faults_without_later; [apply keeps_unmapped_pid|intros pid].
  apply faults_without_later; [unfold wr16; keeps_auto|intros _].
  apply faults_without_later; [unfold bitmap_init_static, read_bitmap, memset, rd64, wr64, wr8; keeps_auto|intros _].
  do 2 (apply faults_without_later; [unfold INIT_LIST_HEAD, set_next, set_prev, wr64; keeps_auto|intros _]).
  do 2 (apply faults_without_later; [unfold wr32, wr64; keeps_auto|intros _]).
  apply faults_without_first, faults_without_link.
Qed.
End no_parent.

(** ** Examples *)
Definition ex_stack : mem := write_le 8 (zero_mem 4096 5008 ∪ zero_mem 16384 16384) (p_kstack 4096) 16384.

Lemma ex_stack_mapped a n :
  (4096 ≤ a ∧ a + n ≤ 9104 ∨ 16384 ≤ a ∧ a + n ≤ 32768) → mapped ex_stack a n.
Proof.
  intros Ha. unfold ex_stack. apply mapped_write_le. intros i Hi. apply lookup_union_is_Some.
  destruct Ha; [left|right]; eapply zero_mem_mapped; [| |exact Hi| | |exact Hi]; lia.
Qed.

Lemma ex_stack_unmapped : st_mem ex_stack !! 120 = None.
Proof.
  change (st_mem ex_stack) with ex_stack. unfold ex_stack. rewrite write_le_lookup_out by (unfold p_kstack; lia).
  apply lookup_union_None. by rewrite !zero_mem_lookup_out by lia.
Qed.

Lemma ex_stack_kstack : load_le 8 (st_mem ex_stack) (p_kstack 4096) = Some 16384.
Proof. change (st_mem ex_stack) with ex_stack. unfold ex_stack. mem_eval. Qed.

Lemma process_arch_init_frames_witness :
  ∃ s', process_arch_init 0xffffffff80001234 0xffffffff80005678 4096 0x401000 0xffff ex_stack = Done (tt, s') ∧
    load_le 8 (st_mem s') (p_tf 4096) = Some 32592 ∧ load_le 8 (st_mem s') (c_rip 32528) = Some 0xffffffff80005678 ∧
    load_le 8 (st_mem s') (tf_rip 32592) = Some 0x401000.
Proof.
  destruct (process_arch_init_frames (S := mem) 0xffffffff80001234 0xffffffff80005678 4096 0x401000 0xffff 16384 ex_stack)
    as (s' & Hrun & Htf & _ & Hc & _ & Hrip & _);
    [lia|unfold PROCESS_SIZE; lia|apply ex_stack_mapped; unfold PROCESS_SIZE; lia|exact ex_stack_kstack
    |unfold PROCESS_KERNEL_STACK_SIZE; lia|apply ex_stack_mapped; unfold PROCESS_KERNEL_STACK_SIZE; lia
    |unfold PROCESS_SIZE; lia|lia|lia|lia|lia|].
  exists s'. split; [exact Hrun|]. split; [exact Htf|]. split; [exact Hc|exact Hrip].
Defined.

Lemma process_fill_no_parent_witness :
  ∃ f, process_fill (CS := strict_c) 0xffffffff80001234 0xffffffff80005678 0 4096 4096 0x1000 NULL ex_stack = Faulted f.
Proof. apply (process_fill_no_parent (CS := strict_c) (S := mem)). exact ex_stack_unmapped. Defined.
