(* ===== verification/Interrupts.v ===== *)
(** * kernel/arch/x86_64/interrupts and timers: interrupts and their devices

    The interrupt descriptor table (idt.c), the local and I/O APICs (apic.c),
    the legacy controller (pic.c), the HPET (timers/hpet.c) and the two stages of
    initialisation (interrupts.c). *)
From S2P Require Import Prelude CInt Mem CString Vga Printk Hw Acpi Gdt Bitmap DList Pmm Mmu VmmSlab Vmm Debug Signal Sched.

(** ** The interrupt descriptor table *)
Definition IDT_SIZE : Z := 256.
Definition IDT_GATE : Z := 0x8e.
Definition IDT_TIMER_INT : Z := 60.
Definition IDT_SYSCALL_INT : Z := 0x80.
Definition IDT_SPURIOUS_INT : Z := 0xff.

Record idt_entry : Type := mk_idt_entry {
  ie_offset0_15 : Z; ie_selector : Z; ie_ist : Z; ie_attributes : Z;
  ie_offset16_31 : Z; ie_offset32_63 : Z; ie_zero : Z }.
Definition IDT_ENTRY_SIZE : Z := 16.

(** The globals of the directory: the table, [io_apic_base],
    [timer_ticks_per_10ms], and [base] and [clock] of hpet.c. *)
Record int_globals : Type := mk_int {
  g_idt : list idt_entry; g_io_apic_base : Z; g_timer_ticks : Z; g_hpet_base : Z; g_hpet_clock : Z }.

Class IntState (S : Type) {MS : MemState S} {HW : Hardware S} : Type := {
  int_g : S → int_globals;
  int_put : int_globals → S → S;
  int_g_put : ∀ g s, int_g (int_put g s) = g;
  int_g_mem : ∀ m s, int_g (st_put m s) = int_g s;
  int_g_hw : ∀ l s, int_g (hw_put l s) = int_g s;
  int_mem_put : ∀ g s, st_mem (int_put g s) = st_mem s;
  int_hw_put : ∀ g s, hw_log (int_put g s) = hw_log s;
}.

(** The registers of the local APIC in x2APIC mode, and other constants. *)
Definition IA32_APIC_BASE_MSR : Z := 0x1B.
Definition SPURIOUS_INTERRUPT_VECTOR_REGISTER : Z := 0x80f.
Definition LVT_TIMER_REGISTER : Z := 0x832.
Definition INITIAL_COUNT_REGISTER : Z := 0x838.
Definition CURRENT_COUNTER_REGISTER : Z := 0x839.
Definition DIVIDE_CONFIGURATION_REGISTER : Z := 0x83e.
Definition TIMER_DIVIDE_BY_2 : Z := 0.
Definition LVT_MASK : Z := 2 ^ 16.
Definition LVT_PERIODIC : Z := 2 ^ 17.
Definition IO_APIC_REGISTER_DATA : Z := 0x10.
Definition PIC_COMMAND_MASTER : Z := 0x20.
Definition PIC_COMMAND_SLAVE : Z := 0xA0.
Definition PIC_DATA_MASTER : Z := 0x21.
Definition PIC_DATA_SLAVE : Z := 0xA1.
Definition ICW_1 : Z := 0x11.
Definition ICW_2_M : Z := 0x20.
Definition ICW_2_S : Z := 0x28.
Definition ICW_3_M : Z := 0x04.
Definition ICW_3_S : Z := 0x02.
Definition ICW_4 : Z := 0x01.
Definition HPET_GENERAL_CAPABILITIES : Z := 0x0.
Definition HPET_GENERAL_CONFIGURATION : Z := 0x10.
Definition HPET_MAIN_COUNTER_VALUE : Z := 0xf0.
Definition HPET_CAP_COUNTER_CLOCK_OFFSET : Z := 32.
Definition HPET_CONFIGURATION_ON : Z := 1.
Definition HPET_CONFIGURATION_OFF : Z := 0.

(** ** pic.c, idt.c, hpet.c: what needs only the machine *)
Section devices.
Context {S : Type} {MS : MemState S} {HW : Hardware S} {IS : IntState S}.

Definition pic_disable : M S unit :=
  outb PIC_COMMAND_MASTER ICW_1 ;;
  outb PIC_COMMAND_SLAVE ICW_1 ;;
  outb PIC_DATA_MASTER ICW_2_M ;;
  outb PIC_DATA_SLAVE ICW_2_S ;;
  outb PIC_DATA_MASTER ICW_3_M ;;
  outb PIC_DATA_SLAVE ICW_3_S ;;
  outb PIC_DATA_MASTER ICW_4 ;;
  outb PIC_DATA_SLAVE ICW_4 ;;
  outb PIC_DATA_MASTER 0xFF ;;
  outb PIC_DATA_SLAVE 0xFF.

Definition idt_set_entry (vector handler type : Z) : M S unit :=
  '(mk_int idt io ticks base clock) ← gets int_g;
  let e := mk_idt_entry (u16 (Z.land handler U16_MAX)) (u16 (GDT_KERNEL_CODE_INDEX * 8)) 0 type
             (u16 (Z.land (Z.shiftr handler 16) U16_MAX)) (u32 (Z.land (Z.shiftr handler 32) U32_MAX)) 0 in
  modify (int_put (mk_int (<[Z.to_nat vector := e]> idt) io ticks base clock)).

(** [idt_vectors] is the table of idt.asm, [idt_addr] the address of [idt]. *)
Definition idt_init (idt_vectors : Z → Z) (idt_addr : Z) : M S unit :=
  for_up 0 IDT_SIZE (λ i, idt_set_entry (u8 i) (idt_vectors i) IDT_GATE) ;;
  lidt (u16 (IDT_SIZE * IDT_ENTRY_SIZE - 1)) idt_addr ;;
  sti.

(** The vector's code is in idt.asm: [call] is what jumping to an address does. *)
Definition idt_debug_call (idt_vectors : Z → Z) (call : Z → M S unit) (vec : Z) : M S unit := call (idt_vectors (u8 vec)).

Definition hpet_base : M S Z := gets (λ s, g_hpet_base (int_g s)).
Definition hpet_clock : M S Z := gets (λ s, g_hpet_clock (int_g s)).

(** The product is a [long], whose overflow is undefined; the loop waits for the
    device, so its rounds are not bounded by the program. *)
Definition hpet_sleep (fuel : nat) (milliseconds : Z) : M S unit :=
  base ← hpet_base;
  now ← volatile_read64 (u64 (base + HPET_MAIN_COUNTER_VALUE));
  clock ← hpet_clock;
  delta ← (if 2 ^ 63 <=? milliseconds * 1000000000000 then faultM (Undefined "signed overflow")
           else if clock =? 0 then faultM (Undefined "division by zero")
           else mret (milliseconds * 1000000000000 / clock));
  let target := u64 (now + delta) in
  loop fuel (λ _,
    base ← hpet_base;
    now ← volatile_read64 (u64 (base + HPET_MAIN_COUNTER_VALUE));
    if now <? target then mret (inl tt) else mret (inr tt)) tt.


Definition io_apic_base : M S Z := gets (λ s, g_io_apic_base (int_g s)).

Definition io_apic_write_register (offset val : Z) : M S unit :=
  base ← io_apic_base;
  volatile_write32 base offset ;;
  base ← io_apic_base;
  volatile_write32 (u64 (base + IO_APIC_REGISTER_DATA)) val.

Definition io_apic_read_register (offset : Z) : M S Z :=
  base ← io_apic_base;
  volatile_write32 base offset ;;
  base ← io_apic_base;
  volatile_read32 (u64 (base + IO_APIC_REGISTER_DATA)).

Definition timer_ticks : M S Z := gets (λ s, g_timer_ticks (int_g s)).

Definition local_apic_periodic_timer : M S unit :=
  v ← rdmsr LVT_TIMER_REGISTER;
  let reg := u32 (Z.lor (Z.lor (Z.land v (u64 (Z.lnot LVT_MASK))) LVT_PERIODIC) IDT_TIMER_INT) in
  wrmsr LVT_TIMER_REGISTER reg ;;
  ticks ← timer_ticks;
  wrmsr INITIAL_COUNT_REGISTER ticks.

Definition set_timer_ticks (v : Z) : M S unit :=
  '(mk_int idt io _ base clock) ← gets int_g; modify (int_put (mk_int idt io v base clock)).
Definition set_io_apic_base (v : Z) : M S unit :=
  '(mk_int idt _ ticks base clock) ← gets int_g; modify (int_put (mk_int idt v ticks base clock)).
Definition set_hpet_base (v : Z) : M S unit :=
  '(mk_int idt io ticks _ clock) ← gets int_g; modify (int_put (mk_int idt io ticks v clock)).
Definition set_hpet_clock (v : Z) : M S unit :=
  '(mk_int idt io ticks base _) ← gets int_g; modify (int_put (mk_int idt io ticks base v)).

Definition local_apic_timer_calibrate (fuel : nat) : M S unit :=
  v ← rdmsr DIVIDE_CONFIGURATION_REGISTER;
  let conf := u32 v in
  wrmsr DIVIDE_CONFIGURATION_REGISTER (Z.lor conf TIMER_DIVIDE_BY_2) ;;
  wrmsr INITIAL_COUNT_REGISTER U32_MAX ;;
  hpet_sleep fuel 10 ;;
  v ← rdmsr CURRENT_COUNTER_REGISTER;
  set_timer_ticks (u32 (u64 (U32_MAX - v))) ;;
  wrmsr INITIAL_COUNT_REGISTER 0.

Definition local_apic_init : M S unit :=
  '(_, _, ecx, edx) ← cpuid 1 0;
  (if Z.land edx (2 ^ 9) =? 0 then panic "local_apic_init: hardware is missing APIC" else mret tt) ;;
  (if Z.land ecx (2 ^ 21) =? 0 then panic "local_apic_init: hardware is missing x2APIC" else mret tt) ;;
  flags ← rdmsr IA32_APIC_BASE_MSR;
  wrmsr IA32_APIC_BASE_MSR (Z.lor (Z.lor flags (2 ^ 10)) (2 ^ 11)) ;;
  wrmsr SPURIOUS_INTERRUPT_VECTOR_REGISTER (Z.lor (2 ^ 8) IDT_SPURIOUS_INT).
End devices.

(** ** What needs the rest of the kernel *)
Section kernel.
Context {CS : CSem} {S : Type} {MS : MemState S} {PS : PmmState S} {VS : VmmState S} {OA : ObjectAllocator S}
  {VG : VgaState S} {HW : Hardware S} {AS : AcpiState S} {GS : GdtState S} {SS : SchedState S} {IS : IntState S}.
(** The addresses of string literals and of the static [hpet]. *)
Context (lit : string → Z) (hpet : Z).

Definition hpet_init : M S unit :=
  r ← acpi_copy_table (lit ACPI_HPET_SIGNATURE) hpet;
  (if negb (r =? 0) then panic "hpet_init: failed to retrieve hpet acpi table" else mret tt) ;;
  address ← rd64 (hpet_address hpet);
  (if negb (IS_ALIGNED address PAGE_SIZE_IN_BYTES) then panic "hpet_init: HPET address isn't aligned gl"
   else mret tt) ;;
  space ← kspace;
  address ← rd64 (hpet_address hpet);
  base ← vmm_map space (DM_P2V address) address PAGE_KERNEL_RW;
  set_hpet_base base ;;
  base ← hpet_base;
  (if base =? NULL then panic "hpet_init: failed to map HPET" else mret tt) ;;
  base ← hpet_base;
  cap ← volatile_read64 (u64 (base + HPET_GENERAL_CAPABILITIES));
  set_hpet_clock (u32 (Z.shiftr cap HPET_CAP_COUNTER_CLOCK_OFFSET)) ;;
  base ← hpet_base;
  volatile_write64 (u64 (base + HPET_GENERAL_CONFIGURATION)) HPET_CONFIGURATION_OFF ;;
  base ← hpet_base;
  volatile_write64 (u64 (base + HPET_MAIN_COUNTER_VALUE)) 0 ;;
  base ← hpet_base;
  volatile_write64 (u64 (base + HPET_GENERAL_CONFIGURATION)) HPET_CONFIGURATION_ON.

Definition io_apic_init : M S unit :=
  io_apic ← acpi_madt_find lit ACPI_MADT_IO_APIC;
  (if io_apic =? NULL then panic "io_apic_init: couldn't find IO APIC in acpi_madt" else mret tt) ;;
  space ← kspace;
  address ← rd32 (mi_address io_apic);
  base ← vmm_map space (DM_P2V address) address PAGE_KERNEL_RW;
  set_io_apic_base base ;;
  base ← io_apic_base;
  if base =? NULL then panic "io_apic_init: failed to map IO APIC" else mret tt.




Definition interrupts_entry_init (tss_addr gdt_addr stack_top_64 : Z) (idt_vectors : Z → Z) (idt_addr : Z) : M S unit :=
  gdt_reload tss_addr gdt_addr stack_top_64 ;;
  local_apic_init ;;
  pic_disable ;;
  idt_init idt_vectors idt_addr.

Definition interrupts_init (fuel : nat) : M S unit :=
  hpet_init ;;
  local_apic_timer_calibrate fuel ;;
  io_apic_init.

Definition interrupts_timer_start : M S unit := local_apic_periodic_timer.
End kernel.

(** ** The theorems *)
Definition gate_offset (e : idt_entry) : Z :=
  ie_offset0_15 e + 2 ^ 16 * ie_offset16_31 e + 2 ^ 32 * ie_offset32_63 e.

(** An interrupt gate of ring 0 to [handler] in the kernel's code segment. *)
Definition gate_to (handler : Z) (e : idt_entry) : Prop :=
  gate_offset e = handler ∧ ie_selector e = 8 * GDT_KERNEL_CODE_INDEX ∧ ie_ist e = 0 ∧
  ie_attributes e = IDT_GATE ∧ ie_zero e = 0.

Lemma split_offset h : 0 ≤ h < 2 ^ 64 →
  u16 (Z.land h U16_MAX) + 2 ^ 16 * u16 (Z.land (Z.shiftr h 16) U16_MAX) +
  2 ^ 32 * u32 (Z.land (Z.shiftr h 32) U32_MAX) = h.
Proof.
  intros Hh. change U16_MAX with (Z.ones 16). change U32_MAX with (Z.ones 32).
  rewrite !Z.land_ones, !Z.shiftr_div_pow2 by lia. unfold u16, u32. rewrite !Z.mod_mod by lia.
  rewrite (Z.mod_small (h / 2 ^ 32)) by (split; [apply Z.div_pos; lia|apply Z.div_lt_upper_bound; lia]). zlia.
Qed.

Section device_theorems.
Context {S : Type} {MS : MemState S} {HW : Hardware S} {IS : IntState S}.
Implicit Types s : S.

Lemma idt_loop (vectors : Z → Z) s :
  length (g_idt (int_g s)) = 256%nat → (∀ i, 0 ≤ i < 256 → 0 ≤ vectors i < 2 ^ 64) →
  wp (for_up 0 IDT_SIZE (λ i, idt_set_entry (u8 i) (vectors i) IDT_GATE)) s (λ _ s',
    hw_log s' = hw_log s ∧ st_mem s' = st_mem s ∧ length (g_idt (int_g s')) = 256%nat ∧
    ∀ i, 0 ≤ i < 256 → ∃ e, g_idt (int_g s') !! Z.to_nat i = Some e ∧ gate_to (vectors i) e).
Proof.
  intros Hlen Hv.
  apply (wp_for_up (λ n s', hw_log s' = hw_log s ∧ st_mem s' = st_mem s ∧ length (g_idt (int_g s')) = 256%nat ∧
    ∀ i, 0 ≤ i < n → ∃ e, g_idt (int_g s') !! Z.to_nat i = Some e ∧ gate_to (vectors i) e)).
  - done.
  - split_and!; [done|done|done|lia].
  - intros n s1 Hn (Hlog & Hm & Hl & Hg). unfold IDT_SIZE in Hn. rewrite u8_small by lia.
    unfold idt_set_entry. wp_steps. destruct (int_g s1) as [idt io ticks base clock]. wp_steps. cbn [g_idt] in *.
    rewrite int_hw_put, int_mem_put, int_g_put. cbn [g_idt]. split_and!; [done|done|by rewrite length_insert|].
    intros i Hi. destruct (decide (i = n)) as [->|Hne].
    + eexists. split; [apply list_lookup_insert_eq; lia|].
      split_and!; [apply split_offset, Hv; lia|done..].
    + rewrite list_lookup_insert_ne by lia. apply Hg. lia.
  - intros s1 H. exact H.
Qed.

(** C38: [idt_init] makes each of the 256 entries an interrupt gate of ring 0
    that decodes to the address of its handler, whatever it is, then loads the
    whole table and enables interrupts. *)
Theorem idt_init_gates (idt_vectors : Z → Z) idt_addr s :
  length (g_idt (int_g s)) = 256%nat → (∀ i, 0 ≤ i < 256 → 0 ≤ idt_vectors i < 2 ^ 64) →
  ∃ s', idt_init idt_vectors idt_addr s = Done (tt, s') ∧
    hw_log s' = Sti :: Lidt (256 * 16 - 1) idt_addr :: hw_log s ∧ st_mem s' = st_mem s ∧
    ∀ i, 0 ≤ i < 256 → ∃ e, g_idt (int_g s') !! Z.to_nat i = Some e ∧ gate_to (idt_vectors i) e.
Proof.
  intros Hlen Hv. apply wp_unit. unfold idt_init. wp_step. eapply wp_mono; [by apply idt_loop|].
  intros [] s1 (Hlog & Hm & _ & Hg). wp_step. apply wp_event, wp_event.
  rewrite !hw_log_put, !hw_mem_put, !int_g_hw, Hlog. by split_and!.
Qed.
End device_theorems.

(** A counter at the HPET's main counter register, which goes on by at least 1
    and at most [step] at each read. *)
Definition hpet_counter {S : Type} {MS : MemState S} {HW : Hardware S} {IS : IntState S}
    (counter : S → Z) (step base : Z) : Prop :=
  ∀ s1, g_hpet_base (int_g s1) = base →
    ∃ s2, hw_mmio (u64 (base + HPET_MAIN_COUNTER_VALUE)) s1 = Done (counter s1, s2) ∧
      counter s1 < counter s2 ≤ counter s1 + step ∧ int_g s2 = int_g s1.

(** C39: while the counter goes on, [hpet_sleep] returns, within as many reads
    as there are ticks to wait; the counter has then advanced by at least the
    time asked for, and by at most two more reads. *)
Theorem hpet_sleep_waits {S : Type} {MS : MemState S} {HW : Hardware S} {IS : IntState S}
    (counter : S → Z) (step : Z) fuel ms s (clock := g_hpet_clock (int_g s)) (delta := ms * 1000000000000 / clock) :
  hpet_counter counter step (g_hpet_base (int_g s)) →
  0 ≤ counter s → 0 < clock → 0 ≤ ms → ms * 1000000000000 < 2 ^ 63 → counter s + delta + step < 2 ^ 64 →
  delta < Z.of_nat fuel →
  ∃ s', hpet_sleep fuel ms s = Done (tt, s') ∧ counter s + delta ≤ counter s' ≤ counter s + delta + 2 * step.
Proof.
  intros Hcnt Hc0 Hclock Hms Hov Hmax Hfuel. apply wp_unit. set (base := g_hpet_base (int_g s)) in *.
  assert (0 ≤ delta) as Hdelta by (apply Z.div_pos; lia).
  assert (∀ s1 (Q : Z → S → Prop), g_hpet_base (int_g s1) = base → 0 ≤ counter s1 < 2 ^ 64 →
    (∀ s2, counter s1 < counter s2 ≤ counter s1 + step → int_g s2 = int_g s1 → Q (counter s1) s2) →
    wp (volatile_read64 (u64 (base + HPET_MAIN_COUNTER_VALUE))) s1 Q) as Hread.
  { intros s1 Q Hb Hc HQ. destruct (Hcnt s1 Hb) as (s2 & Hrun & Hs & Hg). unfold volatile_read64. wp_step.
    eapply wp_eq; [exact Hrun|]. wp_steps. rewrite u64_small by done. by apply HQ. }
  destruct (Hcnt s eq_refl) as (s' & _ & Hstep & _).
  unfold hpet_sleep, hpet_base, hpet_clock. wp_steps. apply Hread; [done|lia|]. intros s1 Hs1 Hg1. wp_steps.
  rewrite Hg1. fold clock. rewrite (proj2 (Z.leb_gt _ _)) by lia. rewrite (proj2 (Z.eqb_neq _ _)) by lia. wp_steps.
  fold delta. rewrite (u64_small (counter s + delta)) by lia.
  apply (wp_loop (λ _ s2, int_g s2 = int_g s ∧ counter s < counter s2 ≤ counter s + delta + step)
    (λ _ s2, Z.to_nat (counter s + delta - counter s2))).
  - split; [done|lia].
  - lia.
  - intros [] s2 (Hg2 & Hc2). wp_steps. rewrite Hg2. fold base. apply Hread; [by rewrite Hg2|lia|].
    intros s3 Hs3 Hg3. case_if; bool_facts; wp_steps.
    + split; [split; [by rewrite Hg3|]|]; lia.
    + lia.
Qed.

Section handler.
Context {CS : CSem} {S : Type} {MS : MemState S} {PS : PmmState S} {VS : VmmState S} {OA : ObjectAllocator S}
  {VG : VgaState S} {HW : Hardware S} {GS : GdtState S} {SS : SchedState S}.
Implicit Types s : S.







End handler.

(** ** Examples *)
Record int_state : Type := mk_int_state { is_sched : sched_state; is_int : int_globals; is_cursor : cursor; is_count : Z }.
Ltac int_state_laws := intros; repeat match goal with s : int_state |- _ => destruct s as [[[[] ?] ?] ? ? ?] end; done.

#[export] Program Instance int_state_mem : MemState int_state := {|
  st_mem := st_mem ∘ is_sched; st_put := λ m s, mk_int_state (st_put m (is_sched s)) (is_int s) (is_cursor s) (is_count s);
|}.
Solve All Obligations with int_state_laws.

(** A device register that counts its reads. *)
#[export] Program Instance int_state_hw : Hardware int_state := {|
  hw_log := hw_log ∘ is_sched;
  hw_put := λ l s, mk_int_state (hw_put l (is_sched s)) (is_int s) (is_cursor s) (is_count s);
  hw_msr := λ _, mret (0, 0); hw_cpuid := λ _ _, mret (0, 0, 0, 0);
  hw_mmio := λ _ s, Done (is_count s, mk_int_state (is_sched s) (is_int s) (is_cursor s) (is_count s + 1));
  hw_in := λ _, mret 0;
|}.
Solve All Obligations with int_state_laws.

#[export] Program Instance int_state_gdt : GdtState int_state := {|
  gdt_g := gdt_g ∘ is_sched; gdt_put := λ g s, mk_int_state (gdt_put g (is_sched s)) (is_int s) (is_cursor s) (is_count s);
|}.
Solve All Obligations with int_state_laws.

#[export] Program Instance int_state_sched : SchedState int_state := {|
  sched_g := sched_g ∘ is_sched;
  sched_put := λ g s, mk_int_state (sched_put g (is_sched s)) (is_int s) (is_cursor s) (is_count s);
|}.
Solve All Obligations with int_state_laws.

#[export] Program Instance int_state_vga : VgaState int_state := {|
  vga_cur := is_cursor; vga_put := λ c s, mk_int_state (is_sched s) (is_int s) c (is_count s);
|}.
Solve All Obligations with int_state_laws.

#[export] Program Instance int_state_int : IntState int_state := {|
  int_g := is_int; int_put := λ g s, mk_int_state (is_sched s) g (is_cursor s) (is_count s);
|}.
Solve All Obligations with int_state_laws.

(** A trap frame of a system call at 4096; a clock of half a millisecond. *)
Definition ex_int : int_state :=
  mk_int_state (mk_sched_state (mk_gdt_state (mk_machine (write_le 8 (zero_mem 4096 176) (4096 + 120) IDT_SYSCALL_INT) [])
      gdt_globals_initial) (mk_sched 0 0))
    (mk_int (replicate 256 (mk_idt_entry 0 0 0 0 0 0 0)) 0 0 0 500000000000) (mk_cursor 0 0) 7.

Lemma idt_init_gates_witness :
  ∃ s', idt_init (λ i, 0xffffffff80100000 + 16 * i) 0x8000 ex_int = Done (tt, s') ∧
    ∃ e, g_idt (int_g s') !! 14%nat = Some e ∧ gate_to 0xffffffff801000e0 e.
Proof.
  destruct (idt_init_gates (λ i, 0xffffffff80100000 + 16 * i) 0x8000 ex_int) as (s' & Hrun & _ & _ & Hg);
    [done|intros; lia|]. exists s'. split; [exact Hrun|]. exact (Hg 14 ltac:(lia)).
Defined.

Lemma hpet_sleep_waits_witness : ∃ s', hpet_sleep 21 10 ex_int = Done (tt, s') ∧ 27 ≤ is_count s'.
Proof.
  destruct (hpet_sleep_waits is_count 1 21 10 ex_int) as (s' & Hrun & Hc & _).
  - intros s1 _. exists (mk_int_state (is_sched s1) (is_int s1) (is_cursor s1) (is_count s1 + 1)).
    split; [reflexivity|]. split; [simpl; lia|reflexivity].
  - cbn; lia.
  - cbn; lia.
  - lia.
  - lia.
  - by vm_compute.
  - by vm_compute.
  - exists s'. split; [exact Hrun|exact Hc].
Defined.



