(* ===== verification/Kmain.v ===== *)
(** * kernel/kmain.c: the boot of the kernel

    [read_tags] walks over the tags of the boot loader in the byte memory;
    [kmain] composes the initialisations of all the other parts. *)
From S2P Require Import Prelude CInt Mem CString Vga Printk Hw Acpi Gdt Bitmap DList Pmm Mmu VmmSlab Kheap Vmm.
From S2P Require Import Signal Sched Process Interrupts.

Definition MULTIBOOT2_BOOTLOADER_MAGIC : Z := 0x36d76289.
Definition MULTIBOOT_TAG_TYPE_END : Z := 0.
Definition MULTIBOOT_TAG_TYPE_MMAP : Z := 6.
Definition MULTIBOOT_TAG_TYPE_ACPI_OLD : Z := 14.

(** [struct multiboot_tag], [struct multiboot_tag_old_acpi] *)
Definition tag_type (tag : Z) : Z := tag.
Definition tag_size (tag : Z) : Z := tag + 4.
Definition MULTIBOOT_TAG_SIZE : Z := 8.
Definition old_acpi_rsdp (tag : Z) : Z := tag + 8.

(** The globals [rsdp] and [mmap]. *)
Record boot_globals : Type := mk_boot { g_rsdp : Z; g_mmap : Z }.

Class BootState (S : Type) {MS : MemState S} {VG : VgaState S} : Type := {
  boot_g : S → boot_globals;
  boot_put : boot_globals → S → S;
  boot_g_put : ∀ g s, boot_g (boot_put g s) = g;
  boot_g_mem : ∀ m s, boot_g (st_put m s) = boot_g s;
  boot_g_vga : ∀ c s, boot_g (vga_put c s) = boot_g s;
  boot_mem_put : ∀ g s, st_mem (boot_put g s) = st_mem s;
  boot_put_put : ∀ g g' s, boot_put g (boot_put g' s) = boot_put g s;
  boot_put_g : ∀ s, boot_put (boot_g s) s = s;
}.

(** ** The operations *)
Section tags.
Context {CS : CSem} {S : Type} {MS : MemState S} {VG : VgaState S} {BS : BootState S}.

Definition set_rsdp (p : Z) : M S unit := g ← gets boot_g; modify (boot_put (mk_boot p (g_mmap g))).
Definition set_mmap (p : Z) : M S unit := g ← gets boot_g; modify (boot_put (mk_boot (g_rsdp g) p)).

(** [1 << n] on [int], converted to [u32]. *)
Definition u32_bit (n : Z) : M S Z := v ← of_outcome (int_shl1 n); mret (u32 v).

(** The address of the tag after one of size [size]. *)
Definition next_tag (tag size : Z) : Z := u64 (tag + Z.land (u32 (size + 7)) (u32 (Z.lnot 7))).

(** A round of the loop of [read_tags]. *)
Definition read_tag (stop tag bitmap : Z) : M S (Z * Z + Z) :=
  if tag <? stop then
    type ← rd32 (tag_type tag);
    bit ← u32_bit type;
    let bitmap := Z.lor bitmap bit in
    type ← rd32 (tag_type tag);
    (if type =? MULTIBOOT_TAG_TYPE_ACPI_OLD then set_rsdp (P2V (old_acpi_rsdp tag))
     else if type =? MULTIBOOT_TAG_TYPE_MMAP then set_mmap (P2V tag)
     else mret tt) ;;
    type ← rd32 (tag_type tag);
    if type =? MULTIBOOT_TAG_TYPE_END then mret (inr bitmap)
    else
      sz ← rd32 (tag_size tag);
      mret (inl (next_tag tag sz, bitmap))
  else mret (inr bitmap).

(** The bound is [mb_infos + size] on pointers to [struct multiboot_tag].  A
    round that does not stay on its tag passes 8 bytes, so there are at most
    [size] rounds before the bound. *)
Definition read_tags (mb_infos : Z) : M S Z :=
  size ← rd32 mb_infos;
  acpi ← u32_bit MULTIBOOT_TAG_TYPE_ACPI_OLD;
  mem_map ← u32_bit MULTIBOOT_TAG_TYPE_MMAP;
  let expected_bitmap := Z.lor acpi mem_map in
  let stop := u64 (mb_infos + MULTIBOOT_TAG_SIZE * size) in
  bitmap ← loop (Datatypes.S (Z.to_nat size)) (λ '(tag, bitmap), read_tag stop tag bitmap) (u64 (mb_infos + 8), 0);
  mret (if Z.land bitmap expected_bitmap =? expected_bitmap then 0 else 1).

(** The first part of [kmain]: what the boot loader must have left. *)
Definition kmain_checks (magic mb_infos_ptr : Z) : M S unit :=
  vga_reset ;;
  (if negb (magic =? MULTIBOOT2_BOOTLOADER_MAGIC)
   then panic "only support bootloaders following the multiboot2 specifications" else mret tt) ;;
  (if negb (Z.land mb_infos_ptr 7 =? 0) then panic "unaligned mb_infos_ptr" else mret tt) ;;
  missing ← read_tags mb_infos_ptr;
  if negb (missing =? 0) then panic "missing tags from bootloader" else mret tt.
End tags.

(** kernel/arch/x86_64/multitasking/sched.c *)
Definition sched_start {S : Type} {MS : MemState S} {HW : Hardware S} {GS : GdtState S} {IS : IntState S} : M S unit :=
  local_apic_periodic_timer.

Section kernel.
Context {CS : CSem} {S : Type} {MS : MemState S} {PS : PmmState S} {VS : VmmState S} {OA : ObjectAllocator S}
  {HS : HeapState S} {KV : KernelVmm S} {VG : VgaState S} {HW : Hardware S} {AS : AcpiState S} {GS : GdtState S}
  {SS : SchedState S} {IS : IntState S} {BS : BootState S}.
(** The symbols of kernel.ld and of the assembly files, and the addresses of
    string literals and of static variables. *)
Context (debug : bool) (PML4 kernel_vma_start kernel_vma_rw_start kernel_vma_rw_stop kernel_vma_ro_start
  kernel_vma_ro_stop kernel_vma_stop : Z).
Context (stack_top_64 trap_ret process_first_run tss_addr gdt_addr idt_addr hpet pid_bitmap scheduled_procs : Z).
Context (idt_vectors : Z → Z) (lit : string → Z).

(** The idle task never returns; [fuel] bounds the rounds that are looked at. *)
Definition schleeeeep (fuel : nat) : M S Empty_set :=
  loop fuel (λ _, sched_switch ;; cpu_halt ;; mret (inl tt)) tt.

(** The two bytes are written through the page tables loaded before. *)
Definition create_init_process : M S Z :=
  let program_entry := 0x1000 in
  init ← process_create debug trap_ret process_first_run pid_bitmap (lit "init") program_entry NULL;
  (if init =? NULL then panic "create_init_process: failed to create init process" else mret tt) ;;
  space ← rd64 (p_space init);
  va ← vmm_alloc_at space program_entry 1 PAGE_USER_RO;
  (if va =? NULL then panic "OHH" else mret tt) ;;
  space ← rd64 (p_space init);
  mmu_switch_space paging_load space ;;
  wr8 program_entry 0xeb ;;
  wr8 (program_entry + 1) 0xfe ;;
  mret init.

Definition kmain (fuel : nat) (magic mb_infos_ptr : Z) : M S Empty_set :=
  kmain_checks magic mb_infos_ptr ;;
  interrupts_entry_init tss_addr gdt_addr stack_top_64 idt_vectors idt_addr ;;
  g ← gets boot_g;
  available_pages ← pmm_init kernel_vma_stop (g_mmap g);
  printk (lit "kernel: %u MiB available\n") [BYTE2MB (u64 (available_pages * PAGE_SIZE_IN_BYTES))] ;;
  vmm_init paging_load debug PML4 kernel_vma_start kernel_vma_rw_start kernel_vma_rw_stop kernel_vma_ro_start
    kernel_vma_ro_stop ;;
  kheap_init 1 ;;
  g ← gets boot_g;
  acpi_init lit (g_rsdp g) ;;
  interrupts_init lit hpet fuel ;;
  process_init pid_bitmap scheduled_procs ;;
  sched_start ;;
  schleeeeep fuel.
End kernel.

(** ** The tags as a list *)

(** The tags from address [a] on, as types and sizes, followed by the end tag;
    the type numbers of the specification are below 32. *)
Fixpoint tags_at (m : mem) (a stop : Z) (es : list (Z * Z)) : Prop :=
  a < stop ∧
  match es with
  | [] => load_le 4 m (tag_type a) = Some MULTIBOOT_TAG_TYPE_END
  | (t, sz) :: es' =>
      load_le 4 m (tag_type a) = Some t ∧ load_le 4 m (tag_size a) = Some sz ∧
      t ≠ MULTIBOOT_TAG_TYPE_END ∧ t < 32 ∧ 0 < sz ≤ 2 ^ 32 - 8 ∧ tags_at m (a + 8 * ((sz + 7) / 8)) stop es'
  end.

(** What a round does to the globals. *)
Definition note_tag (a t : Z) (g : boot_globals) : boot_globals :=
  if t =? MULTIBOOT_TAG_TYPE_ACPI_OLD then mk_boot (P2V (old_acpi_rsdp a)) (g_mmap g)
  else if t =? MULTIBOOT_TAG_TYPE_MMAP then mk_boot (g_rsdp g) (P2V a) else g.

(** The globals after the tags: the last tag of a type counts. *)
Fixpoint boot_after (a : Z) (es : list (Z * Z)) (g : boot_globals) : boot_globals :=
  match es with
  | [] => g
  | (t, sz) :: es' =>
      boot_after (a + 8 * ((sz + 7) / 8)) es'
        (note_tag a t g)
  end.

Definition has_tag (t : Z) (es : list (Z * Z)) : Prop := t ∈ es.*1.
Definition tags_present (es : list (Z * Z)) : Prop :=
  has_tag MULTIBOOT_TAG_TYPE_ACPI_OLD es ∧ has_tag MULTIBOOT_TAG_TYPE_MMAP es.
#[export] Instance tags_present_dec es : Decision (tags_present es).
Proof. unfold tags_present, has_tag. apply _. Defined.

(** The bitmap of the types seen. *)
Definition tag_bits (es : list (Z * Z)) (b : Z) : Z := foldl (λ b e, Z.lor b (2 ^ e.1)) b es.

Section lemmas.
Context {CS : CSem} {S : Type} {MS : MemState S} {VG : VgaState S} {BS : BootState S}.
Implicit Types s : S.

Lemma u32_bit_Done n s : 0 ≤ n < 32 → u32_bit n s = Done (2 ^ n, s).
Proof.
  intros Hn. unfold u32_bit. destruct (decide (n = 31)) as [->|Hne]; [done|].
  assert (0 < 2 ^ n < 2 ^ 32) by (split; [lia|apply Z.pow_lt_mono_r; lia]).
  rewrite int_shl1_small by lia. rewrite (bind_Done _ _ s (2 ^ n) s) by done.
  by rewrite u32_small by lia.
Qed.

Lemma tag_bits_testbit es b n : Forall (λ e, 0 ≤ e.1) es → 0 ≤ n →
  Z.testbit (tag_bits es b) n = true ↔ Z.testbit b n = true ∨ has_tag n es.
Proof.
  intros Hes Hn. unfold has_tag. revert b.
  induction es as [|[t sz] es IH]; intros b; cbn [tag_bits foldl fmap list_fmap fst].
  - set_solver.
  - apply Forall_cons in Hes as [Ht Hes]. simpl in Ht. fold (tag_bits es (Z.lor b (2 ^ t))). rewrite IH by done.
    rewrite Z.lor_spec, Z.pow2_bits_eqb, orb_true_iff, Z.eqb_eq, elem_of_cons by done. intuition congruence.
Qed.

Lemma expected_bits b (e := Z.lor (2 ^ MULTIBOOT_TAG_TYPE_ACPI_OLD) (2 ^ MULTIBOOT_TAG_TYPE_MMAP)) :
  Z.land b e = e ↔ Z.testbit b MULTIBOOT_TAG_TYPE_ACPI_OLD = true ∧ Z.testbit b MULTIBOOT_TAG_TYPE_MMAP = true.
Proof.
  split.
  - intros H. split.
    + apply (f_equal (λ x, Z.testbit x 14)) in H. rewrite Z.land_spec in H. revert H.
      change (Z.testbit e 14) with true. by rewrite andb_true_r.
    + apply (f_equal (λ x, Z.testbit x 6)) in H. rewrite Z.land_spec in H. revert H.
      change (Z.testbit e 6) with true. by rewrite andb_true_r.
  - intros [H1 H2]. apply Z.bits_inj'. intros n Hn. rewrite Z.land_spec. unfold e.
    rewrite Z.lor_spec, !Z.pow2_bits_eqb by done.
    destruct (Z.eqb_spec MULTIBOOT_TAG_TYPE_ACPI_OLD n) as [<-|]; [by rewrite H1|].
    destruct (Z.eqb_spec MULTIBOOT_TAG_TYPE_MMAP n) as [<-|]; [by rewrite H2|]. by rewrite andb_false_r.
Qed.

Lemma land_not7 x : 0 ≤ x < 2 ^ 32 → Z.land x (u32 (Z.lnot 7)) = 8 * (x / 8).
Proof.
  intros Hx. change (u32 (Z.lnot 7)) with (Z.shiftl (Z.ones 29) 3).
  replace (8 * (x / 8)) with (Z.shiftl (Z.land (Z.shiftr x 3) (Z.ones 29)) 3).
  - apply Z.bits_inj'. intros n Hn. rewrite Z.land_spec, !Z.shiftl_spec, Z.land_spec by done.
    destruct (Z.le_gt_cases 3 n).
    + rewrite Z.shiftr_spec by lia. by rewrite Z.sub_add.
    + rewrite !(Z.testbit_neg_r _ (n - 3)) by lia. by rewrite andb_false_r.
  - rewrite Z.land_ones, Z.shiftl_mul_pow2, Z.shiftr_div_pow2 by done. change (2 ^ 3) with 8.
    rewrite Z.mod_small by zlia. lia.
Qed.

Lemma next_tag_at a sz : 0 ≤ a → 0 < sz ≤ 2 ^ 32 - 8 → a + 8 * ((sz + 7) / 8) < 2 ^ 64 →
  next_tag a sz = a + 8 * ((sz + 7) / 8).
Proof.
  intros Ha Hsz Hmax. unfold next_tag. rewrite (u32_small (sz + 7)) by lia.
  rewrite land_not7 by lia. apply u64_small. zlia.
Qed.

Lemma set_tag a t s :
  (if t =? MULTIBOOT_TAG_TYPE_ACPI_OLD then set_rsdp (P2V (old_acpi_rsdp a))
   else if t =? MULTIBOOT_TAG_TYPE_MMAP then set_mmap (P2V a) else mret tt) s =
  Done (tt, boot_put (note_tag a t (boot_g s)) s).
Proof.
  unfold note_tag. case_if; [done|]. case_if; [done|]. by rewrite boot_put_g.
Qed.

Lemma read_tag_run stop a t bitmap s : a < stop → load_le 4 (st_mem s) (tag_type a) = Some t → t < 32 →
  read_tag stop a bitmap s =
  (if t =? MULTIBOOT_TAG_TYPE_END then mret (inr (Z.lor bitmap (2 ^ t)))
   else sz ← rd32 (tag_size a); mret (inl (next_tag a sz, Z.lor bitmap (2 ^ t))))
    (boot_put (note_tag a t (boot_g s)) s).
Proof.
  intros Ha Ht H32. pose proof (load_le_range _ _ _ _ Ht) as Hr.
  unfold read_tag. rewrite (proj2 (Z.ltb_lt _ _) Ha).
  rewrite (bind_Done _ _ s t s) by by apply load_Done.
  rewrite (bind_Done _ _ s (2 ^ t) s) by (apply u32_bit_Done; lia). cbv zeta.
  rewrite (bind_Done _ _ s t s) by by apply load_Done.
  rewrite (bind_Done _ _ s _ _ (set_tag a t s)).
  rewrite (bind_Done _ _ _ t (boot_put (note_tag a t (boot_g s)) s)); [done|].
  apply load_Done. by rewrite boot_mem_put.
Qed.

Lemma read_tags_loop stop es : ∀ a fuel bitmap s, 0 ≤ a → stop + 2 ^ 32 ≤ 2 ^ 64 →
  stop - a ≤ 8 * Z.of_nat fuel → tags_at (st_mem s) a stop es →
  loop fuel (λ '(tag, bitmap), read_tag stop tag bitmap) (a, bitmap) s =
    Done (Z.lor (tag_bits es bitmap) 1, boot_put (boot_after a es (boot_g s)) s).
Proof.
  induction es as [|[t sz] es IH]; intros a fuel bitmap s Ha Hstop Hf; cbn [tags_at]; intros [Hlt H];
    (destruct fuel as [|fuel]; [lia|]); rewrite loop_S.
  - erewrite bind_Done; [|by rewrite (read_tag_run _ _ 0)]. done.
  - destruct H as (Ht & Hsz & Hne & H32 & Hszr & Hes).
    set (s1 := boot_put (note_tag a t (boot_g s)) s).
    assert (st_mem s1 = st_mem s) as Hm by apply boot_mem_put.
    assert (next_tag a sz = a + 8 * ((sz + 7) / 8)) as Hnext by (apply next_tag_at; [done|done|zlia]).
    rewrite (bind_Done _ _ s (inl (a + 8 * ((sz + 7) / 8), Z.lor bitmap (2 ^ t))) s1).
    + rewrite IH; [|zlia|done|zlia|by rewrite Hm]. unfold s1. by rewrite boot_g_put, boot_put_put.
    + rewrite (read_tag_run _ _ t) by done. rewrite (proj2 (Z.eqb_neq _ _) Hne). fold s1.
      rewrite (bind_Done _ _ s1 sz s1) by (apply load_Done; by rewrite Hm). by rewrite Hnext.
Qed.

Lemma tags_at_types m stop es : ∀ a, tags_at m a stop es → Forall (λ e, 0 ≤ e.1) es.
Proof.
  induction es as [|[t sz] es IH]; intros a; cbn [tags_at]; [constructor|].
  intros (_ & Ht & _ & _ & _ & _ & Hes). constructor; [|by eapply IH].
  by apply load_le_range in Ht as [? _].
Qed.

Lemma read_tags_run mb size es s : 0 ≤ mb → mb + 8 * size + 2 ^ 32 ≤ 2 ^ 64 →
  load_le 4 (st_mem s) mb = Some size → tags_at (st_mem s) (mb + 8) (mb + 8 * size) es →
  read_tags mb s =
    Done (if decide (tags_present es) then 0 else 1, boot_put (boot_after (mb + 8) es (boot_g s)) s).
Proof.
  intros Hmb Hmax Hsize Hes. pose proof (load_le_range _ _ _ _ Hsize) as Hsr. unfold read_tags.
  rewrite (bind_Done _ _ s size s) by by apply load_Done.
  rewrite (bind_Done _ _ s _ s (u32_bit_Done MULTIBOOT_TAG_TYPE_ACPI_OLD s ltac:(done))).
  rewrite (bind_Done _ _ s _ s (u32_bit_Done MULTIBOOT_TAG_TYPE_MMAP s ltac:(done))). cbv zeta.
  rewrite !u64_small by (unfold MULTIBOOT_TAG_SIZE; lia). change MULTIBOOT_TAG_SIZE with 8.
  rewrite (bind_Done _ _ s _ _ (read_tags_loop (mb + 8 * size) es (mb + 8) (Datatypes.S (Z.to_nat size)) 0 s
    ltac:(lia) ltac:(lia) ltac:(lia) Hes)).
  unfold mret, M_ret. do 3 f_equal. pose proof (tags_at_types _ _ _ _ Hes) as Hty.
  assert (∀ t, 0 < t → Z.testbit (Z.lor (tag_bits es 0) 1) t = true ↔ has_tag t es) as Hbit.
  { intros t Ht. rewrite Z.lor_spec, orb_true_iff, tag_bits_testbit, Z.bits_0 by (done || lia).
    change 1 with (2 ^ 0). rewrite Z.pow2_bits_eqb, Z.eqb_eq by done. intuition (discriminate || lia). }
  destruct (decide (tags_present es)) as [[H1 H2]|Hn].
  - rewrite (proj2 (expected_bits _)); [by rewrite Z.eqb_refl|]. by rewrite !Hbit.
  - case_if; [|done]. bool_facts. exfalso. apply Hn. by rewrite expected_bits, !Hbit in E.
Qed.

Lemma tags_at_ext m m' stop es : ∀ a, (∀ i, i < stop + 8 → m' !! i = m !! i) →
  tags_at m a stop es → tags_at m' a stop es.
Proof.
  intros a Hm. revert a. induction es as [|[t sz] es IH]; intros a; cbn [tags_at]; intros [Hlt H]; (split; [done|]).
  - rewrite <- H. apply load_le_ext. intros i Hi. apply Hm. unfold tag_type in Hi. lia.
  - destruct H as (Ht & Hsz & H). split_and!; [| |tauto..|apply IH; tauto].
    + rewrite <- Ht. apply load_le_ext. intros i Hi. apply Hm. unfold tag_type in Hi. lia.
    + rewrite <- Hsz. apply load_le_ext. intros i Hi. apply Hm. unfold tag_size in Hi. lia.
Qed.

Definition same_boot s s' : Prop := boot_g s' = boot_g s.
#[local] Instance same_boot_preorder : PreOrder same_boot.
Proof. split; [done|]. intros s1 s2 s3. unfold same_boot. congruence. Qed.

Lemma keeps_boot_store n a v : keeps same_boot (store (S := S) n a v).
Proof. unfold store. keeps_auto. apply keeps_modify. intros s. apply boot_g_mem. Qed.

Lemma keeps_boot_reset : keeps same_boot (vga_reset (S := S)).
Proof.
  assert (∀ c, keeps same_boot (modify (S := S) (vga_put c))) as Hput
    by (intros c; apply keeps_modify; intros s; apply boot_g_vga).
  pose proof keeps_boot_store. unfold vga_reset, vga_putchar, wr16. keeps_auto.
Qed.

(** ** The theorems *)

(** [read_tags] walks over a well-formed list of tags up to its end tag,
    remembers the tables of the last tag of each of the two types, and returns 0
    exactly when both types are there. *)
Theorem read_tags_finds mb size es s :
  0 ≤ mb → mb + 8 * size + 2 ^ 32 ≤ 2 ^ 64 →
  load_le 4 (st_mem s) mb = Some size → tags_at (st_mem s) (mb + 8) (mb + 8 * size) es →
  read_tags mb s =
    Done (if decide (tags_present es) then 0 else 1, boot_put (boot_after (mb + 8) es (boot_g s)) s).
Proof. apply read_tags_run. Qed.

(** C20: [kmain] goes on exactly when the boot loader gave the magic number of the
    specification, an address that is a multiple of 8 and both tags; then it has
    the addresses of the two tables, and otherwise the kernel panics. *)
Theorem kmain_checks_boot magic mb size es s :
  screen_ok s → 0 ≤ mb → mb + 8 * size + 2 ^ 32 ≤ VGA_BUFFER_ADDRESS →
  load_le 4 (st_mem s) mb = Some size → tags_at (st_mem s) (mb + 8) (mb + 8 * size) es →
  let valid := magic = MULTIBOOT2_BOOTLOADER_MAGIC ∧ mb mod 8 = 0 ∧ tags_present es in
  (valid → ∃ s', kmain_checks magic mb s = Done (tt, s') ∧ boot_g s' = boot_after (mb + 8) es (boot_g s)) ∧
  (¬ valid → ∃ msg, kmain_checks magic mb s = Faulted (Panicked msg)).
Proof.
  intros Hok Hmb Hmax Hsize Hes. unfold kmain_checks. pose proof (load_le_range _ _ _ _ Hsize) as Hsr.
  assert (∃ s1, vga_reset s = Done (tt, s1) ∧ ∀ a, ¬ on_screen a → st_mem s1 !! a = st_mem s !! a)
    as (s1 & Hrun & Hout) by (apply wp_unit, wp_vga_reset; [done|]; intros s1 _ _ H; exact H).
  rewrite (bind_Done _ _ s tt s1 Hrun).
  assert (∀ i, i < mb + 8 * size + 8 → st_mem s1 !! i = st_mem s !! i) as Hlow
    by (intros i Hi; apply Hout; intros [Hon _]; change (VGA_BUFFER_ADDRESS ≤ i) in Hon; lia).
  assert (boot_g s1 = boot_g s) as Hg by exact (keeps_boot_reset s tt s1 Hrun).
  assert (Z.land mb 7 = mb mod 8) as Hal by exact (Z.land_ones mb 3 ltac:(done)).
  destruct (Z.eqb_spec magic MULTIBOOT2_BOOTLOADER_MAGIC) as [Hmagic|Hmagic]; cbn [negb].
  2: { split; [tauto|]. intros _. by eexists. }
  rewrite (bind_Done _ _ s1 tt s1), Hal by done.
  destruct (Z.eqb_spec (mb mod 8) 0) as [Ha|Ha]; cbn [negb].
  2: { split; [tauto|]. intros _. by eexists. }
  rewrite (bind_Done _ _ s1 tt s1) by done.
  erewrite bind_Done.
  2: { apply (read_tags_run mb size es s1); [done| | |].
       - unfold VGA_BUFFER_ADDRESS in Hmax. change (P2V 753664) with 18446744071562821632 in Hmax. lia.
       - rewrite <- Hsize. apply load_le_ext. intros i Hi. apply Hlow. lia.
       - by apply (tags_at_ext (st_mem s)). }
  rewrite Hg. destruct (decide (tags_present es)) as [Hp|Hp]; cbn [Z.eqb negb].
  - split; [|tauto]. intros _. eexists. split; [done|]. apply boot_g_put.
  - split; [tauto|]. intros _. by eexists.
Qed.
End lemmas.

(** ** Examples *)
Record boot_state : Type := mk_boot_state { bs_vga : vga_state; bs_boot : boot_globals }.
Ltac boot_state_laws := intros; repeat match goal with s : boot_state |- _ => destruct s as [[] ?] end; done.

#[export] Program Instance boot_state_mem : MemState boot_state := {|
  st_mem := st_mem ∘ bs_vga; st_put := λ m s, mk_boot_state (st_put m (bs_vga s)) (bs_boot s);
|}.
Solve All Obligations with boot_state_laws.

#[export] Program Instance boot_state_vga : VgaState boot_state := {|
  vga_cur := vga_cur ∘ bs_vga; vga_put := λ c s, mk_boot_state (vga_put c (bs_vga s)) (bs_boot s);
|}.
Solve All Obligations with boot_state_laws.

#[export] Program Instance boot_state_boot : BootState boot_state := {|
  boot_g := bs_boot; boot_put := λ g s, mk_boot_state (bs_vga s) g;
|}.
Solve All Obligations with boot_state_laws.

(** A module tag of 13 bytes, the memory map and the root pointer, and the end. *)
Definition ex_boot_info : mem :=
  let m := write_le 4 (zero_mem 4096 112) 4096 112 in
  let m := write_le 8 m 4104 (3 + 13 * 2 ^ 32) in
  let m := write_le 8 m 4120 (6 + 40 * 2 ^ 32) in
  let m := write_le 8 m 4160 (14 + 28 * 2 ^ 32) in
  write_le 8 m 4192 (8 * 2 ^ 32).
Definition ex_boot : boot_state :=
  mk_boot_state (mk_vga_state (zero_mem VGA_BUFFER_ADDRESS 4000 ∪ ex_boot_info) (mk_cursor 0 0)) (mk_boot NULL NULL).
Definition ex_tags : list (Z * Z) := [(3, 13); (6, 40); (14, 28)].

Lemma ex_boot_low i : i < 8192 → st_mem ex_boot !! i = ex_boot_info !! i.
Proof.
  intros Hi. change (st_mem ex_boot) with (zero_mem VGA_BUFFER_ADDRESS 4000 ∪ ex_boot_info).
  apply lookup_union_r, zero_mem_lookup_out. change VGA_BUFFER_ADDRESS with 18446744071562821632. lia.
Qed.

Lemma ex_boot_tags : tags_at (st_mem ex_boot) (4096 + 8) (4096 + 8 * 112) ex_tags.
Proof.
  apply (tags_at_ext ex_boot_info); [intros i Hi; apply ex_boot_low; lia|].
  vm_compute. repeat split; discriminate.
Qed.

Lemma ex_boot_size : load_le 4 (st_mem ex_boot) 4096 = Some 112.
Proof.
  rewrite (load_le_ext _ ex_boot_info) by (intros i Hi; apply ex_boot_low; lia). by vm_compute.
Qed.

Lemma ex_tags_present : tags_present ex_tags.
Proof. split; unfold has_tag; set_solver. Qed.

Lemma ex_boot_screen : screen_ok ex_boot.
Proof.
  split; [by split|by split|]. intros i Hi.
  change (st_mem ex_boot) with (zero_mem VGA_BUFFER_ADDRESS 4000 ∪ ex_boot_info).
  rewrite (lookup_union_Some_l _ _ i 0); [by eexists|]. by apply zero_mem_lookup.
Qed.

Lemma read_tags_finds_witness :
  read_tags (CS := strict_c) 4096 ex_boot =
    Done (0, boot_put (mk_boot (P2V 4168) (P2V 4120)) ex_boot).
Proof.
  rewrite (read_tags_finds (CS := strict_c) 4096 112 ex_tags ex_boot);
    [|done|done|apply ex_boot_size|apply ex_boot_tags].
  by rewrite (decide_True _ _ ex_tags_present).
Defined.

Lemma kmain_checks_boot_witness :
  (∃ s', kmain_checks (CS := strict_c) MULTIBOOT2_BOOTLOADER_MAGIC 4096 ex_boot = Done (tt, s') ∧
    boot_g s' = mk_boot (P2V 4168) (P2V 4120)) ∧
  ∃ msg, kmain_checks (CS := strict_c) 0 4096 ex_boot = Faulted (Panicked msg).
Proof.
  split.
  - destruct (kmain_checks_boot (CS := strict_c) MULTIBOOT2_BOOTLOADER_MAGIC 4096 112 ex_tags ex_boot) as [H _];
      [apply ex_boot_screen|done|by vm_compute|apply ex_boot_size|apply ex_boot_tags|].
    apply H. split; [done|]. split; [done|].
    apply ex_tags_present.
  - destruct (kmain_checks_boot (CS := strict_c) 0 4096 112 ex_tags ex_boot) as [_ H];
      [apply ex_boot_screen|done|by vm_compute|apply ex_boot_size|apply ex_boot_tags|].
    apply H. intros [? _]. discriminate.
Defined.
